(* ===== verification/_CoqProject ===== *)
-Q . S2P
Prelude.v
GoErrors.v
Types.v
Failure.v
Text.v
Runtime.v
Trace.v
Observer.v
Scope.v
Dlq.v
Fixtures.v
Settle.v
Records.v
Invoke.v
CoreSpec.v
Lifecycle.v
LifeOps.v
Frames.v
Ids.v
Emit.v
Invokers.v
InvokersSpec.v
Idempotency.v
IdempotencySpec.v
RedisStores.v
RedisStoresSpec.v
TokenBucket.v
TokenBucketSpec.v
Retry.v
RetrySpec.v
CircuitBreaker.v
CircuitBreakerSpec.v
Metrics.v
Prometheus.v
Telemetry.v
MetricsSpec.v
SlogObserver.v
SlogObserverSpec.v
LocalBus.v
LocalBusSched.v
LocalBusSchedSpec.v
LocalBusSpec.v
Nats.v
Jetstream.v
JetstreamFacts.v
JetstreamSpec.v
JetPublish.v
JetPublishSpec.v
History.v
HistorySpec.v
JetDlq.v
Tracer.v
Replayer.v
ReplayerFacts.v
TracerSpec.v
ReplayerSpec.v
Drain.v
DrainFacts.v
DrainSpec.v
NatsCore.v
NatsCoreSpec.v
Subscribing.v
SubscribingSpec.v
BusClose.v
BusCloseSpec.v
JsonRegistry.v
JsonRegistrySpec.v
EndToEnd.v
