(* ===== verification/Prelude.v ===== *)
(** * go-event-bus: verification library

    go-event-bus is an event bus with an in-process transport and transports over
    NATS, for Go programs. This library models the transport-independent core of
    the module (the root package under src/), its invokers (src/invoker/), the
    in-process bus (src/local-bus.go), the JetStream transport with its dead-letter
    stream and replayer (src/jetstream/), the NATS core transport (src/nats/), the
    JSON registry (src/json/), the log observer (src/slog_observer.go), the Prometheus
    and OpenTelemetry observers and the tracing invoker (src/prometheus/,
    src/telemetry/) and the Redis stores (src/redis/), and proves the contract the
    comments and the documentation state for them.

    ** How the program works

    A transport receives an event, builds a context that carries a [Delivery], an
    [Execution], an [Observer] and a fresh [FailureScope], and calls
    [InvokeHandler], which runs the handler inside a chain of invokers (retry,
    circuit breaker, idempotency, rate limit, dead-letter). What the chain returns
    goes to [Settle], the one place that decides whether the message is
    acknowledged, retried or dead-lettered, publishes it to the dead-letter queue,
    and reports the end of the message to the observer once. [Lifecycle] counts
    the work in flight and ends it within a bound. [LocalBus] is the transport
    whose messages never leave the process: it dispatches emits on goroutines
    bounded by slots and a queue. The JetStream bus answers every broker message
    once, publishes events until the stream acknowledges them and keeps dead
    letters in a stream of their own, which the replayer publishes again. The NATS
    core bus sends events and requests, and replies to requests with the reason of
    a failure. Both decode the bytes of a message with a registry of event types,
    whose JSON form upgrades old versions through a chain of upcasters. What the
    buses report goes to observers, as log lines, metrics or span events; spans
    lead from a publish to the run of a handler and from a dead letter to its
    replay.

    ** The model

    A call is a function of a [World] to an outcome and a world (Runtime.v): it
    returns, panics or leaves its goroutine, and [recovering] and [deferring] are
    Go's recover and defer. The world holds the clock, the failure scopes, the
    flags of the observers, the state [U] of the user's code, and the trace of the
    effects that leave the library: signals raised, observers called, dead-letter
    publishes, messages and acknowledgements given to a broker, consumers asked
    for. User code - handlers, observers, event methods, publishers, stores -
    is arbitrary: handlers, publishers and stores are arguments, observers and
    [OnErr] methods are the class [Env]. A theorem names what it needs of them, as
    a relation between worlds they keep ([observers_keep], [quiet],
    [plain_publisher]); Fixtures.v shows a program that has it, with an observer
    that panics. Stateful components outside the world's fields (breakers, the
    memory store, the lifecycle) live at a [Lens] of [U]. A context ends at a time
    that is part of the context and is read against the clock, so that a theorem
    holds for every moment a cancellation or deadline may strike. The NATS client,
    encoding/json, the Prometheus and Redis clients and OpenTelemetry are classes of
    operations ([NatsLib], [Stream], [Broker], [TraceSDK], [OtelSDK],
    [PromClient], [RedisClient], [ScriptClient], [RecordJSON], and that of
    JsonRegistry.v), whose laws say what their documentation says and no more. The Lua
    script of the rate limiter is source, and runs on a [RedisServer]. [TraceSDK] is shared: the
    transports and the replayer make producer spans with it, the tracing invoker
    consumer spans, and [spans_keep] is all the theorems of a transport ask of it.

    Errors are trees ([error], GoErrors.v) with [errors.Is] and [errors.As] as
    traversals; [None] is nil. Times and durations are nanoseconds in [Z]; where
    overflow matters (the backoff, the identifiers) the 64-bit wrap-around is
    written out. A Go string is a [string] of bytes, and Text.v decodes UTF-8.

    Five components are also transition systems, because their contract is about
    interleavings: [Lifecycle.step] for goroutines that admit, release, shut down
    and wait, [LocalBusSched.perform] for the channels of the in-process bus,
    [CircuitBreaker.cb_step] for the concurrent calls of a breaker, [Drain.sh_step]
    for the shutdown protocol the two NATS transports share, and
    [SlogObserver.so_step] for records, timers and flushes of the log observer.
    Their steps are the critical sections and channel operations of the code. BusClose
    follows one caller of [Close] instead: the other goroutines run while it is
    blocked in a select (the class [Scheduler]).

    ** Files

    - Prelude: scopes, tactics, [wrap64], lists, the outcome of a call.
    - GoErrors: errors.go, failure.go, nats/errors.go ([RemoteError]), the error
      types of invoke.go, lifecycle.go and invoker/retry.go.
    - Types: delivery.go, event.go, signals.go, metadata.go (data), observer.go
      (the ten signals); contexts.
    - Failure: failure.go, [Dispose] of settle.go, [OutcomeOf] of scope.go,
      [WrapInterrupted] of lifecycle.go, the classifications of signals.go.
    - Text: [TruncateHeader] of dlq.go over Go's UTF-8 decoding.
    - Runtime, Observer, Scope, Dlq: the effects; observer.go, scope.go, dlq.go
      (records, the bounded publish, the memory queue). Frames: what their
      operations leave as it was.
    - Settle, Invoke: settle.go and invoke.go. Records: what of a settled message is
      in the trace. CoreSpec: their contract.
    - Lifecycle, Ids, Emit: lifecycle.go, id.go, options.go with metadata.go.
      LifeOps: the methods of the lifecycle as calls of the world.
    - Trace: the trace API and the producer span of a publish.
    - Invokers, Idempotency, Retry, CircuitBreaker with a Spec file each:
      src/invoker/. RedisStores, RedisStoresSpec: the idempotency
      store of src/redis/, against the interface of the invoker. TokenBucket,
      TokenBucketSpec: its rate limit store and the script Redis runs for it.
    - LocalBus: the operations of local-bus.go on one goroutine; LocalBusSpec their
      contract. LocalBusSched: the same code as seen by the scheduler;
      LocalBusSchedSpec its contract.
    - History, HistorySpec: history.go and the failure headers of dlq.go.
    - JsonRegistry, JsonRegistrySpec: src/json/registry.go and registry.go. EndToEnd:
      two JetStream buses over it, from an emit to a handler.
    - Nats: the client library the two transports share, as classes. Jetstream:
      from a delivered message to its answer (jetstream/bus.go); JetstreamFacts and
      JetstreamSpec its contract. JetPublish, JetPublishSpec: its emits. JetDlq:
      jetstream/dlq.go. Replayer, ReplayerFacts, ReplayerSpec: jetstream/replayer.go.
    - NatsCore, NatsCoreSpec: publishing, requests and the callbacks of nats/bus.go.
    - Subscribing, SubscribingSpec: how both transports subscribe. Drain, DrainFacts,
      DrainSpec: how both shut down, in every interleaving of the callers. BusClose,
      BusCloseSpec: [Shutdown] and [Close] of all three buses as calls.
    - SlogObserver, SlogObserverSpec: slog_observer.go. Metrics: what the two metric
      observers share, the labels and the order guard of the breaker gauge.
      Prometheus: src/prometheus/observer.go. Telemetry: src/telemetry/observer.go
      and semconv.go. MetricsSpec: the contract of both.
    - Tracer, TracerSpec: src/telemetry/tracer.go.
    - Fixtures: the concrete program of the witnesses.

    ** What the theorems show

    Settlement (CoreSpec, Failure): [Settle] implements [settlement_of], a function
    of the error, the delivery, the interruption and the publish result
    ([Settle_contract]); no message leaves the transport undelivered, unpublished
    and unreported: what a settlement calls dropped or dead-lettered is in the trace
    as a failure of that outcome ([Settle_no_silent_loss]); one failure and one handler
    result per message whatever panics or leaves its goroutine
    ([Settle_reports_once], [handler_done_exactly_once]); totality ([Settle_total]); the disposition table
    and the vocabulary of reasons.

    In-process bus: in every interleaving the slots and the queue stay within their
    bounds ([bus_stays_bounded]), the bus cannot deadlock on its own emits and
    drains ([bus_drains]), every handler of every emit gets exactly one fate, and one is dropped only at a
    step that found the queue full ([no_task_is_lost]); each execution
    is reported once, timeouts are failures and interruptions are not, panics are
    contained, and [EmitSync] returns the failures of the handlers it ran.

    Broker transports: a delivered message is answered once, panics included
    ([one_answer_per_message]), and is ended for good only with its dead letter
    stored or its failure reported ([no_message_ended_unrecorded]); a publish is
    bounded in attempts and repeats one message under one identifier
    ([publish_contract], [Emit_contract]); a stored dead letter comes back from the
    replayer with its subject, bytes and user headers ([dead_letter_roundtrip]), and
    a replay ends ([Replay_ends]) and accounts for every record the consumer handed out
    ([Replay_contract]);
    a request gets one reply ([one_reply_per_request]) and the reason survives the
    wire ([remote_error_roundtrip]); a subscription is on the list that Shutdown
    drains, or is refused, or is stopped because the shutdown began meanwhile
    ([Subscribe_contract]). The result of a shutdown is true,
    within a bound once its context ends ([shutdown_contract],
    [shutdown_is_bounded], [shutdown_completes]); [Close] of each of the three buses
    returns within its timeout and flushes the log observer of the bus ([Close_contract]).

    Wire formats: the history header fits its budget and parses back
    ([history_header_contract]); header values are cut within their limit, valid
    and free of control characters ([TruncateHeader_contract]); decoding an envelope
    always ends in an event or a classified error ([Decode_contract]), runs the
    upcasters in order ([Decode_runs_the_chain]) and undoes the encoding
    ([envelope_roundtrip]); an event one bus emits reaches the handler of another with
    what it was emitted with ([emitted_event_arrives]).

    Invokers: the runs, the error and the history of a retry as functions of what the
    handler returned ([Retry_contract]), and its delays; a legal,
    gap-free, single-probe state machine for every interleaving of a breaker's
    calls, its threshold and its recovery; what an idempotency record decides; the
    dead-letter invoker publishes once; chains nest associatively.

    Lifecycle, emit and reports: exact in-flight accounting, a drain that wakes every
    waiter, interruptions that keep their cause; identifiers strictly increase and
    are well-formed; lineage and headers of an emitted event. The log observer loses
    no record in any interleaving ([log_conservation]) and writes one line and one
    summary for a storm ([storm_is_one_line]).

    Metrics, spans and stores: the breaker gauge shows the latest transition in
    whatever order the observers hear of them ([gauge_follows_breaker]); every vector
    gets one bounded value per declared label ([labels_are_declared]); the
    OpenTelemetry observer, exported, makes the calls of the Prometheus one
    ([observers_agree]); a handler runs in the context of its consumer span, which says
    what it returned and ends once ([tracer_contract]); the links of a replayed message are those the replayer wrote
    ([replay_links_roundtrip]); a Redis record lives as long as its status
    ([redis_record_lifetime]); the script of the rate limiter is an ideal token bucket
    where the burst is not larger than the rate ([Allow_is_ideal]), and in any window
    lets through no more calls than the burst and what the larger of rate and burst
    refills ([rate_is_bounded]), both up to the rounding of its doubles, which is
    bounded by a [2 ^ 50]-th of the burst for each call.

    ** Bounds and fuel

    Four loops run on fuel. [shrink_loop] of the history gets the number of
    attempts it may drop; [upcast_loop] of the registry the versions left to the
    latest, one per iteration; [replay_loop] has no bound in the code, and
    [Replay_ends] gives the fuel that is enough when the replay has a limit or the
    stream drains; [wait_life] of the lifecycle may be woken any number of times, and
    a nanosecond per wake-up until the end of its context is enough, because the
    idle channel of a wait is open when it is selected. The retry loop and the
    publish loops recurse on the attempts left, which the policy and
    [publishAttemptsFinal] bound; the loops over handlers, invokers, subscriptions
    and headers recurse on their lists; the string functions on their strings. The termination of the bus is the measure [work], which every
    action of its own decreases; that of a shutdown the steps left to its caller.

    ** Not modelled

    The lines the log observer's handler prints and the debug lines of the transports,
    help texts and descriptions of metrics, and the client libraries themselves (NATS,
    OpenTelemetry, Prometheus, Redis, encoding/json); of the doubles of the token bucket
    the ends of the exponents, which no run of the script comes near, and the sign of
    a zero. The examples, and the file that only declares the interface of a bus.
    Memory is not modelled: the deep copies of [cloneRecord] are the identity.
    Goroutines that the garbage collector or the process ends are outside the model,
    and so is data the user's code shares with the bus behind its back. Wall clocks
    do not go back inside a [sleep]. *)

From stdpp Require Export base tactics gmap strings list pretty.
From Stdlib Require Export ZArith Lia.

(** ** Scope and notations *)

Declare Scope bus_scope.
Delimit Scope bus_scope with bus.
Global Open Scope Z_scope.
Global Open Scope bus_scope.

(** ** Tactics *)

(** Case analysis on the first [match] or [if] of the goal, keeping the equation. *)
Ltac case_goal :=
  match goal with
  | |- context [match ?x with _ => _ end] => destruct x eqn:?
  end.

(** Case analysis on a [match] or [if] of a hypothesis. *)
Ltac case_hyp H :=
  match type of H with
  | context [match ?x with _ => _ end] => destruct x eqn:?
  end.

(** Turn boolean comparisons of the code into the propositions they decide. *)
Ltac b2p :=
  repeat match goal with
  | H : _ && _ = true |- _ => apply andb_prop in H; destruct H
  | H : _ && _ = false |- _ => apply andb_false_iff in H
  | H : _ || _ = false |- _ => apply orb_false_elim in H; destruct H
  | H : _ || _ = true |- _ => apply orb_prop in H
  | H : negb _ = true |- _ => apply negb_true_iff in H
  | H : negb _ = false |- _ => apply negb_false_iff in H
  | H : (_ <? _)%Z = true |- _ => apply Z.ltb_lt in H
  | H : (_ <? _)%Z = false |- _ => apply Z.ltb_ge in H
  | H : (_ <=? _)%Z = true |- _ => apply Z.leb_le in H
  | H : (_ <=? _)%Z = false |- _ => apply Z.leb_gt in H
  | H : (_ =? _)%Z = true |- _ => apply Z.eqb_eq in H
  | H : (_ =? _)%Z = false |- _ => apply Z.eqb_neq in H
  | H : String.eqb _ _ = true |- _ => apply String.eqb_eq in H
  | H : String.eqb _ _ = false |- _ => apply String.eqb_neq in H
  end.

(** [x == nil]. *)
Definition is_nil {A} (o : option A) : bool := match o with None => true | Some _ => false end.

(** ** Machine integers *)

(** The value of a Go [int64] (and of [int] on a 64-bit platform) after an
    arithmetic operation whose mathematical result is [z]. *)
Definition wrap64 (z : Z) : Z := (z + 2 ^ 63) mod 2 ^ 64 - 2 ^ 63.

Lemma wrap64_id (z : Z) : - 2 ^ 63 <= z < 2 ^ 63 -> wrap64 z = z.
Proof. intros H. unfold wrap64. rewrite Z.mod_small by lia. lia. Qed.

Lemma wrap64_range (z : Z) : - 2 ^ 63 <= wrap64 z < 2 ^ 63.
Proof.
  unfold wrap64. pose proof (Z.mod_pos_bound (z + 2 ^ 63) (2 ^ 64) eq_refl). lia.
Qed.

(** ** Lists *)

(** The first result of [f] along a list: the loop of [errors.As]. *)
Fixpoint first_some {A B : Type} (f : A -> option B) (l : list A) : option B :=
  match l with
  | [] => None
  | x :: r => match f x with Some y => Some y | None => first_some f r end
  end.

(** The last [n] elements of a list. *)
Definition last_n {A : Type} (n : nat) (l : list A) : list A :=
  drop (length l - n) l.

Section lists.
Context {A B : Type}.
Implicit Types (l : list A) (f : A -> option B) (n : nat).

Lemma first_some_app f l1 l2 :
  first_some f (l1 ++ l2) =
  match first_some f l1 with Some y => Some y | None => first_some f l2 end.
Proof. induction l1 as [|x l1 IH]; simpl; [done|]. by destruct (f x). Qed.

Lemma first_some_elem f l y :
  first_some f l = Some y -> exists x, x ∈ l /\ f x = Some y.
Proof.
  induction l as [|x l IH]; simpl; [done|].
  destruct (f x) eqn:E; intros H.
  - exists x. split; [left|congruence].
  - destruct (IH H) as (z & Hz & Hf). exists z. split; [by right|done].
Qed.

Lemma length_filter_map (g : A -> B) (P : B -> Prop) `{!forall y, Decision (P y)} l :
  length (filter P (map g l)) = length (filter (fun x => P (g x)) l).
Proof.
  induction l as [|x l IH]; [done|]. simpl map. rewrite !filter_cons.
  destruct (decide (P (g x))) as [Hp|Hp]; simpl; by rewrite IH.
Qed.

Lemma last_n_length l n : (length (last_n n l) <= n)%nat.
Proof. unfold last_n. rewrite length_drop. lia. Qed.

Lemma last_n_all l n : (length l <= n)%nat -> last_n n l = l.
Proof. intros H. unfold last_n. by replace (length l - n)%nat with 0%nat by lia. Qed.

Lemma last_n_suffix l n : exists p, l = p ++ last_n n l.
Proof. exists (take (length l - n) l). unfold last_n. by rewrite take_drop. Qed.

(** Appending to a list that already holds [n] elements drops the oldest. *)
Lemma last_n_snoc l n x :
  last_n (S n) (l ++ [x]) = last_n n l ++ [x].
Proof.
  unfold last_n. rewrite length_app. simpl.
  replace (length l + 1 - S n)%nat with (length l - n)%nat by lia.
  rewrite drop_app_le by lia. done.
Qed.
End lists.

Create Rewrite HintDb bus_len.
#[export] Hint Rewrite @length_app @length_drop @length_take : bus_len.

(** ** Outcomes of a Go call

    A call returns, panics with a value, or leaves the goroutine through
    [runtime.Goexit]; deferred calls run in the three cases and [recover] stops
    only a panic. *)

Inductive outcome (P A : Type) : Type :=
| Ret (a : A)
| Panicking (v : P)
| Goexit.
Arguments Ret {P A} a.
Arguments Panicking {P A} v.
Arguments Goexit {P A}.
