(* ===== verification/GoErrors.v ===== *)
(** * Error values

    The error values of the program (src/errors.go, src/failure.go,
    src/invoke.go, src/lifecycle.go, src/invoker/retry.go, src/nats/errors.go)
    and the two traversals of Go's [errors] package the program decides with,
    [errors.Is] and [errors.As]. An error is a tree: [unwrap] gives the children
    of a node, [error_tree] the nodes in the pre-order in which Go visits them.
    A Go [error] variable, which may be nil, is a [goerr]. *)

From S2P Require Import Prelude.
Local Open Scope string_scope.
Local Open Scope list_scope.
Local Open Scope Z_scope.

(** ** Identities of package-level error values *)

Inductive sentinel :=
  (* src/errors.go *)
  | ErrUnknownEvent | ErrMalformedEnvelope | ErrMissingUpcaster | ErrUnknownVersion
  (* src/failure.go *)
  | ErrDuplicate | ErrCircuitOpen | ErrRateLimited | ErrSendToDLQ
  | ErrRetriesExhausted | ErrDeadLettered | ErrInProgress | ErrDeadLetterFailed
  (* src/invoke.go *)
  | ErrHandlerPanic | ErrHandlerTimeout
  (* src/lifecycle.go, src/local-bus.go *)
  | ErrBusClosed | ErrShutdownInterrupted | ErrQueueFull
  (* package context *)
  | Canceled | DeadlineExceeded
  (* src/jetstream *)
  | ErrStreamRequired | ErrInvalidConfig | ErrNoEnvelope | ErrReplaySubject
  (* src/nats/errors.go *)
  | ErrRemoteFailure | ErrRemoteDecode | ErrRemoteHandler
  (* an error value of another package or of user code, with its text *)
  | External (name : string).

#[export] Instance sentinel_eq_dec : EqDecision sentinel.
Proof. solve_decision. Defined.

Definition sentinel_text (s : sentinel) : string :=
  match s with
  | ErrUnknownEvent => "event: unknown event"
  | ErrMalformedEnvelope => "event: malformed envelope"
  | ErrMissingUpcaster => "event: missing upcaster"
  | ErrUnknownVersion => "event: unknown event version"
  | ErrDuplicate => "duplicate execution"
  | ErrCircuitOpen => "circuit breaker open"
  | ErrRateLimited => "rate limit exceeded"
  | ErrSendToDLQ => "send to dlq"
  | ErrRetriesExhausted => "event: retries exhausted"
  | ErrDeadLettered => "event: dead-lettered"
  | ErrInProgress => "event: execution in progress"
  | ErrDeadLetterFailed => "event: dead-letter publish failed"
  | ErrHandlerPanic => "event: handler panic"
  | ErrHandlerTimeout => "event: handler timeout"
  | ErrBusClosed => "event: bus closed"
  | ErrShutdownInterrupted => "event: shutdown interrupted"
  | ErrQueueFull => "event: queue full"
  | Canceled => "context canceled"
  | DeadlineExceeded => "context deadline exceeded"
  | ErrStreamRequired => "stream is required for JetStream subscription"
  | ErrInvalidConfig => "eventbus: invalid consumer configuration"
  | ErrNoEnvelope =>
      "jetstream: DLQ record has no envelope bytes and no registry to encode its event"
  | ErrReplaySubject => "jetstream: replay record has no valid target subject"
  | ErrRemoteFailure => "nats: remote failure"
  | ErrRemoteDecode => "nats: remote decode failure"
  | ErrRemoteHandler => "nats: remote handler failure"
  | External n => n
  end.

(** ** Reasons (src/failure.go) *)

Definition ReasonTerminal := "terminal".
Definition ReasonRetriesExhausted := "retries_exhausted".
Definition ReasonDeliveryExhausted := "delivery_exhausted".
Definition ReasonCircuitOpen := "circuit_open".
Definition ReasonRateLimited := "rate_limited".
Definition ReasonUnknownVersion := "unknown_version".
Definition ReasonInProgress := "in_progress".
Definition ReasonDecodeMalformed := "decode_malformed".
Definition ReasonDecodeUnknownEvent := "decode_unknown_event".
Definition ReasonDecodeMissingUpcaster := "decode_missing_upcaster".
Definition ReasonDecodeFailed := "decode_failed".
Definition ReasonDuplicate := "duplicate".
Definition ReasonInterrupted := "interrupted".
Definition ReasonPanic := "panic".
Definition ReasonBusClosed := "bus_closed".
Definition ReasonQueueFull := "queue_full".

(** The constants of the reason block, in its order. *)
Definition reason_vocabulary : list string :=
  [ ReasonTerminal; ReasonRetriesExhausted; ReasonDeliveryExhausted; ReasonCircuitOpen;
    ReasonRateLimited; ReasonUnknownVersion; ReasonInProgress; ReasonDecodeMalformed;
    ReasonDecodeUnknownEvent; ReasonDecodeMissingUpcaster; ReasonDecodeFailed;
    ReasonDuplicate; ReasonInterrupted; ReasonPanic; ReasonBusClosed; ReasonQueueFull ].

(** ** Attempts (src/signals.go) *)

Inductive AttemptClass := AttemptTransient | AttemptTerminal | AttemptTimeout | AttemptPanic.

Definition attempt_class_string (c : AttemptClass) : string :=
  match c with
  | AttemptTransient => "transient"
  | AttemptTerminal => "terminal"
  | AttemptTimeout => "timeout"
  | AttemptPanic => "panic"
  end.

(** Times and durations are nanoseconds. *)
Record Attempt := mkAttempt {
  att_n : Z;
  att_err : string;
  att_class : AttemptClass;
  att_started : Z;
  att_duration : Z;
  att_delay : Z;
}.

(** ** Errors *)

(** A value of Go's type [any] given to [panic]: what [fmt.Sprint] prints for it,
    and the error it is, if it is one. *)
Record any (E : Type) := mkAny { any_text : string; any_error : option E }.
Arguments mkAny {E}.
Arguments any_text {E}.
Arguments any_error {E}.

(** The methods a foreign error type may implement next to [Error] and
    [Unwrap]: [Terminal() bool] and [Retryable() bool], with their results. *)
Record user_methods := mkUser {
  user_text : string;
  user_terminal : option bool;
  user_retryable : option bool;
}.

Inductive error :=
| Sentinel (s : sentinel)
  (* the result of fmt.Errorf with %w verbs, or of errors.Join: text and operands *)
| Wrapped (msg : string) (errs : list error)
| DecodeError (name : string) (version : Z) (err : option error)
| HandlerError (handler : string) (err : option error)
| FailureError (cause : option error) (reason : string) (attempts : Z) (history : list Attempt)
| DeadLetteredError (cause : option error) (reason : string)
| DeadLetterFailedError (cause : option error) (reason : string) (publish_err : option error)
| PanicError (value : any error) (stack : string)
| PermanentError (err : error)
| RetryableError (err : error)
| RemoteError (subject reason message : string)
| UserError (u : user_methods) (unwraps : list error).

(** A variable of type [error]: [None] is nil. *)
Abbreviation goerr := (option error).

Definition of_option (e : goerr) : list error :=
  match e with Some x => [x] | None => [] end.

(** The [Unwrap] methods with more than one result. *)
Definition FailureError_Unwrap (cause : goerr) (reason : string) : list error :=
  of_option cause ++
  (if String.eqb reason ReasonTerminal then [Sentinel ErrSendToDLQ]
   else if String.eqb reason ReasonRetriesExhausted then [Sentinel ErrRetriesExhausted]
   else []).
Definition DeadLetteredError_Unwrap (cause : goerr) : list error :=
  Sentinel ErrDeadLettered :: of_option cause.
Definition DeadLetterFailedError_Unwrap (publish_err cause : goerr) : list error :=
  Sentinel ErrDeadLetterFailed :: of_option publish_err ++ of_option cause.
Arguments FailureError_Unwrap _ _ /.
Arguments DeadLetteredError_Unwrap _ /.
Arguments DeadLetterFailedError_Unwrap _ _ /.

(** The children of an error: its [Unwrap] method. A [PanicError] has none. *)
Definition unwrap (e : error) : list error :=
  match e with
  | Sentinel _ | PanicError _ _ | RemoteError _ _ _ => []
  | Wrapped _ es | UserError _ es => es
  | DecodeError _ _ err | HandlerError _ err => of_option err
  | FailureError cause reason _ _ => FailureError_Unwrap cause reason
  | DeadLetteredError cause _ => DeadLetteredError_Unwrap cause
  | DeadLetterFailedError cause _ publish_err => DeadLetterFailedError_Unwrap publish_err cause
  | PermanentError err | RetryableError err => [err]
  end.

(** The nodes of an error in the order [errors.Is] and [errors.As] visit them:
    the node, then each child's subtree, left to right. *)
Fixpoint error_tree (e : error) : list error :=
  let opt (o : option error) := match o with Some x => error_tree x | None => [] end in
  e ::
  match e with
  | Sentinel _ | PanicError _ _ | RemoteError _ _ _ => []
  | Wrapped _ es | UserError _ es => flat_map error_tree es
  | DecodeError _ _ err | HandlerError _ err => opt err
  | FailureError cause reason _ _ =>
      opt cause ++
      (if String.eqb reason ReasonTerminal then [Sentinel ErrSendToDLQ]
       else if String.eqb reason ReasonRetriesExhausted then [Sentinel ErrRetriesExhausted]
       else [])
  | DeadLetteredError cause _ => Sentinel ErrDeadLettered :: opt cause
  | DeadLetterFailedError cause _ publish_err =>
      Sentinel ErrDeadLetterFailed :: opt publish_err ++ opt cause
  | PermanentError err | RetryableError err => error_tree err
  end.

(** ** The methods of the remote error (src/nats/errors.go) *)

(** [reasonSentinels]. *)
Definition reasonSentinels (reason : string) : option sentinel :=
  if String.eqb reason ReasonTerminal then Some ErrSendToDLQ
  else if String.eqb reason ReasonRetriesExhausted then Some ErrRetriesExhausted
  else if String.eqb reason ReasonCircuitOpen then Some ErrCircuitOpen
  else if String.eqb reason ReasonRateLimited then Some ErrRateLimited
  else if String.eqb reason ReasonInProgress then Some ErrInProgress
  else if String.eqb reason ReasonUnknownVersion then Some ErrUnknownVersion
  else if String.eqb reason ReasonDecodeMalformed then Some ErrMalformedEnvelope
  else if String.eqb reason ReasonDecodeUnknownEvent then Some ErrUnknownEvent
  else if String.eqb reason ReasonDecodeMissingUpcaster then Some ErrMissingUpcaster
  else if String.eqb reason ReasonDuplicate then Some ErrDuplicate
  else if String.eqb reason ReasonPanic then Some ErrHandlerPanic
  else if String.eqb reason ReasonInterrupted then Some ErrShutdownInterrupted
  else None.

(** [RemoteError.isDecode]. *)
Definition isDecode (reason : string) : bool :=
  String.prefix "decode_" reason || String.eqb reason ReasonUnknownVersion.

(** [RemoteError.Is]. *)
Definition RemoteError_Is (reason : string) (target : sentinel) : bool :=
  match target with
  | ErrRemoteFailure => true
  | ErrRemoteDecode => isDecode reason
  | ErrRemoteHandler => negb (isDecode reason)
  | _ => match reasonSentinels reason with
         | Some root => bool_decide (root = target)
         | None => false
         end
  end.

(** [PanicError.Is]. *)
Definition PanicError_Is (target : sentinel) : bool := bool_decide (target = ErrHandlerPanic).

(** ** errors.Is and errors.As *)

(** One step of [errors.Is]: the node equals the target, or says so itself. *)
Definition matches_target (target : sentinel) (e : error) : bool :=
  match e with
  | Sentinel s => bool_decide (s = target)
  | PanicError _ _ => PanicError_Is target
  | RemoteError _ reason _ => RemoteError_Is reason target
  | _ => false
  end.

Definition errors_is (e : error) (target : sentinel) : bool :=
  existsb (matches_target target) (error_tree e).

(** [errors.Is] on a variable: false for nil. *)
Definition Is (e : goerr) (target : sentinel) : bool :=
  match e with Some x => errors_is x target | None => false end.

(** [errors.As] with the type test [p]: the first node of that type. *)
Definition As {A : Type} (p : error -> option A) (e : goerr) : option A :=
  match e with Some x => first_some p (error_tree x) | None => None end.

(** The type tests the program gives to [errors.As]. *)
Definition as_failure (e : error) : option (goerr * string * Z * list Attempt) :=
  match e with FailureError c r a h => Some (c, r, a, h) | _ => None end.
Definition as_dead_lettered (e : error) : option string :=
  match e with DeadLetteredError _ r => Some r | _ => None end.
Definition as_dead_letter_failed (e : error) : option string :=
  match e with DeadLetterFailedError _ r _ => Some r | _ => None end.
Definition as_decode (e : error) : option (string * Z) :=
  match e with DecodeError n v _ => Some (n, v) | _ => None end.
Definition as_panic (e : error) : option (any error * string) :=
  match e with PanicError v s => Some (v, s) | _ => None end.
(** The interface [Terminal() bool]: the first implementation and its result. *)
Definition as_terminal (e : error) : option bool :=
  match e with
  | PanicError _ _ => Some true
  | PermanentError _ => Some true
  | UserError u _ => user_terminal u
  | _ => None
  end.
(** The interface [Retryable() bool]. *)
Definition as_retryable (e : error) : option bool :=
  match e with
  | PermanentError _ => Some false
  | RetryableError _ => Some true
  | UserError u _ => user_retryable u
  | _ => None
  end.

(** ** Texts: the Error methods

    Each takes the text of the errors it prints, [None] for a nil one. *)

Definition causeText (err : option string) : string := default "unknown error" err.

Definition DecodeError_Error (name : string) (version : Z) (err : option string) : string :=
  if negb (String.eqb name "")
  then "event: decode " +:+ name +:+ " v" +:+ pretty version +:+ ": " +:+ causeText err
  else "event: decode: " +:+ causeText err.
Definition HandlerError_Error (handler : string) (err : option string) : string :=
  "event: handler " +:+ handler +:+ ": " +:+ causeText err.
Definition FailureError_Error (reason : string) (cause : option string) : string :=
  "event: " +:+ (if String.eqb reason "" then "failed" else reason) +:+ ": " +:+ causeText cause.
Definition DeadLetteredError_Error (reason : string) (cause : option string) : string :=
  sentinel_text ErrDeadLettered +:+ " (" +:+ reason +:+ "): " +:+ causeText cause.
Definition DeadLetterFailedError_Error (reason : string) (publish_err cause : option string) : string :=
  sentinel_text ErrDeadLetterFailed +:+ " (" +:+ reason +:+ "): " +:+ causeText publish_err
    +:+ "; cause: " +:+ causeText cause.
Definition PanicError_Error (value : string) : string := "event: handler panic: " +:+ value.
Definition RemoteError_Error (subject reason message : string) : string :=
  let s := "nats: remote failure on " +:+ subject +:+ ": " +:+ reason in
  if negb (String.eqb message "") then s +:+ ": " +:+ message else s.

Fixpoint error_text (e : error) : string :=
  let text (o : option error) := match o with Some x => Some (error_text x) | None => None end in
  match e with
  | Sentinel s => sentinel_text s
  | Wrapped msg _ => msg
  | DecodeError name version err => DecodeError_Error name version (text err)
  | HandlerError handler err => HandlerError_Error handler (text err)
  | FailureError cause reason _ _ => FailureError_Error reason (text cause)
  | DeadLetteredError cause reason => DeadLetteredError_Error reason (text cause)
  | DeadLetterFailedError cause reason publish_err =>
      DeadLetterFailedError_Error reason (text publish_err) (text cause)
  | PanicError value _ => PanicError_Error (any_text value)
  | PermanentError err | RetryableError err => error_text err
  | RemoteError subject reason message => RemoteError_Error subject reason message
  | UserError u _ => user_text u
  end.

(** [fmt.Errorf("%w: %w", a, b)]. *)
Definition wrap2 (a b : error) : error :=
  Wrapped (error_text a +:+ ": " +:+ error_text b) [a; b].

(** [errors.Join]: nil operands are dropped, and nil joins to nil. The text is one
    operand per line. *)
Definition join (errs : list goerr) : goerr :=
  match omap id errs with
  | [] => None
  | es => Some (Wrapped (String.concat (String (Ascii.ascii_of_nat 10) "") (map error_text es)) es)
  end.

(** ** Facts *)

Lemma error_tree_unwrap (e : error) : error_tree e = e :: flat_map error_tree (unwrap e).
Proof.
  destruct e; try destruct err; try destruct cause; try destruct publish_err; simpl;
    rewrite ?app_nil_r; try done;
    repeat case_match; simpl; rewrite ?app_nil_r; done.
Qed.

(** [errors.Is] holds of a node or of one of its children's trees: the recursive
    reading of the Go loop. *)
Lemma errors_is_unwrap (e : error) (t : sentinel) :
  errors_is e t = matches_target t e || existsb (fun c => errors_is c t) (unwrap e).
Proof.
  unfold errors_is. rewrite error_tree_unwrap. simpl. f_equal.
  induction (unwrap e) as [|c cs IH]; simpl; [done|].
  by rewrite existsb_app, IH.
Qed.

Lemma first_some_unwrap {A} (p : error -> option A) (e : error) :
  first_some p (error_tree e) =
  match p e with
  | Some x => Some x
  | None => first_some p (flat_map error_tree (unwrap e))
  end.
Proof. by rewrite error_tree_unwrap. Qed.

Lemma errors_is_sentinel (s t : sentinel) :
  errors_is (Sentinel s) t = bool_decide (s = t).
Proof. unfold errors_is. simpl. by rewrite orb_false_r. Qed.

(** The constructors the pipeline wraps causes with. *)
Section constructors.
Implicit Types (c p : goerr) (r : string) (t : sentinel).

Ltac by_unwrap :=
  unfold Is; rewrite errors_is_unwrap; simpl;
  repeat (rewrite ?errors_is_sentinel, ?orb_false_r, ?orb_assoc; simpl).

Lemma is_dead_lettered c r t :
  Is (Some (DeadLetteredError c r)) t = bool_decide (ErrDeadLettered = t) || Is c t.
Proof. by destruct c; by_unwrap. Qed.

Lemma is_dead_letter_failed c r p t :
  Is (Some (DeadLetterFailedError c r p)) t =
  bool_decide (ErrDeadLetterFailed = t) || Is p t || Is c t.
Proof. by destruct c, p; by_unwrap. Qed.

Lemma is_failure c r a h t :
  Is (Some (FailureError c r a h)) t =
  Is c t ||
  (if String.eqb r ReasonTerminal then bool_decide (ErrSendToDLQ = t)
   else if String.eqb r ReasonRetriesExhausted then bool_decide (ErrRetriesExhausted = t)
   else false).
Proof.
  by_unwrap. destruct c; repeat case_match; simpl;
    rewrite ?errors_is_sentinel, ?orb_false_r; done.
Qed.

Lemma is_panic v s t : Is (Some (PanicError v s)) t = bool_decide (t = ErrHandlerPanic).
Proof. by by_unwrap. Qed.

Lemma is_wrap2 a b t : Is (Some (wrap2 a b)) t = errors_is a t || errors_is b t.
Proof. by by_unwrap. Qed.

Lemma is_sentinel s t : Is (Some (Sentinel s)) t = bool_decide (s = t).
Proof. apply errors_is_sentinel. Qed.
End constructors.

Create Rewrite HintDb goerr.
#[export] Hint Rewrite is_dead_lettered is_dead_letter_failed is_failure is_panic
  is_wrap2 is_sentinel : goerr.
