(* ===== verification/Types.v ===== *)
(** * Data of the event bus

    The data types of the root package: deliveries, executions and metadata
    (src/delivery.go, src/metadata.go), the optional interfaces of an event
    (src/event.go), dispositions and outcomes (src/settle.go, src/signals.go),
    dead-letter records (src/dlq.go), the observer signals (src/signals.go), the
    observer values a context carries (src/observer.go) and the context itself.

    Times are nanoseconds since the Unix epoch, durations nanoseconds. Byte
    slices are strings; where the code distinguishes a nil slice or map from an
    empty one the field is an option. *)

From S2P Require Import Prelude GoErrors.
Local Open Scope string_scope.
Local Open Scope list_scope.
Local Open Scope Z_scope.

(** ** Delivery, execution, metadata *)

Record Delivery := mkDelivery {
  d_count : Z;
  d_max : Z;
  d_subject : string;
  d_raw : option string;
  d_headers : option (gmap string (list string));
  d_stream : string;
  d_consumer : string;
  d_stream_seq : Z;
  d_published_at : Z;
  d_system : string;
}.

(** The zero [time.Time], 1 January of year 1. *)
Definition zero_time : Z := -62135596800 * 10 ^ 9.
Definition IsZero (t : Z) : bool := t =? zero_time.

Definition zero_delivery : Delivery :=
  mkDelivery 0 0 "" None None "" "" 0 zero_time "".

(** [Delivery{Count: 1, Max: 1}], the delivery of a context that carries none. *)
Definition single_delivery : Delivery :=
  mkDelivery 1 1 "" None None "" "" 0 zero_time "".

(** [Delivery.Final]. *)
Definition Final (d : Delivery) : bool := (0 <? d_max d) && (d_max d <=? d_count d).

(** [redactDelivery]. *)
Definition redactDelivery (d : Delivery) : Delivery :=
  mkDelivery (d_count d) (d_max d) (d_subject d) None (d_headers d) (d_stream d)
    (d_consumer d) (d_stream_seq d) (d_published_at d) (d_system d).

Record Execution := mkExecution { x_handler : string; x_started_at : Z }.

Definition zero_execution : Execution := mkExecution "" zero_time.

Record Metadata := mkMetadata {
  md_id : string;
  md_correlation_id : string;
  md_causation_id : string;
  md_name : string;
  md_version : Z;
  md_timestamp : Z;
  md_headers : option (gmap string string);
}.

Definition zero_metadata : Metadata := mkMetadata "" "" "" "" 0 zero_time None.

(** ** Events

    An event is known through the interfaces it implements. [ev_name_panics]
    says that its [Name] method panics; [ev_id], [ev_version], [ev_idem_key] and
    [ev_rate_key] hold the results of the optional methods [Id], [Version],
    [IdempotencyKey] and [RateLimitKey], [None] when the event has no such
    method; [ev_onerr] names the behaviour of its [OnErr] method. [ev_payload]
    is what [json.Marshal] makes of the event, [None] when it fails. *)
Record Event := mkEvent {
  ev_name : string;
  ev_name_panics : bool;
  ev_id : option string;
  ev_version : option Z;
  ev_idem_key : option string;
  ev_rate_key : option string;
  ev_onerr : option nat;
  ev_payload : option string;
}.

(** An event with a name and nothing else. *)
Definition plain_event (name : string) : Event :=
  mkEvent name false None None None None None (Some "{}").

(** ** Dispositions and outcomes *)

(** [Disposition]; the zero value of the Go type is [DispositionInvalid]. *)
Inductive Disposition :=
| DispositionInvalid
| DispositionAck
| DispositionRetry
| DispositionRetryDelayed
| DispositionTerminal.

#[export] Instance Disposition_eq_dec : EqDecision Disposition.
Proof. solve_decision. Defined.

(** [Disposition.String]. *)
Definition Disposition_String (d : Disposition) : string :=
  match d with
  | DispositionAck => "ack"
  | DispositionRetry => "retry"
  | DispositionRetryDelayed => "retry_delayed"
  | DispositionTerminal => "terminal"
  | DispositionInvalid => "unknown"
  end.

Inductive Outcome :=
| OutcomeDeadLettered | OutcomeDLQPublishFailed | OutcomeDropped | OutcomeInterrupted
| OutcomeRejected | OutcomeOK | OutcomeRetry | OutcomeDuplicate | OutcomeInProgress
| OutcomeRateLimited | OutcomeCircuitOpen | OutcomeFailed | OutcomeDecodeFailed.

#[export] Instance Outcome_eq_dec : EqDecision Outcome.
Proof. solve_decision. Defined.

Definition outcome_string (o : Outcome) : string :=
  match o with
  | OutcomeDeadLettered => "dead_lettered"
  | OutcomeDLQPublishFailed => "dlq_publish_failed"
  | OutcomeDropped => "dropped"
  | OutcomeInterrupted => "interrupted"
  | OutcomeRejected => "rejected"
  | OutcomeOK => "ok"
  | OutcomeRetry => "retry"
  | OutcomeDuplicate => "duplicate"
  | OutcomeInProgress => "in_progress"
  | OutcomeRateLimited => "rate_limited"
  | OutcomeCircuitOpen => "circuit_open"
  | OutcomeFailed => "failed"
  | OutcomeDecodeFailed => "decode_failed"
  end.

(** ** Closed vocabularies of the signals *)

(** [BreakerNone] is the empty string: no breaker ran. *)
Inductive BreakerState := BreakerNone | BreakerClosed | BreakerOpen | BreakerHalfOpen.

#[export] Instance BreakerState_eq_dec : EqDecision BreakerState.
Proof. solve_decision. Defined.

Inductive BreakerReason :=
| BreakerReasonFailureThreshold
| BreakerReasonOpenTimeoutElapsed
| BreakerReasonProbeSucceeded
| BreakerReasonProbeFailed.

(** The strings of the two vocabularies. *)
Definition breaker_string (s : BreakerState) : string :=
  match s with
  | BreakerNone => ""
  | BreakerClosed => "closed"
  | BreakerOpen => "open"
  | BreakerHalfOpen => "half_open"
  end.
Definition breaker_reason_string (r : BreakerReason) : string :=
  match r with
  | BreakerReasonFailureThreshold => "failure_threshold"
  | BreakerReasonOpenTimeoutElapsed => "open_timeout_elapsed"
  | BreakerReasonProbeSucceeded => "probe_succeeded"
  | BreakerReasonProbeFailed => "probe_failed"
  end.

Inductive FailingInvoker :=
| InvokerRetry | InvokerCircuitBreaker | InvokerDLQ | InvokerTransport.

Definition ComponentTransport := "transport".
Definition ComponentCircuitBreaker := "circuit_breaker".
Definition ComponentEvent := "event".

Definition OpConsume := "consume".
Definition OpAck := "ack".
Definition OpNak := "nak".
Definition OpTerm := "term".
Definition OpReply := "reply".
Definition OpEncodeReply := "encode_reply".
Definition OpPanic := "panic".
Definition OpUnsubscribe := "unsubscribe".
Definition OpDrain := "drain".

(** ** Signals *)

Record RetryAttemptInfo := mkRetryAttempt {
  ra_handler : string; ra_event : string; ra_attempt : Z; ra_class : AttemptClass;
  ra_err : goerr; ra_delay : Z; ra_at : Z;
}.

Record BreakerTransition := mkBreakerTransition {
  bt_handler : string; bt_from : BreakerState; bt_to : BreakerState;
  bt_reason : BreakerReason; bt_failures : Z; bt_at : Z; bt_seq : Z; bt_breaker_id : Z;
}.

Record FailureContext := mkFailureContext {
  fc_handler : string; fc_event : option Event; fc_metadata : Metadata;
  fc_outcome : Outcome; fc_reason : string; fc_cause : goerr;
  fc_invoker : FailingInvoker; fc_attempts : Z; fc_delivery : Delivery;
  fc_breaker : BreakerState; fc_history : list Attempt; fc_at : Z;
}.

Record DeadLetterInfo := mkDeadLetterInfo {
  dl_handler : string; dl_event : string; dl_reason : string; dl_subject : string;
  dl_attempts : Z; dl_delivery : Delivery; dl_size : Z; dl_at : Z;
}.

Record HandlerResult := mkHandlerResult {
  hr_handler : string; hr_event : string; hr_outcome : Outcome;
  hr_duration : Z; hr_err : goerr; hr_at : Z;
}.

Record DecodeFailure := mkDecodeFailure {
  df_handler : string; df_subject : string; df_reason : string; df_err : goerr;
  df_delivery : Delivery; df_final : bool;
}.

Record DLQPublishFailure := mkDLQPublishFailure {
  pf_handler : string; pf_event : string; pf_reason : string; pf_subject : string;
  pf_attempts : Z; pf_err : goerr; pf_delivery : Delivery; pf_final : bool;
}.

Record StoreErrorInfo := mkStoreErrorInfo {
  se_handler : string; se_event : string; se_store : string; se_op : string; se_err : goerr;
}.

Record IdempotencyStaleInfo := mkIdempotencyStaleInfo {
  is_handler : string; is_event : string; is_age : Z;
}.

Record InternalErrorInfo := mkInternalErrorInfo {
  ie_component : string; ie_op : string; ie_handler : string; ie_subject : string;
  ie_err : goerr;
}.

(** One call of an [Observer] method, with its argument. *)
Inductive signal :=
| SRetryAttempt (i : RetryAttemptInfo)
| SBreakerTransition (t : BreakerTransition)
| SFailure (f : FailureContext)
| SDeadLettered (i : DeadLetterInfo)
| SHandlerDone (r : HandlerResult)
| SDecodeFailed (f : DecodeFailure)
| SDLQPublishFailed (f : DLQPublishFailure)
| SStoreError (e : StoreErrorInfo)
| SIdempotencyStale (s : IdempotencyStaleInfo)
| SInternalError (e : InternalErrorInfo).

(** The method indexes [obsRetryAttempt] ... [obsInternalError]. *)
Definition method_index (s : signal) : nat :=
  match s with
  | SRetryAttempt _ => 0
  | SBreakerTransition _ => 1
  | SFailure _ => 2
  | SDeadLettered _ => 3
  | SHandlerDone _ => 4
  | SDecodeFailed _ => 5
  | SDLQPublishFailed _ => 6
  | SStoreError _ => 7
  | SIdempotencyStale _ => 8
  | SInternalError _ => 9
  end.

(** ** Dead-letter records *)

Record DLQRecord := mkDLQRecord {
  rec_raw : option string;
  rec_headers : option (gmap string (list string));
  rec_evt : option Event;
  rec_event_id : string;
  rec_event_name : string;
  rec_cause : goerr;
  rec_reason : string;
  rec_handler : string;
  rec_subject : string;
  rec_attempts : Z;
  rec_delivery : Delivery;
  rec_execution : Execution;
  rec_failed_at : Z;
  rec_history : list Attempt;
}.

(** ** What a consumer may do to a broker message

    The acknowledgement methods of a JetStream message. *)
Inductive BrokerAction :=
| MsgAck
| MsgNak
| MsgNakWithDelay (delay : Z)
| MsgTermWithReason (reason : string).

(** [jetstream.ConsumerConfig], the fields a subscription sets; [cc_ack_explicit] is
    [AckPolicy: AckExplicitPolicy]. *)
Record ConsumerConfig := mkConsumerConfig {
  cc_name : string;
  cc_durable : string;
  cc_ack_explicit : bool;
  cc_filter_subject : string;
  cc_max_deliver : Z;
  cc_backoff : list Z;
}.

(** ** Messages to a broker

    [nats.Msg]: the subject, the header map and the payload. *)
Abbreviation Header := (gmap string (list string)).
Record NatsMsg := mkNatsMsg {
  nm_subject : string;
  nm_header : Header;
  nm_data : option string;
}.

(** ** Observers

    [RawObserver id] is an observer of the user, whose behaviour is a parameter
    of the model. [Multi] is a [*multiObserver] and its children, [None] for a
    nil pointer; a child is known by the identity of its [observerChild], which
    owns its flags. [Guard] is the JetStream [guardObserver]. *)
Inductive observer :=
| NopObserver
| NopObserverPtr
| RawObserver (id : nat)
| Guard (g : nat) (inner : observer)
| Multi (children : option (list (nat * observer))).

(** ** Contexts

    A [context.Context] is its values and its cancellation. [cx_done] says when
    the context becomes done, and with which error and cause: it is a schedule
    read against the clock, so that every theorem holds whatever the moment a
    context ends at. [cx_scope] and [cx_life] name the [FailureScope] and the
    [Lifecycle] the context carries, [cx_span] the trace span that is active in it. *)
Record done_info := mkDone { done_at : Z; done_err : sentinel; done_cause : error }.

Record Ctx := mkCtx {
  cx_done : option done_info;
  cx_deadline : option Z;
  cx_metadata : option Metadata;
  cx_delivery : option Delivery;
  cx_execution : option Execution;
  cx_scope : option nat;
  cx_observer : option observer;
  cx_life : option nat;
  cx_span : option nat;
}.

Definition background : Ctx := mkCtx None None None None None None None None None.

(** [ctx.Err()] at time [now]. *)
Definition ctx_err (now : Z) (c : Ctx) : goerr :=
  match cx_done c with
  | Some d => if done_at d <=? now then Some (Sentinel (done_err d)) else None
  | None => None
  end.

(** [context.Cause(ctx)] at time [now]. *)
Definition ctx_cause (now : Z) (c : Ctx) : goerr :=
  match cx_done c with
  | Some d => if done_at d <=? now then Some (done_cause d) else None
  | None => None
  end.

(** Of two cancellations the earlier one wins. *)
Definition earlier (a b : option done_info) : option done_info :=
  match a, b with
  | Some x, Some y => if done_at y <? done_at x then Some y else Some x
  | Some x, None => Some x
  | None, y => y
  end.

(** [context.WithoutCancel]. *)
Definition WithoutCancel (c : Ctx) : Ctx :=
  mkCtx None None (cx_metadata c) (cx_delivery c) (cx_execution c) (cx_scope c)
    (cx_observer c) (cx_life c) (cx_span c).

(** A child context that also ends as [d] says. *)
Definition cancelled_by (d : option done_info) (c : Ctx) : Ctx :=
  mkCtx (earlier (cx_done c) d) (cx_deadline c) (cx_metadata c) (cx_delivery c)
    (cx_execution c) (cx_scope c) (cx_observer c) (cx_life c) (cx_span c).

(** [context.WithTimeoutCause]: the deadline is never moved later. *)
Definition WithTimeoutCause (now timeout : Z) (cause : error) (c : Ctx) : Ctx :=
  let at_ := now + timeout in
  match cx_deadline c with
  | Some dl => if dl <? at_ then c else
      mkCtx (earlier (cx_done c) (Some (mkDone at_ DeadlineExceeded cause))) (Some at_)
        (cx_metadata c) (cx_delivery c) (cx_execution c) (cx_scope c) (cx_observer c) (cx_life c)
        (cx_span c)
  | None =>
      mkCtx (earlier (cx_done c) (Some (mkDone at_ DeadlineExceeded cause))) (Some at_)
        (cx_metadata c) (cx_delivery c) (cx_execution c) (cx_scope c) (cx_observer c) (cx_life c)
        (cx_span c)
  end.

(** [context.WithValue] under the keys of the program. *)
Definition WithDelivery (c : Ctx) (d : Delivery) : Ctx :=
  mkCtx (cx_done c) (cx_deadline c) (cx_metadata c) (Some d) (cx_execution c) (cx_scope c)
    (cx_observer c) (cx_life c) (cx_span c).
Definition WithExecution (c : Ctx) (x : Execution) : Ctx :=
  mkCtx (cx_done c) (cx_deadline c) (cx_metadata c) (cx_delivery c) (Some x) (cx_scope c)
    (cx_observer c) (cx_life c) (cx_span c).
Definition WithMetadata (c : Ctx) (md : Metadata) : Ctx :=
  mkCtx (cx_done c) (cx_deadline c) (Some md) (cx_delivery c) (cx_execution c) (cx_scope c)
    (cx_observer c) (cx_life c) (cx_span c).
Definition with_scope (c : Ctx) (s : nat) : Ctx :=
  mkCtx (cx_done c) (cx_deadline c) (cx_metadata c) (cx_delivery c) (cx_execution c) (Some s)
    (cx_observer c) (cx_life c) (cx_span c).
Definition with_observer (c : Ctx) (o : observer) : Ctx :=
  mkCtx (cx_done c) (cx_deadline c) (cx_metadata c) (cx_delivery c) (cx_execution c) (cx_scope c)
    (Some o) (cx_life c) (cx_span c).
Definition with_life (c : Ctx) (l : nat) : Ctx :=
  mkCtx (cx_done c) (cx_deadline c) (cx_metadata c) (cx_delivery c) (cx_execution c) (cx_scope c)
    (cx_observer c) (Some l) (cx_span c).
(** [trace.ContextWithSpan]; a span is known by its identity. *)
Definition with_span (c : Ctx) (sp : nat) : Ctx :=
  mkCtx (cx_done c) (cx_deadline c) (cx_metadata c) (cx_delivery c) (cx_execution c) (cx_scope c)
    (cx_observer c) (cx_life c) (Some sp).

(** [DeliveryFromContext], [ExecutionFromContext], [MetadataFromContext]: the value
    and whether the context carries one. *)
Definition DeliveryFromContext (c : Ctx) : Delivery * bool :=
  match cx_delivery c with Some d => (d, true) | None => (zero_delivery, false) end.
Definition ExecutionFromContext (c : Ctx) : Execution * bool :=
  match cx_execution c with Some x => (x, true) | None => (zero_execution, false) end.
Definition MetadataFromContext (c : Ctx) : Metadata * bool :=
  match cx_metadata c with Some md => (md, true) | None => (zero_metadata, false) end.

(** The pattern [d, ok := DeliveryFromContext(ctx); if !ok { d = Delivery{Count: 1, Max: 1} }]. *)
Definition delivery_or_single (c : Ctx) : Delivery :=
  let '(d, ok) := DeliveryFromContext c in if ok then d else single_delivery.

(** ** Facts *)

Lemma Final_single : Final single_delivery = true.
Proof. done. Qed.

Lemma Final_true (d : Delivery) : Final d = true <-> 0 < d_max d <= d_count d.
Proof. unfold Final. rewrite andb_true_iff, Z.ltb_lt, Z.leb_le. lia. Qed.

Lemma Final_redact (d : Delivery) : Final (redactDelivery d) = Final d.
Proof. done. Qed.

(** A context that is done stays done, with the same error and cause. *)
Lemma ctx_err_mono (t1 t2 : Z) (c : Ctx) (e : error) :
  t1 <= t2 -> ctx_err t1 c = Some e -> ctx_err t2 c = Some e.
Proof.
  unfold ctx_err. destruct (cx_done c) as [d|]; [|done].
  intros Ht. destruct (Z.leb_spec (done_at d) t1); [|done].
  by destruct (Z.leb_spec (done_at d) t2); [|lia].
Qed.
