(* ===== verification/Failure.v ===== *)
(** * The failure contract

    The pure decisions every transport shares: the stable reason of an error
    (src/failure.go), its disposition (src/settle.go), the outcome of a handler
    run (src/scope.go), the failing invoker and the class of an attempt
    (src/signals.go) and the shutdown wrapping of a context error
    (src/lifecycle.go). *)

From S2P Require Import Prelude GoErrors Types.
Local Open Scope string_scope.
Local Open Scope list_scope.
Local Open Scope Z_scope.

(** ** src/failure.go *)

Definition isDecodeError (err : goerr) : bool :=
  match As as_decode err with Some _ => true | None => false end.

Definition isTerminal (err : goerr) : bool :=
  if Is err ErrSendToDLQ then true
  else match As as_terminal err with Some t => t | None => false end.

(** [ReasonOf]. *)
Definition ReasonOf (err : goerr) : string :=
  let by_sentinel :=
    if Is err ErrDuplicate then ReasonDuplicate
    else if Is err ErrBusClosed then ReasonBusClosed
    else if Is err ErrQueueFull then ReasonQueueFull
    else if Is err ErrShutdownInterrupted then ReasonInterrupted
    else if isTerminal err then ReasonTerminal
    else if Is err ErrUnknownVersion then ReasonUnknownVersion
    else if Is err ErrCircuitOpen then ReasonCircuitOpen
    else if Is err ErrRateLimited then ReasonRateLimited
    else if Is err ErrInProgress then ReasonInProgress
    else if Is err ErrMalformedEnvelope then ReasonDecodeMalformed
    else if Is err ErrUnknownEvent then ReasonDecodeUnknownEvent
    else if Is err ErrMissingUpcaster then ReasonDecodeMissingUpcaster
    else if isDecodeError err then ReasonDecodeFailed
    else if Is err ErrRetriesExhausted then ReasonRetriesExhausted
    else ReasonDeliveryExhausted in
  let by_failure :=
    match As as_failure err with
    | Some (_, reason, _, _) => if negb (String.eqb reason "") then reason else by_sentinel
    | None => by_sentinel
    end in
  let by_dead_letter_failed :=
    match As as_dead_letter_failed err with
    | Some reason => if negb (String.eqb reason "") then reason else by_failure
    | None => by_failure
    end in
  match err with
  | None => ""
  | Some _ =>
      if Is err ErrHandlerPanic then ReasonPanic
      else match As as_dead_lettered err with
           | Some reason =>
               if negb (String.eqb reason "") then reason else by_dead_letter_failed
           | None => by_dead_letter_failed
           end
  end.

(** The reasons for which the handler never ran. *)
Definition never_ran (reason : string) : bool :=
  existsb (String.eqb reason)
    [ ReasonCircuitOpen; ReasonRateLimited; ReasonInProgress; ReasonUnknownVersion;
      ReasonDuplicate; ReasonDecodeMalformed; ReasonDecodeUnknownEvent;
      ReasonDecodeMissingUpcaster; ReasonDecodeFailed ].

(** [AttemptsOf]. *)
Definition AttemptsOf (err : goerr) : Z :=
  match err with
  | None => 0
  | Some _ =>
      match As as_failure err with
      | Some (_, _, attempts, _) => attempts
      | None => if never_ran (ReasonOf err) then 0 else 1
      end
  end.

(** The [History] of the first [FailureError] of the tree, when it has one. *)
Definition history_of (err : goerr) : list Attempt :=
  match As as_failure err with Some (_, _, _, h) => h | None => [] end.

(** A context error. *)
Definition is_ctx_error (err : goerr) : bool := Is err Canceled || Is err DeadlineExceeded.

(** [IsInterrupted] at time [now]. *)
Definition IsInterrupted (now : Z) (ctx : option Ctx) (err : goerr) : bool :=
  match ctx, err with
  | Some c, Some _ => match ctx_err now c with Some _ => is_ctx_error err | None => false end
  | _, _ => false
  end.

(** [WrapDecodeError]. *)
Definition WrapDecodeError (err : goerr) : goerr :=
  match err with
  | None => None
  | Some _ => if isDecodeError err then err else Some (DecodeError "" 0 err)
  end.

(** ** src/lifecycle.go *)

(** [WrapInterrupted] at time [now]. *)
Definition WrapInterrupted (now : Z) (ctx : Ctx) (err : goerr) : goerr :=
  match err with
  | None => None
  | Some e =>
      if Is err ErrShutdownInterrupted then err
      else if negb (Is err Canceled) && negb (Is err DeadlineExceeded) then err
      else if negb (Is (ctx_cause now ctx) ErrShutdownInterrupted) then err
      else Some (wrap2 (Sentinel ErrShutdownInterrupted) e)
  end.

(** ** src/settle.go: the disposition *)

Definition retryUnlessFinal (d : Delivery) : Disposition :=
  if Final d then DispositionTerminal else DispositionRetryDelayed.

(** [Dispose]. *)
Definition Dispose (err : goerr) (d : Delivery) : Disposition :=
  if (match err with None => true | Some _ => false end)
     || Is err ErrDuplicate || Is err ErrDeadLettered then DispositionAck
  else if Is err ErrDeadLetterFailed then DispositionRetryDelayed
  else if Is err ErrHandlerPanic then DispositionTerminal
  else if isTerminal err then DispositionTerminal
  else if Is err ErrUnknownVersion || Is err ErrCircuitOpen
          || Is err ErrRateLimited || Is err ErrInProgress then retryUnlessFinal d
  else if isDecodeError err then DispositionTerminal
  else retryUnlessFinal d.

(** ** src/scope.go: the outcome of a chain *)

(** [OutcomeOf] at time [now]. *)
Definition OutcomeOf (now : Z) (ctx : Ctx) (err : goerr) : Outcome :=
  match err with
  | None => OutcomeOK
  | Some _ =>
      if Is err ErrDeadLettered then OutcomeDeadLettered
      else if Is err ErrDuplicate then OutcomeDuplicate
      else if Is err ErrShutdownInterrupted then OutcomeInterrupted
      else if IsInterrupted now (Some ctx) err
              && negb (Is (ctx_cause now ctx) ErrHandlerTimeout) then OutcomeInterrupted
      else if Is err ErrInProgress then OutcomeInProgress
      else if Is err ErrRateLimited then OutcomeRateLimited
      else if Is err ErrCircuitOpen then OutcomeCircuitOpen
      else
        let d := delivery_or_single ctx in
        if bool_decide (Dispose err d = DispositionRetryDelayed) && negb (Final d)
        then OutcomeRetry
        else OutcomeFailed
  end.

(** ** src/signals.go *)

(** [FailingInvokerOf]. *)
Definition FailingInvokerOf (err : goerr) : FailingInvoker :=
  if Is err ErrCircuitOpen then InvokerCircuitBreaker
  else match As as_dead_lettered err, As as_dead_letter_failed err with
       | None, None =>
           match As as_failure err with
           | Some _ => InvokerRetry
           | None => InvokerTransport
           end
       | _, _ => InvokerDLQ
       end.

(** [AttemptClassOf] at time [now]. *)
Definition AttemptClassOf (now : Z) (ctx : option Ctx) (err : goerr) : AttemptClass :=
  if Is err ErrHandlerPanic then AttemptPanic
  else if Is err ErrHandlerTimeout || Is err DeadlineExceeded then AttemptTimeout
  else if Is err Canceled
          && (match ctx with
              | Some c => Is (ctx_cause now c) ErrHandlerTimeout
              | None => false
              end) then AttemptTimeout
  else if isTerminal err then AttemptTerminal
  else AttemptTransient.

(** ** Facts about dispositions *)

(** How far a failure is decided by the error alone: [Some d] when the delivery
    plays no part, [None] when it is retried until the final delivery. *)
Definition disposition_class (err : goerr) : option Disposition :=
  match Dispose err zero_delivery, Dispose err single_delivery with
  | DispositionRetryDelayed, DispositionTerminal => None
  | d, _ => Some d
  end.

Lemma Dispose_class (err : goerr) (d : Delivery) :
  Dispose err d =
  match disposition_class err with
  | Some x => x
  | None => retryUnlessFinal d
  end.
Proof. unfold disposition_class, Dispose, retryUnlessFinal. repeat (case_match; try done). Qed.

Lemma Dispose_range (err : goerr) (d : Delivery) :
  Dispose err d = DispositionAck \/ Dispose err d = DispositionRetryDelayed
  \/ Dispose err d = DispositionTerminal.
Proof. unfold Dispose, retryUnlessFinal. repeat case_match; auto. Qed.

Lemma Dispose_ack (err : goerr) (d : Delivery) :
  Dispose err d = DispositionAck <->
  err = None \/ Is err ErrDuplicate = true \/ Is err ErrDeadLettered = true.
Proof.
  unfold Dispose, retryUnlessFinal. destruct err as [e|]; [|by split; auto].
  destruct (Is (Some e) ErrDuplicate) eqn:E1; [by split; auto|].
  destruct (Is (Some e) ErrDeadLettered) eqn:E2; [by split; auto|].
  simpl. split; [by repeat case_match|by intros [|[]]].
Qed.

Lemma Dispose_failed_publish (err : goerr) (d : Delivery) :
  Is err ErrDuplicate = false -> Is err ErrDeadLettered = false ->
  Is err ErrDeadLetterFailed = true -> Dispose err d = DispositionRetryDelayed.
Proof. intros H1 H2 H3. unfold Dispose. rewrite H1, H2, H3. by destruct err. Qed.

Arguments ReasonOf : simpl never.
Arguments AttemptsOf : simpl never.
Arguments Dispose : simpl never.
Arguments OutcomeOf : simpl never.
Arguments FailingInvokerOf : simpl never.
Arguments AttemptClassOf : simpl never.
Arguments IsInterrupted : simpl never.
Arguments isTerminal : simpl never.
Arguments isDecodeError : simpl never.
Arguments Is : simpl never.
Arguments As : simpl never.

(** ** Reasons *)

(** The reason an error node carries itself. *)
Definition carried_reason (e : error) : option string :=
  match e with
  | FailureError _ r _ _ | DeadLetteredError _ r | DeadLetterFailedError _ r _ => Some r
  | _ => None
  end.

(** Every reason carried by the tree is a reason of the program, or empty. *)
Definition known_reasons (e : error) : Prop :=
  forall n r, n ∈ error_tree e -> carried_reason n = Some r ->
    r = "" \/ r ∈ reason_vocabulary.

Lemma As_carried {A} (p : error -> option A) (f : A -> string) (e : error) (a : A) :
  (forall n b, p n = Some b -> carried_reason n = Some (f b)) ->
  known_reasons e -> As p (Some e) = Some a -> String.eqb (f a) "" = false ->
  f a ∈ reason_vocabulary.
Proof.
  intros Hp Hk Ha Hne. apply first_some_elem in Ha as (n & Hn & Ha).
  destruct (Hk n (f a) Hn (Hp _ _ Ha)) as [Hr|]; [|done].
  rewrite Hr in Hne. done.
Qed.

Ltac in_vocabulary := unfold reason_vocabulary; rewrite list_elem_of_In; simpl; tauto.

Lemma ReasonOf_nonempty (e : error) : ReasonOf (Some e) <> "".
Proof.
  unfold ReasonOf. repeat (case_match; try done); b2p; congruence.
Qed.

Lemma as_dead_lettered_head c r : As as_dead_lettered (Some (DeadLetteredError c r)) = Some r.
Proof. unfold As. by rewrite first_some_unwrap. Qed.

Lemma As_dead_lettered {A} (p : error -> option A) c r :
  p (DeadLetteredError c r) = None -> p (Sentinel ErrDeadLettered) = None ->
  As p (Some (DeadLetteredError c r)) = As p c.
Proof.
  intros H1 H2. unfold As. rewrite first_some_unwrap, H1. simpl. rewrite H2.
  destruct c as [e|]; simpl; by rewrite ?app_nil_r.
Qed.

Lemma ReasonOf_panic_head (e : error) :
  Is (Some e) ErrHandlerPanic = true -> ReasonOf (Some e) = ReasonPanic.
Proof. unfold ReasonOf. by intros ->. Qed.

(** * Properties *)

(** The disposition of a failure. A message is acknowledged exactly for a
    nil error, a duplicate or one already dead-lettered; the decision depends on
    the delivery only through its being final; the undelayed retry and the zero
    value are never chosen; a non-final delivery that is settled for good was so
    because of the error alone; and on the final delivery every error that is
    not acknowledged is terminal, unless its dead-letter publish failed. *)
Theorem Dispose_contract (err : goerr) (d d' : Delivery) :
  (Dispose err d = DispositionAck <->
     err = None \/ Is err ErrDuplicate = true \/ Is err ErrDeadLettered = true)
  /\ Dispose err d <> DispositionRetry /\ Dispose err d <> DispositionInvalid
  /\ (Final d = Final d' -> Dispose err d = Dispose err d')
  /\ (Final d = false -> Dispose err d = DispositionTerminal ->
        Dispose err d' = DispositionTerminal)
  /\ (Final d = true -> Dispose err d = DispositionRetryDelayed ->
        Is err ErrDeadLetterFailed = true).
Proof.
  split; [apply Dispose_ack|].
  split; [by destruct (Dispose_range err d) as [->|[->| ->]]|].
  split; [by destruct (Dispose_range err d) as [->|[->| ->]]|].
  split; [|split].
  - intros Hf. rewrite !Dispose_class. unfold retryUnlessFinal. by rewrite Hf.
  - rewrite !Dispose_class. unfold retryUnlessFinal. intros ->.
    by destruct (disposition_class err).
  - intros Hf. unfold Dispose, retryUnlessFinal. rewrite Hf. repeat (case_match; try done).
Qed.

Lemma Dispose_contract_witness :
  Final (mkDelivery 2 5 "" None None "" "" 0 0 "") = false
  /\ Dispose (Some (PermanentError (Sentinel (External "x")))) single_delivery
     = DispositionTerminal.
Proof.
  split; [reflexivity|].
  destruct (Dispose_contract (Some (PermanentError (Sentinel (External "x"))))
    (mkDelivery 2 5 "" None None "" "" 0 0 "") single_delivery) as (_ & _ & _ & _ & H & _).
  apply H; vm_compute; reflexivity.
Defined.

(** The reason of a failure is one of the constants of the reason block and
    empty exactly for a nil error, provided the reasons the tree itself carries
    come from there. *)
Theorem ReasonOf_vocabulary (err : goerr) :
  (ReasonOf err = "" <-> err = None)
  /\ (forall e, err = Some e -> known_reasons e -> ReasonOf err ∈ reason_vocabulary).
Proof.
  split.
  - split; [|by intros ->]. destruct err as [e|]; [|done].
    intros Hr. by destruct (ReasonOf_nonempty e).
  - intros e -> Hk. unfold ReasonOf. cbv zeta.
    repeat match goal with
    | |- context [match ?x with _ => _ end] =>
        lazymatch x with Some _ => fail | _ => destruct x eqn:? end
    | p : _ * _ |- _ => destruct p
    end; simplify_eq; b2p; try in_vocabulary.
    all: match goal with
    | Ha : As as_dead_lettered _ = Some ?r, Hn : ?r <> "" |- ?r ∈ _ =>
        apply (As_carried as_dead_lettered id e r)
    | Ha : As as_dead_letter_failed _ = Some ?r, Hn : ?r <> "" |- ?r ∈ _ =>
        apply (As_carried as_dead_letter_failed id e r)
    | Ha : As as_failure _ = Some (?c, ?r, ?n, ?h), Hn : ?r <> "" |- ?r ∈ _ =>
        apply (As_carried as_failure (fun x => x.1.1.2) e (c, r, n, h))
    end; try done; try (by apply String.eqb_neq);
    intros [] ? Hx; simplify_eq/=; done.
Qed.

Lemma ReasonOf_vocabulary_witness :
  ReasonOf (Some (FailureError (Some (Sentinel DeadlineExceeded)) ReasonRetriesExhausted 3 []))
    ∈ reason_vocabulary.
Proof.
  apply (proj2 (ReasonOf_vocabulary
    (Some (FailureError (Some (Sentinel DeadlineExceeded)) ReasonRetriesExhausted 3 []))) _
    eq_refl).
  intros n r Hn Hr. rewrite list_elem_of_In in Hn. simpl in Hn.
  destruct Hn as [<-|[<-|[<-|[]]]]; simplify_eq/=. right. in_vocabulary.
Defined.

(** Dead-lettering keeps the report of a failure: the error that replaces
    the cause after the publish is acknowledged, and has the reason, the attempt
    count and the history the cause had. *)
Theorem dead_lettering_keeps_report (e : error) (d : Delivery) :
  let done := Some (DeadLetteredError (Some e) (ReasonOf (Some e))) in
  Dispose done d = DispositionAck /\ ReasonOf done = ReasonOf (Some e)
  /\ AttemptsOf done = AttemptsOf (Some e) /\ history_of done = history_of (Some e)
  /\ FailingInvokerOf done =
     (if Is (Some e) ErrCircuitOpen then InvokerCircuitBreaker else InvokerDLQ).
Proof.
  cbv zeta.
  assert (HR : ReasonOf (Some (DeadLetteredError (Some e) (ReasonOf (Some e))))
               = ReasonOf (Some e)).
  { unfold ReasonOf at 1. cbv zeta. rewrite is_dead_lettered, bool_decide_eq_false_2 by done.
    simpl orb. destruct (Is (Some e) ErrHandlerPanic) eqn:Ep.
    - by rewrite ReasonOf_panic_head.
    - rewrite as_dead_lettered_head. simpl.
      pose proof (ReasonOf_nonempty e) as Hn. apply String.eqb_neq in Hn. by rewrite Hn. }
  split; [|split; [done|split; [|split]]].
  - apply Dispose_ack. right. right. by rewrite is_dead_lettered, bool_decide_eq_true_2.
  - unfold AttemptsOf. rewrite HR, As_dead_lettered by done. done.
  - unfold history_of. by rewrite As_dead_lettered.
  - unfold FailingInvokerOf. rewrite is_dead_lettered, bool_decide_eq_false_2 by done.
    by rewrite as_dead_lettered_head.
Qed.

(** A failed dead-letter publish whose own error matches [ErrDuplicate] is
    acknowledged: [Dispose] asks for the duplicate first. *)
Lemma failed_publish_acknowledged (e : error) (reason : string) (d : Delivery) :
  Dispose (Some (DeadLetterFailedError (Some e) reason (Some (Sentinel ErrDuplicate)))) d
  = DispositionAck.
Proof. apply Dispose_ack. right. left. by rewrite is_dead_letter_failed. Qed.
