(* ===== verification/Text.v ===== *)
(** * Header text

    src/dlq.go, [TruncateHeader] and [runeBoundary], over the UTF-8 decoding of
    Go's unicode/utf8 and strings packages. A Go string is a [string] of bytes;
    the functions work on its bytes as integers 0..255. *)

From Stdlib Require Import ZifyBool.
From S2P Require Import Prelude.
Local Open Scope string_scope.
Local Open Scope list_scope.
Local Open Scope Z_scope.

(** ** Bytes *)

Definition byte_of_ascii (a : Ascii.ascii) : Z := Z.of_N (Ascii.N_of_ascii a).
Definition ascii_of_byte (b : Z) : Ascii.ascii := Ascii.ascii_of_N (Z.to_N b).

Fixpoint to_bytes (s : string) : list Z :=
  match s with
  | EmptyString => []
  | String a r => byte_of_ascii a :: to_bytes r
  end.

Fixpoint of_bytes (l : list Z) : string :=
  match l with
  | [] => EmptyString
  | b :: r => String (ascii_of_byte b) (of_bytes r)
  end.

Definition is_byte (b : Z) : Prop := 0 <= b < 256.

(** ** UTF-8 (unicode/utf8) *)

Definition in_range (lo hi b : Z) : bool := (lo <=? b) && (b <=? hi).
Definition cont (b : Z) : bool := in_range 128 191 b.

(** The lead byte and the range of the second byte of two, three and four byte
    runes. *)
Definition rune2 (b0 b1 : Z) : bool := in_range 194 223 b0 && cont b1.
Definition rune3 (b0 b1 b2 : Z) : bool :=
  (((b0 =? 224) && in_range 160 191 b1) || ((b0 =? 237) && in_range 128 159 b1)
   || ((in_range 225 236 b0 || in_range 238 239 b0) && cont b1)) && cont b2.
Definition rune4 (b0 b1 b2 b3 : Z) : bool :=
  (((b0 =? 240) && in_range 144 191 b1) || ((b0 =? 244) && in_range 128 143 b1)
   || (in_range 241 243 b0 && cont b1)) && cont b2 && cont b3.

(** What [utf8.DecodeRune] finds: the bytes of a rune, or a byte that starts no
    rune (width 1). *)
Inductive seg := Rune (bs : list Z) | Bad (b : Z).

Fixpoint runes (l : list Z) : list seg :=
  match l with
  | [] => []
  | b0 :: r0 =>
      if b0 <? 128 then Rune [b0] :: runes r0
      else match r0 with
      | [] => [Bad b0]
      | b1 :: r1 =>
          if rune2 b0 b1 then Rune [b0; b1] :: runes r1
          else match r1 with
          | [] => Bad b0 :: runes r0
          | b2 :: r2 =>
              if rune3 b0 b1 b2 then Rune [b0; b1; b2] :: runes r2
              else match r2 with
              | [] => Bad b0 :: runes r0
              | b3 :: r3 =>
                  if rune4 b0 b1 b2 b3 then Rune [b0; b1; b2; b3] :: runes r3
                  else Bad b0 :: runes r0
              end
          end
      end
  end.

(** [utf8.RuneStart]. *)
Definition RuneStart (b : Z) : bool := negb (Z.land b 192 =? 128).

(** [strings.ToValidUTF8] with U+FFFD: one replacement per run of bad bytes. *)
Fixpoint to_valid_segs (invalid : bool) (l : list seg) : list Z :=
  match l with
  | [] => []
  | Rune bs :: r => bs ++ to_valid_segs false r
  | Bad _ :: r => (if invalid then [] else [239; 191; 189]) ++ to_valid_segs true r
  end.
Definition ToValidUTF8 (l : list Z) : list Z := to_valid_segs false (runes l).

(** [unicode.IsControl]: C0, DEL and C1. *)
Definition IsControl (bs : list Z) : bool :=
  match bs with
  | [b] => (b <? 32) || (b =? 127)
  | [b0; b1] => (b0 =? 194) && in_range 128 159 b1
  | _ => false
  end.

(** [strings.Map] with the function literal of [TruncateHeader]. *)
Definition map_control (l : list Z) : list Z :=
  flat_map (fun s => match s with
                     | Rune bs => if IsControl bs then [32] else bs
                     | Bad _ => [239; 191; 189]
                     end) (runes l).

(** ** src/dlq.go *)

(** [TruncationMarker]. *)
Definition TruncationMarker : string := "…[truncated]".

(** [runeBoundary]. *)
Fixpoint runeBoundary (l : list Z) (n : nat) : nat :=
  match n with
  | O => O
  | S m =>
      match l !! n with
      | Some b => if RuneStart b then n else runeBoundary l m
      | None => n
      end
  end.

(** [TruncateHeader] on bytes. *)
Definition truncate_bytes (l : list Z) (max : Z) : list Z :=
  let marker := to_bytes TruncationMarker in
  if max <=? 0 then []
  else
    let s := map_control (ToValidUTF8 l) in
    if Z.of_nat (length s) <=? max then s
    else if max <=? Z.of_nat (length marker)
    then take (runeBoundary s (Z.to_nat max)) s
    else take (runeBoundary s (Z.to_nat (max - Z.of_nat (length marker)))) s ++ marker.

(** [TruncateHeader]. *)
Definition TruncateHeader (s : string) (max : Z) : string :=
  of_bytes (truncate_bytes (to_bytes s) max).

(** ** Package strings and package unicode *)

(** [strings.ToLower]. Beyond ASCII only the two runes whose lower case is an
    ASCII letter are mapped (U+0130 to i, U+212A to k): the program compares the
    result with ASCII text alone, which the lower case of no other rune, and no
    replacement of an invalid byte, can match. *)
Definition lower_byte (b : Z) : Z := if in_range 65 90 b then b + 32 else b.
Definition lower_seg (s : seg) : list Z :=
  match s with
  | Rune bs =>
      if bool_decide (bs = [196; 176]) then [105]
      else if bool_decide (bs = [226; 132; 170]) then [107]
      else map lower_byte bs
  | Bad b => [b]
  end.
Definition ToLower (s : string) : string := of_bytes (flat_map lower_seg (runes (to_bytes s))).

(** [unicode.IsSpace]. *)
Definition IsSpace (bs : list Z) : bool :=
  match bs with
  | [b] => in_range 9 13 b || (b =? 32)
  | [b0; b1] => (b0 =? 194) && ((b1 =? 133) || (b1 =? 160))
  | [b0; b1; b2] =>
      (b0 =? 225) && (b1 =? 154) && (b2 =? 128)
      || (b0 =? 226) && (b1 =? 128)
         && (in_range 128 138 b2 || (b2 =? 168) || (b2 =? 169) || (b2 =? 175))
      || (b0 =? 226) && (b1 =? 129) && (b2 =? 159)
      || (b0 =? 227) && (b1 =? 128) && (b2 =? 128)
  | _ => false
  end.

(** [strings.Split] at a byte. *)
Fixpoint split_at (sep : Z) (l : list Z) : list (list Z) :=
  match l with
  | [] => [[]]
  | b :: r =>
      if b =? sep then [] :: split_at sep r
      else match split_at sep r with
           | tok :: toks => (b :: tok) :: toks
           | [] => [[b]]
           end
  end.

(** [strings.EqualFold] against ASCII text: the runes outside ASCII that fold to an
    ASCII letter are U+017F (to s) and U+212A (to k); an invalid byte decodes to
    U+FFFD. *)
Definition fold_seg (s : seg) : list Z :=
  match s with
  | Rune bs =>
      if bool_decide (bs = [197; 191]) then [115]
      else if bool_decide (bs = [226; 132; 170]) then [107]
      else map lower_byte bs
  | Bad _ => [239; 191; 189]
  end.
Definition EqualFold (s t : string) : bool :=
  bool_decide (flat_map fold_seg (runes (to_bytes s)) = flat_map fold_seg (runes (to_bytes t))).

(** [strings.TrimSpace]. *)
Definition seg_bytes (s : seg) : list Z := match s with Rune bs => bs | Bad b => [b] end.
Definition is_space_seg (s : seg) : bool := match s with Rune bs => IsSpace bs | Bad _ => false end.
Fixpoint skip_spaces (l : list seg) : list seg :=
  match l with
  | s :: r => if is_space_seg s then skip_spaces r else l
  | [] => []
  end.
Definition TrimSpace (s : string) : string :=
  of_bytes (flat_map seg_bytes (rev (skip_spaces (rev (skip_spaces (runes (to_bytes s))))))).

(** [strconv.ParseUint(s, 10, 64)]: [None] is an error. *)
Fixpoint parse_digits (acc : Z) (l : list Z) : option Z :=
  match l with
  | [] => Some acc
  | b :: r => if in_range 48 57 b then parse_digits (acc * 10 + (b - 48)) r else None
  end.
Definition ParseUint (s : string) : option Z :=
  match to_bytes s with
  | [] => None
  | l => match parse_digits 0 l with
         | Some n => if n <? 2 ^ 64 then Some n else None
         | None => None
         end
  end.

Definition len (s : string) : Z := Z.of_nat (String.length s).

(** ** Facts about bytes *)

Lemma byte_of_ascii_range a : is_byte (byte_of_ascii a).
Proof.
  unfold is_byte, byte_of_ascii. pose proof (Ascii.N_ascii_bounded a). lia.
Qed.

Lemma to_bytes_range s : Forall is_byte (to_bytes s).
Proof. induction s; simpl; constructor; [apply byte_of_ascii_range|done]. Qed.

Lemma of_to_bytes s : of_bytes (to_bytes s) = s.
Proof.
  induction s as [|a s IH]; simpl; [done|]. f_equal; [|done].
  unfold ascii_of_byte, byte_of_ascii. rewrite N2Z.id. apply Ascii.ascii_N_embedding.
Qed.

Lemma to_of_bytes l : Forall is_byte l -> to_bytes (of_bytes l) = l.
Proof.
  induction 1 as [|b l Hb _ IH]; simpl; [done|]. f_equal; [|done].
  unfold byte_of_ascii, ascii_of_byte, is_byte in *.
  rewrite Ascii.N_ascii_embedding by lia. lia.
Qed.

Lemma length_to_bytes s : length (to_bytes s) = String.length s.
Proof. induction s; simpl; congruence. Qed.

Lemma length_of_bytes l : String.length (of_bytes l) = length l.
Proof. induction l; simpl; congruence. Qed.

(** ** Facts about UTF-8 *)

(** Continuation bytes are exactly those that start no rune. *)
Lemma cont_not_start b : cont b = true -> RuneStart b = false.
Proof.
  unfold cont, in_range, RuneStart. intros H. b2p.
  assert (Hall : forallb (fun n => Z.land (Z.of_nat n) 192 =? 128) (seq 128 64) = true)
    by reflexivity.
  rewrite forallb_forall in Hall.
  specialize (Hall (Z.to_nat b)). rewrite Z2Nat.id in Hall by lia.
  rewrite Hall; [done|]. apply in_seq. lia.
Qed.

(** The bytes of one rune. *)
Definition rune_ok (bs : list Z) : bool :=
  match bs with
  | [b] => b <? 128
  | [b0; b1] => rune2 b0 b1
  | [b0; b1; b2] => rune3 b0 b1 b2
  | [b0; b1; b2; b3] => rune4 b0 b1 b2 b3
  | _ => false
  end.

Ltac rune_lead := unfold rune2, rune3, rune4, cont, in_range in *; lia.

Lemma rune2_excl b0 b1 : rune2 b0 b1 = true -> (b0 <? 128) = false.
Proof. intros H. apply Z.ltb_ge. rune_lead. Qed.
Lemma rune3_excl b0 b1 b2 :
  rune3 b0 b1 b2 = true -> (b0 <? 128) = false /\ rune2 b0 b1 = false.
Proof.
  intros H. split; [apply Z.ltb_ge; rune_lead|]. apply not_true_iff_false. intros H2. rune_lead.
Qed.
Lemma rune4_excl b0 b1 b2 b3 :
  rune4 b0 b1 b2 b3 = true ->
  (b0 <? 128) = false /\ rune2 b0 b1 = false /\ rune3 b0 b1 b2 = false.
Proof.
  intros H. repeat split; [apply Z.ltb_ge; rune_lead| |];
    apply not_true_iff_false; intros H2; rune_lead.
Qed.

(** Decoding recognises a rune at the front, whatever follows. *)
Lemma runes_cons bs l : rune_ok bs = true -> runes (bs ++ l) = Rune bs :: runes l.
Proof.
  destruct bs as [|b0 [|b1 [|b2 [|b3 [|]]]]]; simpl; try done; intros Hok.
  - by rewrite Hok.
  - by rewrite (rune2_excl _ _ Hok), Hok.
  - by destruct (rune3_excl _ _ _ Hok) as [-> ->]; rewrite Hok.
  - by destruct (rune4_excl _ _ _ _ Hok) as (-> & -> & ->); rewrite Hok.
Qed.

(** Valid UTF-8: a sequence of runes. *)
Definition valid (l : list Z) : Prop := exists rs, Forall (fun bs => rune_ok bs = true) rs /\ l = concat rs.

Lemma runes_concat rs :
  Forall (fun bs => rune_ok bs = true) rs -> runes (concat rs) = map Rune rs.
Proof. induction 1 as [|bs rs Hb _ IH]; simpl; [done|]. by rewrite runes_cons, IH. Qed.

Lemma valid_app l1 l2 : valid l1 -> valid l2 -> valid (l1 ++ l2).
Proof.
  intros (r1 & H1 & ->) (r2 & H2 & ->). exists (r1 ++ r2).
  rewrite concat_app. split; [by apply Forall_app|done].
Qed.

Lemma valid_nil : valid [].
Proof. by exists []. Qed.

(** Every segment of [runes] holds the bytes of a rune. *)
Lemma runes_ok (l : list Z) :
  Forall (fun s => match s with Rune bs => rune_ok bs = true | Bad _ => True end) (runes l).
Proof.
  remember (length l) as n eqn:Hn. revert l Hn.
  induction n as [n IH] using lt_wf_ind. intros l ->.
  assert (IH' : forall l', (length l' < length l)%nat -> Forall
    (fun s => match s with Rune bs => rune_ok bs = true | Bad _ => True end) (runes l'))
    by (intros; by eapply IH).
  clear IH. destruct l as [|b0 r0]; cbn [runes]; [constructor|].
  repeat case_match; simplify_eq; constructor; try done; apply IH'; simpl in *; lia.
Qed.

Lemma to_valid_segs_valid b l :
  Forall (fun s => match s with Rune bs => rune_ok bs = true | Bad _ => True end) l ->
  valid (to_valid_segs b l).
Proof.
  intros H. revert b. induction H as [|s l Hs _ IH]; intros b; simpl; [apply valid_nil|].
  destruct s as [bs|x]; apply valid_app; try apply IH.
  - exists [bs]. simpl. rewrite app_nil_r. by repeat constructor.
  - destruct b; [apply valid_nil|]. exists [[239; 191; 189]]. by repeat constructor.
Qed.

Lemma ToValidUTF8_valid l : valid (ToValidUTF8 l).
Proof. apply to_valid_segs_valid, runes_ok. Qed.

Lemma ToValidUTF8_id l : valid l -> ToValidUTF8 l = l.
Proof.
  intros (rs & Hrs & ->). unfold ToValidUTF8. rewrite runes_concat by done.
  clear Hrs. induction rs as [|bs rs IH]; simpl; [done|]. by rewrite IH.
Qed.

(** ** Facts about control characters *)

(** Valid UTF-8 without control characters. *)
Definition clean (l : list Z) : Prop :=
  exists rs, Forall (fun bs => rune_ok bs = true /\ IsControl bs = false) rs /\ l = concat rs.

Lemma clean_valid l : clean l -> valid l.
Proof. intros (rs & H & ->). exists rs. split; [|done].
  eapply Forall_impl; [exact H|]. by intros ? []. Qed.

Lemma clean_app l1 l2 : clean l1 -> clean l2 -> clean (l1 ++ l2).
Proof.
  intros (r1 & H1 & ->) (r2 & H2 & ->). exists (r1 ++ r2).
  rewrite concat_app. split; [by apply Forall_app|done].
Qed.

Lemma map_control_clean l : valid l -> clean (map_control l).
Proof.
  intros (rs & Hrs & ->). unfold map_control. rewrite runes_concat by done.
  induction Hrs as [|bs rs Hb _ IH]; simpl; [by exists []|].
  apply clean_app; [|done]. destruct (IsControl bs) eqn:E.
  - exists [[32]]. by repeat constructor.
  - exists [bs]. simpl. rewrite app_nil_r. by repeat constructor.
Qed.

Lemma map_control_id l : clean l -> map_control l = l.
Proof.
  intros (rs & Hrs & ->). unfold map_control. rewrite runes_concat.
  - induction Hrs as [|bs rs [_ Hc] _ IH]; simpl; [done|]. by rewrite Hc, IH.
  - eapply Forall_impl; [exact Hrs|]. by intros ? [].
Qed.

(** ** Facts about cuts *)

Lemma runeBoundary_le l n : (runeBoundary l n <= n)%nat.
Proof. induction n as [|n IH]; simpl; [lia|]. repeat case_match; lia. Qed.

(** The cut is at the start, at the end or in front of a rune. *)
Lemma runeBoundary_start l n b :
  l !! runeBoundary l n = Some b -> runeBoundary l n = 0%nat \/ RuneStart b = true.
Proof.
  induction n as [|n IH]; [by left|].
  simpl. destruct (l !! S n) as [c|] eqn:E; [|rewrite E; done].
  destruct (RuneStart c) eqn:Ec; [|exact IH].
  rewrite E. intros [= ->]. by right.
Qed.

(** The bytes of a rune after its first start no rune. *)
Lemma rune_tail_cont bs k b :
  rune_ok bs = true -> (0 < k)%nat -> bs !! k = Some b -> RuneStart b = false.
Proof.
  intros Hok Hk Hb. apply cont_not_start.
  destruct bs as [|b0 [|b1 [|b2 [|b3 [|]]]]]; try done;
    destruct k as [|[|[|[|k]]]]; cbn in Hb; simplify_eq; try lia; cbn in Hok; rune_lead.
Qed.

Lemma take_clean rs k :
  Forall (fun bs => rune_ok bs = true /\ IsControl bs = false) rs ->
  (forall b, concat rs !! k = Some b -> k = 0%nat \/ RuneStart b = true) ->
  clean (take k (concat rs)).
Proof.
  intros Hrs. revert k. induction Hrs as [|bs rs [Hok Hc] _ IH]; intros k Hk; simpl in *.
  { rewrite take_nil. by exists []. }
  destruct (decide (k < length bs)%nat) as [Hlt|Hge].
  - destruct k as [|k]; [by exists []|].
    destruct (lookup_lt_is_Some_2 bs (S k) Hlt) as [b Hb].
    destruct (Hk b) as [|Hst]; [by apply lookup_app_l_Some|done|].
    rewrite (rune_tail_cont bs (S k) b) in Hst by (done || lia). done.
  - rewrite take_app_ge by lia. apply clean_app.
    + exists [bs]. simpl. rewrite app_nil_r. by repeat constructor.
    + apply IH. intros b Hb. destruct (Hk b) as [->|]; [|left; lia|by right].
      rewrite lookup_app_r by lia. done.
Qed.

Lemma cut_clean l n : clean l -> clean (take (runeBoundary l n) l).
Proof.
  intros (rs & Hrs & ->). apply take_clean; [done|]. intros b. apply runeBoundary_start.
Qed.

Lemma marker_clean : clean (to_bytes TruncationMarker).
Proof.
  exists ([[226; 128; 166]] ++ map (fun b => [b]) (drop 3 (to_bytes TruncationMarker))).
  split; [|reflexivity]. by repeat constructor.
Qed.

Lemma truncate_bytes_clean l max : clean (truncate_bytes l max).
Proof.
  unfold truncate_bytes. destruct (max <=? 0); [by exists []|].
  pose proof (map_control_clean _ (ToValidUTF8_valid l)) as Hc.
  repeat case_match; [done|by apply cut_clean|].
  apply clean_app; [by apply cut_clean|apply marker_clean].
Qed.

Lemma truncate_bytes_length l max :
  Z.of_nat (length (truncate_bytes l max)) <= Z.max 0 max.
Proof.
  unfold truncate_bytes. destruct (max <=? 0) eqn:E0; [simpl; lia|].
  set (s := map_control (ToValidUTF8 l)). set (m := to_bytes TruncationMarker).
  destruct (Z.of_nat (length s) <=? max) eqn:E1; b2p; [lia|].
  destruct (max <=? Z.of_nat (length m)) eqn:E2; b2p.
  - rewrite length_take. pose proof (runeBoundary_le s (Z.to_nat max)). lia.
  - rewrite length_app, length_take.
    pose proof (runeBoundary_le s (Z.to_nat (max - Z.of_nat (length m)))). lia.
Qed.

Lemma truncate_bytes_id l max :
  clean l -> Z.of_nat (length l) <= max -> truncate_bytes l max = l.
Proof.
  intros Hc Hl. unfold truncate_bytes.
  rewrite (ToValidUTF8_id l), (map_control_id l) by (done || by apply clean_valid).
  destruct (max <=? 0) eqn:E; b2p; [by destruct l; simpl in *; [|lia]|].
  by rewrite (proj2 (Z.leb_le _ _) Hl).
Qed.

Lemma TruncateHeader_len s max : len (TruncateHeader s max) <= Z.max 0 max.
Proof. unfold len, TruncateHeader. rewrite length_of_bytes. apply truncate_bytes_length. Qed.

Lemma rune_clean_bytes bs : rune_ok bs = true -> IsControl bs = false -> Forall is_byte bs.
Proof.
  unfold is_byte.
  destruct bs as [|b0 [|b1 [|b2 [|b3 [|]]]]]; try done; intros H Hc; cbn in H, Hc; b2p;
    repeat constructor; rune_lead.
Qed.

Lemma clean_bytes l : clean l -> Forall is_byte l.
Proof.
  intros (rs & Hrs & ->). induction Hrs as [|bs rs [Ho Hc] _ IH]; simpl; [done|].
  apply Forall_app. split; [by apply rune_clean_bytes|done].
Qed.

(** * Properties *)

(** C39: a header value. Whatever the text, [TruncateHeader] gives at most [max]
    bytes of valid UTF-8 without a control character; it leaves a text that is
    already such a value alone, so truncating twice is truncating once; and a
    text that had to be cut at a useful size ends with the truncation marker
    after a prefix of the sanitized text. *)
Theorem TruncateHeader_contract (s : string) (max : Z) :
  let t := TruncateHeader s max in
  len t <= Z.max 0 max /\ clean (to_bytes t)
  /\ (clean (to_bytes s) -> len s <= max -> t = s)
  /\ TruncateHeader t max = t
  /\ (len TruncationMarker < max ->
        let sanitized := map_control (ToValidUTF8 (to_bytes s)) in
        to_bytes t = sanitized \/
        (max < Z.of_nat (length sanitized) /\
         exists k, to_bytes t = take k sanitized ++ to_bytes TruncationMarker)).
Proof.
  cbv zeta.
  pose proof (truncate_bytes_clean (to_bytes s) max) as Hc.
  assert (Hb : to_bytes (TruncateHeader s max) = truncate_bytes (to_bytes s) max)
    by (apply to_of_bytes, clean_bytes, Hc).
  assert (Hid : forall s', clean (to_bytes s') -> len s' <= Z.max 0 max -> TruncateHeader s' max = s').
  { intros s' Hc' Hl. unfold TruncateHeader. destruct (Z.leb_spec max 0).
    - destruct s'; [|unfold len in Hl; simpl in Hl; lia].
      unfold truncate_bytes. by rewrite (proj2 (Z.leb_le max 0)).
    - rewrite truncate_bytes_id, of_to_bytes; [done|done|].
      rewrite length_to_bytes. unfold len in Hl. lia. }
  split; [apply TruncateHeader_len|]. split; [by rewrite Hb|]. split; [intros; apply Hid; [done|lia]|].
  split; [apply Hid; [by rewrite Hb|apply TruncateHeader_len]|].
  intros Hm. rewrite Hb. unfold truncate_bytes, len in *. rewrite length_to_bytes.
  destruct (Z.leb_spec max 0); [lia|].
  destruct (Z.leb_spec (Z.of_nat (length (map_control (ToValidUTF8 (to_bytes s))))) max);
    [by left|].
  destruct (Z.leb_spec max (Z.of_nat (String.length TruncationMarker))); [lia|].
  right. split; [done|]. eexists. reflexivity.
Qed.

Lemma TruncateHeader_contract_witness : TruncateHeader "plain value" 11 = "plain value".
Proof.
  destruct (TruncateHeader_contract "plain value" 11) as (_ & _ & H & _). apply H; [|done].
  exists (map (fun b => [b]) (to_bytes "plain value")).
  split; [repeat constructor; reflexivity|reflexivity].
Defined.

(** ** Numbers *)

Lemma parse_digits_go x s :
  parse_digits 0 (to_bytes (pretty_N_go x s)) = parse_digits (Z.of_N x) (to_bytes s).
Proof.
  revert s. induction (N.lt_wf_0 x) as [x _ IH]. intros s.
  destruct (decide (x = 0)%N) as [->|Hx]; [done|].
  rewrite pretty_N_go_step by lia. rewrite IH by (apply N.div_lt; lia). cbn [to_bytes parse_digits].
  assert (Hd : byte_of_ascii (pretty_N_char (x `mod` 10)) = 48 + Z.of_N (x `mod` 10)).
  { pose proof (N.mod_lt x 10 ltac:(lia)) as Hlt. set (m := (x `mod` 10)%N) in *. clearbody m.
    assert (m = 0 \/ m = 1 \/ m = 2 \/ m = 3 \/ m = 4 \/ m = 5 \/ m = 6 \/ m = 7 \/ m = 8 \/ m = 9)%N
      as Hm by lia. by repeat destruct Hm as [->|Hm]; [..|subst]. }
  rewrite Hd. pose proof (N.mod_lt x 10 ltac:(lia)).
  assert (Hr : in_range 48 57 (48 + Z.of_N (x `mod` 10)) = true).
  { unfold in_range. apply andb_true_iff. rewrite !Z.leb_le. clear Hd IH. generalize dependent (x `mod` 10)%N. lia. }
  rewrite Hr. f_equal. pose proof (N.div_mod x 10 ltac:(lia)). lia.
Qed.

Lemma parse_pretty z : 0 <= z < 2 ^ 64 -> ParseUint (pretty z) = Some z.
Proof.
  intros Hz.
  assert (Hp : parse_digits 0 (to_bytes (pretty z)) = Some z).
  { destruct z as [|p|p]; [done| |lia].
    change (parse_digits 0 (to_bytes (pretty (Npos p))) = Some (Zpos p)).
    unfold pretty, pretty_N. case_decide; [done|]. apply (parse_digits_go (Npos p) ""). }
  unfold ParseUint. destruct (to_bytes (pretty z)) eqn:E.
  - destruct z as [|p|p]; [done| |lia].
    change (to_bytes (pretty (Npos p)) = []) in E. unfold pretty, pretty_N in E.
    case_decide; [done|]. rewrite pretty_N_go_step in E by lia.
    exfalso. revert E. generalize (pretty_N_char (Npos p `mod` 10)) as a, (Npos p `div` 10)%N as x, "" as s.
    intros a x. revert a. induction (N.lt_wf_0 x) as [x _ IH]. intros a s.
    destruct (decide (x = 0)%N) as [->|Hx]; [done|]. rewrite pretty_N_go_step by lia.
    apply IH. apply N.div_lt; lia.
  - rewrite Hp. by rewrite (proj2 (Z.ltb_lt z _)) by lia.
Qed.
