(* ===== verification/Runtime.v ===== *)
(** * Effects

    What a call of the program can do besides returning: advance the clock,
    change the failure scopes and the observer flags, reach user code, and
    panic or leave its goroutine. A call is a function of the [World] to an
    outcome and a new world ([M]); [recovering] and [deferring] are Go's
    [recover] and [defer].

    The world carries the trace [w_log] of the effects that leave the library:
    signals raised, observers called, events' own [OnErr] methods, dead-letter
    publishes. The state of the user's code is the type parameter [U]; the
    behaviours of the user's observers and events are the interface [Env]. *)

From S2P Require Import Prelude GoErrors Types.
Local Open Scope string_scope.
Local Open Scope list_scope.
Local Open Scope Z_scope.

(** ** Failure scopes (src/scope.go) *)

Record FailureScope := mkScope {
  sc_breaker : BreakerState;
  sc_reported : bool;
  sc_pending : option HandlerResult;
  sc_flushed : bool;
  sc_settles : bool;
}.

(** ** The trace *)

Inductive entry :=
| ESignal (scope : option nat) (s : signal)
| EDeliver (observer_id : nat) (s : signal)
| EPanicLogged (child method : nat)
| EOnErr (behaviour : nat) (handler : string) (err : goerr)
| EPublish (r : DLQRecord) (result : goerr)
| EHandlerRun (handler : string)
| EBroker (a : BrokerAction)
| EMessage (started : Z) (m : NatsMsg) (result : goerr)
| EConsumer (stream : string) (c : ConsumerConfig)
| EUnsubscribe (sub : nat).

(** ** The world *)

Record World (U : Type) := mkWorld {
  w_now : Z;
  w_log : list entry;
  w_scopes : gmap nat FailureScope;
  w_children : nat;
  w_logged : gset (nat * nat);
  w_ended : gset nat;
  w_user : U;
}.
Arguments mkWorld {U}.
Arguments w_now {U}.
Arguments w_log {U}.
Arguments w_scopes {U}.
Arguments w_children {U}.
Arguments w_logged {U}.
Arguments w_ended {U}.
Arguments w_user {U}.

Definition M (U A : Type) : Type := World U -> outcome (any error) A * World U.

Section monad.
Context {U : Type}.
Implicit Types (w : World U).

#[export] Instance M_ret : MRet (M U) := fun A a w => (Ret a, w).
#[export] Instance M_bind : MBind (M U) := fun A B k m w =>
  match m w with
  | (Ret a, w') => k a w'
  | (Panicking v, w') => (Panicking v, w')
  | (Goexit, w') => (Goexit, w')
  end.

(** [panic(v)] and [runtime.Goexit()]. *)
Definition panic {A} (v : any error) : M U A := fun w => (Panicking v, w).
Definition goexit {A} : M U A := fun w => (Goexit, w).

(** The nil dereference of the Go runtime. *)
Definition nil_deref : any error :=
  mkAny "runtime error: invalid memory address or nil pointer dereference" None.

(** [defer func() { if r := recover(); r != nil { h r } }()]. *)
Definition recovering {A} (m : M U A) (h : any error -> M U A) : M U A := fun w =>
  match m w with
  | (Panicking v, w') => h v w'
  | r => r
  end.

(** [defer f()], with [f] reading the named result, [zero] unless the call
    returned one. A panic or an exit inside [f] replaces the outcome. *)
Definition deferring {A} (zero : A) (m : M U A) (f : A -> M U unit) : M U A := fun w =>
  match m w with
  | (Ret a, w') => (_ ← f a; mret a) w'
  | (Panicking v, w') => (_ ← f zero; panic v) w'
  | (Goexit, w') => (_ ← f zero; goexit) w'
  end.

(** ** Reading and writing the world *)

Definition now : M U Z := fun w => (Ret (w_now w), w).

(** A wait of [d] nanoseconds; the clock does not move backwards. *)
Definition sleep (d : Z) : M U unit := fun w =>
  (Ret tt, mkWorld (w_now w + Z.max 0 d) (w_log w) (w_scopes w) (w_children w) (w_logged w)
    (w_ended w) (w_user w)).

Definition log_entry (e : entry) : M U unit := fun w =>
  (Ret tt, mkWorld (w_now w) (w_log w ++ [e]) (w_scopes w) (w_children w) (w_logged w)
    (w_ended w) (w_user w)).

Definition get_user : M U U := fun w => (Ret (w_user w), w).

Definition put_user (u : U) : M U unit := fun w =>
  (Ret tt, mkWorld (w_now w) (w_log w) (w_scopes w) (w_children w) (w_logged w)
    (w_ended w) u).

Definition set_scope (s : nat) (sc : FailureScope) : M U unit := fun w =>
  (Ret tt, mkWorld (w_now w) (w_log w) (<[s := sc]> (w_scopes w)) (w_children w)
    (w_logged w) (w_ended w) (w_user w)).

Definition get_scope (s : nat) : M U (option FailureScope) := fun w =>
  (Ret (w_scopes w !! s), w).

(** Allocation of a fresh scope. *)
Definition new_scope (sc : FailureScope) : M U nat := fun w =>
  let s := fresh (dom (w_scopes w)) in
  (Ret s, mkWorld (w_now w) (w_log w) (<[s := sc]> (w_scopes w)) (w_children w)
    (w_logged w) (w_ended w) (w_user w)).

(** Allocation of the identity of an [observerChild]. *)
Definition new_child : M U nat := fun w =>
  (Ret (w_children w), mkWorld (w_now w) (w_log w) (w_scopes w) (S (w_children w))
    (w_logged w) (w_ended w) (w_user w)).

(** [c.logged[method].CompareAndSwap(false, true)]. *)
Definition logged_cas (child method : nat) : M U bool := fun w =>
  (Ret (bool_decide ((child, method) ∉ w_logged w)),
   mkWorld (w_now w) (w_log w) (w_scopes w) (w_children w)
    ({[(child, method)]} ∪ w_logged w) (w_ended w) (w_user w)).

(** The [settleGuard] of a JetStream message. *)
Definition set_ended (g : nat) : M U unit := fun w =>
  (Ret tt, mkWorld (w_now w) (w_log w) (w_scopes w) (w_children w) (w_logged w)
    ({[g]} ∪ w_ended w) (w_user w)).
Definition get_ended (g : nat) : M U bool := fun w =>
  (Ret (bool_decide (g ∈ w_ended w)), w).

(** [ctx.Err()] and [context.Cause(ctx)]. *)
Definition Err (c : Ctx) : M U goerr := t ← now; mret (ctx_err t c).
Definition Cause (c : Ctx) : M U goerr := t ← now; mret (ctx_cause t c).

(** [select { case <-ctx.Done(): ...; case <-timer.C: ... }] with a timer of
    [d] nanoseconds: true when the timer fired. When both become ready at the
    same instant the context wins. *)
Definition select_timer (c : Ctx) (d : Z) : M U bool :=
  t ← now;
  match cx_done c with
  | Some di => if done_at di <=? t + Z.max 0 d
               then _ ← sleep (done_at di - t); mret false
               else _ ← sleep d; mret true
  | None => _ ← sleep d; mret true
  end.

(** [evt.Name()]. *)
Definition Name (e : Event) : M U string :=
  if ev_name_panics e then panic (mkAny "Name" None) else mret (ev_name e).
End monad.

(** ** The user's code *)

Class Env (U : Type) := {
  (** The method of observer [id] for the signal. *)
  env_observe : nat -> Ctx -> signal -> M U unit;
  (** The [OnErr] method of an event. *)
  env_onerr : nat -> Ctx -> goerr -> string -> M U unit;
  (** What [debug.Stack()] returns at a recovery. *)
  env_stack : string;
}.

(** [recoveredPanic] (src/settle.go). *)
Definition recoveredPanic {U} `{Env U} (r : any error) : error := PanicError r env_stack.

(** ** Computations that keep a relation

    [respects R m]: every run of [m], whatever its outcome, relates its first
    and last world by the preorder [R]. *)
Definition respects {U A} (R : relation (World U)) (m : M U A) : Prop :=
  forall w, R w (m w).2.

Section respects.
Context {U : Type} (R : relation (World U)) `{!PreOrder R}.

Lemma respects_ret {A} (a : A) : respects R (mret a).
Proof. intros w. simpl. reflexivity. Qed.

Lemma respects_panic {A} v : respects R (@panic U A v).
Proof. intros w. simpl. reflexivity. Qed.

Lemma respects_goexit {A} : respects R (@goexit U A).
Proof. intros w. simpl. reflexivity. Qed.

Lemma respects_bind {A B} (m : M U A) (k : A -> M U B) :
  respects R m -> (forall a, respects R (k a)) -> respects R (mbind k m).
Proof.
  intros Hm Hk w. unfold mbind, M_bind. specialize (Hm w).
  destruct (m w) as [[a|v|] w']; simpl in *; [|done|done].
  etransitivity; [exact Hm|apply Hk].
Qed.

Lemma respects_recovering {A} (m : M U A) h :
  respects R m -> (forall v, respects R (h v)) -> respects R (recovering m h).
Proof.
  intros Hm Hh w. unfold recovering. specialize (Hm w).
  destruct (m w) as [[a|v|] w']; simpl in *; [done| |done].
  etransitivity; [exact Hm|apply Hh].
Qed.

Lemma respects_deferring {A} z (m : M U A) f :
  respects R m -> (forall a, respects R (f a)) -> respects R (deferring z m f).
Proof.
  intros Hm Hf w. unfold deferring. specialize (Hm w).
  destruct (m w) as [[a|v|] w']; simpl in *; (etransitivity; [exact Hm|]);
    (apply respects_bind; [apply Hf|intros []]);
    first [apply respects_ret | apply respects_panic | apply respects_goexit].
Qed.

Lemma respects_if {A} (b : bool) (m n : M U A) :
  respects R m -> respects R n -> respects R (if b then m else n).
Proof. by destruct b. Qed.
End respects.

Create HintDb respects discriminated.
#[export] Hint Resolve respects_ret respects_panic respects_goexit respects_bind
  respects_recovering respects_deferring respects_if : respects.

(** Inversion of a run that returned. *)
Lemma bind_ret_inv {U A B} (m : M U A) (k : A -> M U B) w b w' :
  mbind k m w = (Ret b, w') -> exists a w1, m w = (Ret a, w1) /\ k a w1 = (Ret b, w').
Proof.
  unfold mbind, M_bind. destruct (m w) as [[a|v|] w1]; [|done|done]. eauto.
Qed.

Lemma mret_inv {U A} (a b : A) (w w' : World U) :
  @mret (M U) _ A a w = (Ret b, w') -> b = a /\ w' = w.
Proof. intros Hr. by injection Hr as -> ->. Qed.

Lemma now_inv {U} (w w' : World U) t : now w = (Ret t, w') -> t = w_now w /\ w' = w.
Proof. intros Hr. by injection Hr as -> ->. Qed.

Lemma deferring_ret_inv {U A} z (m : M U A) f w a w' :
  deferring z m f w = (Ret a, w') ->
  exists w1, m w = (Ret a, w1) /\ f a w1 = (Ret tt, w').
Proof.
  unfold deferring. destruct (m w) as [[b|v|] w1]; intros Hf;
    apply bind_ret_inv in Hf as ([] & w2 & Hf & Hr); [|done|done].
  injection Hr as -> ->. eauto.
Qed.

(** Undo [mret] and [now] in the hypotheses. *)
Ltac ret_inv :=
  repeat match goal with
  | H : mret _ _ = (Ret _, _) |- _ => apply mret_inv in H as [? ?]
  | H : now _ = (Ret _, _) |- _ => apply now_inv in H as [? ?]
  end; simplify_eq/=.

Lemma respects_run {U A} R (m : M U A) w o w' : respects R m -> m w = (o, w') -> R w w'.
Proof. intros Hm Hr. specialize (Hm w). by rewrite Hr in Hm. Qed.

(** A call that never panics or leaves its goroutine. *)
Definition returns {U A} (m : M U A) : Prop := forall w, exists a, (m w).1 = Ret a.

Lemma returns_bind {U A B} (m : M U A) (k : A -> M U B) :
  returns m -> (forall a, returns (k a)) -> returns (mbind k m).
Proof.
  intros Hm Hk w. unfold mbind, M_bind. destruct (Hm w) as [a Ha].
  destruct (m w) as [o w']; simpl in *; subst. apply Hk.
Qed.

Section returns.
Context {U : Type}.

Lemma returns_ret {A} (a : A) : returns (U := U) (mret a).
Proof. intros w. by eexists. Qed.
Lemma returns_if {A} (b : bool) (m n : M U A) :
  returns m -> returns n -> returns (if b then m else n).
Proof. by destruct b. Qed.
Lemma returns_now : returns (U := U) now.
Proof. intros w. by eexists. Qed.
Lemma returns_log e : returns (U := U) (log_entry e).
Proof. intros w. by eexists. Qed.
Lemma returns_get_scope s : returns (U := U) (get_scope s).
Proof. intros w. by eexists. Qed.
Lemma returns_set_scope s sc : returns (U := U) (set_scope s sc).
Proof. intros w. by eexists. Qed.
Lemma returns_new_scope sc : returns (U := U) (new_scope sc).
Proof. intros w. by eexists. Qed.
Lemma returns_get_user : returns (U := U) get_user.
Proof. intros w. by eexists. Qed.
Lemma returns_put_user u : returns (U := U) (put_user u).
Proof. intros w. by eexists. Qed.
Lemma returns_sleep d : returns (U := U) (sleep d).
Proof. intros w. by eexists. Qed.
Lemma returns_err c : returns (U := U) (Err c).
Proof. intros w. by eexists. Qed.
Lemma returns_cause c : returns (U := U) (Cause c).
Proof. intros w. by eexists. Qed.

Lemma returns_select c d : returns (U := U) (select_timer c d).
Proof.
  intros w. unfold select_timer, mbind, M_bind, now.
  destruct (cx_done c) as [di|]; [destruct (_ <=? _)|]; by eexists.
Qed.

Lemma returns_deferring {A} z (m : M U A) f :
  returns m -> (forall a, returns (f a)) -> returns (deferring z m f).
Proof.
  intros Hm Hf w. unfold deferring. destruct (Hm w) as [a Ha].
  destruct (m w) as [o w1]; simpl in *; subst.
  unfold mbind, M_bind. destruct (Hf a w1) as [u Hu].
  destruct (f a w1) as [o w2]; simpl in *; subst. by eexists.
Qed.

(** A call that may panic, but not leave its goroutine. *)
Definition no_goexit {A} (m : M U A) : Prop := forall w, (m w).1 <> Goexit.

Lemma returns_no_goexit {A} (m : M U A) : returns m -> no_goexit m.
Proof. intros Hm w. destruct (Hm w) as [a ->]. done. Qed.

Lemma returns_recovering {A} (m : M U A) h :
  no_goexit m -> (forall v, returns (h v)) -> returns (recovering m h).
Proof.
  intros Hm Hh w. unfold recovering. specialize (Hm w).
  destruct (m w) as [[a|v|] w1]; simpl in *; [by eexists|apply Hh|done].
Qed.

Lemma no_goexit_bind {A B} (m : M U A) (k : A -> M U B) :
  no_goexit m -> (forall a, no_goexit (k a)) -> no_goexit (mbind k m).
Proof.
  intros Hm Hk w. unfold mbind, M_bind. specialize (Hm w).
  destruct (m w) as [[a|v|] w1]; simpl in *; [apply Hk|done|done].
Qed.
End returns.

(** ** Calls that never panic *)

Section no_panic.
Context {U : Type}.

Definition no_panic {A} (m : M U A) : Prop := forall w v, (m w).1 <> Panicking v.

Lemma returns_no_panic {A} (m : M U A) : returns m -> no_panic m.
Proof. intros Hm w v. destruct (Hm w) as [a ->]. done. Qed.

Lemma no_panic_bind {A B} (m : M U A) (k : A -> M U B) :
  no_panic m -> (forall a, no_panic (k a)) -> no_panic (mbind k m).
Proof.
  intros Hm Hk w v. unfold mbind, M_bind. specialize (Hm w v).
  destruct (m w) as [[a|x|] w1]; simpl in *; [apply Hk|congruence|done].
Qed.

(** A recovered call whose handler does not panic. *)
Lemma no_panic_recovering {A} (m : M U A) h :
  (forall v, no_panic (h v)) -> no_panic (recovering m h).
Proof.
  intros Hh w v. unfold recovering. destruct (m w) as [[a|x|] w1]; simpl; [done|apply Hh|done].
Qed.

Lemma no_panic_deferring {A} z (m : M U A) f :
  no_panic m -> (forall a, no_panic (f a)) -> no_panic (deferring z m f).
Proof.
  intros Hm Hf w v. unfold deferring. specialize (Hm w).
  destruct (m w) as [[a|x|] w1]; simpl in *; [|by destruct (Hm x)|];
    revert w1 v; (apply no_panic_bind; [apply Hf|intros []; by intros w1 v]).
Qed.
End no_panic.

Create HintDb returns discriminated.
#[export] Hint Resolve returns_ret returns_if returns_now returns_log returns_get_scope
  returns_set_scope returns_new_scope returns_get_user returns_put_user returns_sleep
  returns_err returns_cause returns_select : returns.

(** A run known by its result. *)
Lemma ran {U A} (m : M U A) w a : (m w).1 = Ret a -> m w = (Ret a, (m w).2).
Proof. intros <-. apply surjective_pairing. Qed.

(** Running the first of two calls. *)
Lemma bind_run {U A B} (m : M U A) (k : A -> M U B) w a w1 :
  m w = (Ret a, w1) -> mbind k m w = k a w1.
Proof. unfold mbind, M_bind. by intros ->. Qed.

(** A bind whose continuations agree on what the first call can return. *)
Lemma bind_ext_on {U A B} (m : M U A) (k1 k2 : A -> M U B) w :
  (forall a w', m w = (Ret a, w') -> k1 a w' = k2 a w') -> mbind k1 m w = mbind k2 m w.
Proof.
  intros Hk. unfold mbind, M_bind. destruct (m w) as [[a|x|] w']; [by apply Hk|done|done].
Qed.

Lemma bind_assoc {U A B C} (m : M U A) (k : A -> M U B) (l : B -> M U C) w :
  mbind l (mbind k m) w = mbind (fun a => mbind l (k a)) m w.
Proof. unfold mbind, M_bind. by destruct (m w) as [[a|x|] w']. Qed.

(** ** Postconditions

    [yields P m]: what [m] returns, when it returns, satisfies [P]. *)
Definition yields {U A} (P : A -> Prop) (m : M U A) : Prop :=
  forall w a w', m w = (Ret a, w') -> P a.

Section yields.
Context {U : Type}.

Lemma yields_ret {A} (P : A -> Prop) a : P a -> yields (U := U) P (mret a).
Proof. by intros Ha w x w' [= <- <-]. Qed.

Lemma yields_bind {A B} (P : B -> Prop) (m : M U A) (k : A -> M U B) :
  (forall a, yields P (k a)) -> yields P (mbind k m).
Proof. intros Hk w b w' Hr. apply bind_ret_inv in Hr as (a & w1 & _ & Hr). by eapply Hk. Qed.

(** A cut: what the first call returns may be used. *)
Lemma yields_cut {A B} (Q : A -> Prop) (P : B -> Prop) (m : M U A) (k : A -> M U B) :
  yields Q m -> (forall a, Q a -> yields P (k a)) -> yields P (mbind k m).
Proof.
  intros Hm Hk w b w' Hr. apply bind_ret_inv in Hr as (a & w1 & Hm1 & Hr).
  by eapply Hk; [eapply Hm|].
Qed.

Lemma yields_if {A} (P : A -> Prop) (b : bool) (m n : M U A) :
  yields P m -> yields P n -> yields P (if b then m else n).
Proof. by destruct b. Qed.

Lemma yields_deferring {A} (P : A -> Prop) z (m : M U A) f :
  yields P m -> yields P (deferring z m f).
Proof. intros Hm w a w' Hr. apply deferring_ret_inv in Hr as (w1 & Hr & _). by eapply Hm. Qed.
End yields.

(** ** Components of the user state

    A stateful component of the library outside the world's own fields, such as
    a store or a breaker, lives at a lens of the user state. *)
Class Lens (S U : Type) := {
  lget : U -> S;
  lput : S -> U -> U;
  lget_lput s u : lget (lput s u) = s;
  lput_lget u : lput (lget u) u = u;
  lput_lput s s' u : lput s (lput s' u) = lput s u;
}.

#[export] Program Instance lens_id S : Lens S S := {| lget u := u; lput s _ := s |}.
Solve All Obligations with done.

(** A critical section on a component: read, compute, write back. *)
Definition atomically {S U A} `{Lens S U} (f : S -> A * S) : M U A := fun w =>
  let '(a, s) := f (lget (w_user w)) in
  (Ret a, mkWorld (w_now w) (w_log w) (w_scopes w) (w_children w) (w_logged w) (w_ended w)
            (lput s (w_user w))).

(** The component is left alone. *)
Definition same_part {S U} `{Lens S U} : relation (World U) :=
  fun w w' => lget (w_user w') = lget (w_user w).

#[export] Instance same_part_preorder S U `{Lens S U} : PreOrder (@same_part S U _).
Proof. split; [done|]. intros w1 w2 w3 H1 H2. unfold same_part in *. congruence. Qed.

Lemma atomically_run {S U A} `{Lens S U} (f : S -> A * S) (w : World U) :
  exists w', atomically f w = (Ret (f (lget (w_user w))).1, w')
    /\ lget (w_user w') = (f (lget (w_user w))).2 /\ w_log w' = w_log w /\ w_now w' = w_now w
    /\ w_scopes w' = w_scopes w.
Proof.
  unfold atomically. destruct (f (lget (w_user w))) as [a s]. eexists. split; [done|].
  simpl. by rewrite lget_lput.
Qed.
