(* ===== verification/Trace.v ===== *)
(** * Spans

    The OpenTelemetry trace API, which is not part of the repository, as the class
    [TraceSDK], and what the transports do with it: the tracer of a bus and the
    producer span of a publish (src/jetstream/bus.go and src/nats/bus.go have the
    same code but for the name of the tracer). [spans_keep] is what the theorems
    of a transport need of it. *)

From S2P Require Import Prelude GoErrors Types Runtime.
Local Open Scope string_scope.
Local Open Scope list_scope.
Local Open Scope Z_scope.

Inductive attr_value := AString (s : string) | AInt (z : Z) | ABool (b : bool).

(** [attribute.KeyValue]. *)
Definition KeyValue : Type := string * attr_value.

Inductive SpanKind := SpanKindConsumer | SpanKindProducer.

(** The trace API: tracers and their providers, the global one included; the start
    of a span, with its kind, attributes and links, and the context that carries
    it; the methods of a span; the span context a context carries, valid or not;
    what the W3C propagator injects into a carrier as the traceparent of a context,
    and the span context it reads from one; and the attributes of semconv. *)
Class TraceSDK (U : Type) := {
  TracerProvider : Type;
  Tracer : Type;
  Span : Type;
  SpanContext : Type;
  GetTracerProvider : M U TracerProvider;
  tp_Tracer : TracerProvider -> string -> M U Tracer;
  tracer_Start : Tracer -> Ctx -> string -> SpanKind -> list KeyValue ->
    list (SpanContext * list KeyValue) -> M U (Ctx * Span);
  span_RecordError : Span -> error -> M U unit;
  span_SetAttributes : Span -> list KeyValue -> M U unit;
  span_SetErrorStatus : Span -> string -> M U unit;
  span_End : Span -> M U unit;
  SpanContextFromContext : Ctx -> M U SpanContext;
  tc_Inject : Ctx -> M U string;
  tc_Extract : string -> SpanContext;
  sc_IsValid : SpanContext -> bool;
  MessagingSystem : string -> KeyValue;
  MessagingOperationName : string -> KeyValue;
  MessagingOperationTypeProcess : KeyValue;
  MessagingOperationTypeSend : KeyValue;
  MessagingDestinationName : string -> KeyValue;
  MessagingMessageID : string -> KeyValue;
  span_ErrorType : goerr -> KeyValue;
}.

Section spans.
Context {U : Type} `{TraceSDK U}.

(** The tracer of a provider, the global one for nil. *)
Definition tracer_of (tp : option TracerProvider) (name : string) : M U Tracer :=
  p ← (match tp with Some p => mret p | None => GetTracerProvider end);
  tp_Tracer p name.

(** [Bus.startPublish] of both transports, with the tracer of the bus. *)
Definition start_publish (tracer : M U Tracer) (c : Ctx) (subject id : string) : M U (Ctx * Span) :=
  let attrs := [MessagingSystem "nats"; MessagingOperationName "publish";
                MessagingOperationTypeSend; MessagingDestinationName subject]
               ++ (if String.eqb id "" then [] else [MessagingMessageID id]) in
  t ← tracer;
  tracer_Start t c ("publish " +:+ subject) SpanKindProducer attrs [].

(** [span.RecordError(err); span.SetStatus(codes.Error, err.Error())] under
    [if err != nil]. *)
Definition fail_span (span : Span) (err : goerr) : M U unit :=
  match err with
  | Some e => _ ← span_RecordError span e; span_SetErrorStatus span (error_text e)
  | None => mret tt
  end.

(** [oxTraceparent] of src/jetstream/dlq.go: the traceparent of the span of a context. *)
Definition oxTraceparent (c : Ctx) : M U string :=
  sc ← SpanContextFromContext c;
  if sc_IsValid sc then tc_Inject c else mret "".

(** The trace API leaves a relation alone. *)
Class spans_keep (R : relation (World U)) : Prop := {
  sk_provider : respects R GetTracerProvider;
  sk_tracer p n : respects R (tp_Tracer p n);
  sk_start t c n k attrs links : respects R (tracer_Start t c n k attrs links);
  sk_error sp e : respects R (span_RecordError sp e);
  sk_attributes sp kvs : respects R (span_SetAttributes sp kvs);
  sk_status sp text : respects R (span_SetErrorStatus sp text);
  sk_end sp : respects R (span_End sp);
  sk_context c : respects R (SpanContextFromContext c);
  sk_inject c : respects R (tc_Inject c);
}.

Section keeps.
Context (R : relation (World U)) `{!PreOrder R} `{!spans_keep R}.

Lemma keeps_tracer_of tp name : respects R (tracer_of tp name).
Proof.
  apply respects_bind; [done| |intros p; apply sk_tracer].
  destruct tp; [by apply respects_ret|apply sk_provider].
Qed.

Lemma keeps_start_publish tracer c subject id :
  respects R tracer -> respects R (start_publish tracer c subject id).
Proof. intros Ht. apply respects_bind; [done|exact Ht|]. intros t. apply sk_start. Qed.

Lemma keeps_fail_span span err : respects R (fail_span span err).
Proof.
  destruct err as [e|]; [|by apply respects_ret].
  apply respects_bind; [done|apply sk_error|]. intros _. apply sk_status.
Qed.

Lemma keeps_oxTraceparent c : respects R (oxTraceparent c).
Proof.
  apply respects_bind; [done|apply sk_context|]. intros sc.
  apply respects_if; [apply sk_inject|by apply respects_ret].
Qed.
End keeps.

(** The trace API returns. *)
Class spans_return : Prop := {
  sr_provider : returns GetTracerProvider;
  sr_tracer p n : returns (tp_Tracer p n);
  sr_start t c n k attrs links : returns (tracer_Start t c n k attrs links);
  sr_error sp e : returns (span_RecordError sp e);
  sr_attributes sp kvs : returns (span_SetAttributes sp kvs);
  sr_status sp text : returns (span_SetErrorStatus sp text);
  sr_end sp : returns (span_End sp);
  sr_context c : returns (SpanContextFromContext c);
  sr_inject c : returns (tc_Inject c);
}.

Lemma returns_tracer_of `{!spans_return} tp name : returns (tracer_of tp name).
Proof.
  apply returns_bind; [|intros p; apply sr_tracer].
  destruct tp; [apply returns_ret|apply sr_provider].
Qed.

Lemma returns_fail_span `{!spans_return} span err : returns (fail_span span err).
Proof.
  destruct err as [e|]; [|apply returns_ret].
  apply returns_bind; [apply sr_error|]. intros _. apply sr_status.
Qed.

Lemma returns_oxTraceparent `{!spans_return} c : returns (oxTraceparent c).
Proof.
  apply returns_bind; [apply sr_context|]. intros sc. apply returns_if; [apply sr_inject|apply returns_ret].
Qed.
End spans.
Arguments spans_return U {_}.

#[export] Hint Resolve keeps_tracer_of keeps_start_publish keeps_fail_span keeps_oxTraceparent : respects.

(** A trace API that does nothing, over any user state. *)
Definition silent_trace (U : Type) : TraceSDK U := {|
  TracerProvider := unit; Tracer := unit; Span := unit; SpanContext := string;
  GetTracerProvider := mret tt;
  tp_Tracer _ _ := mret tt;
  tracer_Start _ c _ _ _ _ := mret (c, tt);
  span_RecordError _ _ := mret tt;
  span_SetAttributes _ _ := mret tt;
  span_SetErrorStatus _ _ := mret tt;
  span_End _ := mret tt;
  SpanContextFromContext _ := mret "";
  tc_Inject _ := mret "";
  tc_Extract s := s;
  sc_IsValid _ := false;
  MessagingSystem s := ("messaging.system", AString s);
  MessagingOperationName s := ("messaging.operation.name", AString s);
  MessagingOperationTypeProcess := ("messaging.operation.type", AString "process");
  MessagingOperationTypeSend := ("messaging.operation.type", AString "send");
  MessagingDestinationName s := ("messaging.destination.name", AString s);
  MessagingMessageID s := ("messaging.message.id", AString s);
  span_ErrorType _ := ("error.type", AString "error");
|}.

Lemma silent_spans_keep {U} (R : relation (World U)) `{!PreOrder R} : @spans_keep U (silent_trace U) R.
Proof. split; intros; by apply respects_ret. Qed.
Lemma silent_spans_return {U} : @spans_return U (silent_trace U).
Proof. split; intros; apply returns_ret. Qed.
