(* ===== verification/Observer.v ===== *)
(** * Observers

    src/observer.go: the observer of a context, the fan-out of [MultiObserver]
    and its isolation of panicking children. [raise] is a call of an observer
    method through the observer of the context, the way every component of the
    library reports. *)

From S2P Require Import Prelude GoErrors Types Runtime.
Local Open Scope list_scope.
Local Open Scope Z_scope.

Section observer.
Context {U : Type} `{Env U}.

(** [ObserverFromContext]. *)
Definition ObserverFromContext (c : Ctx) : observer :=
  match cx_observer c with Some o => o | None => NopObserver end.

(** [callObserver]: one child under a recover, whose first panic per method is
    logged once. *)
Definition callObserver (child : nat) (s : signal) (fn : M U unit) : M U unit :=
  recovering fn (fun _ =>
    first ← logged_cas child (method_index s);
    if first : bool then log_entry (EPanicLogged child (method_index s)) else mret tt).

(** One observer method: nothing for [NopObserver], the user's code for a raw
    observer, every child in order for a [*multiObserver] ([each]), and for a
    [guardObserver] the flag before a [Failure] is forwarded. *)
Fixpoint observe (o : observer) (c : Ctx) (s : signal) : M U unit :=
  match o with
  | NopObserver | NopObserverPtr => mret tt
  | RawObserver id => _ ← log_entry (EDeliver id s); env_observe id c s
  | Guard g inner =>
      _ ← (match s with SFailure _ => set_ended g | _ => mret tt end);
      observe inner c s
  | Multi None => panic nil_deref
  | Multi (Some children) =>
      (fix each (l : list (nat * observer)) : M U unit :=
         match l with
         | [] => mret tt
         | (child, o) :: rest => _ ← callObserver child s (observe o c s); each rest
         end) children
  end.

(** [multiObserver.each]. *)
Fixpoint each (c : Ctx) (s : signal) (children : list (nat * observer)) : M U unit :=
  match children with
  | [] => mret tt
  | (child, o) :: rest => _ ← callObserver child s (observe o c s); each c s rest
  end.

(** The loop of [MultiObserver] over its arguments, [None] being nil: nil and
    [NopObserver] are skipped, nested multi observers are flattened. *)
Fixpoint collect (obs : list (option observer)) : M U (list (nat * observer)) :=
  match obs with
  | [] => mret []
  | o :: rest =>
      match o with
      | None | Some NopObserver | Some NopObserverPtr => collect rest
      | Some (Multi None) => collect rest
      | Some (Multi (Some cs)) => r ← collect rest; mret (cs ++ r)
      | Some o => child ← new_child; r ← collect rest; mret ((child, o) :: r)
      end
  end.

(** [MultiObserver]. *)
Definition MultiObserver (obs : list (option observer)) : M U observer :=
  children ← collect obs;
  mret (match children with [] => NopObserver | _ => Multi (Some children) end).

(** [WithObserver]: the stored observer never panics. *)
Definition WithObserver (c : Ctx) (o : option observer) : M U Ctx :=
  match o with
  | None | Some NopObserver | Some (Multi None) => mret (with_observer c NopObserver)
  | Some (Multi (Some cs)) => mret (with_observer c (Multi (Some cs)))
  | Some o => o' ← MultiObserver [Some o]; mret (with_observer c o')
  end.

(** [ObserverFromContext(ctx).Signal(ctx, ...)]. *)
Definition raise (c : Ctx) (s : signal) : M U unit :=
  _ ← log_entry (ESignal (cx_scope c) s);
  observe (ObserverFromContext c) c s.

(** A call of a bus' own observer, [b.observer.Signal(ctx, ...)]. *)
Definition raise_to (o : observer) (c : Ctx) (s : signal) : M U unit :=
  _ ← log_entry (ESignal (cx_scope c) s);
  observe o c s.

(** ** Isolation *)

(** An observer that [WithObserver] may have stored. *)
Definition isolated (o : observer) : Prop :=
  match o with NopObserver | NopObserverPtr | Multi (Some _) => True | _ => False end.

Lemma observe_multi cs c s : observe (Multi (Some cs)) c s = each c s cs.
Proof. simpl. induction cs as [|[child o] cs IH]; simpl; [done|]. by rewrite IH. Qed.

(** A run of a child under [callObserver] returns unless the child leaves its
    goroutine. *)
Lemma callObserver_outcome child s fn w :
  (exists w', callObserver child s fn w = (Ret tt, w'))
  \/ (exists w', callObserver child s fn w = (Goexit, w') /\ fn w = (Goexit, w')).
Proof.
  unfold callObserver, recovering.
  destruct (fn w) as [[[]|v|] w']; [by left; eexists| |by right; eexists].
  left. unfold mbind, M_bind, logged_cas. case_bool_decide; simpl; by eexists.
Qed.

Lemma each_no_panic c s cs w v w' : each c s cs w <> (Panicking v, w').
Proof.
  revert w. induction cs as [|[child o] cs IH]; intros w; simpl; [done|].
  unfold mbind, M_bind.
  destruct (callObserver_outcome child s (observe o c s) w) as [[w1 ->]|[w1 [-> _]]];
    [apply IH|done].
Qed.

Lemma isolated_no_panic o c s w v w' : isolated o -> observe o c s w <> (Panicking v, w').
Proof.
  destruct o as [| | |g inner|[cs|]]; try done.
  intros _. rewrite observe_multi. apply each_no_panic.
Qed.

Lemma WithObserver_isolated c o w :
  exists c' w', WithObserver c o w = (Ret c', w') /\ isolated (ObserverFromContext c').
Proof.
  destruct o as [[| |id|g inner|[cs|]]|]; do 2 eexists; (split; [reflexivity|]); done.
Qed.

Lemma raise_no_panic c s w v w' :
  isolated (ObserverFromContext c) -> raise c s w <> (Panicking v, w').
Proof. intros Hi. unfold raise, mbind, M_bind. simpl. by apply isolated_no_panic. Qed.
End observer.

(** ** Frame: what a raised signal can change *)

Section frame.
Context {U : Type} `{Env U} (R : relation (World U)) `{!PreOrder R}.

(** The user's observers keep [R], and so do the flags and the trace of their
    calls. *)
Class observers_keep := {
  keep_observe id c s : respects R (env_observe id c s);
  keep_deliver id s : respects R (log_entry (U := U) (EDeliver id s));
  keep_panic_logged ch m : respects R (log_entry (U := U) (EPanicLogged ch m));
  keep_cas ch m : respects R (logged_cas (U := U) ch m);
  keep_ended g : respects R (set_ended (U := U) g);
}.

Context `{!observers_keep}.

Lemma callObserver_keeps child s fn :
  respects R fn -> respects R (callObserver child s fn).
Proof.
  intros Hfn. apply respects_recovering; [done|done|]. intros _.
  apply respects_bind; [done|apply keep_cas|]. intros []; [apply keep_panic_logged|].
  by apply respects_ret.
Qed.

Fixpoint observe_keeps (o : observer) (c : Ctx) (s : signal) {struct o} :
  respects R (observe o c s).
Proof.
  destruct o as [| |id|g inner|[cs|]]; simpl.
  - by apply respects_ret.
  - by apply respects_ret.
  - apply respects_bind; [done|apply keep_deliver|intros _; apply keep_observe].
  - apply respects_bind; [done| |intros _; apply observe_keeps].
    destruct s; (apply keep_ended || by apply respects_ret).
  - induction cs as [|[child o] cs IH]; [by apply respects_ret|].
    apply respects_bind; [done| |intros _; exact IH].
    apply callObserver_keeps. apply observe_keeps.
  - by apply respects_panic.
Qed.

Lemma raise_keeps c s :
  respects R (log_entry (U := U) (ESignal (cx_scope c) s)) -> respects R (raise c s).
Proof. intros Hl. apply respects_bind; [done|done|]. intros _. apply observe_keeps. Qed.

Lemma raise_to_keeps o c s :
  respects R (log_entry (U := U) (ESignal (cx_scope c) s)) -> respects R (raise_to o c s).
Proof. intros Hl. apply respects_bind; [done|done|]. intros _. apply observe_keeps. Qed.
End frame.

(** ** Termination of a report *)

Section returns.
Context {U : Type} `{Env U}.
Context (Hobs : forall id c s, no_goexit (env_observe (U := U) id c s)).

Lemma callObserver_returns child s fn :
  no_goexit fn -> returns (callObserver (U := U) child s fn).
Proof using Type.
  intros Hfn. apply returns_recovering; [done|]. intros _.
  apply returns_bind; [by intros w; eexists|]. intros []; auto with returns.
Qed.

Fixpoint observe_no_goexit (o : observer) (c : Ctx) (s : signal) {struct o} :
  no_goexit (observe (U := U) o c s).
Proof using Hobs.
  destruct o as [| |id|g inner|[cs|]]; simpl.
  - by intros w.
  - by intros w.
  - apply no_goexit_bind; [by intros w|intros _; apply Hobs].
  - apply no_goexit_bind; [|intros _; apply observe_no_goexit].
    by destruct s; intros w.
  - induction cs as [|[child o] cs IH]; [by intros w|].
    apply no_goexit_bind; [|intros _; exact IH].
    apply returns_no_goexit, callObserver_returns, observe_no_goexit.
  - by intros w.
Qed.

Lemma returns_observe o c s : isolated o -> returns (observe (U := U) o c s).
Proof using Hobs.
  intros Hi w. pose proof (observe_no_goexit o c s w) as Hg.
  destruct (observe o c s w) as [[[]|v|] w1] eqn:E; simpl in *; [by eexists| |done].
  by destruct (isolated_no_panic o c s w v w1 Hi).
Qed.

Lemma returns_raise c s :
  isolated (ObserverFromContext c) -> returns (raise (U := U) c s).
Proof using Hobs.
  intros Hi. apply returns_bind; [apply returns_log|]. intros _. by apply returns_observe.
Qed.
End returns.

(** ** What reaches the user's observers *)

Definition delivery_of (e : entry) : option (nat * signal) :=
  match e with EDeliver i s => Some (i, s) | _ => None end.

Definition deliveries (l : list entry) : list (nat * signal) := omap delivery_of l.

Section deliveries.
Context {U : Type} `{Env U}.
Context (Hlog : forall id c s w, w_log (env_observe (U := U) id c s w).2 = w_log w).

Lemma deliveries_app l1 l2 : deliveries (l1 ++ l2) = deliveries l1 ++ deliveries l2.
Proof using Type. apply omap_app. Qed.

(** One child that does not leave its goroutine is called once. *)
Lemma callObserver_delivers child c id s (w w' : World U) :
  callObserver child s (observe (RawObserver id) c s) w = (Ret tt, w') ->
  deliveries (w_log w') = deliveries (w_log w) ++ [(id, s)].
Proof using Hlog.
  unfold callObserver, recovering. simpl. unfold mbind, M_bind, log_entry. cbn.
  match goal with |- context [env_observe id c s ?wx] =>
    pose proof (Hlog id c s wx) as Hl; destruct (env_observe id c s wx) as [[[]|v|] w4] end;
    simpl in Hl; intros E.
  - injection E as <-. rewrite Hl. apply deliveries_app.
  - unfold logged_cas in E. destruct (bool_decide _) in E; injection E as <-; simpl;
      rewrite ?deliveries_app, Hl, deliveries_app; simpl; by rewrite ?app_nil_r.
  - done.
Qed.

Lemma each_delivers c s chs ids (w w' : World U) :
  length chs = length ids ->
  each c s (zip chs (RawObserver <$> ids)) w = (Ret tt, w') ->
  deliveries (w_log w') = deliveries (w_log w) ++ ((fun i => (i, s)) <$> ids).
Proof using Hlog.
  revert chs w. induction ids as [|id ids IH]; intros [|ch chs] w Hlen E; try done; simpl in *.
  - injection E as ->. by rewrite app_nil_r.
  - apply bind_ret_inv in E as ([] & w1 & E1 & E2).
    rewrite (IH chs w1 ltac:(lia) E2), (callObserver_delivers _ _ _ _ _ _ E1).
    by rewrite <- app_assoc.
Qed.
End deliveries.
