(* ===== verification/Scope.v ===== *)
(** * Failure scopes

    src/scope.go: the per-delivery recorder. A scope is a location of the
    world; [None] is a nil [*FailureScope]. Each method runs under the scope's
    mutex and is one atomic step, except that [flushHandlerDone] calls the
    observer after the lock is released.

    [view s] is what the exactly-once reasoning tracks: the scope's state and
    how many terminal failures and handler results were reported for it. *)

From S2P Require Import Prelude GoErrors Types Runtime Observer.
Local Open Scope list_scope.
Local Open Scope Z_scope.

Section scope.
Context {U : Type} `{Env U}.

(** The scope installed by [WithFailureScope], and by [newDetachedScope]. *)
Definition fresh_scope (settles : bool) : FailureScope :=
  mkScope BreakerNone false None false settles.

(** [WithFailureScope]. *)
Definition WithFailureScope (c : Ctx) : M U (Ctx * nat) :=
  s ← new_scope (fresh_scope true); mret (with_scope c s, s).

(** [newDetachedScope]. *)
Definition newDetachedScope (c : Ctx) : M U (Ctx * nat) :=
  s ← new_scope (fresh_scope false); mret (with_scope c s, s).

(** [FailureScopeFromContext]. *)
Definition FailureScopeFromContext (c : Ctx) : option nat := cx_scope c.

(** [SetBreaker]. *)
Definition SetBreaker (s : option nat) (state : BreakerState) : M U unit :=
  match s with
  | None => mret tt
  | Some s =>
      sc ← get_scope s;
      match sc with
      | None => mret tt
      | Some sc => set_scope s (mkScope state (sc_reported sc) (sc_pending sc)
                                  (sc_flushed sc) (sc_settles sc))
      end
  end.

(** [Breaker]. *)
Definition Breaker (s : option nat) : M U BreakerState :=
  match s with
  | None => mret BreakerNone
  | Some s => sc ← get_scope s;
              mret (match sc with Some sc => sc_breaker sc | None => BreakerNone end)
  end.

(** [markReported]. *)
Definition markReported (s : option nat) : M U bool :=
  match s with
  | None => mret true
  | Some s =>
      sc ← get_scope s;
      match sc with
      | None => mret true
      | Some sc =>
          if sc_reported sc then mret false
          else _ ← set_scope s (mkScope (sc_breaker sc) true (sc_pending sc)
                                  (sc_flushed sc) (sc_settles sc));
               mret true
      end
  end.

(** [deferHandlerDone]. *)
Definition deferHandlerDone (s : option nat) (r : HandlerResult) : M U bool :=
  match s with
  | None => mret false
  | Some s =>
      sc ← get_scope s;
      match sc with
      | None => mret false
      | Some sc =>
          if negb (sc_settles sc) || bool_decide (is_Some (sc_pending sc)) then mret false
          else _ ← set_scope s (mkScope (sc_breaker sc) (sc_reported sc) (Some r)
                                  (sc_flushed sc) (sc_settles sc));
               mret true
      end
  end.

(** A handler result with its final outcome. *)
Definition with_outcome (r : HandlerResult) (o : Outcome) : HandlerResult :=
  mkHandlerResult (hr_handler r) (hr_event r) o (hr_duration r) (hr_err r) (hr_at r).

(** [flushHandlerDone]. *)
Definition flushHandlerDone (s : option nat) (c : Ctx) (o : Outcome) : M U unit :=
  match s with
  | None => mret tt
  | Some l =>
      sc ← get_scope l;
      match sc with
      | None => mret tt
      | Some sc =>
          match sc_pending sc, sc_flushed sc with
          | Some r, false =>
              _ ← set_scope l (mkScope (sc_breaker sc) (sc_reported sc) (sc_pending sc) true
                                 (sc_settles sc));
              raise c (SHandlerDone (with_outcome r o))
          | _, _ => mret tt
          end
      end
  end.
End scope.

(** ** What was reported for a scope *)

Definition is_failure_of (s : nat) (e : entry) : bool :=
  match e with
  | ESignal (Some s') (SFailure _) => bool_decide (s' = s)
  | _ => false
  end.

Definition is_done_of (s : nat) (e : entry) : bool :=
  match e with
  | ESignal (Some s') (SHandlerDone _) => bool_decide (s' = s)
  | _ => false
  end.

(** The signals that end a message or a handler run. *)
Definition is_report (sg : signal) : bool :=
  match sg with SFailure _ | SHandlerDone _ => true | _ => false end.

Definition failures (s : nat) (l : list entry) : nat := length (filter (is_failure_of s) l).
Definition dones (s : nat) (l : list entry) : nat := length (filter (is_done_of s) l).

(** The state of the scope that decides what may still be reported. *)
Definition guard_state (sc : FailureScope) : bool * bool * bool * bool :=
  (sc_reported sc, bool_decide (is_Some (sc_pending sc)), sc_flushed sc, sc_settles sc).

Definition view {U} (s : nat) (w : World U) : option (bool * bool * bool * bool) * nat * nat :=
  (guard_state <$> (w_scopes w !! s), failures s (w_log w), dones s (w_log w)).

(** A computation is quiet for [s] when it leaves the view of [s] as it was. *)
Definition same_view {U} (s : nat) : relation (World U) := fun w w' => view s w' = view s w.
Abbreviation quiet s := (respects (same_view s)).

#[export] Instance same_view_preorder U s : PreOrder (@same_view U s).
Proof. split; [done|]. intros w1 w2 w3 H1 H2. unfold same_view in *. congruence. Qed.

#[export] Instance same_view_sym U s : Symmetric (@same_view U s).
Proof. intros w1 w2 H1. unfold same_view in *. congruence. Qed.

Section facts.
Context {U : Type}.
Implicit Types (w : World U) (s : nat).

Lemma failures_snoc s l e :
  failures s (l ++ [e]) = (failures s l + if is_failure_of s e then 1 else 0)%nat.
Proof.
  unfold failures. rewrite filter_app, length_app. f_equal.
  rewrite filter_cons. case_decide as Hd; destruct (is_failure_of s e); naive_solver.
Qed.

Lemma dones_snoc s l e :
  dones s (l ++ [e]) = (dones s l + if is_done_of s e then 1 else 0)%nat.
Proof.
  unfold dones. rewrite filter_app, length_app. f_equal.
  rewrite filter_cons. case_decide as Hd; destruct (is_done_of s e); naive_solver.
Qed.

Lemma quiet_log s e :
  is_failure_of s e = false -> is_done_of s e = false -> quiet s (log_entry (U := U) e).
Proof.
  intros Hf Hd w. unfold same_view, view. simpl.
  by rewrite failures_snoc, dones_snoc, Hf, Hd, !Nat.add_0_r.
Qed.

Lemma quiet_now s : quiet s (now (U := U)).
Proof. intros w. reflexivity. Qed.
Lemma quiet_sleep s d : quiet s (sleep (U := U) d).
Proof. intros w. reflexivity. Qed.
Lemma quiet_err s c : quiet s (Err (U := U) c).
Proof. intros w. reflexivity. Qed.
Lemma quiet_select s c d : quiet s (select_timer (U := U) c d).
Proof.
  intros w. unfold select_timer, mbind, M_bind, now.
  destruct (cx_done c) as [di|]; [|done]. by destruct (_ <=? _).
Qed.
Lemma quiet_cause s c : quiet s (Cause (U := U) c).
Proof. intros w. reflexivity. Qed.
Lemma quiet_get_scope s l : quiet s (get_scope (U := U) l).
Proof. intros w. reflexivity. Qed.
Lemma quiet_name s e : quiet s (Name (U := U) e).
Proof. intros w. unfold Name. by destruct (ev_name_panics e). Qed.

(** Breaker states are not part of the view. *)
Lemma quiet_SetBreaker s l b : quiet s (SetBreaker (U := U) l b).
Proof.
  destruct l as [l|]; [|by apply respects_ret; apply _].
  intros w. unfold SetBreaker, mbind, M_bind, get_scope.
  destruct (w_scopes w !! l) as [sc|] eqn:E; simpl; [|done].
  unfold same_view, view. simpl. do 2 f_equal.
  destruct (decide (l = s)) as [->|Hne]; simplify_map_eq; done.
Qed.

Lemma quiet_Breaker s l : quiet s (Breaker (U := U) l).
Proof.
  destruct l as [l|]; [|by apply respects_ret; apply _].
  intros w. unfold Breaker, mbind, M_bind, get_scope. reflexivity.
Qed.

(** A new scope is not [s]. *)
Lemma quiet_new_scope s sc w :
  is_Some (w_scopes w !! s) -> view s (new_scope sc w).2 = view s w.
Proof.
  intros Hs. unfold view, new_scope. simpl. do 2 f_equal.
  rewrite lookup_insert_ne; [done|]. intros <-.
  apply elem_of_dom in Hs. by apply (is_fresh (dom (w_scopes w))).
Qed.
End facts.

#[export] Hint Resolve quiet_now quiet_select quiet_sleep quiet_err quiet_cause quiet_get_scope quiet_name
  quiet_SetBreaker quiet_Breaker : respects.
#[export] Hint Extern 2 (quiet _ (log_entry _)) => apply quiet_log; [done|done] : respects.
