(* ===== verification/Dlq.v ===== *)
(** * Dead letters

    src/dlq.go: the record of a failed message, the bounded publish loop and its
    two signals, and the in-memory publisher. A [DLQPublisher] is a parameter of
    the functions that use one. *)

From S2P Require Import Prelude GoErrors Types Failure Runtime Observer Scope.
Local Open Scope string_scope.
Local Open Scope list_scope.
Local Open Scope Z_scope.

Section dlq.
Context {U : Type} `{Env U}.

(** The interface [DLQPublisher]. *)
Definition DLQPublisher : Type := Ctx -> DLQRecord -> M U goerr.

(** [NewDLQRecord]. *)
Definition NewDLQRecord (c : Ctx) (evt : option Event) (handler : string) (cause : goerr)
    : M U DLQRecord :=
  let d := delivery_or_single c in
  let x := (ExecutionFromContext c).1 in
  let handler := if String.eqb handler "" then x_handler x else handler in
  t ← now;
  let '(md, ok) := MetadataFromContext c in
  let event_id := if ok : bool then md_id md else "" in
  let event_name := if ok : bool then md_name md else "" in
  event_name ← (match evt with
                | Some e => if String.eqb event_name "" then Name e else mret event_name
                | None => mret event_name
                end);
  let event_id := match evt with
                  | Some e => if String.eqb event_id ""
                              then default "" (ev_id e) else event_id
                  | None => event_id
                  end in
  mret (mkDLQRecord (d_raw d) (d_headers d) evt event_id event_name cause (ReasonOf cause)
          handler (d_subject d) (AttemptsOf cause) d x t (history_of cause)).

Definition publishAttemptsFinal : nat := 3.
Definition publishBackoff : Z := 100 * 10 ^ 6.

(** The loop of [publishDeadLetter] with [n] attempts left and the current
    delay. *)
Fixpoint publish_loop (p : DLQPublisher) (c : Ctx) (r : DLQRecord) (n : nat) (delay : Z)
    : M U goerr :=
  match n with
  | O => mret None
  | S m =>
      err ← p c r;
      _ ← log_entry (EPublish r err);
      match err with
      | None => mret None
      | Some _ =>
          match m with
          | O => mret err
          | S _ => fired ← select_timer c delay;
                   if fired : bool then publish_loop p c r m (delay * 2) else mret err
          end
      end
  end.

(** [publishDeadLetter]. *)
Definition publishDeadLetter (p : DLQPublisher) (c : Ctx) (r : DLQRecord) : M U goerr :=
  publish_loop p c r (if Final (rec_delivery r) then publishAttemptsFinal else 1)
    publishBackoff.

(** [PublishDeadLetter]. *)
Definition PublishDeadLetter (c : Ctx) (p : DLQPublisher) (r : DLQRecord) : M U goerr :=
  err ← publishDeadLetter p c r;
  match err with
  | Some _ =>
      _ ← raise c (SDLQPublishFailed (mkDLQPublishFailure (rec_handler r) (rec_event_name r)
            (rec_reason r) (rec_subject r) (rec_attempts r) err
            (redactDelivery (rec_delivery r)) (Final (rec_delivery r))));
      mret err
  | None =>
      t ← now;
      let at_ := if IsZero (rec_failed_at r) then t else rec_failed_at r in
      _ ← raise c (SDeadLettered (mkDeadLetterInfo (rec_handler r) (rec_event_name r)
            (rec_reason r) (rec_subject r) (rec_attempts r)
            (redactDelivery (rec_delivery r))
            (match rec_raw r with Some raw => Z.of_nat (String.length raw) | None => 0 end)
            at_));
      mret None
  end.
End dlq.
Arguments DLQPublisher U : clear implicits.

(** ** MemoryDLQ *)

(** [cloneRecord]: on values a copy is the value itself. *)
Definition cloneRecord (r : DLQRecord) : DLQRecord := r.

(** [MemoryDLQ]: the records, oldest first; every method runs under the mutex. *)
Definition NewMemoryDLQ : list DLQRecord := [].
Definition MemoryDLQ_Publish (m : list DLQRecord) (r : DLQRecord) : list DLQRecord * goerr :=
  (m ++ [cloneRecord r], None).
Definition MemoryDLQ_Records (m : list DLQRecord) : list DLQRecord := map cloneRecord m.
Definition MemoryDLQ_Len (m : list DLQRecord) : Z := Z.of_nat (length m).

(** ** What the publish loop does *)

(** The results of the publishes in a trace. *)
Definition publishes (l : list entry) : list goerr :=
  omap (fun e => match e with EPublish _ r => Some r | _ => None end) l.

(** The publishes of a trace are kept. *)
Definition same_publishes {U} : relation (World U) :=
  fun w w' => publishes (w_log w') = publishes (w_log w).

#[export] Instance same_publishes_preorder U : PreOrder (@same_publishes U).
Proof. split; [done|]. intros w1 w2 w3 H1 H2. unfold same_publishes in *. congruence. Qed.

Lemma same_publishes_log {U} (e : entry) :
  publishes [e] = [] -> respects (@same_publishes U) (log_entry e).
Proof.
  intros He w. unfold same_publishes. simpl. unfold publishes in *.
  by rewrite omap_app, He, app_nil_r.
Qed.

Section facts.
Context {U : Type} `{Env U}.
Implicit Types (w : World U) (p : DLQPublisher U) (c : Ctx) (r : DLQRecord).

(** A publisher that reports through its result only: it returns, and leaves
    no entry of its own in the trace of publishes. *)
Definition plain_publisher p : Prop :=
  forall c r w, exists res w', p c r w = (Ret res, w') /\
    publishes (w_log w') = publishes (w_log w).

Lemma publishes_app l1 l2 : publishes (l1 ++ l2) = publishes l1 ++ publishes l2.
Proof. apply omap_app. Qed.

Lemma select_timer_spec c d w :
  exists b t, select_timer c d w =
    (Ret b, mkWorld t (w_log w) (w_scopes w) (w_children w) (w_logged w) (w_ended w)
              (w_user w))
    /\ w_now w <= t <= w_now w + Z.max 0 d
    /\ (b = true -> t = w_now w + Z.max 0 d /\ ctx_err t c = None)
    /\ (b = false -> exists e, ctx_err t c = Some e).
Proof.
  unfold select_timer, mbind, M_bind, now, sleep, mret, M_ret, ctx_err.
  destruct (cx_done c) as [di|] eqn:Ec.
  - destruct (Z.leb_spec (done_at di) (w_now w + Z.max 0 d)).
    + do 2 eexists. split; [reflexivity|]. split; [lia|]. split; [done|].
      intros _. destruct (Z.leb_spec (done_at di)
        (w_now w + Z.max 0 (done_at di - w_now w))); [eauto|lia].
    + do 2 eexists. split; [reflexivity|]. split; [lia|]. split; [|done].
      intros _. split; [done|]. by destruct (Z.leb_spec (done_at di) (w_now w + Z.max 0 d)); [lia|].
  - do 2 eexists. split; [reflexivity|]. split; [lia|]. done.
Qed.

(** The loop leaves a block of publishes in the trace: failures up to the last
    one, whose result it returns. *)
Lemma publish_loop_spec p c r n delay w :
  plain_publisher p -> (0 < n)%nat ->
  exists res errs w', publish_loop p c r n delay w = (Ret res, w')
    /\ publishes (w_log w') = publishes (w_log w) ++ errs ++ [res]
    /\ (length errs < n)%nat
    /\ Forall (fun e => e <> None) errs
    /\ (res <> None -> length errs = (n - 1)%nat \/ exists e, ctx_err (w_now w') c = Some e).
Proof.
  intros Hp. revert delay w. induction n as [|n IH]; intros delay w Hn; [lia|].
  destruct (Hp c r w) as (res & w1 & Hrun & Hlog).
  cbn [publish_loop]. unfold mbind, M_bind. rewrite Hrun.
  unfold log_entry at 1. destruct res as [e|].
  - destruct n as [|n].
    + exists (Some e), [], (mkWorld (w_now w1) (w_log w1 ++ [EPublish r (Some e)])
        (w_scopes w1) (w_children w1) (w_logged w1) (w_ended w1) (w_user w1)).
      split; [done|]. simpl. rewrite publishes_app, Hlog. repeat split; auto.
    + match goal with |- context [select_timer c delay ?w2] =>
        destruct (select_timer_spec c delay w2) as (b & t & Hs & _ & _ & Hf);
        rewrite Hs end.
      destruct b; [|].
      * match goal with |- context [publish_loop p c r (S n) _ ?w3] =>
          destruct (IH (delay * 2) w3) as (res & errs & w' & Hl & Hpub & Hlen & Hall & Hlast);
          [lia|] end.
        rewrite Hl. exists res, (Some e :: errs), w'. split; [done|]. simpl in *.
        rewrite publishes_app, Hlog in Hpub. split; [by rewrite Hpub, <- app_assoc|].
        split; [lia|]. split; [by constructor|]. intros Hr. destruct (Hlast Hr); [left; lia|by right].
      * eexists (Some e), [], _. split; [reflexivity|]. simpl.
        rewrite publishes_app, Hlog. repeat split; auto; simpl; lia.
  - eexists None, [], _. split; [reflexivity|]. simpl.
    rewrite publishes_app, Hlog. repeat split; auto; done.
Qed.

(** A signal is no publish. *)
Lemma same_publishes_raise `{!observers_keep (@same_publishes U)} c sg :
  respects same_publishes (raise c sg).
Proof. apply raise_keeps; [apply _|done|by apply same_publishes_log]. Qed.

Lemma same_publishes_NewDLQRecord c evt h cause :
  respects (@same_publishes U) (NewDLQRecord c evt h cause).
Proof.
  unfold NewDLQRecord. apply respects_bind; [apply _|by intros w|]. intros t.
  destruct (MetadataFromContext c) as [md ok].
  apply respects_bind; [apply _| |intros; by apply respects_ret, _].
  destruct evt as [e|]; [|by apply respects_ret, _].
  apply respects_if; [|by apply respects_ret, _].
  intros w. unfold Name. by destruct (ev_name_panics e).
Qed.

(** [PublishDeadLetter] of a plain publisher: at most three publishes, the
    last one's result is the result. *)
Lemma PublishDeadLetter_run `{!observers_keep (@same_publishes U)} c p r w res w' :
  plain_publisher p -> PublishDeadLetter c p r w = (Ret res, w') ->
  exists errs, publishes (w_log w') = publishes (w_log w) ++ errs ++ [res]
    /\ Forall (fun e => e <> None) errs
    /\ (length errs < if Final (rec_delivery r) then publishAttemptsFinal else 1)%nat.
Proof.
  intros Hp Hrun. unfold PublishDeadLetter in Hrun.
  apply bind_ret_inv in Hrun as (err & w1 & Hrun & Hrest).
  destruct (publish_loop_spec p c r
    (if Final (rec_delivery r) then publishAttemptsFinal else 1) publishBackoff w Hp)
    as (res' & errs & w1' & Hl & Hpub & Hlen & Hall & _); [unfold publishAttemptsFinal; destruct (Final _); simpl; lia|].
  unfold publishDeadLetter in Hrun. rewrite Hl in Hrun. simplify_eq.
  assert (res = err /\ publishes (w_log w') = publishes (w_log w1)) as [-> Hw].
  { destruct err as [e|].
    - apply bind_ret_inv in Hrest as ([] & w2 & Hr & Hret). ret_inv.
      split; [done|]. by apply (respects_run _ _ _ _ _ (same_publishes_raise _ _) Hr).
    - apply bind_ret_inv in Hrest as (t & w2 & Ht & Hrest). ret_inv.
      apply bind_ret_inv in Hrest as ([] & w3 & Hr & Hret). ret_inv.
      split; [done|]. by apply (respects_run _ _ _ _ _ (same_publishes_raise _ _) Hr). }
  rewrite Hw. eauto.
Qed.

(** ** Frame *)

Section keeps.
Context (s : nat) `{!observers_keep (same_view (U := U) s)}.

Lemma quiet_raise c (sg : signal) :
  is_report sg = false -> quiet s (raise c sg).
Proof.
  intros Hr. apply raise_keeps; [apply _|done|].
  by apply quiet_log; destruct (cx_scope c), sg.
Qed.

Lemma quiet_NewDLQRecord c evt h cause : quiet s (NewDLQRecord (U := U) c evt h cause).
Proof.
  unfold NewDLQRecord. apply respects_bind; [apply _|apply quiet_now|]. intros t.
  destruct (MetadataFromContext c) as [md ok].
  apply respects_bind; [apply _| |intros; apply respects_ret; apply _].
  destruct evt as [e|]; [|apply respects_ret; apply _].
  apply respects_if; [apply quiet_name|apply respects_ret; apply _].
Qed.

Lemma quiet_publish_loop p c r n delay :
  (forall c r, quiet s (p c r)) -> quiet s (publish_loop p c r n delay).
Proof.
  intros Hp. revert delay. induction n as [|n IH]; intros delay; cbn [publish_loop];
    [apply respects_ret; apply _|].
  apply respects_bind; [apply _|apply Hp|]. intros err.
  apply respects_bind; [apply _|by apply quiet_log|]. intros _.
  destruct err; [|apply respects_ret; apply _].
  destruct n; [apply respects_ret; apply _|].
  apply respects_bind; [apply _|apply quiet_select|]. intros b.
  apply respects_if; [apply IH|apply respects_ret; apply _].
Qed.

Lemma quiet_PublishDeadLetter p c r :
  (forall c r, quiet s (p c r)) -> quiet s (PublishDeadLetter c p r).
Proof.
  intros Hp. unfold PublishDeadLetter.
  apply respects_bind; [apply _|by apply quiet_publish_loop|]. intros [e|].
  - apply respects_bind; [apply _| |intros _; apply respects_ret; apply _].
    by apply quiet_raise.
  - apply respects_bind; [apply _|apply quiet_now|]. intros t.
    apply respects_bind; [apply _| |intros _; apply respects_ret; apply _].
    by apply quiet_raise.
Qed.
End keeps.
End facts.
