(* ===== verification/Fixtures.v ===== *)
(** * A concrete program around the library

    An environment on which the theorems' hypotheses are discharged: user state
    is a number, observer 1 panics in every method, every other observer and
    every [OnErr] method adds one to the state. The publisher [flaky n] fails
    its first [n] calls. *)

From S2P Require Import Prelude GoErrors Types Failure Runtime Observer Scope Dlq.
Local Open Scope string_scope.
Local Open Scope list_scope.
Local Open Scope Z_scope.

Definition bump : M nat unit := u ← get_user; put_user (S u).

#[export] Instance demo_env : Env nat := {
  env_observe id _ _ := if Nat.eqb id 1 then panic (mkAny "observer" None) else bump;
  env_onerr _ _ _ _ := bump;
  env_stack := "stack";
}.

(** A world at time [t] with the given scopes. *)
Definition demo_world (t : Z) (scopes : gmap nat FailureScope) : World nat :=
  mkWorld t [] scopes 0 ∅ ∅ 0%nat.

(** A publisher whose first calls fail, counting its calls in the user state. *)
Definition flaky (n : nat) : DLQPublisher nat := fun _ _ =>
  u ← get_user; _ ← put_user (S u);
  mret (if Nat.ltb u n then Some (Sentinel (External "publish")) else None).

Section keeps.
Context (R : relation (World nat)) `{!PreOrder R}.
Hypothesis Huser : forall u, respects R (put_user u).

Lemma bump_respects : respects R bump.
Proof. apply respects_bind; [done|by intros w|]. intros u. apply Huser. Qed.

Lemma flaky_respects n c r : respects R (flaky n c r).
Proof.
  apply respects_bind; [done|by intros w|]. intros u.
  apply respects_bind; [done|apply Huser|]. intros _. by apply respects_ret.
Qed.

Lemma demo_observe_respects id c s : respects R (env_observe id c s).
Proof. simpl. destruct (Nat.eqb id 1); [by apply respects_panic|apply bump_respects]. Qed.
End keeps.

#[export] Instance demo_keeps_view s : observers_keep (same_view (U := nat) s).
Proof.
  split; intros; try (by apply quiet_log); try (by intros w).
  by apply demo_observe_respects; [apply _|intros u w].
Qed.

#[export] Instance demo_keeps_publishes : observers_keep (@same_publishes nat).
Proof.
  split; intros; try (by apply same_publishes_log); try (by intros w).
  by apply demo_observe_respects; [apply _|intros u w].
Qed.

Lemma demo_onerr_view s b c e h : quiet s (env_onerr (U := nat) b c e h).
Proof. by apply bump_respects; [apply _|intros u w]. Qed.

Lemma demo_onerr_publishes b c e h : respects same_publishes (env_onerr (U := nat) b c e h).
Proof. by apply bump_respects; [apply _|intros u w]. Qed.

Lemma flaky_view s n c r : quiet s (flaky n c r).
Proof. by apply flaky_respects; [apply _|intros u w]. Qed.

Lemma flaky_plain n : plain_publisher (flaky n).
Proof. intros c r w. do 2 eexists. split; reflexivity. Qed.

(** The environment of a program whose observers and [OnErr] methods do
    nothing, over any user state. *)
Definition silent_env (U : Type) : Env U := {|
  env_observe _ _ _ := mret tt;
  env_onerr _ _ _ _ := mret tt;
  env_stack := "";
|}.

(** Its observers keep every relation that does not look at the trace of
    deliveries or at the observer flags. *)
Lemma silent_keeps {U} (R : relation (World U)) `{!PreOrder R} :
  (forall e, respects R (log_entry (U := U) e)) ->
  (forall ch m, respects R (logged_cas (U := U) ch m)) ->
  (forall g, respects R (set_ended (U := U) g)) ->
  @observers_keep U (silent_env U) R.
Proof.
  intros Hlog Hcas Hend. split; intros; auto; try apply Hlog. by apply respects_ret.
Qed.
