(* ===== verification/Settle.v ===== *)
(** * Settling a message

    src/settle.go: the one post-chain policy of every transport. [Settle]
    decides what happens to a message whose handler chain returned, publishes it
    to the dead-letter queue when the decision is terminal, and reports each
    terminal outcome once. *)

From S2P Require Import Prelude GoErrors Types Failure Runtime Observer Scope Dlq.
Local Open Scope string_scope.
Local Open Scope list_scope.
Local Open Scope Z_scope.

Record SettleInput (U : Type) := mkSettleInput {
  in_sub : option Ctx;
  in_evt : option Event;
  in_handler : string;
  in_err : goerr;
  in_publisher : option (DLQPublisher U);
}.
Arguments mkSettleInput {U}.
Arguments in_sub {U}.
Arguments in_evt {U}.
Arguments in_handler {U}.
Arguments in_err {U}.
Arguments in_publisher {U}.

Record Settlement := mkSettlement {
  s_disposition : Disposition;
  s_reason : string;
  s_outcome : option Outcome;
  s_err : goerr;
}.

Definition zero_settlement : Settlement := mkSettlement DispositionInvalid "" None None.

(** [handlerDoneOutcome]. *)
Definition handlerDoneOutcome (s : Settlement) : Outcome :=
  match s_disposition s with
  | DispositionAck =>
      if bool_decide (s_outcome s = Some OutcomeDeadLettered) then OutcomeDeadLettered
      else OutcomeFailed
  | DispositionTerminal =>
      match s_outcome s with
      | Some OutcomeDeadLettered => OutcomeDeadLettered
      | Some OutcomeDropped => OutcomeDropped
      | _ => OutcomeFailed
      end
  | DispositionRetryDelayed =>
      if negb (bool_decide (s_outcome s = Some OutcomeDLQPublishFailed)) then OutcomeRetry
      else OutcomeFailed
  | DispositionRetry => OutcomeInterrupted
  | DispositionInvalid => OutcomeFailed
  end.

Section settle.
Context {U : Type} `{Env U}.

(** [callEventOnErr]. *)
Definition callEventOnErr (c : Ctx) (behaviour : nat) (handler subject : string)
    (err : goerr) : M U unit :=
  recovering (_ ← log_entry (EOnErr behaviour handler err); env_onerr behaviour c err handler)
    (fun r => raise c (SInternalError (mkInternalErrorInfo ComponentEvent OpPanic handler
                subject (Some (recoveredPanic r))))).

(** [reportTerminal]. *)
Definition reportTerminal (c : Ctx) (i : SettleInput U) (d : Delivery) (outcome : Outcome)
    (reason : string) (err : goerr) : M U unit :=
  let scope := FailureScopeFromContext c in
  first ← markReported scope;
  if negb first then mret tt
  else
    let outcome :=
      if negb (bool_decide (outcome = OutcomeDLQPublishFailed)) && is_nil (in_evt i)
         && isDecodeError err then OutcomeDecodeFailed else outcome in
    let origin := match in_err i with None => err | e => e end in
    breaker ← Breaker scope;
    t ← now;
    _ ← raise c (SFailure (mkFailureContext (in_handler i) (in_evt i)
          (MetadataFromContext c).1 outcome reason err (FailingInvokerOf origin)
          (AttemptsOf err) (redactDelivery d) breaker (history_of err) t));
    match in_evt i with
    | Some e => match ev_onerr e with
                | Some b => callEventOnErr c b (in_handler i) (d_subject d) err
                | None => mret tt
                end
    | None => mret tt
    end.

(** The text of the interruption report. *)
Definition interrupted_error (e : error) : error :=
  Wrapped ("event: subscription ended on the final delivery, no redelivery follows: "
           +:+ error_text e) [e].

(** The branches of [Settle] after an interruption was ruled out. *)
Definition settle_disposed (c : Ctx) (i : SettleInput U) (d : Delivery) : M U Settlement :=
  let err := in_err i in
  let reason := ReasonOf err in
  match Dispose err d with
  | DispositionAck =>
      if Is err ErrDuplicate || negb (Is err ErrDeadLettered)
      then mret (mkSettlement DispositionAck reason None None)
      else _ ← reportTerminal c i d OutcomeDeadLettered reason err;
           mret (mkSettlement DispositionAck reason (Some OutcomeDeadLettered) err)
  | DispositionRetryDelayed =>
      if Is err ErrDeadLetterFailed then
        if Final d
        then _ ← reportTerminal c i d OutcomeDLQPublishFailed reason err;
             mret (mkSettlement DispositionRetryDelayed reason (Some OutcomeDLQPublishFailed) err)
        else mret (mkSettlement DispositionRetryDelayed reason None err)
      else mret (mkSettlement DispositionRetryDelayed reason None None)
  | _ =>
      match in_publisher i with
      | None =>
          _ ← reportTerminal c i d OutcomeDropped reason err;
          mret (mkSettlement DispositionTerminal reason (Some OutcomeDropped) err)
      | Some p =>
          r ← NewDLQRecord c (in_evt i) (in_handler i) err;
          perr ← PublishDeadLetter c p r;
          match perr with
          | Some _ =>
              let failed := Some (DeadLetterFailedError err reason perr) in
              if Final d
              then _ ← reportTerminal c i d OutcomeDLQPublishFailed reason failed;
                   mret (mkSettlement DispositionRetryDelayed reason
                           (Some OutcomeDLQPublishFailed) failed)
              else mret (mkSettlement DispositionRetryDelayed reason None failed)
          | None =>
              let done := Some (DeadLetteredError err reason) in
              _ ← reportTerminal c i d OutcomeDeadLettered reason done;
              mret (mkSettlement DispositionTerminal reason (Some OutcomeDeadLettered) done)
          end
      end
  end.

(** The body of [Settle] for a non-nil error. *)
Definition settle_body (c : Ctx) (i : SettleInput U) (e : error) : M U Settlement :=
  let d := delivery_or_single c in
  _ ← (if is_nil (in_evt i) && isDecodeError (in_err i)
       then raise c (SDecodeFailed (mkDecodeFailure (in_handler i) (d_subject d)
              (ReasonOf (in_err i)) (in_err i) (redactDelivery d) (Final d)))
       else mret tt);
  t ← now;
  if IsInterrupted t (in_sub i) (in_err i) then
    if Final d then
      let serr := Some (interrupted_error e) in
      _ ← reportTerminal c i d OutcomeInterrupted ReasonInterrupted serr;
      mret (mkSettlement DispositionRetry ReasonInterrupted (Some OutcomeInterrupted) serr)
    else mret (mkSettlement DispositionRetry ReasonInterrupted None None)
  else settle_disposed c i d.

(** [Settle]. *)
Definition Settle (c : Ctx) (i : SettleInput U) : M U Settlement :=
  match in_err i with
  | None => mret (mkSettlement DispositionAck "" None None)
  | Some e =>
      let scope := FailureScopeFromContext c in
      deferring zero_settlement (settle_body c i e)
        (fun res => flushHandlerDone scope c (handlerDoneOutcome res))
  end.

(** [reportUnsettled]. *)
Definition reportUnsettled (c : Ctx) (i : SettleInput U) (outcome : Outcome) (err : goerr)
    : M U unit :=
  reportTerminal c i (delivery_or_single c) outcome (ReasonOf err) err.
End settle.

(** ** The exactly-once guard, abstractly

    What a scope allows, as a function of its view: a report counts unless one
    was made before, a flush emits the pending handler result unless it was
    emitted before. *)

Definition scope_view : Type := option (bool * bool * bool * bool) * nat * nat.

Definition report_view (v : scope_view) : scope_view :=
  match v with
  | (Some (rep, pend, fl, se), n, k) =>
      if rep : bool then v else (Some (true, pend, fl, se), S n, k)
  | _ => v
  end.

Definition flush_view (v : scope_view) : scope_view :=
  match v with
  | (Some (rep, true, false, se), n, k) => (Some (rep, true, true, se), n, S k)
  | _ => v
  end.

Lemma report_view_idem v : report_view (report_view v) = report_view v.
Proof. by destruct v as [[[[[[[] ?] ?] ?]|] ?] ?]. Qed.

Lemma flush_report_view v : flush_view (report_view v) = report_view (flush_view v).
Proof. by destruct v as [[[[[[[] []] []] ?]|] ?] ?]. Qed.

Arguments report_view : simpl never.
Arguments flush_view : simpl never.

Section refinement.
Context {U : Type} `{Env U} (s : nat).
Context `{!observers_keep (same_view (U := U) s)}.
(** The user's [OnErr] methods and the publishers do not report for [s]
    themselves. *)
Context (Honerr : forall b c e h, quiet s (env_onerr (U := U) b c e h)).
Context (c : Ctx) (Hc : cx_scope c = Some s).
Implicit Types (w : World U) (i : SettleInput U).

Lemma quiet_callEventOnErr b h subj err : quiet s (callEventOnErr (U := U) c b h subj err).
Proof using Type*.
  apply respects_recovering; [apply _| |].
  - apply respects_bind; [apply _|by apply quiet_log|]. intros _. apply Honerr.
  - intros v. by apply quiet_raise.
Qed.

(** A quiet computation after a world with view [v] leaves the view [v]. *)
Lemma quiet_view {A} (m : M U A) w v : quiet s m -> view s w = v -> view s (m w).2 = v.
Proof. intros Hm <-. apply Hm. Qed.

Lemma reportTerminal_view i d o reason err w :
  is_Some (w_scopes w !! s) ->
  view s (reportTerminal c i d o reason err w).2 = report_view (view s w).
Proof using Type*.
  intros [sc Hsc]. unfold reportTerminal, FailureScopeFromContext. rewrite Hc.
  destruct sc as [b rep pend fl se].
  unfold markReported, get_scope, mbind, M_bind. rewrite Hsc. simpl.
  destruct rep; simpl; [by unfold report_view, view; rewrite Hsc|].
  rewrite lookup_insert_eq. simpl. unfold raise, mbind, M_bind, log_entry. cbn.
  match goal with |- view s (match observe ?o ?c ?sg ?w0 with _ => _ end).2 = ?v =>
    assert (Hw0 : view s w0 = v) by
      (unfold report_view, view; simpl; rewrite Hsc, lookup_insert_eq; simpl; rewrite Hc, failures_snoc,
         dones_snoc; simpl; rewrite bool_decide_eq_true_2 by done; repeat f_equal; lia);
    pose proof (observe_keeps (same_view s) o c sg w0) as Ho;
    destruct (observe o c sg w0) as [[[]|x|] w1]
  end; simpl in Ho; unfold same_view in Ho; rewrite Hw0 in Ho; try exact Ho.
  destruct (in_evt i) as [e|]; [destruct (ev_onerr e) as [bh|]|]; try exact Ho.
  apply (quiet_view _ _ _ (quiet_callEventOnErr bh _ _ _) Ho).
Qed.

Lemma flushHandlerDone_view o w :
  view s (flushHandlerDone (Some s) c o w).2 = flush_view (view s w).
Proof using Type*.
  unfold flushHandlerDone, mbind, M_bind, get_scope.
  destruct (w_scopes w !! s) as [sc|] eqn:Hsc; simpl; [|by unfold flush_view, view; rewrite Hsc].
  destruct sc as [b rep [r|] [] se]; simpl; try (by unfold flush_view, view; rewrite Hsc).
  unfold raise, mbind, M_bind, log_entry. cbn.
  match goal with |- view s (observe ?o ?c ?sg ?w0).2 = ?v =>
    apply (quiet_view _ _ v (observe_keeps (same_view s) o c sg))
  end.
  unfold flush_view, view. simpl. rewrite Hsc, lookup_insert_eq, Hc, failures_snoc, dones_snoc. simpl.
  rewrite ?bool_decide_eq_true_2 by eauto.
  repeat f_equal; lia.
Qed.

(** A result and the view it leaves: a terminal outcome is a report. *)
Definition settled (v : scope_view) (r : outcome (any error) Settlement) (v' : scope_view)
    : Prop :=
  match r with
  | Ret res => v' = match s_outcome res with Some _ => report_view v | None => v end
  | _ => v' = v \/ v' = report_view v
  end.

(** A report followed by a return of a settlement that names an outcome. *)
Lemma settled_report i d o reason err res w :
  is_Some (w_scopes w !! s) -> is_Some (s_outcome res) ->
  let r := (_ ← reportTerminal c i d o reason err; mret res) w in
  settled (view s w) r.1 (view s r.2).
Proof using Type*.
  intros Hsc [o' Ho']. pose proof (reportTerminal_view i d o reason err w Hsc) as Hv.
  unfold mbind, M_bind. destruct (reportTerminal c i d o reason err w) as [[[]|v|] w'];
    simpl in *; rewrite Hv, ?Ho'; auto.
Qed.

Lemma view_scope w w' : view s w' = view s w -> is_Some (w_scopes w !! s) ->
  is_Some (w_scopes w' !! s).
Proof.
  unfold view. intros Hv [sc Hsc]. rewrite Hsc in Hv. destruct (w_scopes w' !! s); [eauto|done].
Qed.

(** A quiet computation followed by one that settles. *)
Lemma settled_bind {A} (m : M U A) k w :
  quiet s m -> is_Some (w_scopes w !! s) ->
  (forall a w', view s w' = view s w -> is_Some (w_scopes w' !! s) ->
     settled (view s w') (k a w').1 (view s (k a w').2)) ->
  settled (view s w) (mbind k m w).1 (view s (mbind k m w).2).
Proof using Type*.
  intros Hm Hsc Hk. specialize (Hm w). unfold mbind, M_bind.
  destruct (m w) as [[a|v|] w'] eqn:E; simpl in Hm; simpl;
    [|by left|by left].
  rewrite <- Hm. apply Hk; [done|by eapply view_scope].
Qed.

Context (i : SettleInput U).
Context (Hpub : forall p c r, in_publisher i = Some p -> quiet s (p c r)).

Lemma settle_disposed_settled d w :
  is_Some (w_scopes w !! s) ->
  settled (view s w) (settle_disposed c i d w).1 (view s (settle_disposed c i d w).2).
Proof using Type*.
  intros Hsc. unfold settle_disposed.
  assert (Hterm : forall w, is_Some (w_scopes w !! s) ->
    let m := match in_publisher i with
      | None => _ ← reportTerminal c i d OutcomeDropped (ReasonOf (in_err i)) (in_err i);
          mret (mkSettlement DispositionTerminal (ReasonOf (in_err i)) (Some OutcomeDropped)
                  (in_err i))
      | Some p =>
          r ← NewDLQRecord c (in_evt i) (in_handler i) (in_err i);
          perr ← PublishDeadLetter c p r;
          match perr with
          | Some _ =>
              let failed := Some (DeadLetterFailedError (in_err i) (ReasonOf (in_err i)) perr) in
              if Final d
              then _ ← reportTerminal c i d OutcomeDLQPublishFailed (ReasonOf (in_err i)) failed;
                   mret (mkSettlement DispositionRetryDelayed (ReasonOf (in_err i))
                           (Some OutcomeDLQPublishFailed) failed)
              else mret (mkSettlement DispositionRetryDelayed (ReasonOf (in_err i)) None failed)
          | None =>
              let done := Some (DeadLetteredError (in_err i) (ReasonOf (in_err i))) in
              _ ← reportTerminal c i d OutcomeDeadLettered (ReasonOf (in_err i)) done;
              mret (mkSettlement DispositionTerminal (ReasonOf (in_err i))
                      (Some OutcomeDeadLettered) done)
          end
      end in settled (view s w) (m w).1 (view s (m w).2)).
  { clear w Hsc. intros w Hsc. destruct (in_publisher i) as [p|] eqn:Ep.
    - apply settled_bind; [apply quiet_NewDLQRecord|done|]. intros r w1 _ Hsc1.
      apply settled_bind; [apply quiet_PublishDeadLetter; auto|done|]. intros [e|] w2 _ Hsc2.
      + destruct (Final d); [by apply settled_report|done].
      + by apply settled_report.
    - by apply settled_report. }
  destruct (Dispose (in_err i) d); try (by apply Hterm).
  - destruct (_ || _); [done|by apply settled_report].
  - destruct (Is (in_err i) ErrDeadLetterFailed); [|done].
    destruct (Final d); [by apply settled_report|done].
Qed.

Lemma settle_body_settled e w :
  is_Some (w_scopes w !! s) ->
  settled (view s w) (settle_body c i e w).1 (view s (settle_body c i e w).2).
Proof using Type*.
  intros Hsc. unfold settle_body. apply settled_bind; [|done|].
  - apply respects_if; [by apply quiet_raise|by apply respects_ret, _].
  - intros _ w1 _ Hsc1. apply settled_bind; [apply quiet_now|done|]. intros t w2 _ Hsc2.
    destruct (IsInterrupted _ _ _); [|by apply settle_disposed_settled].
    destruct (Final _); [by apply settled_report|done].
Qed.

(** [Settle] of a non-nil error: a report when it names an outcome, and one
    flush of the pending handler result whatever happens. *)
Lemma Settle_settled e w :
  in_err i = Some e -> is_Some (w_scopes w !! s) ->
  settled (flush_view (view s w)) (Settle c i w).1 (view s (Settle c i w).2).
Proof using Type*.
  intros He Hsc. unfold Settle, FailureScopeFromContext. rewrite He, Hc.
  pose proof (settle_body_settled e w Hsc) as Hb.
  unfold deferring. destruct (settle_body c i e w) as [[res|v|] w1]; simpl in Hb;
    unfold mbind, M_bind;
    match goal with |- context [flushHandlerDone (Some s) c ?o w1] =>
         pose proof (flushHandlerDone_view o w1) as Hf;
         destruct (flushHandlerDone (Some s) c o w1) as [[[]|x|] w2] end;
    simpl in *; rewrite Hf;
    first [ rewrite Hb; destruct (s_outcome res); rewrite ?flush_report_view; auto; fail
          | destruct Hb as [-> | ->]; rewrite ?flush_report_view; auto; fail ].
Qed.
End refinement.

(** ** The decision, without the effects

    [settlement_of] is what [Settle] returns for a failure, given whether the
    subscription ended and, when it publishes, the result [perr] of the
    publish. *)

Definition publish_needed (err : goerr) (d : Delivery) (interrupted : bool) : bool :=
  negb interrupted && bool_decide (Dispose err d = DispositionTerminal).

Definition settlement_of (e : error) (d : Delivery) (interrupted has_publisher : bool)
    (perr : goerr) : Settlement :=
  let err := Some e in
  let reason := ReasonOf err in
  if interrupted then
    if Final d
    then mkSettlement DispositionRetry ReasonInterrupted (Some OutcomeInterrupted)
           (Some (interrupted_error e))
    else mkSettlement DispositionRetry ReasonInterrupted None None
  else match Dispose err d with
  | DispositionAck =>
      if Is err ErrDuplicate || negb (Is err ErrDeadLettered)
      then mkSettlement DispositionAck reason None None
      else mkSettlement DispositionAck reason (Some OutcomeDeadLettered) err
  | DispositionRetryDelayed =>
      if Is err ErrDeadLetterFailed
      then mkSettlement DispositionRetryDelayed reason
             (if Final d then Some OutcomeDLQPublishFailed else None) err
      else mkSettlement DispositionRetryDelayed reason None None
  | _ =>
      if has_publisher then
        match perr with
        | Some _ => mkSettlement DispositionRetryDelayed reason
                      (if Final d then Some OutcomeDLQPublishFailed else None)
                      (Some (DeadLetterFailedError err reason perr))
        | None => mkSettlement DispositionTerminal reason (Some OutcomeDeadLettered)
                    (Some (DeadLetteredError err reason))
        end
      else mkSettlement DispositionTerminal reason (Some OutcomeDropped) err
  end.

(** When [Settle] looks at the subscription: at the start, or once the observers of
    an undecodable message were told. *)
Definition checked_at {U} `{Env U} (c : Ctx) (i : SettleInput U) (w : World U) : Z :=
  let d := delivery_or_single c in
  if is_nil (in_evt i) && isDecodeError (in_err i)
  then w_now (raise c (SDecodeFailed (mkDecodeFailure (in_handler i) (d_subject d)
         (ReasonOf (in_err i)) (in_err i) (redactDelivery d) (Final d))) w).2
  else w_now w.

(** A run that returned without an effect. *)
Ltac ret_same := ret_inv; try (split; [done|reflexivity]); try reflexivity; try done.

Section functional.
Context {U : Type} `{Env U} `{!observers_keep (@same_publishes U)}.
Context (Honerr : forall b c e h, respects same_publishes (env_onerr (U := U) b c e h)).
Implicit Types (w : World U) (i : SettleInput U) (c : Ctx).

Lemma same_publishes_reportTerminal c i d o reason err :
  respects same_publishes (reportTerminal (U := U) c i d o reason err).
Proof using Type*.
  unfold reportTerminal. apply respects_bind; [apply _| |].
  - intros w. unfold markReported, mbind, M_bind, get_scope. simpl.
    destruct (FailureScopeFromContext c); [|done].
    destruct (w_scopes w !! _) as [[? [] ? ? ?]|]; done.
  - intros b. apply respects_if; [by apply respects_ret, _|].
    apply respects_bind; [apply _| |intros br].
    { intros w. by destruct (FailureScopeFromContext c). }
    apply respects_bind; [apply _|by intros w|intros t].
    apply respects_bind; [apply _|apply same_publishes_raise|intros _].
    destruct (in_evt i) as [e|]; [destruct (ev_onerr e) as [bh|]|];
      try (by apply respects_ret, _).
    apply respects_recovering; [apply _| |intros; apply same_publishes_raise].
    apply respects_bind; [apply _|by apply same_publishes_log|intros _; apply Honerr].
Qed.

Lemma same_publishes_flush l c o : respects same_publishes (flushHandlerDone (U := U) l c o).
Proof using Type*.
  intros w. destruct l as [l|]; [|done].
  unfold flushHandlerDone, mbind, M_bind, get_scope.
  destruct (w_scopes w !! l) as [[? ? [r|] [] ?]|]; try done. simpl.
  match goal with |- same_publishes _ (raise ?c ?s ?w0).2 =>
    exact (same_publishes_raise c s w0) end.
Qed.

Lemma same_publishes_report_ret {A} c i d o reason err (a b : A) w w' :
  (_ ← reportTerminal c i d o reason err; mret a) w = (Ret b, w') ->
  b = a /\ same_publishes w w'.
Proof using Type*.
  intros Hr. apply bind_ret_inv in Hr as ([] & w1 & Hr & Hret). ret_inv.
  split; [done|]. by apply (respects_run _ _ _ _ _ (same_publishes_reportTerminal _ _ _ _ _ _) Hr).
Qed.

Context (c : Ctx) (i : SettleInput U).
Context (Hpub : forall p, in_publisher i = Some p -> plain_publisher p).

(** The publishes between two worlds: none, or a bounded block ending in [perr]. *)
Definition publish_block (needed : bool) (d : Delivery) (perr : goerr) (w w' : World U) : Prop :=
  if needed then
    exists errs, publishes (w_log w') = publishes (w_log w) ++ errs ++ [perr]
      /\ Forall (fun e => e <> None) errs
      /\ (length errs < if Final d then publishAttemptsFinal else 1)%nat
  else same_publishes w w'.

Lemma publish_block_frame b d perr w w0 w1 w' :
  same_publishes w w0 -> same_publishes w1 w' ->
  publish_block b d perr w0 w1 -> publish_block b d perr w w'.
Proof.
  unfold publish_block, same_publishes. intros H0 H1. destruct b; [|congruence].
  intros (errs & Hl & ?). exists errs. by rewrite H1, Hl, H0.
Qed.

Lemma NewDLQRecord_delivery evt h cause w r w' :
  NewDLQRecord (U := U) c evt h cause w = (Ret r, w') -> rec_delivery r = delivery_or_single c.
Proof.
  unfold NewDLQRecord. intros Hr. apply bind_ret_inv in Hr as (t & w1 & _ & Hr).
  destruct (MetadataFromContext c). apply bind_ret_inv in Hr as (n & w2 & _ & Hr).
  ret_same.
Qed.

Lemma settle_terminal_run e d w res w' :
  in_err i = Some e -> d = delivery_or_single c ->
  Dispose (Some e) d = DispositionTerminal ->
  settle_disposed c i d w = (Ret res, w') ->
  exists perr, res = settlement_of e d false (negb (is_nil (in_publisher i))) perr
    /\ publish_block (negb (is_nil (in_publisher i))) d perr w w'.
Proof using Type*.
  intros He Hd HD Hrun. unfold settle_disposed in Hrun. unfold settlement_of.
  rewrite He, HD in Hrun. rewrite HD.
  destruct (in_publisher i) as [p|] eqn:Ep; simpl.
  - apply bind_ret_inv in Hrun as (r & w1 & Hr & Hrun).
    pose proof (NewDLQRecord_delivery _ _ _ _ _ _ Hr) as Hrd.
    apply (respects_run _ _ _ _ _ (same_publishes_NewDLQRecord _ _ _ _)) in Hr.
    apply bind_ret_inv in Hrun as (perr & w2 & Hp & Hrun).
    destruct (PublishDeadLetter_run _ _ _ _ _ _ (Hpub p eq_refl) Hp) as (errs & Hl & Hall & Hn).
    rewrite Hrd, <- Hd in Hn. unfold same_publishes in Hr. rewrite Hr in Hl.
    assert (Hres : res = settlement_of e d false true perr /\ same_publishes w2 w').
    { unfold settlement_of. rewrite HD. destruct perr as [pe|].
      - destruct (Final d).
        + by apply same_publishes_report_ret in Hrun.
        + ret_same.
      - by apply same_publishes_report_ret in Hrun. }
    destruct Hres as [-> Hsame]. exists perr. split; [by unfold settlement_of; rewrite HD|].
    exists errs. unfold same_publishes in Hsame. by rewrite Hsame.
  - exists None. by apply same_publishes_report_ret in Hrun.
Qed.

Lemma settle_disposed_run e d w res w' :
  in_err i = Some e -> d = delivery_or_single c ->
  settle_disposed c i d w = (Ret res, w') ->
  exists perr, res = settlement_of e d false (negb (is_nil (in_publisher i))) perr
    /\ publish_block (publish_needed (Some e) d false && negb (is_nil (in_publisher i)))
         d perr w w'.
Proof using Type*.
  intros He Hd Hrun. unfold publish_needed. simpl.
  destruct (Dispose_range (Some e) d) as [HD|[HD|HD]].
  3:{ rewrite bool_decide_eq_true_2 by done. by eapply settle_terminal_run. }
  all: rewrite bool_decide_eq_false_2 by (by rewrite HD); simpl; exists None.
  all: unfold settle_disposed in Hrun; unfold settlement_of; rewrite He, HD in Hrun; rewrite HD.
  - destruct (_ || _); [ret_same|by apply same_publishes_report_ret in Hrun].
  - destruct (Is _ _); [|ret_same].
    destruct (Final d); [by apply same_publishes_report_ret in Hrun|ret_same].
Qed.

(** A run of [Settle] that returns: the settlement is [settlement_of], with the
    subscription as it was when [Settle] looked at it, and the dead-letter publishes
    are exactly the ones the decision needs. *)
Lemma Settle_run e w res w' :
  in_err i = Some e -> Settle c i w = (Ret res, w') ->
  exists perr, let d := delivery_or_single c in
    let intr := IsInterrupted (checked_at c i w) (in_sub i) (Some e) in
    res = settlement_of e d intr (negb (is_nil (in_publisher i))) perr
    /\ publish_block (publish_needed (Some e) d intr && negb (is_nil (in_publisher i)))
         d perr w w'.
Proof using Type*.
  intros He Hrun. unfold Settle in Hrun. rewrite He in Hrun.
  apply deferring_ret_inv in Hrun as (w1 & Hrun & Hflush).
  apply (respects_run _ _ _ _ _ (same_publishes_flush _ _ _)) in Hflush.
  unfold settle_body in Hrun. apply bind_ret_inv in Hrun as ([] & w0 & Hdec & Hrun).
  assert (Hw0 : same_publishes w w0 /\ w_now w0 = checked_at c i w).
  { unfold checked_at. destruct (_ && _); [|by apply mret_inv in Hdec as [_ ->]].
    rewrite Hdec. by split; [apply (respects_run _ _ _ _ _ (same_publishes_raise _ _) Hdec)|]. }
  destruct Hw0 as [Hw0 Hat].
  apply bind_ret_inv in Hrun as (t & w0' & Ht & Hrun).
  apply now_inv in Ht as [-> ->].
  unfold same_publishes in Hw0, Hflush. rewrite He in Hrun. rewrite <- Hat.
  destruct (IsInterrupted (w_now w0) (in_sub i) (Some e)) eqn:Ei; simpl.
  - exists None. unfold settlement_of. destruct (Final (delivery_or_single c)).
    + apply same_publishes_report_ret in Hrun as [-> Hs]. split; [done|].
      unfold same_publishes in *. simpl. congruence.
    + ret_inv. split; [done|]. unfold same_publishes. congruence.
  - destruct (settle_disposed_run e _ _ _ _ He eq_refl Hrun) as (perr & -> & Hb).
    exists perr. split; [done|]. by apply (publish_block_frame _ _ _ w w0 w1 w').
Qed.
End functional.

(** ** Termination *)

Section returns.
Context {U : Type} `{Env U}.
Context (Hobs : forall id c s, no_goexit (env_observe (U := U) id c s)).
Context (Honerr : forall b c e h, no_goexit (env_onerr (U := U) b c e h)).
Context (c : Ctx) (Hiso : isolated (ObserverFromContext c)).
Implicit Types (i : SettleInput U) (p : DLQPublisher U).

Lemma returns_markReported s : returns (markReported (U := U) s).
Proof using Type.
  destruct s as [s|]; [|apply returns_ret]. apply returns_bind; [apply returns_get_scope|].
  intros [sc|]; [|apply returns_ret]. apply returns_if; [apply returns_ret|].
  apply returns_bind; auto with returns.
Qed.

Lemma returns_Breaker s : returns (Breaker (U := U) s).
Proof using Type.
  destruct s as [s|]; [|apply returns_ret]. apply returns_bind; auto with returns.
Qed.

Lemma returns_flush s o : returns (flushHandlerDone (U := U) s c o).
Proof using Hobs Hiso.
  destruct s as [s|]; [|apply returns_ret]. apply returns_bind; [apply returns_get_scope|].
  intros [[? ? [r|] [] ?]|]; try apply returns_ret.
  apply returns_bind; [apply returns_set_scope|]. intros _. by apply returns_raise.
Qed.

Lemma returns_reportTerminal i d o reason err :
  returns (reportTerminal (U := U) c i d o reason err).
Proof using Hobs Honerr Hiso.
  unfold reportTerminal. apply returns_bind; [apply returns_markReported|]. intros b.
  apply returns_if; [apply returns_ret|].
  apply returns_bind; [apply returns_Breaker|intros br].
  apply returns_bind; [apply returns_now|intros t].
  apply returns_bind; [by apply returns_raise|intros _].
  destruct (in_evt i) as [e|]; [destruct (ev_onerr e) as [bh|]|]; try apply returns_ret.
  apply returns_recovering; [|intros v; by apply returns_raise].
  apply no_goexit_bind; [by intros w|intros _; apply Honerr].
Qed.

(** The name of the event of the record is known without calling a panicking
    [Name]. *)
Definition nameable (evt : option Event) : Prop :=
  forall e, evt = Some e -> ev_name_panics e = false \/
    exists md, cx_metadata c = Some md /\ md_name md <> "".

Lemma returns_NewDLQRecord evt h cause :
  nameable evt -> returns (NewDLQRecord (U := U) c evt h cause).
Proof using Type.
  intros Hn. unfold NewDLQRecord, MetadataFromContext.
  apply returns_bind; [apply returns_now|]. intros t.
  destruct (cx_metadata c) as [md|] eqn:Em;
    (apply returns_bind; [|intros; apply returns_ret]);
    (destruct evt as [e|]; [|apply returns_ret]);
    (destruct (String.eqb _ _) eqn:En; [|apply returns_ret]);
    intros w; unfold Name; destruct (Hn e eq_refl) as [-> |(md' & Hm & Hne)];
    try (by eexists); simplify_eq; by b2p.
Qed.

Lemma returns_publish_loop p r n delay :
  (forall c r, returns (p c r)) -> returns (publish_loop p c r n delay).
Proof using Type.
  intros Hp. revert delay. induction n as [|n IH]; intros delay; cbn [publish_loop];
    [apply returns_ret|].
  apply returns_bind; [apply Hp|]. intros err.
  apply returns_bind; [apply returns_log|]. intros _.
  destruct err; [|apply returns_ret]. destruct n; [apply returns_ret|].
  apply returns_bind; [apply returns_select|]. intros b.
  apply returns_if; [apply IH|apply returns_ret].
Qed.

Lemma returns_PublishDeadLetter p r :
  (forall c r, returns (p c r)) -> returns (PublishDeadLetter c p r).
Proof using Hobs Hiso.
  intros Hp. apply returns_bind; [by apply returns_publish_loop|]. intros [e|].
  - apply returns_bind; [by apply returns_raise|intros; apply returns_ret].
  - apply returns_bind; [apply returns_now|]. intros t.
    apply returns_bind; [by apply returns_raise|intros; apply returns_ret].
Qed.

Lemma returns_report_ret {A} i d o reason err (a : A) :
  returns (_ ← reportTerminal (U := U) c i d o reason err; mret a).
Proof using Hobs Honerr Hiso.
  apply returns_bind; [apply returns_reportTerminal|intros; apply returns_ret].
Qed.

Lemma returns_settle_disposed i d :
  nameable (in_evt i) ->
  (forall p c r, in_publisher i = Some p -> returns (p c r)) ->
  returns (settle_disposed c i d).
Proof using Hobs Honerr Hiso.
  intros Hn Hp. unfold settle_disposed.
  assert (Hend : forall o r err (s : Settlement), returns (_ ← reportTerminal (U := U) c i d o r err; mret s))
    by (intros; apply returns_report_ret).
  destruct (Dispose (in_err i) d);
    try (apply returns_if; auto with returns; apply returns_if; auto with returns; fail);
    (destruct (in_publisher i) as [p|] eqn:Ep; [|apply Hend]);
    (apply returns_bind; [by apply returns_NewDLQRecord|intros r]);
    (apply returns_bind; [apply returns_PublishDeadLetter; eauto|intros [pe|]]); try apply Hend;
    apply returns_if; auto with returns.
Qed.

Lemma returns_Settle i :
  nameable (in_evt i) ->
  (forall p c r, in_publisher i = Some p -> returns (p c r)) ->
  returns (Settle c i).
Proof using Hobs Honerr Hiso.
  intros Hn Hp. unfold Settle. destruct (in_err i) as [e|] eqn:Ei; [|apply returns_ret].
  apply returns_deferring; [|intros; apply returns_flush].
  unfold settle_body. apply returns_bind.
  { apply returns_if; [by apply returns_raise|apply returns_ret]. }
  intros _. apply returns_bind; [apply returns_now|intros t].
  apply returns_if; [|by apply returns_settle_disposed].
  apply returns_if; [apply returns_report_ret|apply returns_ret].
Qed.
End returns.
