(* ===== verification/Records.v ===== *)
(** * What is on record

    The facts about the trace that the no-loss properties use: a trace that only
    grows, a terminal failure or a stored dead letter between two worlds, and who
    may mark a failure scope as reported. [reportTerminal] leaves a [Failure]
    signal behind unless the scope was reported before, and a settlement that names
    an outcome went through it. *)

From S2P Require Import Prelude GoErrors Types Failure Runtime Observer Scope Dlq.
From S2P Require Import Settle.
Local Open Scope list_scope.
Local Open Scope Z_scope.

(** A terminal failure that was reported, or a dead letter that was stored. *)
Definition on_record (e : entry) : bool :=
  match e with
  | ESignal _ (SFailure _) | EPublish _ None => true
  | _ => false
  end.

(** ** Traces that grow *)

Section grows.
Context {U : Type}.
Implicit Types (w : World U).

Definition grows : relation (World U) := fun w w' => exists new, w_log w' = w_log w ++ new.

#[export] Instance grows_preorder : PreOrder grows.
Proof.
  split; [intros w; exists []; by rewrite app_nil_r|].
  intros w1 w2 w3 [n1 H1] [n2 H2]. exists (n1 ++ n2). by rewrite H2, H1, app_assoc.
Qed.

(** A record between two worlds. *)
Definition has_record w w' : Prop :=
  exists new, w_log w' = w_log w ++ new /\ existsb on_record new = true.

Lemma has_record_after w w1 w2 : grows w w1 -> has_record w1 w2 -> has_record w w2.
Proof.
  intros [n1 H1] (n2 & H2 & Hr). exists (n1 ++ n2). rewrite H2, H1, app_assoc. split; [done|].
  rewrite existsb_app, Hr. apply orb_true_r.
Qed.

Lemma has_record_before w w1 w2 : has_record w w1 -> grows w1 w2 -> has_record w w2.
Proof.
  intros (n1 & H1 & Hr) [n2 H2]. exists (n1 ++ n2). rewrite H2, H1, app_assoc. split; [done|].
  by rewrite existsb_app, Hr.
Qed.

Lemma has_record_entry w w' e new :
  w_log w' = w_log w ++ e :: new -> on_record e = true -> has_record w w'.
Proof. intros Hl He. exists (e :: new). split; [done|]. simpl. by rewrite He. Qed.

(** ** Who marks a scope *)

(** The scope [l] was reported; a nil scope, or an unknown one, never is. *)
Definition scope_reported (l : option nat) w : bool :=
  match l with
  | Some s => match w_scopes w !! s with Some sc => sc_reported sc | None => false end
  | None => false
  end.

(** The trace grows, and the scope is marked as reported only with a record:
    [markReported] is not exported, the user's code reaches it through [Settle]. *)
Definition marked (l : option nat) : relation (World U) := fun w w' =>
  exists new, w_log w' = w_log w ++ new
    /\ (scope_reported l w' = true -> scope_reported l w = true \/ existsb on_record new = true).

(** The trace grows, and the scope is not marked. *)
Definition unmarked (l : option nat) : relation (World U) := fun w w' =>
  grows w w' /\ (scope_reported l w' = true -> scope_reported l w = true).

#[export] Instance marked_preorder l : PreOrder (marked l).
Proof.
  split.
  - intros w. exists []. rewrite app_nil_r. auto.
  - intros w1 w2 w3 (n1 & H1 & G1) (n2 & H2 & G2). exists (n1 ++ n2).
    rewrite H2, H1, app_assoc. split; [done|]. rewrite existsb_app.
    intros Hg. destruct (G2 Hg) as [Hg'| ->]; [|right; by rewrite orb_true_r].
    destruct (G1 Hg') as [|Hn]; [by left|]. right. by rewrite Hn.
Qed.

#[export] Instance unmarked_preorder l : PreOrder (unmarked l).
Proof. split; [by intros w|]. intros w1 w2 w3 [H1 G1] [H2 G2]. split; [by etransitivity|auto]. Qed.

Lemma marked_log l e : respects (marked l) (log_entry (U := U) e).
Proof. intros w. exists [e]. auto. Qed.

Lemma unmarked_log l e : respects (unmarked l) (log_entry (U := U) e).
Proof. intros w. split; [by exists [e]|done]. Qed.

Lemma marked_grows l w w' : marked l w w' -> grows w w'.
Proof. intros (n & Hl & _). by exists n. Qed.

Lemma marked_unreported l w0 w w' :
  scope_reported l w0 = false -> marked l w0 w -> scope_reported l w = true -> has_record w0 w.
Proof. intros H0 (n & Hl & Hr) Hw. exists n. split; [done|]. destruct (Hr Hw); [congruence|done]. Qed.

Lemma marked_same {A} l (m : M U A) :
  (forall w, w_log (m w).2 = w_log w /\ scope_reported l (m w).2 = scope_reported l w) ->
  respects (marked l) m.
Proof. intros Hm w. destruct (Hm w) as [Hl He]. exists []. rewrite Hl, He, app_nil_r. auto. Qed.
End grows.

(** Observers that keep [marked] keep it through any signal. *)
Lemma marked_observers {U} `{Env U} l :
  (forall id c s, respects (marked l) (env_observe (U := U) id c s)) ->
  observers_keep (marked (U := U) l).
Proof.
  intros Ho. split; intros; try apply Ho; try apply marked_log; by apply marked_same.
Qed.

Lemma unmarked_observers {U} `{Env U} l :
  (forall id c s, respects (unmarked l) (env_observe (U := U) id c s)) ->
  observers_keep (unmarked (U := U) l).
Proof.
  intros Ho. split; intros; try apply Ho; try apply unmarked_log;
    (intros w; split; [exists []; by rewrite app_nil_r|done]).
Qed.

(** ** The report of a terminal outcome *)

(** [fc] is the failure that [Settle] reports for the input [i]. *)
Definition reports_failure {U} (i : SettleInput U) (c : Ctx) (o : Outcome) (reason : string)
    (err : goerr) (fc : FailureContext) : Prop :=
  fc_handler fc = in_handler i /\ fc_event fc = in_evt i
  /\ fc_outcome fc = (if negb (bool_decide (o = OutcomeDLQPublishFailed)) && is_nil (in_evt i)
                         && isDecodeError err then OutcomeDecodeFailed else o)
  /\ fc_reason fc = reason /\ fc_cause fc = err
  /\ fc_delivery fc = redactDelivery (delivery_or_single c).

(** A failure signal of the scope of [c] between two worlds. *)
Definition failure_raised {U} (c : Ctx) (P : FailureContext -> Prop) (w w' : World U) : Prop :=
  exists fc before after,
    w_log w' = w_log w ++ before ++ ESignal (cx_scope c) (SFailure fc) :: after /\ P fc.

Lemma failure_raised_after {U} c P (w w1 w2 : World U) :
  grows w w1 -> failure_raised c P w1 w2 -> failure_raised c P w w2.
Proof.
  intros [n Hn] (fc & l1 & l2 & Hl & HP). exists fc, (n ++ l1), l2. split; [|done].
  by rewrite Hl, Hn, <- !app_assoc.
Qed.

Lemma failure_raised_before {U} c P (w w1 w2 : World U) :
  failure_raised c P w w1 -> grows w1 w2 -> failure_raised c P w w2.
Proof.
  intros (fc & l1 & l2 & Hl & HP) [n Hn]. exists fc, l1, (l2 ++ n). split; [|done].
  rewrite Hn, Hl, <- !app_assoc. done.
Qed.

Lemma failure_raised_record {U} c P (w w' : World U) : failure_raised c P w w' -> has_record w w'.
Proof.
  intros (fc & l1 & l2 & Hl & _). exists (l1 ++ ESignal (cx_scope c) (SFailure fc) :: l2).
  split; [done|]. rewrite existsb_app. simpl. apply orb_true_r.
Qed.

Section report.
Context {U : Type} `{Env U}.
Context (Hobs : observers_keep (grows (U := U))).
Context (Honerr : forall b c e h, respects grows (env_onerr (U := U) b c e h)).
Implicit Types (w : World U) (i : SettleInput U) (c : Ctx).

Lemma grows_log e : respects grows (log_entry (U := U) e).
Proof using Type. intros w. by exists [e]. Qed.

Lemma grows_raise c s : respects grows (raise (U := U) c s).
Proof using Hobs. apply raise_keeps; [apply _|done|apply grows_log]. Qed.

Lemma grows_callEventOnErr c b h subj err : respects grows (callEventOnErr (U := U) c b h subj err).
Proof using Hobs Honerr.
  apply respects_recovering; [apply _| |intros; by apply grows_raise].
  apply respects_bind; [apply _|apply grows_log|intros _; apply Honerr].
Qed.

(** The first report of a scope raises the failure. *)
Lemma reportTerminal_raises c i o reason err w :
  scope_reported (cx_scope c) w = false ->
  failure_raised c (reports_failure i c o reason err) w
    (reportTerminal c i (delivery_or_single c) o reason err w).2.
Proof using Hobs Honerr.
  intros Hn. unfold reportTerminal, FailureScopeFromContext.
  assert (Hm : exists w1, markReported (cx_scope c) w = (Ret true, w1) /\ w_log w1 = w_log w).
  { unfold markReported, get_scope, mbind, M_bind, scope_reported in *.
    destruct (cx_scope c) as [s|]; [|by eexists].
    destruct (w_scopes w !! s) as [sc|]; [|by eexists]. rewrite Hn. by eexists. }
  destruct Hm as (w1 & Hm & Hl). rewrite (bind_run _ _ _ _ _ Hm). cbn [negb].
  assert (exists st, Breaker (cx_scope c) w1 = (Ret st, w1)) as [st Hb]
    by (unfold Breaker; destruct (cx_scope c); by eexists).
  rewrite (bind_run _ _ _ _ _ Hb). erewrite bind_run by reflexivity.
  match goal with |- context [raise c (SFailure ?f)] => set (fc := f) end.
  apply (failure_raised_before _ _ _ (raise c (SFailure fc) w1).2).
  - destruct (observe_keeps grows (ObserverFromContext c) c (SFailure fc)
      (log_entry (ESignal (cx_scope c) (SFailure fc)) w1).2) as [n Hn'].
    exists fc, [], n. split; [|by repeat split]. rewrite app_nil_l, <- Hl.
    etransitivity; [exact Hn'|]. cbn. by rewrite <- app_assoc.
  - unfold mbind, M_bind. destruct (raise c (SFailure fc) w1) as [[[]|v|] w2]; cbn [snd]; try done.
    destruct (in_evt i) as [e|]; [destruct (ev_onerr e) as [bh|]|]; try done.
    apply grows_callEventOnErr.
Qed.
End report.

(** ** Settlements that name an outcome *)

Section settlement.
Context {U : Type} `{Env U} (c : Ctx) (i : SettleInput U).
Context (Hobs : observers_keep (unmarked (U := U) (cx_scope c))).
Context (Honerr : forall b c' e h, respects (unmarked (cx_scope c)) (env_onerr (U := U) b c' e h)).
Context (Hpub : forall p c' r, in_publisher i = Some p -> respects (unmarked (cx_scope c)) (p c' r)).
Implicit Types (w : World U).

Lemma unmarked_grows {A} l (m : M U A) : respects (unmarked l) m -> respects grows m.
Proof using Type. intros Hm w. apply Hm. Qed.

Lemma grows_observers : observers_keep (grows (U := U)).
Proof using Hobs.
  split; intros; try (intros w; exists []; by rewrite app_nil_r); try apply grows_log.
  by apply (unmarked_grows (cx_scope c)), (keep_observe (unmarked (cx_scope c))).
Qed.

Lemma unmarked_raise s : respects (unmarked (cx_scope c)) (raise (U := U) c s).
Proof using Hobs. apply raise_keeps; [apply _|done|apply unmarked_log]. Qed.

Lemma unmarked_same {A} (m : M U A) :
  (forall w, w_log (m w).2 = w_log w /\ w_scopes (m w).2 = w_scopes w) ->
  respects (unmarked (cx_scope c)) m.
Proof using Type.
  intros Hm w. destruct (Hm w) as [Hl Hs]. split; [exists []; by rewrite Hl, app_nil_r|].
  unfold scope_reported. by rewrite Hs.
Qed.

(** The outcome of [res] was reported between two worlds. *)
Definition outcome_raised (res : Settlement) w w' : Prop :=
  match s_outcome res with
  | Some o => failure_raised c (reports_failure i c o (s_reason res) (s_err res)) w w'
  | None => True
  end.

Lemma outcome_raised_after res w w1 w2 : grows w w1 -> outcome_raised res w1 w2 -> outcome_raised res w w2.
Proof using Type. unfold outcome_raised. destruct (s_outcome res); [apply failure_raised_after|done]. Qed.

Lemma outcome_raised_before res w w1 w2 : outcome_raised res w w1 -> grows w1 w2 -> outcome_raised res w w2.
Proof using Type. unfold outcome_raised. destruct (s_outcome res); [apply failure_raised_before|done]. Qed.

Lemma report_ret_raised o reason err d w res w' :
  scope_reported (cx_scope c) w = false ->
  (_ ← reportTerminal c i (delivery_or_single c) o reason err;
   mret (mkSettlement d reason (Some o) err)) w = (Ret res, w') -> outcome_raised res w w'.
Proof using Hobs Honerr.
  intros Hn Hr.
  pose proof (reportTerminal_raises grows_observers (fun b c e h => unmarked_grows _ _ (Honerr b c e h))
    c i o reason err w Hn) as Hf.
  apply bind_ret_inv in Hr as ([] & w1 & Hrep & Hr). apply mret_inv in Hr as [-> ->].
  by rewrite Hrep in Hf.
Qed.

Lemma unmarked_PublishDeadLetter p r :
  in_publisher i = Some p -> respects (unmarked (cx_scope c)) (PublishDeadLetter c p r).
Proof using Hobs Hpub.
  intros Hp. apply respects_bind; [apply _| |intros [e|]].
  - assert (Hloop : forall n delay, respects (unmarked (cx_scope c)) (publish_loop p c r n delay)).
    { induction n as [|n IH]; intros delay; cbn [publish_loop]; [by apply respects_ret, _|].
      apply respects_bind; [apply _|by apply Hpub|intros err].
      apply respects_bind; [apply _|apply unmarked_log|intros _].
      destruct err; [|by apply respects_ret, _]. destruct n; [by apply respects_ret, _|].
      apply respects_bind; [apply _| |intros b; apply respects_if; [apply IH|by apply respects_ret, _]].
      apply unmarked_same. intros w. unfold select_timer, mbind, M_bind, now.
      destruct (cx_done c); [by destruct (_ <=? _)|done]. }
    apply Hloop.
  - apply respects_bind; [apply _|apply unmarked_raise|intros; by apply respects_ret, _].
  - apply respects_bind; [apply _|by apply unmarked_same|intros t].
    apply respects_bind; [apply _|apply unmarked_raise|intros; by apply respects_ret, _].
Qed.

Lemma unmarked_NewDLQRecord evt h cause :
  respects (unmarked (cx_scope c)) (NewDLQRecord (U := U) c evt h cause).
Proof using Type.
  apply unmarked_same. intros w. unfold NewDLQRecord, mbind, M_bind, now, Name.
  destruct (MetadataFromContext c) as [md ok]. destruct evt as [e|]; [|done].
  destruct (String.eqb _ _); [|done]. by destruct (ev_name_panics e).
Qed.

Lemma settle_disposed_raised w res w' :
  scope_reported (cx_scope c) w = false ->
  settle_disposed c i (delivery_or_single c) w = (Ret res, w') -> outcome_raised res w w'.
Proof using Type*.
  intros Hn Hr. unfold settle_disposed in Hr.
  assert (Hquiet : forall d reason err (w1 w2 : World U),
    mret (M := M U) (mkSettlement d reason None err) w1 = (Ret res, w2) -> outcome_raised res w w2).
  { intros d reason err w1 w2 [-> _]%mret_inv. exact I. }
  assert (Hend : forall o reason err d, (_ ← reportTerminal c i (delivery_or_single c) o reason err;
      mret (mkSettlement d reason (Some o) err)) w = (Ret res, w') -> outcome_raised res w w')
    by (intros; by eapply report_ret_raised).
  destruct (Dispose_range (in_err i) (delivery_or_single c)) as [HD|[HD|HD]]; rewrite HD in Hr.
  - destruct (_ || _); eauto.
  - destruct (Is _ _); [destruct (Final _)|]; eauto.
  - pose proof unmarked_PublishDeadLetter as Hpd.
    destruct (in_publisher i) as [p|] eqn:Ep; [|by eapply Hend].
    apply bind_ret_inv in Hr as (r & w1 & H1 & Hr).
    destruct (respects_run _ _ _ _ _ (unmarked_NewDLQRecord _ _ _) H1) as [G1 S1].
    apply bind_ret_inv in Hr as (perr & w2 & H2 & Hr).
    destruct (respects_run _ _ _ _ _ (Hpd p r eq_refl) H2) as [G2 S2].
    assert (Hn2 : scope_reported (cx_scope c) w2 = false)
      by (destruct (scope_reported (cx_scope c) w2); [rewrite S1 in Hn; auto|done]).
    apply (outcome_raised_after _ _ w2); [by etransitivity|].
    destruct perr; [destruct (Final _)|]; [by eapply report_ret_raised| |by eapply report_ret_raised].
    apply mret_inv in Hr as [-> _]. exact I.
Qed.

(** A settlement that names an outcome raised the failure that says so. *)
Lemma Settle_raised w res w' :
  scope_reported (cx_scope c) w = false -> Settle c i w = (Ret res, w') -> outcome_raised res w w'.
Proof using Type*.
  intros Hn Hr. unfold Settle in Hr. destruct (in_err i) as [e|] eqn:He.
  2:{ apply mret_inv in Hr as [-> _]. exact I. }
  apply deferring_ret_inv in Hr as (w1 & Hr & Hf).
  assert (Hg : grows w1 w').
  { unfold flushHandlerDone in Hf. destruct (FailureScopeFromContext c) as [l|];
      [|by apply mret_inv in Hf as [_ ->]].
    apply bind_ret_inv in Hf as (sc & w2 & [= <- <-] & Hf).
    destruct (w_scopes w1 !! l) as [[? ? [r|] [] ?]|]; try (by apply mret_inv in Hf as [_ ->]).
    apply bind_ret_inv in Hf as ([] & w2 & [= <-] & Hf).
    apply (respects_run _ _ _ _ _ (grows_raise grows_observers _ _)) in Hf. exact Hf. }
  apply (outcome_raised_before _ _ w1); [|done]. clear Hf Hg.
  unfold settle_body in Hr. apply bind_ret_inv in Hr as ([] & w2 & Hdec & Hr).
  assert (Hu : unmarked (cx_scope c) w w2).
  { eapply respects_run; [|exact Hdec]. apply respects_if; [apply unmarked_raise|by apply respects_ret, _]. }
  destruct Hu as [G2 S2]. apply (outcome_raised_after _ _ w2); [done|].
  assert (Hn2 : scope_reported (cx_scope c) w2 = false)
    by (destruct (scope_reported (cx_scope c) w2); [rewrite S2 in Hn; auto|done]).
  apply bind_ret_inv in Hr as (t & w3 & Ht & Hr). apply now_inv in Ht as [-> ->].
  destruct (IsInterrupted _ _ _); [|by apply settle_disposed_raised].
  destruct (Final _); [by eapply report_ret_raised|]. apply mret_inv in Hr as [-> _]. exact I.
Qed.
End settlement.
