(* ===== verification/Invoke.v ===== *)
(** * Running a handler

    src/invoke.go: [InvokeHandler], the single entry point of every transport.
    It runs the handler through the invoker chain, turns panics into returned
    errors, and reports the run once, at once or through the failure scope. *)

From S2P Require Import Prelude GoErrors Types Failure Runtime Observer Scope Dlq Settle.
Local Open Scope string_scope.
Local Open Scope list_scope.
Local Open Scope Z_scope.

Section invoke.
Context {U : Type} `{Env U}.

(** The handler closure, and the interface [Invoker] (src/event.go). *)
Definition handler_fn : Type := Ctx -> M U goerr.
Definition Invoker : Type := Ctx -> option Event -> string -> handler_fn -> M U goerr.

(** [finalDelivery]. *)
Definition finalDelivery (c : Ctx) : bool :=
  let '(d, ok) := DeliveryFromContext c in negb ok || Final d.

(** [isFlowControl]. *)
Definition isFlowControl (o : Outcome) : bool :=
  bool_decide (o = OutcomeInProgress) || bool_decide (o = OutcomeRateLimited)
  || bool_decide (o = OutcomeCircuitOpen).

(** [safeEventName]. *)
Definition safeEventName (evt : option Event) : M U string :=
  match evt with
  | None => mret ""
  | Some e => recovering (Name e) (fun _ => mret "")
  end.

(** The first deferred call of [InvokeHandler]. *)
Definition report_done (c : Ctx) (scope : nat) (handler : string) (evt : option Event)
    (start : Z) (err : goerr) : M U unit :=
  name ← safeEventName evt;
  t ← now;
  let r := mkHandlerResult handler name (OutcomeOf t c err) (t - start) err t in
  if bool_decide (hr_outcome r = OutcomeFailed)
     || (isFlowControl (hr_outcome r) && finalDelivery c)
  then deferred ← deferHandlerDone (Some scope) r;
       if deferred : bool then mret tt else raise c (SHandlerDone r)
  else raise c (SHandlerDone r).

(** The closure [call] of [InvokeHandler]. *)
Definition call (fn : handler_fn) : handler_fn := fun c =>
  recovering (fn c) (fun r => mret (Some (recoveredPanic r))).

(** [InvokeHandler]; a nil [inv] is [None]. *)
Definition InvokeHandler (c : Ctx) (inv : option Invoker) (evt : option Event)
    (handler : string) (fn : handler_fn) : M U goerr :=
  start ← now;
  cs ← (match FailureScopeFromContext c with
        | Some s => mret (c, s)
        | None => newDetachedScope c
        end);
  let '(c, scope) := cs in
  deferring None
    (recovering
       (match inv with
        | None => call fn c
        | Some inv => inv c evt handler (call fn)
        end)
       (fun r => mret (Some (recoveredPanic r))))
    (fun err => report_done c scope handler evt start err).
End invoke.
Arguments handler_fn U : clear implicits.
Arguments Invoker U : clear implicits.

(** ** What a run reports for its scope

    [done_view] is the view after the report: the handler result was emitted, or
    it is pending in a scope that a settlement will flush; the latter only for a
    call that returned an error ([failed]). *)
Definition done_view (failed : Prop) (v v' : scope_view) : Prop :=
  match v with
  | (Some (rep, pend, fl, se), n, k) =>
      v' = (Some (rep, pend, fl, se), n, S k)
      \/ (failed /\ pend = false /\ se = true /\ v' = (Some (rep, true, fl, se), n, k))
  | _ => True
  end.

Lemma done_view_mono (P Q : Prop) v v' : (P -> Q) -> done_view P v v' -> done_view Q v v'.
Proof. destruct v as [[[[[[? ?] ?] ?]|] ?] ?]; simpl; tauto. Qed.

(** What [done_view] says of a fresh scope, in counts. *)
Lemma done_view_fresh {U} (P : Prop) (s : nat) (w w' : World U) sc :
  w_scopes w !! s = Some sc -> guard_state sc = (false, false, false, true) ->
  done_view P (view s w) (view s w') ->
  exists sc', w_scopes w' !! s = Some sc' /\ failures s (w_log w') = failures s (w_log w) /\
    ((guard_state sc' = (false, false, false, true) /\
      dones s (w_log w') = S (dones s (w_log w)))
     \/ (P /\ guard_state sc' = (false, true, false, true) /\
         dones s (w_log w') = dones s (w_log w))).
Proof.
  unfold view. intros Hsc Hg. rewrite Hsc. cbn [fmap option_fmap option_map]. rewrite Hg. cbn [done_view].
  destruct (w_scopes w' !! s) as [sc'|] eqn:E; cbn [fmap option_fmap option_map];
    [|by intros [|(_ & _ & _ & ?)]].
  intros [Hv|(HP & _ & _ & Hv)]; exists sc'; (split; [done|]); (split; [congruence|]);
    [left|right; split; [done|]]; split; congruence.
Qed.

Arguments done_view : simpl never.

Section facts.
Context {U : Type} `{Env U}.
Implicit Types (w : World U) (c : Ctx) (s : nat).

Lemma quiet_safeEventName s evt : quiet s (safeEventName (U := U) evt).
Proof.
  destruct evt as [e|]; [|by apply respects_ret, _].
  apply respects_recovering; [apply _|apply quiet_name|intros; by apply respects_ret, _].
Qed.

Lemma safeEventName_returns evt : returns (safeEventName (U := U) evt).
Proof.
  destruct evt as [e|]; [|apply returns_ret]. intros w. unfold safeEventName, recovering, Name.
  destruct (ev_name_panics e); by eexists.
Qed.

Context (s : nat) `{!observers_keep (same_view (U := U) s)}.
Context (c : Ctx) (Hc : cx_scope c = Some s).

(** The emission of a handler result for [s]. *)
Lemma raise_done_view r w sc :
  w_scopes w !! s = Some sc ->
  view s (raise c (SHandlerDone r) w).2 =
  (Some (guard_state sc), failures s (w_log w), S (dones s (w_log w))).
Proof using Type*.
  intros Hsc. unfold raise, mbind, M_bind, log_entry. cbn.
  apply (quiet_view s _ _ _ (observe_keeps (same_view s) _ _ _)).
  unfold view. simpl. rewrite Hsc, Hc, failures_snoc, dones_snoc. simpl.
  rewrite bool_decide_eq_true_2 by done. repeat f_equal; lia.
Qed.

Lemma OutcomeOf_nil t : OutcomeOf t c None = OutcomeOK.
Proof using Type. done. Qed.

Lemma report_done_view handler evt start err w sc o w2 :
  w_scopes w !! s = Some sc -> report_done c s handler evt start err w = (o, w2) ->
  done_view (o = Ret tt /\ err <> None) (view s w) (view s w2).
Proof using Type*.
  intros Hsc. unfold report_done. unfold mbind at 1, M_bind at 1.
  pose proof (quiet_safeEventName s evt w) as Hq. unfold same_view in Hq.
  destruct (safeEventName_returns evt w) as [name Hn].
  destruct (safeEventName evt w) as [o1 w1]. simpl in Hq, Hn. subst o1.
  assert (exists sc1, w_scopes w1 !! s = Some sc1) as [sc1 Hsc1].
  { apply (view_scope s w); [exact Hq|by eexists]. }
  rewrite <- Hq. clear w sc Hsc Hq. rename w1 into w, sc1 into sc, Hsc1 into Hsc.
  unfold mbind at 1, M_bind at 1, now. cbv zeta iota beta.
  match goal with |- context [raise c (SHandlerDone ?r)] => set (res := r) end.
  assert (Hemit : forall P, raise c (SHandlerDone res) w = (o, w2) ->
    done_view P (view s w) (view s w2)).
  { intros P Hr. pose proof (raise_done_view res w sc Hsc) as Hv. rewrite Hr in Hv.
    simpl in Hv. rewrite Hv. unfold view. rewrite Hsc. simpl.
    unfold done_view, guard_state. left. done. }
  destruct (_ || _) eqn:Ho; [|apply Hemit].
  assert (Herr : err <> None).
  { intros ->. unfold res in Ho. cbn [hr_outcome] in Ho. rewrite OutcomeOf_nil in Ho.
    discriminate Ho. }
  unfold deferHandlerDone, mbind, M_bind, get_scope. rewrite Hsc.
  destruct sc as [b rep [r|] fl se] eqn:Esc; [|destruct se]; simpl.
  - destruct se; apply Hemit.
  - intros [= <- <-]. unfold view. simpl. rewrite Hsc, lookup_insert_eq. by right.
  - apply Hemit.
Qed.

(** A run of a handler that reports nothing for [s] itself. *)
Lemma InvokeHandler_view inv evt handler fn w sc :
  (forall c, cx_scope c = Some s -> quiet s (fn c)) ->
  (forall i f, inv = Some i -> (forall c, cx_scope c = Some s -> quiet s (f c)) ->
     forall evt h, quiet s (i c evt h f)) ->
  w_scopes w !! s = Some sc ->
  let r := InvokeHandler c inv evt handler fn w in
  done_view (exists e, r.1 = Ret (Some e)) (view s w) (view s r.2).
Proof using Type*.
  intros Hfn Hinv Hsc. unfold InvokeHandler, FailureScopeFromContext. rewrite Hc.
  unfold mbind, M_bind, now, mret, M_ret.
  assert (Hcall : forall c, cx_scope c = Some s -> quiet s (call fn c)).
  { intros c' Hc'. apply respects_recovering; [apply _|by apply Hfn|].
    intros v. by apply respects_ret, _. }
  match goal with |- context [deferring None ?m ?f w] => set (body := m); set (fin := f) end.
  assert (Hbody : quiet s body).
  { apply respects_recovering; [apply _| |intros; by apply respects_ret, _].
    destruct inv as [i|]; [by apply (Hinv i)|by apply Hcall]. }
  specialize (Hbody w). unfold same_view in Hbody.
  unfold deferring. destruct (body w) as [o w1]. simpl in Hbody.
  destruct (view_scope s _ _ Hbody ltac:(by eexists)) as [sc1 Hsc1].
  rewrite <- Hbody.
  assert (Hend : forall err (o' : unit -> outcome (any error) goerr),
    (forall e, err = Some e -> o' tt = Ret (Some e)) ->
    let r := match fin err w1 with
             | (Ret a, w2) => (o' a, w2)
             | (Panicking v, w2) => (Panicking v, w2)
             | (Goexit, w2) => (Goexit, w2)
             end in
    done_view (exists e, r.1 = Ret (Some e)) (view s w1) (view s r.2)).
  { intros err o' Ho'. unfold fin.
    pose proof (report_done_view handler evt (w_now w) err w1 sc1) as Hd.
    destruct (report_done c s handler evt (w_now w) err w1) as [[[]|x|] w2]; simpl in *;
      specialize (Hd _ _ Hsc1 eq_refl); (eapply done_view_mono; [|exact Hd]); intros [Hr He]; try done.
    destruct err as [e|]; [|done]. exists e. auto. }
  destruct o as [err|v|]; unfold mbind, M_bind.
  - apply (Hend err (fun _ => Ret err)). by intros e ->.
  - apply (Hend None (fun _ => Panicking v)). done.
  - apply (Hend None (fun _ => Goexit)). done.
Qed.
End facts.

Lemma report_done_no_panic {U : Type} `{Env U} c s handler evt start err :
  isolated (ObserverFromContext c) ->
  no_panic (report_done (U := U) c s handler evt start err).
Proof.
  intros Hi.
  assert (Hr : forall sg, no_panic (raise (U := U) c sg)).
  { intros sg w v E. destruct (raise c sg w) as [o w1] eqn:Er. simpl in E. subst o.
    by apply (raise_no_panic c sg w v w1 Hi). }
  apply no_panic_bind; [apply returns_no_panic, safeEventName_returns|]. intros name.
  apply no_panic_bind; [apply returns_no_panic, returns_now|]. intros t. cbv zeta.
  destruct (_ || _); [|apply Hr].
  apply no_panic_bind; [|intros []; [by intros w|apply Hr]].
  intros w v. unfold deferHandlerDone, mbind, M_bind, get_scope.
  destruct (w_scopes w !! s) as [sc|]; [|done]. by destruct (_ || _).
Qed.

(** No panic leaves [InvokeHandler]. *)
Lemma InvokeHandler_no_panic {U : Type} `{Env U} c inv evt handler fn :
  isolated (ObserverFromContext c) ->
  no_panic (InvokeHandler (U := U) c inv evt handler fn).
Proof.
  intros Hi. apply no_panic_bind; [apply returns_no_panic, returns_now|]. intros start.
  assert (Hrun : forall c s, isolated (ObserverFromContext c) ->
    no_panic (deferring None (recovering (match inv with
        | None => call fn c | Some inv => inv c evt handler (call fn) end)
       (fun r => mret (Some (recoveredPanic r))))
      (fun err => report_done (U := U) c s handler evt start err))).
  { intros c' s Hc'. apply no_panic_deferring; [apply no_panic_recovering; by intros v w|].
    intros err. by apply report_done_no_panic. }
  destruct (FailureScopeFromContext c) as [s|].
  - intros w v. unfold mbind, M_bind. apply (Hrun c s Hi).
  - unfold newDetachedScope. intros w v. unfold mbind, M_bind, new_scope.
    apply (Hrun (with_scope c _)). exact Hi.
Qed.

Lemma call_panics {U : Type} `{Env U} (fn : handler_fn U) c w v w1 :
  fn c w = (Panicking v, w1) -> call fn c w = (Ret (Some (recoveredPanic v)), w1).
Proof. intros Hp. unfold call, recovering. by rewrite Hp. Qed.

(** A run without invokers whose handler came back. *)
Lemma InvokeHandler_call {U : Type} `{Env U} c s evt h (fn : handler_fn U) w err w1 :
  cx_scope c = Some s -> call fn c w = (Ret err, w1) ->
  InvokeHandler c None evt h fn w =
  (_ ← report_done c s h evt (w_now w) err; mret err) w1.
Proof.
  intros Hs Hcall. unfold InvokeHandler, FailureScopeFromContext. rewrite Hs.
  unfold deferring, recovering.
  unfold mbind at 1 2, M_bind at 1 2, now, mret at 1, M_ret at 1. cbv beta iota zeta.
  rewrite Hcall. done.
Qed.
