(* ===== verification/CoreSpec.v ===== *)
(** * The core contract

    Properties of the reporting and settlement layer: observers are isolated
    from the pipeline and from each other, a message's terminal outcome is
    reported once, the settlement is the documented function of the error and
    the delivery, and a message leaves the transport only after its dead letter
    was stored. *)

From S2P Require Import Prelude GoErrors Types Failure Runtime Observer Scope Dlq Fixtures.
From S2P Require Import Settle Records Invoke.
Local Open Scope string_scope.
Local Open Scope list_scope.
Local Open Scope Z_scope.

(** Isolation. The observer [WithObserver] stores, whatever the user gave
    it, never panics out of a report; and a report calls each child of a multi
    observer once, in order, whatever the children before it did, as long as
    none of them leaves the goroutine. *)
Theorem reports_are_isolated {U : Type} `{Env U} (c : Ctx) (o : option observer) (w : World U) :
  (forall id c s, no_goexit (env_observe (U := U) id c s)) ->
  (forall id c s w, w_log (env_observe (U := U) id c s w).2 = w_log w) ->
  exists c' w', WithObserver c o w = (Ret c', w') /\
    forall s w0, exists w1, raise c' s w0 = (Ret tt, w1) /\
      forall chs ids, length chs = length ids ->
        ObserverFromContext c' = Multi (Some (zip chs (RawObserver <$> ids))) ->
        deliveries (w_log w1) = deliveries (w_log w0) ++ ((fun i => (i, s)) <$> ids).
Proof.
  intros Hgo Hlog. destruct (WithObserver_isolated c o w) as (c' & w' & Hw & Hi).
  exists c', w'. split; [done|]. intros s w0.
  destruct (returns_raise Hgo c' s Hi w0) as [[] Hr].
  destruct (raise c' s w0) as [o' w1] eqn:E. simpl in Hr. subst o'. exists w1. split; [done|].
  intros chs ids Hlen Ho. unfold raise in E. apply bind_ret_inv in E as ([] & w2 & E & E2).
  injection E as <-. rewrite Ho, observe_multi in E2.
  rewrite (each_delivers Hlog c' s chs ids _ _ Hlen E2). simpl.
  rewrite deliveries_app. simpl. by rewrite app_nil_r.
Qed.

(** Observer 1 panics between observers 0 and 2. *)
Lemma reports_are_isolated_witness :
  exists c' w', WithObserver background
      (Some (Multi (Some (zip [0;1;2]%nat (RawObserver <$> [0;1;2]%nat)))))
      (demo_world 0 ∅) = (Ret c', w')
    /\ forall s, exists w1, raise c' s w' = (Ret tt, w1) /\
         deliveries (w_log w1) = [(0%nat, s); (1%nat, s); (2%nat, s)].
Proof.
  destruct (reports_are_isolated background
    (Some (Multi (Some (zip [0;1;2]%nat (RawObserver <$> [0;1;2]%nat))))) (demo_world 0 ∅))
    as (c' & w' & Hw & Hr).
  - intros [|[|id]] c s w; discriminate.
  - intros [|[|id]] c s w; reflexivity.
  - exists c', w'. split; [exact Hw|]. intros s. destruct (Hr s w') as (w1 & E & Hd).
    exists w1. split; [exact E|]. injection Hw as <- <-.
    apply (Hd [0;1;2]%nat [0;1;2]%nat); reflexivity.
Defined.

(** ** Exactly once *)

(** The world at which a chain returned: scope [s] holds [sc]. *)
Definition scope_at {U} (w : World U) (s : nat) (sc : FailureScope) : Prop :=
  w_scopes w !! s = Some sc.

(** C3: exactly-once reporting. One [Settle] of a failed message reports a
    terminal failure exactly when the settlement names an outcome and none was
    reported for its scope before, and completes the handler result exactly when
    one is pending and was not completed before; afterwards the scope refuses
    every further report, so that any number of settlements of a message report
    at most one failure and one handler result. Observers, [OnErr] methods and
    the publisher may panic. *)
Theorem Settle_reports_once {U : Type} `{Env U} (s : nat) (c : Ctx) (i : SettleInput U)
    (e : error) (w w' : World U) (sc : FailureScope) (o : outcome (any error) Settlement) :
  observers_keep (same_view (U := U) s) ->
  (forall b c e h, quiet s (env_onerr (U := U) b c e h)) ->
  (forall p c r, in_publisher i = Some p -> quiet s (p c r)) ->
  cx_scope c = Some s -> in_err i = Some e -> scope_at w s sc ->
  Settle c i w = (o, w') ->
  let first := negb (sc_reported sc) in
  let pending := bool_decide (is_Some (sc_pending sc)) && negb (sc_flushed sc) in
  (match o with
   | Ret res =>
       failures s (w_log w') = (failures s (w_log w) +
         if first && negb (is_nil (s_outcome res)) then 1 else 0)%nat
       /\ (is_Some (s_outcome res) ->
             exists sc', scope_at w' s sc' /\ sc_reported sc' = true)
   | _ => (failures s (w_log w') <= failures s (w_log w) + if first then 1 else 0)%nat
   end)
  /\ dones s (w_log w') = (dones s (w_log w) + if pending then 1 else 0)%nat
  /\ exists sc', scope_at w' s sc'
      /\ (sc_reported sc = true -> sc_reported sc' = true)
      /\ bool_decide (is_Some (sc_pending sc')) && negb (sc_flushed sc') = false.
Proof.
  intros Hk Honerr Hpub Hc He Hsc Hrun first pending.
  pose proof (Settle_settled s Honerr c Hc i Hpub e w He ltac:(by eexists)) as Hs.
  rewrite Hrun in Hs. simpl in Hs.
  assert (Hfl : flush_view (view s w) =
    (Some (sc_reported sc, bool_decide (is_Some (sc_pending sc)), sc_flushed sc || pending,
       sc_settles sc), failures s (w_log w),
     (dones s (w_log w) + if pending then 1 else 0)%nat)).
  { unfold view, flush_view. rewrite !Hsc. simpl. unfold pending.
    destruct sc as [b rep [r|] [] se]; cbn -[Nat.add]; rewrite ?Hsc, ?Nat.add_0_r, ?Nat.add_1_r; done. }
  rewrite Hfl in Hs.
  assert (Hv : exists rep n, view s w' =
      (Some (rep, bool_decide (is_Some (sc_pending sc)), sc_flushed sc || pending,
         sc_settles sc), n, (dones s (w_log w) + if pending then 1 else 0)%nat)
    /\ (sc_reported sc = true -> rep = true)
    /\ match o with
       | Ret res => n = (failures s (w_log w) +
           if first && negb (is_nil (s_outcome res)) then 1 else 0)%nat
           /\ (is_Some (s_outcome res) -> rep = true)
       | _ => (n <= failures s (w_log w) + if first then 1 else 0)%nat
       end).
  { unfold first. destruct o as [res|v|]; simpl in Hs;
      [destruct (s_outcome res) as [oc|]; simpl in Hs; unfold report_view in Hs
      |destruct Hs as [Hs|Hs]; unfold report_view in Hs..];
      destruct (sc_reported sc); simpl; do 2 eexists; (split; [exact Hs|]);
      (split; [done|]); try (split; [lia|by try (intros [? ?])]); lia. }
  destruct Hv as (rep & n & Hv & Hrep & Hn). unfold view in Hv.
  destruct (w_scopes w' !! s) as [sc'|] eqn:Hsc'; [|done]. simpl in Hv.
  injection Hv as Hr1 Hp1 Hf1 Hse1 Hf2 Hd2.
  assert (Hdone : bool_decide (is_Some (sc_pending sc')) && negb (sc_flushed sc') = false).
  { rewrite Hp1, Hf1. unfold pending. by destruct (bool_decide _), (sc_flushed sc). }
  subst n. split; [|split; [done|]].
  - destruct o as [res|v|]; [|done..]. destruct Hn as [Hn Ho]. split; [done|].
    intros Hio. exists sc'. split; [done|]. rewrite Hr1. auto.
  - exists sc'. split; [done|]. split; [|done]. rewrite Hr1. exact Hrep.
Qed.

(** A final delivery dead-lettered at the third attempt, with a pending handler
    result. *)
Definition demo_result : HandlerResult := mkHandlerResult "h" "e" OutcomeFailed 5 None 7.
Definition demo_scope : FailureScope := mkScope BreakerNone false (Some demo_result) false true.
Definition demo_ctx : Ctx := with_scope background 0.
Definition demo_input (p : option (DLQPublisher nat)) (e : error) : SettleInput nat :=
  mkSettleInput None None "h" (Some e) p.
Definition demo_start : World nat := demo_world 100 {[ 0%nat := demo_scope ]}.

Lemma Settle_reports_once_witness :
  let w' := (Settle demo_ctx (demo_input (Some (flaky 2)) (Sentinel (External "boom")))
               demo_start).2 in
  failures 0 (w_log w') = 1%nat /\ dones 0 (w_log w') = 1%nat.
Proof.
  set (i := demo_input (Some (flaky 2)) (Sentinel (External "boom"))).
  set (r := Settle demo_ctx i demo_start).
  assert (Hp : forall p c r, in_publisher i = Some p -> quiet 0 (p c r)).
  { intros p c r' Hp. injection Hp as <-. apply flaky_view. }
  destruct (Settle_reports_once 0 demo_ctx i (Sentinel (External "boom")) demo_start r.2
    demo_scope r.1 (demo_keeps_view 0) (demo_onerr_view 0) Hp eq_refl eq_refl eq_refl
    (surjective_pairing r)) as (Hf & Hd & _).
  assert (Ho : exists res, r.1 = Ret res /\ is_nil (s_outcome res) = false).
  { eexists. split; [vm_compute; reflexivity|reflexivity]. }
  destruct Ho as (res & Ho & Hres). rewrite Ho, Hres in Hf. destruct Hf as [Hf _].
  split; [exact Hf|exact Hd].
Defined.

(** ** The decision *)

(** C1: functional correctness of [Settle]. For every failure, whatever the
    event, the observers and the [OnErr] methods do, a settlement that returns
    is the documented function of the error, of the delivery, of whether the
    subscription ended by the time [Settle] looks at it (when it starts, or, for an
    undecodable message, once the observers were told), and of the result of the last
    dead-letter publish; a
    publish happens exactly when the decision is terminal and there is a
    publisher, is retried only after failures, and is tried at most three times
    on the final delivery and once before it. *)
Theorem Settle_contract {U : Type} `{Env U} (c : Ctx) (i : SettleInput U) (e : error)
    (w w' : World U) (res : Settlement) :
  observers_keep (@same_publishes U) ->
  (forall b c e h, respects same_publishes (env_onerr (U := U) b c e h)) ->
  (forall p, in_publisher i = Some p -> plain_publisher p) ->
  in_err i = Some e -> Settle c i w = (Ret res, w') ->
  exists perr, let d := delivery_or_single c in
    let interrupted := IsInterrupted (checked_at c i w) (in_sub i) (Some e) in
    let has_publisher := negb (is_nil (in_publisher i)) in
    res = settlement_of e d interrupted has_publisher perr
    /\ if publish_needed (Some e) d interrupted && has_publisher then
         exists errs, publishes (w_log w') = publishes (w_log w) ++ errs ++ [perr]
           /\ Forall (fun e => e <> None) errs
           /\ (length errs < if Final d then 3 else 1)%nat
       else publishes (w_log w') = publishes (w_log w).
Proof.
  intros Hk Honerr Hpub He Hrun.
  destruct (Settle_run Honerr c i Hpub e w res w' He Hrun) as (perr & Hres & Hb).
  exists perr. split; [exact Hres|]. exact Hb.
Qed.

(** A failure on a live subscription is published; on a cancelled one it is handed
    back. *)
Lemma Settle_contract_witness :
  let e := Sentinel (External "boom") in
  let x := Sentinel Canceled in
  let i := demo_input (Some (flaky 2)) e in
  let j := mkSettleInput (Some (cancelled_by (Some (mkDone 100 Canceled (Sentinel Canceled))) background))
             None "h" (Some x) (Some (flaky 2)) in
  (exists perr, (Settle demo_ctx i demo_start).1 = Ret (settlement_of e single_delivery false true perr))
  /\ publishes (w_log (Settle demo_ctx i demo_start).2) =
       [Some (Sentinel (External "publish")); Some (Sentinel (External "publish")); None]
  /\ (exists perr, (Settle demo_ctx j demo_start).1 = Ret (settlement_of x single_delivery true true perr))
  /\ publishes (w_log (Settle demo_ctx j demo_start).2) = [].
Proof.
  cbv zeta. set (e := Sentinel (External "boom")). set (x := Sentinel Canceled).
  set (i := demo_input (Some (flaky 2)) e).
  set (j := mkSettleInput _ _ _ _ _).
  assert (Hp : forall k p, k = i \/ k = j -> in_publisher k = Some p -> plain_publisher p).
  { intros k p [-> | ->] Hp; injection Hp as <-; apply flaky_plain. }
  assert (Hi : exists res, Settle demo_ctx i demo_start = (Ret res, (Settle demo_ctx i demo_start).2))
    by (eexists; apply ran; vm_compute; reflexivity).
  assert (Hj : exists res, Settle demo_ctx j demo_start = (Ret res, (Settle demo_ctx j demo_start).2))
    by (eexists; apply ran; vm_compute; reflexivity).
  destruct Hi as [ri Hi]. destruct Hj as [rj Hj].
  destruct (Settle_contract demo_ctx i e demo_start _ ri demo_keeps_publishes demo_onerr_publishes
    (fun p => Hp i p (or_introl eq_refl)) eq_refl Hi) as (pi & Hri & _).
  destruct (Settle_contract demo_ctx j x demo_start _ rj demo_keeps_publishes demo_onerr_publishes
    (fun p => Hp j p (or_intror eq_refl)) eq_refl Hj) as (pj & Hrj & Hbj).
  split; [exists pi; rewrite Hi, Hri; reflexivity|]. split; [vm_compute; reflexivity|].
  split; [exists pj; rewrite Hj, Hrj; vm_compute; reflexivity|exact Hbj].
Defined.

(** C2: no silent loss. A settlement that removes a failed message from the
    transport for good either dead-lettered it, and then the last publish of its
    record succeeded, or dropped it because no dead-letter queue is configured; one
    that acknowledges it does so for a duplicate or a message the chain
    dead-lettered; whenever the publish failed the message is retried. And every
    outcome the settlement names, the drop in particular, was reported during this
    very call: unless the message's scope was already reported, the trace gained a
    [Failure] signal of that scope with the handler, the event, the delivery, the
    outcome ([OutcomeDecodeFailed] instead when there is no event because the bytes
    did not decode), the reason and the error of the settlement. *)
Theorem Settle_no_silent_loss {U : Type} `{Env U} (c : Ctx) (i : SettleInput U) (e : error)
    (w w' : World U) (res : Settlement) :
  observers_keep (@same_publishes U) ->
  (forall b c e h, respects same_publishes (env_onerr (U := U) b c e h)) ->
  (forall p, in_publisher i = Some p -> plain_publisher p) ->
  observers_keep (unmarked (U := U) (cx_scope c)) ->
  (forall b c' e h, respects (unmarked (cx_scope c)) (env_onerr (U := U) b c' e h)) ->
  (forall p c' r, in_publisher i = Some p -> respects (unmarked (cx_scope c)) (p c' r)) ->
  in_err i = Some e -> Settle c i w = (Ret res, w') ->
  (s_disposition res = DispositionTerminal ->
     (s_outcome res = Some OutcomeDeadLettered /\ is_Some (in_publisher i)
      /\ exists errs, publishes (w_log w') = publishes (w_log w) ++ errs ++ [None])
     \/ (s_outcome res = Some OutcomeDropped /\ in_publisher i = None))
  /\ (s_disposition res = DispositionAck ->
        Is (Some e) ErrDuplicate = true \/ Is (Some e) ErrDeadLettered = true)
  /\ (s_outcome res = Some OutcomeDLQPublishFailed ->
        s_disposition res = DispositionRetryDelayed /\ Final (delivery_or_single c) = true)
  /\ (forall o, s_outcome res = Some o -> scope_reported (cx_scope c) w = false ->
        exists fc before after,
          w_log w' = w_log w ++ before ++ ESignal (cx_scope c) (SFailure fc) :: after
          /\ reports_failure i c o (s_reason res) (s_err res) fc).
Proof.
  intros Hk Honerr Hpub Hku Hou Hpu He Hrun.
  assert (Hand : forall A B C D : Prop, A /\ B /\ C -> D -> A /\ B /\ C /\ D) by tauto.
  apply Hand; clear Hand.
  2:{ intros o Ho Hn. pose proof (Settle_raised c i Hku Hou Hpu w res w' Hn Hrun) as Hr.
      unfold outcome_raised in Hr. rewrite Ho in Hr. exact Hr. }
  destruct (Settle_run Honerr c i Hpub e w res w' He Hrun) as (perr & Hres & Hb).
  cbv zeta in Hres, Hb. unfold publish_needed in Hb. subst res. unfold settlement_of.
  set (d := delivery_or_single c) in *.
  destruct (IsInterrupted _ (in_sub i) (Some e)).
  { destruct (Final d); simpl; repeat split; done. }
  destruct (Dispose_range (Some e) d) as [HD|[HD|HD]]; rewrite HD; rewrite HD in Hb.
  - apply Dispose_ack in HD as [|HD]; [done|]. destruct (_ || _); simpl; repeat split; done.
  - destruct (Is _ _); simpl; repeat split; try done. all: by destruct (Final d).
  - destruct (in_publisher i) as [p|] eqn:Ep; simpl in *.
    + destruct perr as [pe|]; simpl.
      * repeat split; try done. by destruct (Final d).
      * repeat split; try done. intros _. left. split; [done|]. split; [by eexists|].
        destruct Hb as (errs & Hl & _). by exists errs.
    + repeat split; try done. by right.
Qed.

Lemma demo_unmarked {A} (l : option nat) (m : M nat A) :
  (forall w, w_log (m w).2 = w_log w /\ w_scopes (m w).2 = w_scopes w) -> respects (unmarked l) m.
Proof.
  intros Hm w. destruct (Hm w) as [Hl Hs]. split; [exists []; by rewrite Hl, app_nil_r|].
  unfold scope_reported. by rewrite Hs.
Qed.

Lemma demo_keeps_unmarked l : observers_keep (unmarked (U := nat) l).
Proof.
  apply unmarked_observers. intros id c s. apply demo_observe_respects; [apply _|].
  intros u. by apply demo_unmarked.
Qed.

(** A message with a dead-letter queue is dead-lettered; without one it is dropped,
    and the drop is on the trace. *)
Lemma Settle_no_silent_loss_witness :
  let e := PermanentError (Sentinel (External "boom")) in
  let i := demo_input (Some (flaky 0)) e in
  let j := demo_input None e in
  (exists errs, publishes (w_log (Settle demo_ctx i demo_start).2) = errs ++ [None])
  /\ exists fc before after, w_log (Settle demo_ctx j demo_start).2
       = before ++ ESignal (Some 0%nat) (SFailure fc) :: after
       /\ fc_outcome fc = OutcomeDropped /\ fc_cause fc = Some e.
Proof.
  cbv zeta. set (e := PermanentError (Sentinel (External "boom"))).
  set (i := demo_input (Some (flaky 0)) e). set (j := demo_input None e).
  assert (Hp : forall k p, k = i \/ k = j -> in_publisher k = Some p -> p = flaky 0).
  { intros k p [-> | ->] Hp; [by injection Hp|discriminate Hp]. }
  assert (Hpp : forall k p, k = i \/ k = j -> in_publisher k = Some p -> plain_publisher p).
  { intros k p Hk Hq. rewrite (Hp k p Hk Hq). apply flaky_plain. }
  assert (Hpu : forall k p c r, k = i \/ k = j -> in_publisher k = Some p ->
    respects (unmarked (cx_scope demo_ctx)) (p c r)).
  { intros k p c r Hk Hq. rewrite (Hp k p Hk Hq). apply flaky_respects; [apply _|].
    intros u. by apply demo_unmarked. }
  assert (Hou : forall b c e h, respects (unmarked (cx_scope demo_ctx)) (env_onerr (U := nat) b c e h)).
  { intros b c e' h. apply bump_respects; [apply _|]. intros u. by apply demo_unmarked. }
  assert (Hi : exists err, Settle demo_ctx i demo_start =
    (Ret (mkSettlement DispositionTerminal (ReasonOf (Some e)) (Some OutcomeDeadLettered) err), (Settle demo_ctx i demo_start).2))
    by (eexists; apply ran; vm_compute; reflexivity).
  assert (Hj : Settle demo_ctx j demo_start =
    (Ret (mkSettlement DispositionTerminal (ReasonOf (Some e)) (Some OutcomeDropped) (Some e)), (Settle demo_ctx j demo_start).2))
    by (apply ran; vm_compute; reflexivity).
  destruct Hi as [err Hi].
  destruct (Settle_no_silent_loss demo_ctx i e demo_start _ _ demo_keeps_publishes demo_onerr_publishes
    (fun p => Hpp i p (or_introl eq_refl)) (demo_keeps_unmarked _) Hou
    (fun p c r => Hpu i p c r (or_introl eq_refl)) eq_refl Hi) as (Hti & _).
  destruct (Settle_no_silent_loss demo_ctx j e demo_start _ _ demo_keeps_publishes demo_onerr_publishes
    (fun p => Hpp j p (or_intror eq_refl)) (demo_keeps_unmarked _) Hou
    (fun p c r => Hpu j p c r (or_intror eq_refl)) eq_refl Hj) as (_ & _ & _ & Hrj).
  split.
  - destruct (Hti eq_refl) as [(_ & _ & errs & Hl)|[Hd _]]; [exists errs; exact Hl|discriminate Hd].
  - destruct (Hrj OutcomeDropped eq_refl eq_refl) as (fc & l1 & l2 & Hl & _ & _ & Ho & _ & Hc & _).
    exists fc, l1, l2. split; [exact Hl|]. split; [exact Ho|exact Hc].
Defined.

(** Totality of [Settle]. With an isolated observer, a publisher that
    returns and user code that does not leave its goroutine, a settlement
    returns: panics of the event's [OnErr] method and of the observers stay
    inside. The one exception is an event whose [Name] panics while the metadata
    holds no name, which the construction of the dead-letter record calls. *)
Theorem Settle_total {U : Type} `{Env U} (c : Ctx) (i : SettleInput U) (w : World U) :
  (forall id c s, no_goexit (env_observe (U := U) id c s)) ->
  (forall b c e h, no_goexit (env_onerr (U := U) b c e h)) ->
  (forall p c r, in_publisher i = Some p -> returns (p c r)) ->
  isolated (ObserverFromContext c) -> nameable c (in_evt i) ->
  exists res w', Settle c i w = (Ret res, w').
Proof.
  intros Hobs Honerr Hp Hi Hn.
  destruct (returns_Settle Hobs Honerr c Hi i Hn Hp w) as [res Hr].
  destruct (Settle c i w) as [o w']. simpl in Hr. subst o. by exists res, w'.
Qed.

Lemma Settle_total_witness :
  exists res w', Settle demo_ctx (demo_input (Some (flaky 3)) (Sentinel ErrSendToDLQ)) demo_start
    = (Ret res, w').
Proof.
  apply Settle_total.
  - intros [|[|id]] c s w; discriminate.
  - intros b c e h w. discriminate.
  - intros p c r Hp w. injection Hp as <-. eexists. reflexivity.
  - exact I.
  - intros e He. discriminate He.
Defined.

(** ** Running handlers *)

(** Panics stop at [InvokeHandler]. With an isolated observer no panic of
    the handler, of an invoker, of the event's [Name] or of an observer leaves
    it; and a panic of a handler called without invokers is returned as a
    [PanicError], which every later layer classifies as terminal. *)
Theorem InvokeHandler_contains_panics {U : Type} `{Env U} (c : Ctx) (inv : option (Invoker U))
    (evt : option Event) (handler : string) (fn : handler_fn U) (w : World U) :
  isolated (ObserverFromContext c) ->
  (forall v, (InvokeHandler c inv evt handler fn w).1 <> Panicking v)
  /\ (forall v s w1, cx_scope c = Some s -> inv = None -> fn c w = (Panicking v, w1) ->
        (forall a, (InvokeHandler c inv evt handler fn w).1 = Ret a ->
           a = Some (recoveredPanic v)
           /\ forall d, Dispose a d = DispositionTerminal /\ ReasonOf a = ReasonPanic)).
Proof.
  intros Hi. split; [intros v; by apply InvokeHandler_no_panic|].
  intros v s w1 Hs -> Hp a.
  rewrite (InvokeHandler_call c s evt handler fn w _ _ Hs (call_panics _ _ _ _ _ Hp)).
  match goal with |- ?r.1 = _ -> _ => destruct r as [o w2] eqn:E end. simpl. intros ->.
  apply bind_ret_inv in E as ([] & w3 & _ & E). apply mret_inv in E as [-> _].
  split; [done|]. intros d. unfold recoveredPanic. split.
  - unfold Dispose, retryUnlessFinal. by rewrite !is_panic, !bool_decide_eq_false_2,
      bool_decide_eq_true_2 by done.
  - apply ReasonOf_panic_head. by rewrite is_panic, bool_decide_eq_true_2.
Qed.

Lemma InvokeHandler_contains_panics_witness :
  exists a, (InvokeHandler demo_ctx None (Some (plain_event "e")) "h"
    (fun _ => panic (mkAny "boom" None)) (demo_world 1 {[ 0%nat := fresh_scope true ]})).1 = Ret a
    /\ ReasonOf a = ReasonPanic.
Proof.
  destruct (InvokeHandler_contains_panics demo_ctx None (Some (plain_event "e")) "h"
    (fun _ => panic (mkAny "boom" None)) (demo_world 1 {[ 0%nat := fresh_scope true ]}) I)
    as [_ H].
  assert (Ha : exists a, (InvokeHandler demo_ctx None (Some (plain_event "e")) "h"
    (fun _ => panic (mkAny "boom" None)) (demo_world 1 {[ 0%nat := fresh_scope true ]})).1 = Ret a)
    by (eexists; vm_compute; reflexivity).
  destruct Ha as [a Ha]. exists a. split; [exact Ha|].
  destruct (H (mkAny "boom" None) 0%nat (demo_world 1 {[ 0%nat := fresh_scope true ]})
    eq_refl eq_refl eq_refl a Ha) as [_ Hd].
  exact (proj2 (Hd single_delivery)).
Defined.

(** C14: one handler result per run. In a transport that installs a fresh scope,
    runs the handler and settles what it returned, the run's [HandlerDone]
    signal is emitted exactly once, whether the chain ends it at once or leaves
    it to the settlement, and at most one terminal failure is reported. This holds
    for every outcome: whatever panics, also when the handler, an invoker, an
    observer or the dead-letter publisher leaves the goroutine. *)
Theorem handler_done_exactly_once {U : Type} `{Env U} (s : nat) (c : Ctx)
    (inv : option (Invoker U)) (evt : option Event) (handler : string) (fn : handler_fn U)
    (sub : option Ctx) (p : option (DLQPublisher U)) (w : World U) :
  observers_keep (same_view (U := U) s) ->
  (forall b c e h, quiet s (env_onerr (U := U) b c e h)) ->
  (forall q c r, p = Some q -> quiet s (q c r)) ->
  (forall c, cx_scope c = Some s -> quiet s (fn c)) ->
  (forall i f, inv = Some i -> (forall c, cx_scope c = Some s -> quiet s (f c)) ->
     forall evt h, quiet s (i c evt h f)) ->
  cx_scope c = Some s -> scope_at w s (fresh_scope true) ->
  let w' := (err ← InvokeHandler c inv evt handler fn;
             Settle c (mkSettleInput sub evt handler err p)) w in
  dones s (w_log w'.2) = S (dones s (w_log w))
  /\ (failures s (w_log w'.2) <= S (failures s (w_log w)))%nat.
Proof.
  intros Hk Honerr Hp Hfn Hinv Hc Hsc. cbv zeta.
  pose proof (InvokeHandler_view s c Hc inv evt handler fn w _ Hfn Hinv Hsc) as Hd. cbv zeta in Hd.
  unfold mbind, M_bind in *. destruct (InvokeHandler c inv evt handler fn w) as [o w1]. cbn [fst snd] in Hd.
  destruct (done_view_fresh _ s w w1 _ Hsc eq_refl Hd) as (sc1 & Hsc1 & Hf1 & Hd1).
  destruct o as [[e|]|v|]; cbn [fst snd] in *.
  2-4: simpl; destruct Hd1 as [[_ ->]|([? [=]] & _)]; lia.
  pose proof (Settle_settled s Honerr c Hc (mkSettleInput sub evt handler (Some e) p)
    (fun q c r => Hp q c r) e w1 eq_refl (mk_is_Some _ _ Hsc1)) as Hset.
  assert (Hv1 : view s w1 = (Some (guard_state sc1), failures s (w_log w1),
    dones s (w_log w1))) by (unfold view; by rewrite Hsc1).
  rewrite Hv1, Hf1 in Hset. destruct (Settle c _ w1) as [o2 w2]. cbn [fst snd] in *.
  assert (Hend : view s w2 = flush_view (Some (guard_state sc1), failures s (w_log w), dones s (w_log w1))
    \/ view s w2 = report_view (flush_view (Some (guard_state sc1), failures s (w_log w), dones s (w_log w1)))).
  { destruct o2 as [res|v|]; cbn [settled] in Hset; [|done..].
    destruct (s_outcome res); [by right|by left]. }
  destruct Hd1 as [[Hg Hd1]|(_ & Hg & Hd1)]; rewrite Hg, Hd1 in Hend;
    unfold flush_view, report_view, view in Hend; destruct Hend as [Hend|Hend];
    injection Hend as _ -> ->; lia.
Qed.

(** A handler that panics, and one that leaves its goroutine. *)
Lemma handler_done_exactly_once_witness :
  let run fn := (err ← InvokeHandler demo_ctx None (Some (plain_event "e")) "h" fn;
               Settle demo_ctx (mkSettleInput None (Some (plain_event "e")) "h" err
               (Some (flaky 1)))) (demo_world 100 {[ 0%nat := fresh_scope true ]}) in
  dones 0 (w_log (run (fun _ => panic (mkAny "boom" None))).2) = 1%nat
  /\ dones 0 (w_log (run (fun _ => goexit)).2) = 1%nat.
Proof.
  cbv zeta.
  assert (Hall : forall fn, (forall c, quiet 0 (fn c)) ->
    dones 0 (w_log ((err ← InvokeHandler demo_ctx None (Some (plain_event "e")) "h" fn;
               Settle demo_ctx (mkSettleInput None (Some (plain_event "e")) "h" err
               (Some (flaky 1)))) (demo_world 100 {[ 0%nat := fresh_scope true ]})).2) = 1%nat).
  { intros fn Hfn.
    apply (handler_done_exactly_once 0 demo_ctx None (Some (plain_event "e")) "h"
      fn None (Some (flaky 1)) (demo_world 100 {[ 0%nat := fresh_scope true ]})).
    - apply _.
    - apply demo_onerr_view.
    - intros q c r [= <-]. apply flaky_view.
    - intros c _. apply Hfn.
    - intros i f Hi. discriminate Hi.
    - reflexivity.
    - reflexivity. }
  split; apply Hall; intros c; [apply respects_panic|apply respects_goexit]; apply _.
Defined.

(** A handler that leaves its goroutine is reported with outcome ok, and nothing
    settles its message. *)
Lemma goexit_reported_ok :
  let r := InvokeHandler demo_ctx None (Some (plain_event "e")) "h" (fun _ => goexit)
             (demo_world 1 {[ 0%nat := fresh_scope true ]}) in
  r.1 = Goexit /\ exists res, w_log r.2 = [ESignal (Some 0%nat) (SHandlerDone res)]
    /\ hr_outcome res = OutcomeOK.
Proof. vm_compute. split; [reflexivity|]. eexists. split; reflexivity. Qed.
