(* ===== verification/Lifecycle.v ===== *)
(** * The shutdown state machine

    src/lifecycle.go: admission of new work, in-flight accounting, the bounded
    drain and the forced cancel that every bus shares. Each critical section of
    the code is one function of the state; [step] interleaves them freely
    between the goroutines that hold a release function ([tokens]) and the ones
    inside [Wait] ([waiters]). *)

From S2P Require Import Prelude GoErrors Types Failure.
Local Open Scope string_scope.
Local Open Scope list_scope.
Local Open Scope Z_scope.

(** The fields of the struct; [l_idle] is the identity of the channel, and
    [l_cancelled] says that the bus context was cancelled. *)
Record Lifecycle := mkLifecycle {
  l_closed : bool;
  l_forced : bool;
  l_done : bool;
  l_inflight : Z;
  l_idle : option nat;
  l_idle_closed : bool;
  l_cancelled : bool;
}.

(** The zero value. *)
Definition zero_lifecycle : Lifecycle := mkLifecycle false false false 0 None false false.

(** [Nested] for the lifecycle [id]. *)
Definition Nested (id : nat) (c : Ctx) : bool := bool_decide (cx_life c = Some id).

(** The context of the bus, which ends as [bus] says, and [HandlerContext]. *)
Definition Context_ (bus : option done_info) : Ctx := cancelled_by bus background.
Definition HandlerContext (id : nat) (bus : option done_info) (parent : Ctx) (detach : bool)
    : Ctx :=
  let parent := if detach then WithoutCancel parent else parent in
  with_life (cancelled_by bus parent) id.

(** What [Interrupt] at time [t] makes of the bus context. *)
Definition interrupted_at (t : Z) : done_info :=
  mkDone t Canceled (Sentinel ErrShutdownInterrupted).

Definition with_inflight (l : Lifecycle) (n : Z) : Lifecycle :=
  mkLifecycle (l_closed l) (l_forced l) (l_done l) n (l_idle l) (l_idle_closed l)
    (l_cancelled l).

(** [Admit]: the new state and the error. *)
Definition Admit (nested : bool) (l : Lifecycle) : Lifecycle * goerr :=
  if l_forced l || l_done l then (l, Some (Sentinel ErrBusClosed))
  else if l_closed l && (negb nested || (l_inflight l <=? 0))
  then (l, Some (Sentinel ErrBusClosed))
  else (with_inflight l (l_inflight l + 1), None).

(** [Track]: the new state and [ok]. *)
Definition Track (l : Lifecycle) : Lifecycle * bool :=
  if l_forced l || l_done l then (l, false)
  else (with_inflight l (l_inflight l + 1), true).

(** The body of the [once.Do] of [releaser]: the new state and the channel that
    was closed, if one was. *)
Definition releaser (l : Lifecycle) : Lifecycle * option nat :=
  let l := with_inflight l (l_inflight l - 1) in
  match l_idle l with
  | Some ch =>
      if l_closed l && (l_inflight l =? 0) && negb (l_idle_closed l)
      then (mkLifecycle (l_closed l) (l_forced l) (l_done l) (l_inflight l) (Some ch) true
              (l_cancelled l), Some ch)
      else (l, None)
  | None => (l, None)
  end.

(** [BeginShutdown]. *)
Definition BeginShutdown (l : Lifecycle) : Lifecycle :=
  mkLifecycle true (l_forced l) (l_done l) (l_inflight l) (l_idle l) (l_idle_closed l)
    (l_cancelled l).

(** [Interrupt]: the critical section and the cancellation after it, as one step: no
    critical section reads whether the context was cancelled, so that a step of another
    goroutine between the two is the same step before or after both. *)
Definition Interrupt (l : Lifecycle) : Lifecycle :=
  mkLifecycle true true (l_done l) (l_inflight l) (l_idle l) (l_idle_closed l) true.

(** The critical section of [Wait], with the next fresh channel: [None] when it
    returns nil, the channel to wait for otherwise. *)
Definition Wait_check (next : nat) (l : Lifecycle) : Lifecycle * option nat :=
  if l_inflight l =? 0
  then (mkLifecycle (l_closed l) (l_forced l) true (l_inflight l) (l_idle l) (l_idle_closed l)
          (l_cancelled l), None)
  else match l_idle l, l_idle_closed l with
       | Some ch, false => (l, Some ch)
       | _, _ => (mkLifecycle (l_closed l) (l_forced l) (l_done l) (l_inflight l) (Some next)
                    false (l_cancelled l), Some next)
       end.

(** [Closing]. *)
Definition Closing (l : Lifecycle) : bool := l_closed l || l_forced l.

(** ** Goroutines *)

(** Where a goroutine inside [Shutdown] is: about to take the lock of [Wait],
    in the select on a channel, or back with a result. *)
Inductive waiting := Checking | Blocked (ch : nat) | Returned (err : goerr).

(** The lifecycle, the release functions handed out (true: already called), the
    goroutines in [Shutdown], the channels closed so far and the next one. *)
Record system := mkSystem {
  sy_life : Lifecycle;
  sy_tokens : gmap nat bool;
  sy_waiters : gmap nat waiting;
  sy_closed : gset nat;
  sy_next : nat;
}.

Definition start : system := mkSystem zero_lifecycle ∅ ∅ ∅ 0.

Definition with_life_of (s : system) (l : Lifecycle) : system :=
  mkSystem l (sy_tokens s) (sy_waiters s) (sy_closed s) (sy_next s).
Definition add_token (s : system) (l : Lifecycle) (t : nat) : system :=
  mkSystem l (<[t := false]> (sy_tokens s)) (sy_waiters s) (sy_closed s) (sy_next s).
Definition set_waiter (s : system) (l : Lifecycle) (g : nat) (w : waiting) : system :=
  mkSystem l (sy_tokens s) (<[g := w]> (sy_waiters s)) (sy_closed s) (S (sy_next s)).

(** One call of a release function. *)
Definition call_release (s : system) (t : nat) : system :=
  match sy_tokens s !! t with
  | Some false =>
      let '(l, ch) := releaser (sy_life s) in
      mkSystem l (<[t := true]> (sy_tokens s)) (sy_waiters s)
        (match ch with Some ch => {[ch]} ∪ sy_closed s | None => sy_closed s end) (sy_next s)
  | _ => s
  end.

(** The atomic steps of the goroutines of a bus. [Wait] runs inside [Shutdown],
    so a waiter starts with [BeginShutdown]. *)
Inductive step : system -> system -> Prop :=
| step_admit s nested t l :
    sy_tokens s !! t = None -> Admit nested (sy_life s) = (l, None) ->
    step s (add_token s l t)
| step_track s t l :
    sy_tokens s !! t = None -> Track (sy_life s) = (l, true) ->
    step s (add_token s l t)
| step_release s t : step s (call_release s t)
| step_begin s : step s (with_life_of s (BeginShutdown (sy_life s)))
| step_interrupt s : step s (with_life_of s (Interrupt (sy_life s)))
| step_shutdown s g :
    sy_waiters s !! g = None ->
    step s (set_waiter s (BeginShutdown (sy_life s)) g Checking)
| step_check_done s g l :
    sy_waiters s !! g = Some Checking -> Wait_check (sy_next s) (sy_life s) = (l, None) ->
    step s (set_waiter s l g (Returned None))
| step_check_wait s g l ch :
    sy_waiters s !! g = Some Checking -> Wait_check (sy_next s) (sy_life s) = (l, Some ch) ->
    step s (set_waiter s l g (Blocked ch))
| step_wake s g ch :
    sy_waiters s !! g = Some (Blocked ch) -> ch ∈ sy_closed s ->
    step s (set_waiter s (sy_life s) g Checking)
| step_expire s g ch e :
    sy_waiters s !! g = Some (Blocked ch) ->
    step s (set_waiter s (Interrupt (sy_life s)) g (Returned (Some e))).

Definition reachable (s : system) : Prop := rtc step start s.

(** The release functions not called yet. *)
Definition held (s : system) : nat := length (filter (fun x => x.2 = false) (map_to_list (sy_tokens s))).

(** ** The invariant *)

Record inv (s : system) : Prop := {
  inv_count : l_inflight (sy_life s) = Z.of_nat (held s);
  inv_done : l_done (sy_life s) = true -> held s = 0%nat /\ l_closed (sy_life s) = true;
  inv_forced : l_forced (sy_life s) = true ->
    l_closed (sy_life s) = true /\ l_cancelled (sy_life s) = true;
  inv_idle : forall ch, l_idle (sy_life s) = Some ch ->
    (ch < sy_next s)%nat /\ l_closed (sy_life s) = true /\
    (l_idle_closed (sy_life s) = true -> ch ∈ sy_closed s) /\
    (l_idle_closed (sy_life s) = false -> held s <> 0%nat);
  inv_waiters : forall g w, sy_waiters s !! g = Some w -> l_closed (sy_life s) = true;
  inv_blocked : forall g ch, sy_waiters s !! g = Some (Blocked ch) ->
    ch ∈ sy_closed s \/ (l_idle (sy_life s) = Some ch /\ l_idle_closed (sy_life s) = false);
}.

Lemma held_insert_new s l t :
  sy_tokens s !! t = None -> held (add_token s l t) = S (held s).
Proof.
  intros Ht. unfold held. simpl. rewrite map_to_list_insert by done.
  rewrite filter_cons. by rewrite decide_True.
Qed.

Lemma held_release s t :
  sy_tokens s !! t = Some false -> held s = S (held (call_release s t)).
Proof.
  intros Ht. unfold held, call_release. rewrite Ht.
  destruct (releaser (sy_life s)) as [l ch]. simpl.
  rewrite <- (insert_delete_id (sy_tokens s) t false Ht) at 1.
  rewrite <- (insert_delete_eq (sy_tokens s) t true).
  rewrite !map_to_list_insert by apply lookup_delete_eq.
  rewrite !filter_cons. by rewrite decide_True, decide_False.
Qed.

Lemma inv_start : inv start.
Proof. split; done. Qed.

(** New work: a token more. *)
Lemma inv_add_token s t :
  inv s -> sy_tokens s !! t = None -> l_done (sy_life s) = false ->
  inv (add_token s (with_inflight (sy_life s) (l_inflight (sy_life s) + 1)) t).
Proof.
  intros [Hc Hd Hf Hi Hw Hb] Ht Hnd. pose proof (held_insert_new s
    (with_inflight (sy_life s) (l_inflight (sy_life s) + 1)) t Ht) as Hh.
  split; rewrite ?Hh; simpl in *.
  - lia.
  - congruence.
  - done.
  - intros ch Hch. destruct (Hi ch Hch) as (? & ? & ? & _). auto.
  - done.
  - done.
Qed.

(** A waiter moves while the lifecycle keeps its counters. *)
Lemma inv_set_waiter s l g w :
  inv s ->
  l_inflight l = l_inflight (sy_life s) -> l_closed l = true ->
  (l_done l = true -> held s = 0%nat) -> (l_forced l = true -> l_cancelled l = true) ->
  ((l_idle l = l_idle (sy_life s) /\ l_idle_closed l = l_idle_closed (sy_life s))
   \/ (l_idle l = Some (sy_next s) /\ l_idle_closed l = false /\ held s <> 0%nat
       /\ (l_idle (sy_life s) = None \/ l_idle_closed (sy_life s) = true))) ->
  (forall ch, w = Blocked ch ->
     ch ∈ sy_closed s \/ (l_idle l = Some ch /\ l_idle_closed l = false)) ->
  inv (set_waiter s l g w).
Proof.
  intros [Hc Hd Hf Hi Hw Hb] Hn Hcl Hdone Hforced Hidle Hbl.
  split; simpl.
  - by rewrite Hn.
  - intros Hx. split; [by apply Hdone|done].
  - auto.
  - intros ch Hch. destruct Hidle as [[He1 He2]|(He1 & He2 & Hh & _)].
    + rewrite He1 in Hch. destruct (Hi ch Hch) as (H1 & H2 & H3 & H4).
      rewrite He2. repeat split; auto with lia.
    + rewrite He1 in Hch. injection Hch as <-. rewrite He2. repeat split; auto with lia.
  - auto.
  - intros g' ch Hg. apply lookup_insert_Some in Hg as [[<- ->]|[_ Hg]]; [by apply Hbl|].
    destruct (Hb g' ch Hg) as [|[H1 H2]]; [by left|].
    destruct Hidle as [[He1 He2]|(He1 & He2 & Hh & [Hno|Hno])]; rewrite ?He1, ?He2;
      [by right|congruence..].
Qed.

Lemma inv_release s t : inv s -> inv (call_release s t).
Proof.
  intros Hs. destruct (sy_tokens s !! t) as [[|]|] eqn:Ht;
    [by unfold call_release; rewrite Ht| |by unfold call_release; rewrite Ht].
  pose proof (held_release s t Ht) as Hh. destruct Hs as [Hc Hd Hf Hi Hw Hb].
  revert Hh. unfold call_release. rewrite Ht. unfold releaser. cbv zeta. simpl l_idle.
  set (s1 := mkSystem (with_inflight (sy_life s) (l_inflight (sy_life s) - 1))
    (<[t := true]> (sy_tokens s)) (sy_waiters s) (sy_closed s) (sy_next s)).
  assert (Hopen : held s = S (held s1) ->
    (forall ch, l_idle (sy_life s) = Some ch -> l_idle_closed (sy_life s) = false ->
       held s <> 1%nat) -> inv s1).
  { intros Hh Hno. match type of Hh with _ = S ?x => set (h := x) in Hh end. split; simpl; fold h; auto.
    - rewrite Hc. fold h. lia.
    - intros Hx. destruct (Hd Hx). lia.
    - intros ch Hch. destruct (Hi ch Hch) as (? & ? & ? & ?). repeat split; auto.
      intros Hic. fold h. specialize (Hno ch Hch Hic). lia. }
  destruct (l_idle (sy_life s)) as [ch|] eqn:Ei.
  - destruct (Hi ch eq_refl) as (H1 & H2 & H3 & H4). destruct (_ && _) eqn:Eb; simpl; intros Hh.
    + b2p. simpl in *. match type of Hh with _ = S ?x => set (h := x) in Hh end.
      assert (h = 0%nat) as Hh0 by lia. split; simpl; fold h; auto.
      * lia.
      * intros ch' [= <-]. split; [done|split; [done|split; [set_solver|done]]].
      * intros g' ch' Hg. destruct (Hb g' ch' Hg) as [|[He _]]; [set_solver|].
        injection He as <-. set_solver.
    + apply Hopen; [exact Hh|]. intros ch' [= <-] Hic Hone. simpl in Eb.
      rewrite H2, Hic, Hc, Hone in Eb. done.
  - simpl. intros Hh. apply Hopen; [exact Hh|done].
Qed.

Lemma inv_step s s' : inv s -> step s s' -> inv s'.
Proof.
  intros Hs Hstep. pose proof Hs as [Hc Hd Hf Hi Hw Hb].
  destruct Hstep as [s nested t l Ht Ha|s t l Ht Ha|s t|s|s|s g Hg|s g l Hg Hk|s g l ch Hg Hk
    |s g ch Hg Hch|s g ch e Hg].
  - unfold Admit in Ha. destruct (_ || _) eqn:Eo; [done|]. destruct (_ && _); [done|].
    injection Ha as <-. b2p. by apply inv_add_token.
  - unfold Track in Ha. destruct (_ || _) eqn:Eo; [done|]. injection Ha as <-. b2p.
    by apply inv_add_token.
  - by apply inv_release.
  - split; simpl; auto; try done.
    + intros Hx. by destruct (Hd Hx).
    + intros Hx. by destruct (Hf Hx).
    + intros ch Hch. destruct (Hi ch Hch) as (? & ? & ? & ?). auto.
  - split; simpl; auto; try done.
    + intros Hx. by destruct (Hd Hx).
    + intros ch Hch. destruct (Hi ch Hch) as (? & ? & ? & ?). auto.
  - apply inv_set_waiter; simpl; auto; try done.
    + intros Hx. by destruct (Hd Hx).
    + intros Hx. by destruct (Hf Hx).
  - unfold Wait_check in Hk. destruct (l_inflight (sy_life s) =? 0) eqn:E0;
      [|by destruct (l_idle (sy_life s)), (l_idle_closed (sy_life s))].
    injection Hk as <-. b2p. apply inv_set_waiter; simpl; auto; try done.
    + eauto.
    + intros _. lia.
    + intros Hx. by destruct (Hf Hx).
  - unfold Wait_check in Hk. destruct (l_inflight (sy_life s) =? 0) eqn:E0; [done|]. b2p.
    assert (Hh : held s <> 0%nat) by lia.
    destruct (l_idle (sy_life s)) as [ci|] eqn:Ei; [destruct (l_idle_closed (sy_life s)) eqn:Ec|];
      injection Hk as <- <-;
      (apply inv_set_waiter; simpl; [done|done|by eauto|by intros Hx; destruct (Hd Hx)
        |by intros Hx; destruct (Hf Hx)| |by intros ch' [= <-]; auto]);
      rewrite ?Ei, ?Ec; auto 7.
  - apply inv_set_waiter; simpl; auto; try done; [by eauto|..].
    + intros Hx. by destruct (Hd Hx).
    + intros Hx. by destruct (Hf Hx).
  - apply inv_set_waiter; simpl; auto; try done.
    intros Hx. by destruct (Hd Hx).
Qed.

Lemma reachable_inv s : reachable s -> inv s.
Proof.
  intros Hr. unfold reachable in Hr. remember start as s0 eqn:E.
  assert (H0 : inv s0) by (subst; apply inv_start). clear E.
  induction Hr as [|s0 s1 s Hstep _ IH]; [done|]. apply IH. by eapply inv_step.
Qed.

(** ** The flags only rise *)

Definition flags_le (s s' : system) : Prop :=
  (l_closed (sy_life s) = true -> l_closed (sy_life s') = true) /\
  (l_forced (sy_life s) = true -> l_forced (sy_life s') = true) /\
  (l_done (sy_life s) = true -> l_done (sy_life s') = true).

Lemma step_flags s s' : step s s' -> flags_le s s'.
Proof.
  intros [? nested t l Ht Ha|? t l Ht Ha|? t|?|?|? g Hg|? g l Hg Hk|? g l ch Hg Hk
    |? g ch Hg Hch|? g ch e Hg]; unfold flags_le; simpl; auto.
  - unfold Admit in Ha. by repeat case_match; simplify_eq/=.
  - unfold Track in Ha. by repeat case_match; simplify_eq/=.
  - unfold call_release, releaser. by repeat case_match; simplify_eq/=.
  - unfold Wait_check in Hk. by repeat case_match; simplify_eq/=.
  - unfold Wait_check in Hk. by repeat case_match; simplify_eq/=.
Qed.

Lemma steps_flags s s' : rtc step s s' -> flags_le s s'.
Proof.
  induction 1 as [s|s s1 s' Hstep _ IH]; [by unfold flags_le|].
  apply step_flags in Hstep. unfold flags_le in *. tauto.
Qed.

Lemma reachable_trans s s' : reachable s -> rtc step s s' -> reachable s'.
Proof. intros H1 H2. unfold reachable. by etransitivity. Qed.

(** A waiter at the check of an idle lifecycle returns nil. *)
Lemma check_returns s g :
  l_inflight (sy_life s) = 0 -> sy_waiters s !! g = Some Checking ->
  exists s', step s s' /\ sy_waiters s' !! g = Some (Returned None).
Proof.
  intros H0 Hg. eexists. split.
  - eapply step_check_done; [exact Hg|]. unfold Wait_check. by rewrite H0.
  - simpl. by rewrite lookup_insert_eq.
Qed.

(** * Properties *)

(** Accounting. Whatever the interleaving, the in-flight count is the number
    of release functions that were handed out and not called, however often each
    is called; new work is admitted after the shutdown began only for a nested
    emit whose parent is still counted, and never after an interruption or after
    a drain completed; and once a drain completed nothing is in flight, then and
    ever after. *)
Theorem lifecycle_accounting (s : system) :
  reachable s ->
  l_inflight (sy_life s) = Z.of_nat (held s)
  /\ (forall nested l, Admit nested (sy_life s) = (l, None) ->
        l_forced (sy_life s) = false /\ l_done (sy_life s) = false
        /\ (l_closed (sy_life s) = true -> nested = true /\ held s <> 0%nat))
  /\ (forall l, Track (sy_life s) = (l, true) ->
        l_forced (sy_life s) = false /\ l_done (sy_life s) = false)
  /\ (l_done (sy_life s) = true -> forall s', rtc step s s' -> held s' = 0%nat).
Proof.
  intros Hr. pose proof (reachable_inv s Hr) as Hi. split; [apply Hi|]. split; [|split].
  - intros nested l Ha. unfold Admit in Ha. destruct (_ || _) eqn:Eo; [done|]. b2p.
    split; [done|]. split; [done|]. intros Hc. rewrite Hc in Ha.
    destruct nested; [|done]. simpl in Ha. destruct (_ <=? 0) eqn:Ez; [done|]. b2p.
    rewrite (inv_count s Hi) in Ez. split; [done|lia].
  - intros l Ht. unfold Track in Ht. destruct (_ || _) eqn:Eo; [done|]. by b2p.
  - intros Hd s' Hs. apply (inv_done s').
    + apply reachable_inv. by eapply reachable_trans.
    + by apply (steps_flags s s' Hs).
Qed.

(** One handler, a shutdown that waits for it, and its release. *)
Definition drain_start : system :=
  set_waiter (add_token start (with_inflight zero_lifecycle 1) 0)
    (BeginShutdown (with_inflight zero_lifecycle 1)) 7 Checking.

Lemma drain_reachable : reachable drain_start.
Proof.
  eapply rtc_l; [|eapply rtc_l; [|apply rtc_refl]].
  - apply (step_track start 0 (with_inflight zero_lifecycle 1)); reflexivity.
  - apply (step_shutdown (add_token start (with_inflight zero_lifecycle 1) 0) 7). reflexivity.
Qed.

Lemma lifecycle_accounting_witness :
  l_inflight (sy_life drain_start) = 1
  /\ Admit false (sy_life drain_start) = (sy_life drain_start, Some (Sentinel ErrBusClosed)).
Proof.
  destruct (lifecycle_accounting drain_start drain_reachable) as (Hc & _).
  split; [exact Hc|reflexivity].
Defined.

(** No lost wake-up. A goroutine blocked in [Shutdown] can always go on once
    the in-flight work is gone: its channel is closed, or some release function
    has not been called yet; and from every reachable state in which none is
    left it returns nil after waking up and checking once more. *)
Theorem shutdown_drains (s : system) (g ch : nat) :
  reachable s -> sy_waiters s !! g = Some (Blocked ch) ->
  (ch ∈ sy_closed s \/ held s <> 0%nat)
  /\ (held s = 0%nat ->
        exists s1 s2, step s s1 /\ step s1 s2 /\ sy_waiters s2 !! g = Some (Returned None)
          /\ l_done (sy_life s2) = true).
Proof.
  intros Hr Hg. pose proof (reachable_inv s Hr) as Hi.
  assert (Hor : ch ∈ sy_closed s \/ held s <> 0%nat).
  { destruct (inv_blocked s Hi g ch Hg) as [|[H1 H2]]; [by left|right].
    by apply (inv_idle s Hi ch H1). }
  split; [done|]. intros H0. destruct Hor as [Hcl|]; [|done].
  pose proof (inv_count s Hi) as Hcnt. rewrite H0 in Hcnt.
  exists (set_waiter s (sy_life s) g Checking). eexists. split; [by eapply step_wake|].
  split; [eapply step_check_done|].
  - simpl. by rewrite lookup_insert_eq.
  - unfold Wait_check. simpl. by rewrite Hcnt.
  - simpl. by rewrite lookup_insert_eq.
Qed.

(** The shutdown above, blocked, after the handler's release. *)
Definition drain_blocked : system :=
  set_waiter drain_start
    (mkLifecycle true false false 1 (Some (sy_next drain_start)) false false) 7
    (Blocked (sy_next drain_start)).

Lemma shutdown_drains_witness :
  exists s1 s2, step (call_release drain_blocked 0) s1 /\ step s1 s2
    /\ sy_waiters s2 !! 7%nat = Some (Returned None) /\ l_done (sy_life s2) = true.
Proof.
  assert (Hr : reachable (call_release drain_blocked 0)).
  { eapply reachable_trans; [exact drain_reachable|].
    eapply rtc_l; [|eapply rtc_l; [|apply rtc_refl]].
    - apply (step_check_wait drain_start 7
        (mkLifecycle true false false 1 (Some (sy_next drain_start)) false false)
        (sy_next drain_start)); reflexivity.
    - apply step_release. }
  destruct (shutdown_drains (call_release drain_blocked 0) 7 (sy_next drain_start) Hr eq_refl)
    as [_ H]. apply H. reflexivity.
Defined.

(** An interruption is reported, not lost. The context of an asynchronous
    handler is free of its emitter's cancellation and deadline, keeps its
    values, carries the lifecycle's marker, and ends exactly when the bus is
    interrupted; from then on a context error the handler returns is wrapped so
    that it matches [ErrShutdownInterrupted] and still the context error, has
    reason [interrupted], and counts as interrupted, never as a failure. *)
Theorem interrupt_is_reported (id : nat) (parent : Ctx) (t now : Z) (e : error) :
  let c := HandlerContext id (Some (interrupted_at t)) parent true in
  Nested id c = true /\ cx_deadline c = None
  /\ MetadataFromContext c = MetadataFromContext parent
  /\ (now < t -> ctx_err now c = None)
  /\ (t <= now -> ctx_err now c = Some (Sentinel Canceled)
      /\ (is_ctx_error (Some e) = true -> exists e', WrapInterrupted now c (Some e) = Some e'
          /\ errors_is e' ErrShutdownInterrupted = true
          /\ (forall target, errors_is e target = true -> errors_is e' target = true)
          /\ (errors_is e ErrDeadLettered = false -> errors_is e ErrDuplicate = false ->
              OutcomeOf now c (Some e') = OutcomeInterrupted))).
Proof.
  cbv zeta. split; [by unfold Nested; simpl; rewrite bool_decide_eq_true_2|].
  split; [done|]. split; [done|]. split.
  { intros Hlt. unfold ctx_err. simpl. by destruct (Z.leb_spec t now); [lia|]. }
  intros Hle. split; [unfold ctx_err; simpl; by rewrite (proj2 (Z.leb_le t now) Hle)|].
  intros Hctx. unfold WrapInterrupted.
  assert (Hw : forall target, errors_is (wrap2 (Sentinel ErrShutdownInterrupted) e) target =
    bool_decide (ErrShutdownInterrupted = target) || errors_is e target).
  { intros target. change (errors_is ?x target) with (Is (Some x) target) at 1.
    by rewrite is_wrap2, errors_is_sentinel. }
  destruct (Is (Some e) ErrShutdownInterrupted) eqn:Es.
  - exists e. repeat split; try done. intros Hdl Hdup. unfold OutcomeOf.
    change (errors_is e ?x) with (Is (Some e) x) in *. by rewrite Hdl, Hdup, Es.
  - unfold is_ctx_error in Hctx. replace (negb _ && negb _) with false
      by (destruct (Is (Some e) Canceled), (Is (Some e) DeadlineExceeded); done).
    assert (Hcause : ctx_cause now (HandlerContext id (Some (interrupted_at t)) parent true)
      = Some (Sentinel ErrShutdownInterrupted)).
    { unfold ctx_cause. simpl. by rewrite (proj2 (Z.leb_le t now) Hle). }
    rewrite Hcause. simpl. eexists. split; [done|]. rewrite Hw.
    split; [done|]. split; [intros target Ht; rewrite Hw, Ht; apply orb_true_r|].
    intros Hdl Hdup. unfold OutcomeOf. rewrite !is_wrap2, !errors_is_sentinel.
    by rewrite Hdl, Hdup, !bool_decide_eq_false_2, bool_decide_eq_true_2 by done.
Qed.

Lemma interrupt_is_reported_witness :
  OutcomeOf 9 (HandlerContext 0 (Some (interrupted_at 5)) background true)
    (Some (wrap2 (Sentinel ErrShutdownInterrupted) (Sentinel Canceled))) = OutcomeInterrupted.
Proof.
  destruct (interrupt_is_reported 0 background 5 9 (Sentinel Canceled))
    as (_ & _ & _ & _ & H).
  destruct (H ltac:(lia)) as (_ & Hw). destruct (Hw eq_refl) as (e' & He & _ & _ & Ho).
  injection He as <-. apply Ho; reflexivity.
Defined.
