(* ===== verification/LifeOps.v ===== *)
(** * The lifecycle of a bus, in the world

    The methods of src/lifecycle.go as a bus calls them: each critical section of
    Lifecycle.v on the lifecycle that lives at a lens of the user state. *)

From S2P Require Import Prelude GoErrors Types Failure Runtime Lifecycle.
Local Open Scope list_scope.
Local Open Scope Z_scope.

Section ops.
Context {U : Type} `{Lens Lifecycle U}.

(** [b.life.Admit(ctx)] for the bus whose lifecycle is [id]. *)
Definition admit_life (id : nat) (c : Ctx) : M U goerr :=
  atomically (fun l => let '(l, err) := Admit (Nested id c) l in (err, l)).

(** [b.life.Track()]: whether the work is counted. *)
Definition track_life : M U bool := atomically (fun l => let '(l, ok) := Track l in (ok, l)).

(** The first call of a release function. *)
Definition release_life : M U unit := atomically (fun l => (tt, (releaser l).1)).

(** [b.life.Closing()]. *)
Definition closing_life : M U bool := atomically (fun l => (Closing l, l)).

(** ** Facts *)

Lemma closing_life_run (w : World U) :
  closing_life w = (Ret (Closing (lget (w_user w))), w).
Proof. unfold closing_life, atomically. cbn. rewrite lput_lget. by destruct w. Qed.

Lemma returns_atomically {A} (f : Lifecycle -> A * Lifecycle) : returns (atomically f).
Proof. intros w. destruct (atomically_run f w) as (w' & -> & _). by eexists. Qed.

(** A relation that does not look at the lifecycle. *)
Lemma respects_atomically {A} (R : relation (World U)) (f : Lifecycle -> A * Lifecycle) :
  (forall u, respects R (put_user u)) -> respects R (atomically f).
Proof.
  intros Hu w. unfold atomically. destruct (f _) as [a s]. apply (Hu (lput s (w_user w)) w).
Qed.
End ops.

#[export] Hint Resolve returns_atomically : returns.
