(* ===== verification/Frames.v ===== *)
(** * What the core can change

    [Settle] and [InvokeHandler] touch the world only through their signals, the
    scopes, the dead-letter publish and the user's code. A relation between worlds
    that all of these keep ([core_keeps]) is kept by every call of the core; the
    transports prove their own contracts with it. *)

From S2P Require Import Prelude GoErrors Types Failure Runtime Observer Scope Dlq.
From S2P Require Import Settle Invoke.
Local Open Scope list_scope.
Local Open Scope Z_scope.

(** Installing an observer numbers the children of a [MultiObserver], nothing else. *)
Section children.
Context {U : Type} (R : relation (World U)) `{!PreOrder R}.
Context (Hchild : respects R (new_child (U := U))).

Lemma collect_on_children obs : respects R (collect (U := U) obs).
Proof using Type*.
  induction obs as [|o obs IH]; simpl; [by apply respects_ret|].
  destruct o as [[| |id|g o|[cs|]]|]; try done;
    repeat first [apply Hchild | by apply respects_ret | apply respects_bind; [done| |intros] | done].
Qed.

Lemma WithObserver_on_children c o : respects R (WithObserver (U := U) c o).
Proof using Type*.
  destruct o as [[| |id|g o|[cs|]]|]; simpl; try (by apply respects_ret);
    (apply respects_bind; [done| |intros; by apply respects_ret]);
    (apply respects_bind; [done|apply collect_on_children|intros; by apply respects_ret]).
Qed.
End children.

Section frames.
Context {U : Type} `{Env U} (R : relation (World U)) `{!PreOrder R}.

Class core_keeps := {
  ck_raise c s : respects R (raise (U := U) c s);
  ck_sleep d : respects R (sleep (U := U) d);
  ck_set_scope l sc : respects R (set_scope (U := U) l sc);
  ck_new_scope sc : respects R (new_scope (U := U) sc);
  ck_new_child : respects R (new_child (U := U));
  ck_onerr b c e h :
    respects R (_ ← log_entry (U := U) (EOnErr b h e); env_onerr b c e h);
}.

Context `{!core_keeps}.
Implicit Types (c : Ctx) (l : option nat).

Ltac step :=
  repeat first
    [ apply ck_raise | apply ck_set_scope | apply ck_new_scope | apply ck_new_child
    | apply ck_sleep | by apply respects_ret | apply respects_if
    | apply respects_bind; [done| |intros] ].

Lemma keeps_now : respects R (now (U := U)).
Proof using PreOrder0. intros w. reflexivity. Qed.
Lemma keeps_err c : respects R (Err (U := U) c).
Proof using PreOrder0. intros w. reflexivity. Qed.
Lemma keeps_cause c : respects R (Cause (U := U) c).
Proof using PreOrder0. intros w. reflexivity. Qed.
Lemma keeps_get_scope n : respects R (get_scope (U := U) n).
Proof using PreOrder0. intros w. reflexivity. Qed.
Lemma keeps_name e : respects R (Name (U := U) e).
Proof using PreOrder0. intros w. unfold Name. destruct (ev_name_panics e); reflexivity. Qed.

Lemma keeps_select c d : respects R (select_timer (U := U) c d).
Proof using Type*.
  unfold select_timer. apply respects_bind; [done|apply keeps_now|intros t].
  destruct (cx_done c); [|step]. apply respects_if; step.
Qed.

Lemma keeps_collect obs : respects R (collect (U := U) obs).
Proof using Type*. apply collect_on_children; [done|apply ck_new_child]. Qed.

Lemma keeps_WithObserver c o : respects R (WithObserver (U := U) c o).
Proof using Type*. apply WithObserver_on_children; [done|apply ck_new_child]. Qed.

Lemma keeps_WithFailureScope c : respects R (WithFailureScope (U := U) c).
Proof using Type*. apply respects_bind; [done|apply ck_new_scope|intros; by apply respects_ret]. Qed.

Lemma keeps_markReported l : respects R (markReported (U := U) l).
Proof using Type*.
  destruct l as [n|]; [|by apply respects_ret].
  apply respects_bind; [done|apply keeps_get_scope|]. intros [sc|]; step.
Qed.

Lemma keeps_Breaker l : respects R (Breaker (U := U) l).
Proof using Type*.
  destruct l as [n|]; [|by apply respects_ret].
  apply respects_bind; [done|apply keeps_get_scope|]. intros [sc|]; step.
Qed.

Lemma keeps_flush l c o : respects R (flushHandlerDone (U := U) l c o).
Proof using Type*.
  destruct l as [n|]; [|by apply respects_ret].
  apply respects_bind; [done|apply keeps_get_scope|]. intros [[b rep [r|] [] se]|]; step.
Qed.

Lemma keeps_defer l r : respects R (deferHandlerDone (U := U) l r).
Proof using Type*.
  destruct l as [n|]; [|by apply respects_ret].
  apply respects_bind; [done|apply keeps_get_scope|]. intros [sc|]; step.
Qed.

Lemma keeps_onerr c b h subj err : respects R (callEventOnErr (U := U) c b h subj err).
Proof using Type*. apply respects_recovering; [done|apply ck_onerr|intros; apply ck_raise]. Qed.

Lemma keeps_reportTerminal c i d o reason err :
  respects R (reportTerminal (U := U) c i d o reason err).
Proof using Type*.
  unfold reportTerminal. apply respects_bind; [done|apply keeps_markReported|intros first].
  apply respects_if; [by apply respects_ret|].
  apply respects_bind; [done|apply keeps_Breaker|intros b].
  apply respects_bind; [done|apply keeps_now|intros t].
  apply respects_bind; [done|apply ck_raise|intros _].
  destruct (in_evt i) as [e|]; [destruct (ev_onerr e)|]; try by apply respects_ret.
  apply keeps_onerr.
Qed.

Lemma keeps_NewDLQRecord c evt h cause : respects R (NewDLQRecord (U := U) c evt h cause).
Proof using Type*.
  unfold NewDLQRecord. apply respects_bind; [done|apply keeps_now|intros t].
  destruct (MetadataFromContext c) as [md ok].
  apply respects_bind; [done| |intros; by apply respects_ret].
  destruct evt as [e|]; [|by apply respects_ret].
  apply respects_if; [apply keeps_name|by apply respects_ret].
Qed.

(** A publish through a publisher whose call and trace entry keep [R]. *)
Lemma keeps_PublishDeadLetter c p r :
  (forall c r, respects R (err ← p c r; _ ← log_entry (EPublish r err); mret err)) ->
  respects R (PublishDeadLetter (U := U) c p r).
Proof using Type*.
  intros Hp. assert (Hloop : forall n delay, respects R (publish_loop p c r n delay)).
  { induction n as [|n IH]; intros delay w; cbn [publish_loop]; [reflexivity|].
    specialize (Hp c r w). unfold mbind, M_bind in Hp |- *.
    destruct (p c r w) as [[err|v|] w1]; [|exact Hp..]. unfold log_entry at 1 in Hp.
    unfold log_entry at 1. cbn in Hp. etransitivity; [exact Hp|].
    destruct err as [e|]; [|reflexivity]. destruct n; [reflexivity|].
    apply (respects_bind R); [apply keeps_select|]. intros b.
    apply respects_if; [apply IH|by apply respects_ret]. }
  unfold PublishDeadLetter. apply respects_bind; [done|apply Hloop|].
  intros [e|]; [step|]. apply respects_bind; [done|apply keeps_now|intros t]. step.
Qed.

Lemma keeps_Settle c i :
  (forall p c r, in_publisher i = Some p ->
     respects R (err ← p c r; _ ← log_entry (EPublish r err); mret err)) ->
  respects R (Settle (U := U) c i).
Proof using Type*.
  intros Hp. unfold Settle. destruct (in_err i) as [e|]; [|by apply respects_ret].
  apply respects_deferring; [done| |intros; apply keeps_flush].
  assert (Hend : forall o r err (s : Settlement),
    respects R (_ ← reportTerminal (U := U) c i (delivery_or_single c) o r err; mret s))
    by (intros; apply respects_bind; [done|apply keeps_reportTerminal|intros; by apply respects_ret]).
  assert (Hret : forall s : Settlement, respects R (mret (M := M U) s))
    by (intros; by apply respects_ret).
  unfold settle_body. apply respects_bind; [done|step|intros _].
  apply respects_bind; [done|apply keeps_now|intros t].
  apply respects_if; [by apply respects_if|].
  unfold settle_disposed. destruct (Dispose (in_err i) (delivery_or_single c));
    try (repeat apply respects_if; auto; fail);
    (destruct (in_publisher i) as [p|] eqn:Ep; [|done]);
    (apply respects_bind; [done|apply keeps_NewDLQRecord|intros r]);
    (apply respects_bind; [done|apply keeps_PublishDeadLetter; eauto|]);
    intros [pe|]; try done; by apply respects_if.
Qed.

Lemma keeps_report_done c s h evt start err : respects R (report_done (U := U) c s h evt start err).
Proof using Type*.
  unfold report_done. apply respects_bind; [done| |intros name].
  { destruct evt as [e|]; [|by apply respects_ret].
    apply respects_recovering; [done|apply keeps_name|intros; by apply respects_ret]. }
  apply respects_bind; [done|apply keeps_now|intros t].
  apply respects_if; [|apply ck_raise].
  apply respects_bind; [done|apply keeps_defer|]. intros []; [by apply respects_ret|apply ck_raise].
Qed.

(** A run of a handler that keeps [R] in any context. *)
Lemma keeps_InvokeHandler c inv evt h fn :
  (forall c, respects R (fn c)) ->
  (forall i, inv = Some i -> forall c evt h, respects R (i c evt h (call fn))) ->
  respects R (InvokeHandler (U := U) c inv evt h fn).
Proof using Type*.
  intros Hfn Hinv. unfold InvokeHandler. apply respects_bind; [done|apply keeps_now|intros start].
  apply respects_bind; [done| |intros [c' s]].
  { destruct (FailureScopeFromContext c); [by apply respects_ret|].
    apply respects_bind; [done|apply ck_new_scope|intros; by apply respects_ret]. }
  assert (Hcall : forall c, respects R (call fn c))
    by (intros; apply respects_recovering; [done|apply Hfn|intros; by apply respects_ret]).
  apply respects_deferring; [done| |intros; apply keeps_report_done].
  apply respects_recovering; [done| |intros; by apply respects_ret].
  destruct inv as [i|]; [by apply (Hinv i)|apply Hcall].
Qed.
End frames.

(** ** Relations on the trace

    A relation that looks at nothing but the trace is kept by the core as soon as
    the core's own entries and the user's observers and events keep it. *)
Definition core_entry (e : entry) : bool :=
  match e with
  | ESignal _ _ | EDeliver _ _ | EPanicLogged _ _ | EOnErr _ _ _ => true
  | _ => false
  end.

Section trace.
Context {U : Type} `{Env U} (R : relation (World U)) `{!PreOrder R}.
Context (Hlog : forall w w', w_log w = w_log w' -> R w w').
Context (Hentry : forall e, core_entry e = true -> respects R (log_entry e)).
Context (Hobs : forall id c s, respects R (env_observe (U := U) id c s)).
Context (Honerr : forall b c e h, respects R (env_onerr (U := U) b c e h)).

Lemma raise_to_on_trace o c s : respects R (raise_to (U := U) o c s).
Proof using Hlog Hentry Hobs PreOrder0.
  apply raise_to_keeps; [done| |by apply Hentry].
  split; intros; try (by apply Hobs); try (by apply Hentry); by (intros w; apply Hlog).
Qed.

Lemma core_keeps_on_trace : core_keeps R.
Proof using Type*.
  split; intros; try (by (intros w; apply Hlog)).
  - apply raise_to_on_trace.
  - apply respects_bind; [done|by apply Hentry|intros _; apply Honerr].
Qed.
End trace.

(** ** Calls that return *)

Section returns.
Context {U : Type} `{Env U}.

Lemma returns_collect o : returns (collect (U := U) o).
Proof.
  induction o as [|o os IH]; simpl; [apply returns_ret|].
  destruct o as [[| |id|g o|[cs|]]|]; try done;
    try (apply returns_bind; [done|intros; apply returns_ret]);
    (apply returns_bind; [intros w; by eexists|intros x]);
    (apply returns_bind; [done|intros; apply returns_ret]).
Qed.

Lemma returns_WithObserver c o : returns (WithObserver (U := U) c o).
Proof.
  destruct o as [[| |id|g o|[cs|]]|]; simpl; try apply returns_ret;
    (apply returns_bind; [|intros; apply returns_ret]);
    (apply returns_bind; [apply returns_collect|intros; apply returns_ret]).
Qed.

Lemma returns_new_failure_scope c : returns (cs ← WithFailureScope (U := U) c; mret cs.1).
Proof.
  apply returns_bind; [|intros; apply returns_ret].
  apply returns_bind; [apply returns_new_scope|intros; apply returns_ret].
Qed.

(** A report to an isolated observer does not panic. *)
Lemma no_panic_raise_to o c s : isolated o -> no_panic (raise_to (U := U) o c s).
Proof.
  intros Hi w v. unfold raise_to, mbind, M_bind. cbn.
  match goal with |- (observe ?o ?c ?s ?w0).1 <> _ =>
    pose proof (isolated_no_panic o c s w0) as Hn; destruct (observe o c s w0) as [[] w1] end;
    cbn; try done. intros [= ->]. by eapply Hn.
Qed.
End returns.
