(* ===== verification/Ids.v ===== *)
(** * Event identifiers

    src/id.go: the UUIDv7 generator. A call is a function of the generator's
    state, of the 16 random bytes and of the clock's millisecond; it runs under
    the generator's mutex up to the encoding, which is pure, so concurrent calls
    are a sequence of calls. *)

From Stdlib Require Import Sorted.
From S2P Require Import Prelude Text.
Local Open Scope string_scope.
Local Open Scope list_scope.
Local Open Scope Z_scope.

(** [uuidv7Gen]: [lastMS] is an [int64], [seq] a [uint16]. *)
Record uuidv7Gen := mkGen { g_lastMS : Z; g_seq : Z }.

(** [defaultIDGen] before the first call. *)
Definition defaultIDGen : uuidv7Gen := mkGen 0 0.

Definition to_byte (z : Z) : Z := Z.land z 255.

Definition byte_at (b : list Z) (i : nat) : Z := nth i b 0.

(** The counter seed from random bytes 6 and 7. *)
Definition seed_of (b : list Z) : Z :=
  Z.land (Z.lor (Z.shiftl (byte_at b 6) 8 mod 65536) (byte_at b 7)) 2047.

(** The critical section of [next]. *)
Definition advance (g : uuidv7Gen) (seed ms : Z) : uuidv7Gen :=
  if g_lastMS g <? ms then mkGen ms seed
  else
    let seq := (g_seq g + 1) mod 65536 in
    if 4095 <? seq then mkGen (wrap64 (g_lastMS g + 1)) seed else mkGen (g_lastMS g) seq.

(** The bytes of the identifier. *)
Definition id_bytes (g : uuidv7Gen) (b : list Z) : list Z :=
  let ts := g_lastMS g mod 2 ^ 64 in
  [to_byte (Z.shiftr ts 40); to_byte (Z.shiftr ts 32); to_byte (Z.shiftr ts 24);
   to_byte (Z.shiftr ts 16); to_byte (Z.shiftr ts 8); to_byte ts]
  ++ [Z.lor 112 (to_byte (Z.shiftr (g_seq g) 8)); to_byte (g_seq g)]
  ++ [Z.lor (Z.land (byte_at b 8) 63) 128; byte_at b 9]
  ++ [byte_at b 10; byte_at b 11; byte_at b 12; byte_at b 13; byte_at b 14; byte_at b 15].

(** [hex.Encode], as character codes. *)
Definition hex_digit (n : Z) : Z := if n <? 10 then 48 + n else 87 + n.
Definition hex_byte (b : Z) : list Z := [hex_digit (Z.shiftr b 4); hex_digit (Z.land b 15)].
Definition hex (l : list Z) : list Z := flat_map hex_byte l.

(** [formatUUID]. *)
Definition formatUUID_bytes (b : list Z) : list Z :=
  hex (take 4 b) ++ [45] ++ hex (take 2 (drop 4 b)) ++ [45] ++ hex (take 2 (drop 6 b))
  ++ [45] ++ hex (take 2 (drop 8 b)) ++ [45] ++ hex (take 6 (drop 10 b)).
Definition formatUUID (b : list Z) : string := of_bytes (formatUUID_bytes b).

(** [uuidv7Gen.next]. *)
Definition next (g : uuidv7Gen) (rand : list Z) (ms : Z) : uuidv7Gen * string :=
  let g' := advance g (seed_of rand) ms in
  (g', formatUUID (id_bytes g' rand)).

(** The identifiers of a sequence of calls of [NewID]. *)
Fixpoint new_ids (g : uuidv7Gen) (calls : list (list Z * Z)) : list string :=
  match calls with
  | [] => []
  | (rand, ms) :: rest => let '(g', id) := next g rand ms in id :: new_ids g' rest
  end.

(** ** Lexicographic order *)

Inductive lexlt : list Z -> list Z -> Prop :=
| lexlt_head a b l l' : a < b -> lexlt (a :: l) (b :: l')
| lexlt_tail a l l' : lexlt l l' -> lexlt (a :: l) (a :: l').

Lemma lexlt_app_l p l l' : lexlt l l' -> lexlt (p ++ l) (p ++ l').
Proof. intros Hl. induction p; simpl; [done|by constructor]. Qed.

Lemma lexlt_app_r l l' r r' : lexlt l l' -> lexlt (l ++ r) (l' ++ r').
Proof. induction 1; simpl; by constructor. Qed.

Lemma lexlt_split a a' b b' :
  length a = length a' -> lexlt (a ++ b) (a' ++ b') -> lexlt a a' \/ (a = a' /\ lexlt b b').
Proof.
  revert a'. induction a as [|x a IH]; intros [|y a'] Hl H; simpl in *; try done; [by right|].
  inversion H; subst; [by left; constructor|].
  destruct (IH a') as [|[-> ?]]; [lia|done|by left; constructor|by right].
Qed.

Lemma lexlt_trans l1 l2 l3 : lexlt l1 l2 -> lexlt l2 l3 -> lexlt l1 l3.
Proof.
  intros H. revert l3. induction H; intros l3 H3; inversion H3; subst;
    first [apply lexlt_head; lia | apply lexlt_tail; auto].
Qed.

(** The order of Go strings. *)
Definition string_lt (s t : string) : Prop := lexlt (to_bytes s) (to_bytes t).

#[export] Instance string_lt_trans : Transitive string_lt.
Proof. intros s t u. apply lexlt_trans. Qed.

Lemma lexlt_irrefl l : ~ lexlt l l.
Proof. induction l as [|a l IH]; intros H; inversion H; subst; [lia|by apply IH]. Qed.

(** ** Big-endian bytes *)

Fixpoint be (l : list Z) : Z :=
  match l with [] => 0 | b :: r => b * 256 ^ Z.of_nat (length r) + be r end.

Lemma be_bounds l : Forall is_byte l -> 0 <= be l < 256 ^ Z.of_nat (length l).
Proof.
  induction 1 as [|b l Hb _ IH]; [done|]. cbn [be length]. unfold is_byte in Hb.
  rewrite Nat2Z.inj_succ, Z.pow_succ_r by lia. nia.
Qed.

Lemma be_lexlt l l' :
  length l = length l' -> Forall is_byte l -> Forall is_byte l' -> be l < be l' -> lexlt l l'.
Proof.
  intros Hlen Hl. revert l' Hlen.
  induction Hl as [|b l Hb Hl IH]; intros [|b' l'] Hlen Hl' Hlt; try done.
  inversion Hl' as [|? ? Hb' Hl'']; subst. cbn [be length] in *.
  injection Hlen as Hlen. rewrite <- Hlen in Hlt.
  pose proof (be_bounds l Hl). pose proof (be_bounds l' Hl''). rewrite <- Hlen in *.
  destruct (Z.lt_trichotomy b b') as [|[->|]]; [by constructor| |exfalso; nia].
  apply lexlt_tail. apply IH; [done|done|lia].
Qed.

Lemma to_byte_mod z : to_byte z = z mod 256.
Proof. unfold to_byte. change 255 with (Z.ones 8). by rewrite Z.land_ones. Qed.

Lemma is_byte_to_byte z : is_byte (to_byte z).
Proof. rewrite to_byte_mod. unfold is_byte. apply Z.mod_pos_bound. lia. Qed.

(** ** Hexadecimal is monotone *)

Lemma hex_byte_lexlt a b :
  is_byte a -> is_byte b -> a < b -> lexlt (hex_byte a) (hex_byte b).
Proof.
  unfold is_byte, hex_byte, hex_digit. intros Ha Hb Hlt.
  change 15 with (Z.ones 4). rewrite !Z.shiftr_div_pow2, !Z.land_ones by lia.
  change (2 ^ 4) with 16.
  pose proof (Z.div_mod a 16 ltac:(lia)). pose proof (Z.mod_pos_bound a 16 ltac:(lia)).
  pose proof (Z.div_mod b 16 ltac:(lia)). pose proof (Z.mod_pos_bound b 16 ltac:(lia)).
  destruct (Z.lt_trichotomy (a / 16) (b / 16)) as [|[E|]]; [| |lia].
  - apply lexlt_head. repeat case_match; b2p; lia.
  - rewrite E. apply lexlt_tail, lexlt_head. repeat case_match; b2p; lia.
Qed.

Lemma hex_lexlt l l' :
  Forall is_byte l -> Forall is_byte l' -> lexlt l l' -> lexlt (hex l) (hex l').
Proof.
  intros Hl Hl' H. revert Hl Hl'. induction H as [a b l l' Hab|a l l' H IH]; intros Hl Hl';
    inversion Hl; inversion Hl'; subst.
  - apply lexlt_app_r. by apply hex_byte_lexlt.
  - apply lexlt_app_l. auto.
Qed.

(** Identifiers whose first eight bytes are ordered are ordered. *)
Lemma format_lexlt b b' :
  length b = 16%nat -> length b' = 16%nat -> Forall is_byte b -> Forall is_byte b' ->
  lexlt (take 8 b) (take 8 b') -> lexlt (formatUUID_bytes b) (formatUUID_bytes b').
Proof.
  intros Hn Hn' Hb Hb' H.
  assert (Hsplit : forall b : list Z, take 8 b = take 4 b ++ take 2 (drop 4 b) ++ take 2 (drop 6 b)).
  { intros [|? [|? [|? [|? [|? [|? [|? [|? ?]]]]]]]]; done. }
  rewrite !Hsplit in H. unfold formatUUID_bytes.
  assert (Hby : forall n m (b : list Z), Forall is_byte b -> Forall is_byte (take n (drop m b)))
    by (intros; by apply Forall_take, Forall_drop).
  apply lexlt_split in H as [H|[E1 H]]; [| |rewrite !length_take; lia].
  { apply lexlt_app_r, hex_lexlt; auto using Forall_take. }
  apply lexlt_split in H as [H|[E2 H]]; [| |rewrite !length_take, !length_drop; lia].
  { rewrite E1. do 2 apply lexlt_app_l. apply lexlt_app_r, hex_lexlt; auto. }
  rewrite E1, E2. do 4 apply lexlt_app_l. apply lexlt_app_r, hex_lexlt; auto.
Qed.

(** ** The generator *)

Definition gen_ok (g : uuidv7Gen) : Prop := 0 <= g_lastMS g < 2 ^ 48 /\ 0 <= g_seq g <= 4095.

Definition gen_lt (g g' : uuidv7Gen) : Prop :=
  g_lastMS g < g_lastMS g' \/ (g_lastMS g = g_lastMS g' /\ g_seq g < g_seq g').

Definition random16 (b : list Z) : Prop := length b = 16%nat /\ Forall is_byte b.

Lemma seed_range b : 0 <= seed_of b < 2048.
Proof.
  unfold seed_of. change 2047 with (Z.ones 11). rewrite Z.land_ones by lia.
  apply Z.mod_pos_bound. lia.
Qed.

Lemma advance_lt g seed ms :
  gen_ok g -> 0 <= seed < 2048 ->
  0 <= g_seq (advance g seed ms) <= 4095 /\ gen_lt g (advance g seed ms)
  /\ 0 <= g_lastMS (advance g seed ms) <= Z.max ms (g_lastMS g + 1).
Proof.
  intros [Hms Hseq] Hseed. unfold advance, gen_lt.
  rewrite (Z.mod_small (g_seq g + 1)) by lia. rewrite wrap64_id by lia.
  destruct (Z.ltb_spec (g_lastMS g) ms); [simpl; lia|].
  destruct (Z.ltb_spec 4095 (g_seq g + 1)); simpl; lia.
Qed.

(** The six timestamp bytes are the 48 bits of the timestamp. *)
Lemma be_timestamp ts :
  0 <= ts < 2 ^ 48 ->
  be [to_byte (Z.shiftr ts 40); to_byte (Z.shiftr ts 32); to_byte (Z.shiftr ts 24);
      to_byte (Z.shiftr ts 16); to_byte (Z.shiftr ts 8); to_byte ts] = ts.
Proof.
  intros Hts. rewrite !to_byte_mod, !Z.shiftr_div_pow2 by lia.
  change (2 ^ 40) with (256 * 256 * 256 * 256 * 256). change (2 ^ 32) with (256 * 256 * 256 * 256).
  change (2 ^ 24) with (256 * 256 * 256). change (2 ^ 16) with (256 * 256). change (2 ^ 8) with 256.
  rewrite <- !Z.div_div by lia.
  set (q1 := ts / 256). set (q2 := q1 / 256). set (q3 := q2 / 256). set (q4 := q3 / 256).
  set (q5 := q4 / 256).
  pose proof (Z.div_mod ts 256 ltac:(lia)). pose proof (Z.div_mod q1 256 ltac:(lia)).
  pose proof (Z.div_mod q2 256 ltac:(lia)). pose proof (Z.div_mod q3 256 ltac:(lia)).
  pose proof (Z.div_mod q4 256 ltac:(lia)).
  fold q1 in H. fold q2 in H0. fold q3 in H1. fold q4 in H2. fold q5 in H3.
  assert (Hq : q5 mod 256 = q5).
  { apply Z.mod_small. pose proof (Z.mod_pos_bound ts 256 ltac:(lia)).
    pose proof (Z.mod_pos_bound q1 256 ltac:(lia)). pose proof (Z.mod_pos_bound q2 256 ltac:(lia)).
    pose proof (Z.mod_pos_bound q3 256 ltac:(lia)). pose proof (Z.mod_pos_bound q4 256 ltac:(lia)).
    lia. }
  cbn [be length]. rewrite Hq. change (256 ^ Z.of_nat 5) with 1099511627776.
  change (256 ^ Z.of_nat 4) with 4294967296. change (256 ^ Z.of_nat 3) with 16777216.
  change (256 ^ Z.of_nat 2) with 65536. change (256 ^ Z.of_nat 1) with 256.
  change (256 ^ Z.of_nat 0) with 1. lia.
Qed.

Lemma be_counter seq :
  0 <= seq <= 4095 ->
  be [Z.lor 112 (to_byte (Z.shiftr seq 8)); to_byte seq] = 28672 + seq
  /\ Z.shiftr (Z.lor 112 (to_byte (Z.shiftr seq 8))) 4 = 7.
Proof.
  intros Hs.
  assert (Hall : forallb (fun n => let seq := Z.of_nat n in
    (be [Z.lor 112 (to_byte (Z.shiftr seq 8)); to_byte seq] =? 28672 + seq)
    && (Z.shiftr (Z.lor 112 (to_byte (Z.shiftr seq 8))) 4 =? 7)) (List.seq 0 4096) = true).
  { vm_compute. reflexivity. }
  rewrite forallb_forall in Hall. specialize (Hall (Z.to_nat seq)).
  rewrite Z2Nat.id in Hall by lia. cbv zeta in Hall.
  assert (Hin : In (Z.to_nat seq) (List.seq 0 4096)) by (apply in_seq; lia).
  apply Hall in Hin. b2p. done.
Qed.

Lemma be_app l l' : be (l ++ l') = be l * 256 ^ Z.of_nat (length l') + be l'.
Proof.
  induction l as [|b l IH]; [done|]. cbn [be app]. rewrite IH, length_app.
  rewrite Nat2Z.inj_add, Z.pow_add_r by lia. ring.
Qed.

Lemma is_byte_version seq : is_byte (Z.lor 112 (to_byte (Z.shiftr seq 8))).
Proof.
  assert (Hall : forallb (fun n => (Z.lor 112 (Z.of_nat n) <? 256) && (0 <=? Z.lor 112 (Z.of_nat n)))
    (List.seq 0 256) = true) by (vm_compute; reflexivity).
  rewrite forallb_forall in Hall. pose proof (is_byte_to_byte (Z.shiftr seq 8)) as Hb.
  unfold is_byte in *. specialize (Hall (Z.to_nat (to_byte (Z.shiftr seq 8)))).
  rewrite Z2Nat.id in Hall by lia.
  assert (In (Z.to_nat (to_byte (Z.shiftr seq 8))) (List.seq 0 256)) as Hin by (apply in_seq; lia).
  apply Hall in Hin. b2p. lia.
Qed.

Lemma variant_byte v : 128 <= Z.lor (Z.land v 63) 128 < 192.
Proof.
  assert (Hall : forallb (fun n => (128 <=? Z.lor (Z.of_nat n) 128) && (Z.lor (Z.of_nat n) 128 <? 192))
    (List.seq 0 64) = true) by (vm_compute; reflexivity).
  rewrite forallb_forall in Hall.
  assert (Hb : 0 <= Z.land v 63 < 64).
  { change 63 with (Z.ones 6). rewrite Z.land_ones by lia. apply Z.mod_pos_bound. lia. }
  specialize (Hall (Z.to_nat (Z.land v 63))). rewrite Z2Nat.id in Hall by lia.
  assert (In (Z.to_nat (Z.land v 63)) (List.seq 0 64)) as Hin by (apply in_seq; lia).
  apply Hall in Hin. b2p. lia.
Qed.

Lemma id_bytes_key g b :
  gen_ok g -> be (take 8 (id_bytes g b)) = g_lastMS g * 65536 + 28672 + g_seq g.
Proof.
  intros [Hms Hseq]. unfold id_bytes. rewrite Z.mod_small by lia. cbn [app take].
  match goal with |- be ?l = _ =>
    change l with (take 6 l ++ drop 6 l) end.
  rewrite be_app. cbn [take drop]. rewrite be_timestamp by lia.
  rewrite (proj1 (be_counter _ Hseq)). simpl length. change (256 ^ Z.of_nat 2) with 65536. lia.
Qed.

Lemma random_byte b i : random16 b -> is_byte (byte_at b i).
Proof.
  intros [_ Hb]. unfold byte_at. destruct (nth_in_or_default i b 0) as [Hin| ->]; [|done].
  rewrite Forall_forall in Hb. apply Hb. by apply list_elem_of_In.
Qed.

Lemma id_bytes_bytes g b : random16 b -> Forall is_byte (id_bytes g b).
Proof.
  intros Hb. unfold id_bytes. rewrite !Forall_app.
  pose proof (variant_byte (byte_at b 8)).
  split_and!; repeat (apply Forall_nil_2 || apply Forall_cons_2);
    auto using is_byte_to_byte, is_byte_version, random_byte; unfold is_byte; lia.
Qed.

Lemma hex_bytes l : Forall is_byte l -> Forall is_byte (hex l).
Proof.
  induction 1 as [|b l Hb _ IH]; [constructor|]. unfold hex. simpl.
  unfold is_byte in Hb. unfold hex_byte, hex_digit.
  change 15 with (Z.ones 4). rewrite !Z.shiftr_div_pow2, !Z.land_ones by lia.
  change (2 ^ 4) with 16.
  pose proof (Z.div_mod b 16 ltac:(lia)). pose proof (Z.mod_pos_bound b 16 ltac:(lia)).
  repeat (apply Forall_cons_2); [unfold is_byte; repeat case_match; b2p; lia..|exact IH].
Qed.

Lemma format_bytes b : Forall is_byte b -> Forall is_byte (formatUUID_bytes b).
Proof.
  intros Hb. unfold formatUUID_bytes.
  rewrite !Forall_app; split_and!; try (by repeat constructor);
    apply hex_bytes; auto using Forall_take, Forall_drop.
Qed.

Lemma id_lt g g' b b' :
  gen_ok g -> gen_ok g' -> random16 b -> random16 b' -> gen_lt g g' ->
  string_lt (formatUUID (id_bytes g b)) (formatUUID (id_bytes g' b')).
Proof.
  intros Hg Hg' Hb Hb' Hlt. unfold string_lt, formatUUID.
  pose proof (id_bytes_bytes g b Hb) as Hy. pose proof (id_bytes_bytes g' b' Hb') as Hy'.
  rewrite !to_of_bytes by (by apply format_bytes).
  apply format_lexlt; [done..|].
  apply be_lexlt; [done|by apply Forall_take..|].
  rewrite !id_bytes_key by done. destruct Hg, Hg', Hlt as [|[]]; lia.
Qed.

(** A first call and the rest, from a good generator. *)
Lemma new_ids_sorted g calls M :
  gen_ok g -> g_lastMS g < M -> M + Z.of_nat (length calls) <= 2 ^ 48 ->
  Forall (fun c => random16 c.1 /\ c.2 < M) calls ->
  StronglySorted string_lt (new_ids g calls)
  /\ Forall (fun id => forall b, random16 b -> string_lt (formatUUID (id_bytes g b)) id)
       (new_ids g calls).
Proof.
  revert g M. induction calls as [|[rand ms] calls IH]; intros g M Hg HM Hlen Hcalls; simpl.
  { split; constructor. }
  apply Forall_cons in Hcalls as [[Hr Hms] Hcalls]. cbn [fst snd length] in *. rewrite Nat2Z.inj_succ in Hlen.
  destruct (advance_lt g (seed_of rand) ms Hg (seed_range rand)) as (Hseq & Hlt & Hl).
  set (g' := advance g (seed_of rand) ms) in *.
  assert (Hg' : gen_ok g') by (destruct Hg; split; lia).
  destruct (IH g' (M + 1)) as [Hsort Hall]; [done|lia|lia| |].
  { eapply Forall_impl; [exact Hcalls|]. intros c [? ?]. split; [done|lia]. }
  split; constructor.
  - done.
  - eapply Forall_impl; [exact Hall|]. intros id Hid. by apply Hid.
  - intros b Hb. by apply id_lt.
  - eapply Forall_impl; [exact Hall|]. intros id Hid b Hb.
    transitivity (formatUUID (id_bytes g' b)); [by apply id_lt|by apply Hid].
Qed.

(** * Properties *)

(** C31: identifiers of one process are strictly increasing as strings, whatever
    the random bytes and the clock: within one millisecond, across a clock that
    moves back, and across an exhausted counter. The bound says that the clock,
    and the milliseconds borrowed from it, stay in the 48 bits of the format. *)
Theorem ids_strictly_increasing (calls : list (list Z * Z)) (M : Z) :
  0 < M -> M + Z.of_nat (length calls) <= 2 ^ 48 ->
  Forall (fun c => random16 c.1 /\ c.2 < M) calls ->
  StronglySorted string_lt (new_ids defaultIDGen calls)
  /\ NoDup (new_ids defaultIDGen calls).
Proof.
  intros HM Hlen Hcalls.
  assert (Hs : StronglySorted string_lt (new_ids defaultIDGen calls))
    by (apply (new_ids_sorted _ _ M); [done|done|done|done]).
  split; [done|]. induction Hs as [|id ids _ IH Hall]; constructor; [|done].
  intros Hin. rewrite Forall_forall in Hall. apply (lexlt_irrefl (to_bytes id)).
  by apply Hall.
Qed.

(** Three calls: the clock stands still, then moves back. *)
Lemma ids_strictly_increasing_witness :
  StronglySorted string_lt
    (new_ids defaultIDGen [(repeat 255 16, 1000); (repeat 0 16, 1000); (repeat 7 16, 3)]).
Proof.
  apply (ids_strictly_increasing
    [(repeat 255 16, 1000); (repeat 0 16, 1000); (repeat 7 16, 3)] 1001).
  - lia.
  - simpl. lia.
  - repeat (apply Forall_nil_2 || apply Forall_cons_2); (split; [split; [reflexivity|]|simpl; lia]);
      repeat (apply Forall_nil_2 || apply Forall_cons_2); split; lia.
Defined.

(** The format. An identifier has 36 characters in the five groups of a UUID,
    the version digit is 7 and the variant digit one of 8, 9, a, b, and its first
    48 bits are the generator's millisecond, which is never behind the clock. *)
Theorem id_format (g : uuidv7Gen) (rand : list Z) (ms : Z) :
  gen_ok g -> random16 rand -> ms < 2 ^ 48 -> g_lastMS g + 1 < 2 ^ 48 ->
  let '(g', id) := next g rand ms in
  let chars := to_bytes id in
  String.length id = 36%nat
  /\ chars !! 8%nat = Some 45 /\ chars !! 13%nat = Some 45 /\ chars !! 18%nat = Some 45
  /\ chars !! 23%nat = Some 45
  /\ chars !! 14%nat = Some 55
  /\ (exists v, chars !! 19%nat = Some v /\ v ∈ [56; 57; 97; 98])
  /\ be (take 6 (id_bytes g' rand)) = g_lastMS g' /\ ms <= g_lastMS g' /\ gen_ok g'.
Proof.
  intros Hg Hr Hms Hlast. unfold next.
  destruct (advance_lt g (seed_of rand) ms Hg (seed_range rand)) as (Hseq & Hlt & Hl).
  assert (Hclock : ms <= g_lastMS (advance g (seed_of rand) ms)).
  { unfold advance. destruct (Z.ltb_spec (g_lastMS g) ms); [simpl; lia|].
    destruct Hg as [Hg _]. rewrite wrap64_id by lia. destruct (_ <? _); simpl; lia. }
  set (g' := advance g (seed_of rand) ms) in *.
  assert (Hg' : gen_ok g') by (destruct Hg; split; lia).
  unfold formatUUID. rewrite length_of_bytes, to_of_bytes
    by (by apply format_bytes, id_bytes_bytes).
  split; [done|]. do 4 (split; [done|]). split; [|split; [|split; [|done]]].
  - change (Some (hex_digit (Z.shiftr (Z.lor 112 (to_byte (Z.shiftr (g_seq g') 8))) 4)) = Some 55).
    by rewrite (proj2 (be_counter (g_seq g') Hseq)).
  - exists (hex_digit (Z.shiftr (Z.lor (Z.land (byte_at rand 8) 63) 128) 4)). split; [done|].
    pose proof (variant_byte (byte_at rand 8)) as Hv. rewrite Z.shiftr_div_pow2 by lia.
    change (2 ^ 4) with 16. revert Hv. generalize (Z.lor (Z.land (byte_at rand 8) 63) 128).
    intros v Hv. pose proof (Z.div_mod v 16 ltac:(lia)).
    pose proof (Z.mod_pos_bound v 16 ltac:(lia)).
    assert (Hc : v / 16 = 8 \/ v / 16 = 9 \/ v / 16 = 10 \/ v / 16 = 11) by lia.
    rewrite list_elem_of_In. destruct Hc as [->|[->|[->| ->]]]; simpl; tauto.
  - destruct Hg' as [Hg' _]. unfold id_bytes. rewrite Z.mod_small by lia.
    cbn [app take]. by apply be_timestamp.
Qed.

Lemma id_format_witness : be (take 6 (id_bytes (mkGen 5 12) (repeat 0 16))) = 5.
Proof.
  destruct (id_format (mkGen 5 11) (repeat 0 16) 5) as (_ & _ & _ & _ & _ & _ & _ & H & _).
  - split; simpl; lia.
  - split; [reflexivity|]. repeat (apply Forall_nil_2 || apply Forall_cons_2); split; lia.
  - lia.
  - simpl. lia.
  - exact H.
Defined.
