(* ===== verification/Emit.v ===== *)
(** * Emitting: options and metadata

    src/options.go and src/metadata.go: the options of an emit and of a
    subscription, and the resolution of an outgoing event's metadata, where the
    causal rules live. The identifier generators are parameters: [newid] is
    [NewID], [eo_generator] the bus' own function. *)

From S2P Require Import Prelude GoErrors Types Runtime.
Local Open Scope string_scope.
Local Open Scope list_scope.
Local Open Scope Z_scope.

Notation headers := (option (gmap string string)).

(** ** src/options.go *)

Record EmitOptions (U : Type) := mkEmitOptions {
  eo_subject : string;
  eo_id : string;
  eo_correlation_id : string;
  eo_generator : option (M U string);
  eo_headers : headers;
  eo_inherit : list string;
}.
Arguments mkEmitOptions {U}.
Arguments eo_subject {U}.
Arguments eo_id {U}.
Arguments eo_correlation_id {U}.
Arguments eo_generator {U}.
Arguments eo_headers {U}.
Arguments eo_inherit {U}.

Section options.
Context {U : Type}.
Implicit Types (o : EmitOptions U).

Definition EmitOption : Type := EmitOptions U -> EmitOptions U.

(** The function returned by [WithSubject], and so on. *)
Definition WithSubject (subject : string) : EmitOption := fun o =>
  mkEmitOptions subject (eo_id o) (eo_correlation_id o) (eo_generator o) (eo_headers o)
    (eo_inherit o).
Definition WithID (id : string) : EmitOption := fun o =>
  mkEmitOptions (eo_subject o) id (eo_correlation_id o) (eo_generator o) (eo_headers o)
    (eo_inherit o).
Definition WithCorrelationID (id : string) : EmitOption := fun o =>
  mkEmitOptions (eo_subject o) (eo_id o) id (eo_generator o) (eo_headers o) (eo_inherit o).
Definition WithHeader (key value : string) : EmitOption := fun o =>
  if String.eqb key "" then o
  else mkEmitOptions (eo_subject o) (eo_id o) (eo_correlation_id o) (eo_generator o)
         (Some (<[key := value]> (default ∅ (eo_headers o)))) (eo_inherit o).

(** What a bus sets after the user's options. *)
Definition bus_options (gen : option (M U string)) (inherit : list string) : EmitOption := fun o =>
  mkEmitOptions (eo_subject o) (eo_id o) (eo_correlation_id o) gen (eo_headers o) inherit.

(** [ApplyEmitOptions]. *)
Definition ApplyEmitOptions (evt : Event) (opts : list EmitOption) : M U (EmitOptions U) :=
  name ← Name evt;
  mret (fold_left (fun o opt => opt o) opts (mkEmitOptions name "" "" None None [])).
End options.
Arguments EmitOption U : clear implicits.

Record SubscribeOptions := mkSubscribeOptions {
  so_handler_name : string;
  so_stream : string;
  so_consumer : string;
  so_max_deliver : Z;
  so_backoff : option (list Z);
}.

Definition SubscribeOption : Type := SubscribeOptions -> SubscribeOptions.

Definition WithHandlerName (name : string) : SubscribeOption := fun o =>
  mkSubscribeOptions name (so_stream o) (so_consumer o) (so_max_deliver o) (so_backoff o).
Definition WithStream (stream : string) : SubscribeOption := fun o =>
  mkSubscribeOptions (so_handler_name o) stream (so_consumer o) (so_max_deliver o) (so_backoff o).
Definition WithConsumer (consumer : string) : SubscribeOption := fun o =>
  mkSubscribeOptions (so_handler_name o) (so_stream o) consumer (so_max_deliver o) (so_backoff o).
Definition WithMaxDeliver (n : Z) : SubscribeOption := fun o =>
  mkSubscribeOptions (so_handler_name o) (so_stream o) (so_consumer o) n (so_backoff o).
Definition WithBackOff (delays : option (list Z)) : SubscribeOption := fun o =>
  mkSubscribeOptions (so_handler_name o) (so_stream o) (so_consumer o) (so_max_deliver o) delays.

(** [ApplyOptions]. *)
Definition ApplyOptions (opts : list SubscribeOption) : SubscribeOptions :=
  fold_left (fun o opt => opt o) opts (mkSubscribeOptions "" "" "" 0 None).

(** ** src/metadata.go *)

(** The loop of [resolveHeaders] over the inherited keys. *)
Fixpoint inherit_headers (parent : headers) (keys : list string) (out : headers) : headers :=
  match keys with
  | [] => out
  | k :: rest =>
      inherit_headers parent rest
        (match parent ≫= (fun m : gmap string string => m !! k) with
         | Some v => Some (<[k := v]> (default ∅ out))
         | None => out
         end)
  end.

(** [resolveHeaders]. The order of a map's iteration plays no part: the explicit
    headers all overwrite. *)
Definition resolveHeaders {U} (parent : Metadata) (hasParent : bool) (opts : EmitOptions U)
    : headers :=
  let out := if hasParent then inherit_headers (md_headers parent) (eo_inherit opts) None
             else None in
  match eo_headers opts with
  | None => out
  | Some explicit =>
      if decide (explicit = ∅) then out else Some (explicit ∪ default ∅ out)
  end.

Section metadata.
Context {U : Type}.

(** [ResolveOutbound]. *)
Definition ResolveOutbound (newid : M U string) (c : Ctx) (evt : Event) (opts : EmitOptions U)
    : M U Metadata :=
  let '(parent, hasParent) := MetadataFromContext c in
  let id := eo_id opts in
  let id := if String.eqb id "" then default id (ev_id evt) else id in
  id ← (if String.eqb id ""
        then match eo_generator opts with Some gen => gen | None => mret id end
        else mret id);
  id ← (if String.eqb id "" then newid else mret id);
  let corr :=
    if negb (String.eqb (eo_correlation_id opts) "") then eo_correlation_id opts
    else if hasParent && negb (String.eqb (md_correlation_id parent) "")
    then md_correlation_id parent
    else if hasParent && negb (String.eqb (md_id parent) "") then md_id parent
    else id in
  let causation := if hasParent : bool then md_id parent else "" in
  let version := match ev_version evt with
                 | Some v => if 0 <? v then v else 1
                 | None => 1
                 end in
  name ← Name evt;
  t ← now;
  mret (mkMetadata id corr causation name version t (resolveHeaders parent hasParent opts)).

(** A registry, as far as an emit sees it: [EncodeWith] when it implements
    [EnvelopeEncoder], and [Encode]. *)
Record Registry := mkRegistry {
  r_encode_with : option (Ctx -> Event -> Metadata -> M U (string * goerr));
  r_encode : Ctx -> Event -> M U (string * goerr);
}.

(** [EncodeEvent]. *)
Definition EncodeEvent (c : Ctx) (r : Registry) (evt : Event) (md : Metadata)
    : M U (string * goerr) :=
  match r_encode_with r with
  | Some enc => enc c evt md
  | None => r_encode r c evt
  end.
End metadata.

(** [Registry.Decode] of the registry interface: a nil context is [None]. *)
Definition Decoder (U : Type) : Type :=
  Ctx -> option string -> M U (option Ctx * option Event * goerr).

(** ** Facts *)

Lemma inherit_headers_lookup parent keys out k :
  inherit_headers parent keys out ≫= (.!! k) =
  match (if decide (k ∈ keys) then parent ≫= (fun m : gmap string string => m !! k) else None) with
  | Some v => Some v
  | None => out ≫= (.!! k)
  end.
Proof.
  revert out. induction keys as [|x keys IH]; intros out; cbn [inherit_headers].
  - by rewrite decide_False by apply not_elem_of_nil.
  - rewrite IH. destruct (decide (k = x)) as [->|Hne].
    + rewrite (decide_True (P := x ∈ x :: keys)) by left.
      destruct (parent ≫= _) as [v|] eqn:Ev; destruct (decide (x ∈ keys)); simpl;
        rewrite ?lookup_insert_eq; done.
    + assert (Hk : (k ∈ x :: keys) <-> k ∈ keys) by (rewrite elem_of_cons; naive_solver).
      rewrite (decide_ext _ _ _ _ Hk).
      destruct (decide (k ∈ keys)), (parent ≫= (fun m => m !! x)) as [v|];
        destruct (parent ≫= (fun m => m !! k)); simpl; try done;
        rewrite lookup_insert_ne by done; by destruct out.
Qed.

Lemma resolveHeaders_lookup {U} parent hp (opts : EmitOptions U) k :
  resolveHeaders parent hp opts ≫= (.!! k) =
  match eo_headers opts ≫= (fun m : gmap string string => m !! k) with
  | Some v => Some v
  | None => if hp && bool_decide (k ∈ eo_inherit opts)
            then md_headers parent ≫= (fun m : gmap string string => m !! k) else None
  end.
Proof.
  assert (Hin : (if hp then inherit_headers (md_headers parent) (eo_inherit opts) None
                 else None) ≫= (.!! k) =
    if hp && bool_decide (k ∈ eo_inherit opts)
    then md_headers parent ≫= (fun m : gmap string string => m !! k) else None).
  { destruct hp; [|done]. rewrite inherit_headers_lookup. simpl.
    case_bool_decide; [rewrite decide_True by done|rewrite decide_False by done]; [|done].
    by destruct (md_headers parent ≫= _). }
  unfold resolveHeaders. destruct (eo_headers opts) as [m|]; simpl; [|by rewrite Hin].
  destruct (decide (m = ∅)) as [->|Hne]; [by rewrite Hin, lookup_empty|].
  rewrite <- Hin. simpl. destruct (m !! k) as [v|] eqn:Em.
  - by rewrite (lookup_union_Some_l _ _ _ _ Em).
  - rewrite lookup_union_r by done. by destruct (if hp then _ else _); simpl; rewrite ?lookup_empty.
Qed.

(** What a resolved outgoing metadata holds. *)
Lemma ResolveOutbound_run {U} (newid : M U string) c evt opts (w w' : World U) md :
  (forall w id w', newid w = (Ret id, w') -> id <> "") ->
  ResolveOutbound newid c evt opts w = (Ret md, w') ->
  let '(parent, hp) := MetadataFromContext c in
  md_id md <> ""
  /\ (eo_id opts <> "" -> md_id md = eo_id opts)
  /\ (eo_id opts = "" -> forall id, ev_id evt = Some id -> id <> "" -> md_id md = id)
  /\ md_causation_id md = md_id parent
  /\ md_correlation_id md =
     (if negb (String.eqb (eo_correlation_id opts) "") then eo_correlation_id opts
      else if hp && negb (String.eqb (md_correlation_id parent) "") then md_correlation_id parent
      else if hp && negb (String.eqb (md_id parent) "") then md_id parent
      else md_id md)
  /\ md_name md = ev_name evt /\ md_headers md = resolveHeaders parent hp opts
  /\ 1 <= md_version md.
Proof.
  intros Hnew Hrun. unfold ResolveOutbound in Hrun.
  assert (Hpar : (MetadataFromContext c).2 = false -> (MetadataFromContext c).1 = zero_metadata)
    by (unfold MetadataFromContext; by destruct (cx_metadata c)).
  destruct (MetadataFromContext c) as [parent hp]. cbn [fst snd] in Hpar.
  apply bind_ret_inv in Hrun as (id1 & w1 & H1 & Hrun).
  apply bind_ret_inv in Hrun as (id2 & w2 & H2 & Hrun).
  apply bind_ret_inv in Hrun as (name & w3 & H3 & Hrun).
  apply bind_ret_inv in Hrun as (t & w4 & H4 & Hrun).
  apply mret_inv in Hrun as [-> _]. cbn [md_id md_causation_id md_correlation_id md_name
    md_headers md_version].
  assert (Hid2 : id2 <> "" /\ (id1 <> "" -> id2 = id1)).
  { destruct (String.eqb_spec id1 "") as [->|Hne]; [|by apply mret_inv in H2 as [-> _]].
    split; [by eapply Hnew|done]. }
  assert (Hname : name = ev_name evt).
  { unfold Name in H3. destruct (ev_name_panics evt); [done|]. by apply mret_inv in H3 as [-> _]. }
  split; [apply Hid2|]. split; [|split; [|split; [|split; [done|split; [done|split; [done|]]]]]].
  - intros Hne. apply String.eqb_neq in Hne as He. rewrite He in H1. rewrite He in H1.
    apply mret_inv in H1 as [-> _]. by apply Hid2.
  - intros He id Hev Hne. rewrite He, Hev in H1. simpl in H1. apply String.eqb_neq in Hne as Hb.
    rewrite Hb in H1. apply mret_inv in H1 as [-> _]. by apply Hid2.
  - destruct hp; [done|]. by rewrite (Hpar eq_refl).
  - destruct (ev_version evt) as [v|]; [|done]. destruct (Z.ltb_spec 0 v); lia.
Qed.

(** The options an emit works with. *)
Definition emit_cfg {U} (evt : Event) (opts : list (EmitOption U)) : EmitOptions U :=
  fold_left (fun o opt => opt o) opts (mkEmitOptions (ev_name evt) "" "" None None []).

Lemma ApplyEmitOptions_inv {U} evt (opts : list (EmitOption U)) (w w' : World U) cfg :
  ApplyEmitOptions evt opts w = (Ret cfg, w') -> cfg = emit_cfg evt opts /\ w' = w.
Proof.
  unfold ApplyEmitOptions, Name. destruct (ev_name_panics evt); [done|]. by intros [= <- <-].
Qed.

(** What the identifier sources keep is kept. *)
Lemma keeps_ResolveOutbound {U} (R : relation (World U)) `{!PreOrder R} newid c evt opts :
  respects R newid -> (forall gen, eo_generator opts = Some gen -> respects R gen) ->
  respects R (ResolveOutbound newid c evt opts).
Proof.
  intros Hid Hgen. unfold ResolveOutbound. destruct (MetadataFromContext c) as [parent hp].
  apply respects_bind; [done| |intros id].
  { apply respects_if; [|by apply respects_ret].
    destruct (eo_generator opts) as [gen|]; [by apply Hgen|by apply respects_ret]. }
  apply respects_bind; [done| |intros id'].
  { apply respects_if; [done|by apply respects_ret]. }
  apply respects_bind; [done| |intros name].
  { intros w. unfold Name. by destruct (ev_name_panics evt). }
  apply respects_bind; [done|intros w; reflexivity|intros t]. by apply respects_ret.
Qed.

(** A chain of emits, each from the handler of the event before. *)
Fixpoint emit_chain {U} (newid : M U string) (c : Ctx) (events : list (Event * EmitOptions U))
    : M U (list Metadata) :=
  match events with
  | [] => mret []
  | (evt, opts) :: rest =>
      md ← ResolveOutbound newid c evt opts;
      mds ← emit_chain newid (WithMetadata c md) rest;
      mret (md :: mds)
  end.

Lemma emit_chain_parent {U} (newid : M U string) c p events (w w' : World U) mds :
  (forall w id w', newid w = (Ret id, w') -> id <> "") ->
  Forall (fun e => eo_correlation_id e.2 = "") events ->
  cx_metadata c = Some p -> md_id p <> "" -> md_correlation_id p <> "" ->
  emit_chain newid c events w = (Ret mds, w') ->
  forall i md, mds !! i = Some md ->
    md_id md <> "" /\ md_correlation_id md = md_correlation_id p
    /\ md_causation_id md = match i with O => md_id p | S j => default "" (md_id <$> mds !! j) end.
Proof.
  intros Hnew. revert c p w w' mds.
  induction events as [|[evt opts] rest IH]; intros c p w w' mds Hall Hp Hid Hcorr Hrun i md Hi.
  { apply mret_inv in Hrun as [-> _]. done. }
  apply Forall_cons in Hall as [He Hall]. simpl in Hrun, He.
  apply bind_ret_inv in Hrun as (md0 & w1 & H0 & Hrun).
  apply bind_ret_inv in Hrun as (mds1 & w2 & H1 & Hrun).
  apply mret_inv in Hrun as [-> _].
  pose proof (ResolveOutbound_run _ _ _ _ _ _ _ Hnew H0) as Hr.
  unfold MetadataFromContext in Hr. rewrite Hp in Hr.
  destruct Hr as (Hid0 & _ & _ & Hcaus & Hcorr0 & _). rewrite He in Hcorr0. simpl in Hcorr0.
  apply String.eqb_neq in Hcorr as Hb. rewrite Hb in Hcorr0. simpl in Hcorr0.
  destruct i as [|i]; simpl in Hi.
  - injection Hi as <-. done.
  - destruct (IH (WithMetadata c md0) md0 w1 w2 mds1 Hall eq_refl Hid0 ltac:(congruence) H1 i md Hi)
      as (H2 & H3 & H4).
    split; [done|]. split; [congruence|]. rewrite H4. by destruct i.
Qed.

(** * Properties *)

(** C34: causal lineage. Along a chain of emits that starts outside of any
    handler, every event has an identifier, all carry the root's identifier as
    correlation id, and each names the one before it as its cause; only
    [WithCorrelationID] can change that. *)
Theorem causal_lineage {U} (newid : M U string) (c : Ctx)
    (events : list (Event * EmitOptions U)) (w w' : World U) (mds : list Metadata) (root : Metadata) :
  (forall w id w', newid w = (Ret id, w') -> id <> "") ->
  cx_metadata c = None -> Forall (fun e => eo_correlation_id e.2 = "") events ->
  emit_chain newid c events w = (Ret mds, w') -> mds !! 0%nat = Some root ->
  length mds = length events /\
  forall i md, mds !! i = Some md ->
    md_id md <> "" /\ md_correlation_id md = md_id root
    /\ md_causation_id md = match i with O => "" | S j => default "" (md_id <$> mds !! j) end.
Proof.
  intros Hnew Hc Hall Hrun Hroot.
  assert (Hlen : forall events c w w' mds, emit_chain newid c events w = (Ret mds, w') ->
    length mds = length events).
  { clear. induction events as [|[evt opts] rest IH]; intros c w w' mds Hrun; simpl in Hrun.
    - by apply mret_inv in Hrun as [-> _].
    - apply bind_ret_inv in Hrun as (md0 & w1 & _ & Hrun).
      apply bind_ret_inv in Hrun as (mds1 & w2 & H1 & Hrun).
      apply mret_inv in Hrun as [-> _]. simpl. f_equal. by eapply IH. }
  split; [by eapply Hlen|].
  destruct events as [|[evt opts] rest]; [by apply mret_inv in Hrun as [-> _]|].
  apply Forall_cons in Hall as [He Hall]. simpl in Hrun, He.
  apply bind_ret_inv in Hrun as (md0 & w1 & H0 & Hrun).
  apply bind_ret_inv in Hrun as (mds1 & w2 & H1 & Hrun).
  apply mret_inv in Hrun as [-> _]. injection Hroot as ->.
  pose proof (ResolveOutbound_run _ _ _ _ _ _ _ Hnew H0) as Hr.
  unfold MetadataFromContext in Hr. rewrite Hc in Hr.
  destruct Hr as (Hid0 & _ & _ & Hcaus & Hcorr0 & _). rewrite He in Hcorr0. simpl in Hcorr0.
  intros [|i] md Hi; simpl in Hi.
  - injection Hi as <-. done.
  - destruct (emit_chain_parent newid (WithMetadata c root) root rest w1 w2 mds1 Hnew Hall
      eq_refl Hid0 ltac:(congruence) H1 i md Hi) as (H2 & H3 & H4).
    split; [done|]. split; [congruence|]. rewrite H4. by destruct i.
Qed.

Definition demo_options : EmitOptions nat := mkEmitOptions "s" "" "" None None [].

Definition demo_newid : M nat string :=
  u ← get_user; _ ← put_user (S u); mret ("id" +:+ pretty u).
Definition demo_events : list (Event * EmitOptions nat) :=
  [(plain_event "a", demo_options); (plain_event "b", demo_options);
   (plain_event "c", demo_options)].

Lemma causal_lineage_witness :
  exists mds, (emit_chain demo_newid background demo_events (mkWorld 0 [] ∅ 0 ∅ ∅ 0%nat)).1
    = Ret mds
  /\ map md_causation_id mds = [""; "id0"; "id1"]
  /\ forall i md, mds !! i = Some md -> md_correlation_id md = "id0".
Proof.
  set (r := emit_chain demo_newid background demo_events _).
  assert (Hr : exists mds root, r.1 = Ret mds /\ mds !! 0%nat = Some root /\ md_id root = "id0"
     /\ map md_causation_id mds = [""; "id0"; "id1"]).
  { do 2 eexists. split; [vm_compute; reflexivity|]. repeat split; reflexivity. }
  destruct Hr as (mds & root & Hm & Hroot & Hid & Hcaus). exists mds.
  assert (Hrun : r = (Ret mds, r.2)) by (rewrite <- Hm; apply surjective_pairing).
  assert (Hnew : forall w id w', demo_newid w = (Ret id, w') -> id <> "").
  { intros w id w' Hn. injection Hn as <- _. discriminate. }
  assert (Hall : Forall (fun e => eo_correlation_id e.2 = "") demo_events)
    by repeat constructor.
  destruct (causal_lineage demo_newid background demo_events _ r.2 mds root Hnew eq_refl Hall
    Hrun Hroot) as [_ H].
  split; [exact Hm|]. split; [exact Hcaus|]. intros i md Hi. rewrite <- Hid. apply (H i md Hi).
Defined.

(** Headers of an outgoing event. An explicit header wins; a header of the
    parent event is copied exactly when its key is on the bus' allow list and no
    explicit one replaces it; nothing else appears, and an empty result is a nil
    map. *)
Theorem outgoing_headers {U} (parent : Metadata) (hp : bool) (opts : EmitOptions U) :
  (forall k, resolveHeaders parent hp opts ≫= (.!! k) =
     match eo_headers opts ≫= (fun m : gmap string string => m !! k) with
     | Some v => Some v
     | None => if hp && bool_decide (k ∈ eo_inherit opts)
               then md_headers parent ≫= (fun m : gmap string string => m !! k) else None
     end)
  /\ resolveHeaders parent hp opts <> Some ∅.
Proof.
  split; [intros k; apply resolveHeaders_lookup|].
  assert (Hout : (if hp then inherit_headers (md_headers parent) (eo_inherit opts) None
                  else None) <> Some ∅).
  { destruct hp; [|done].
    assert (Hgen : forall keys out, out <> Some ∅ ->
      inherit_headers (md_headers parent) keys out <> Some ∅).
    { induction keys as [|k keys IH]; intros out Ho; simpl; [done|]. apply IH.
      destruct (md_headers parent ≫= _) as [v|]; [|done].
      intros [= He]. by apply insert_non_empty in He. }
    by apply Hgen. }
  unfold resolveHeaders. destruct (eo_headers opts) as [m|]; [|done].
  destruct (decide (m = ∅)) as [|Hne]; [done|]. intros [= He].
  apply Hne. by apply map_positive_l in He.
Qed.
