(* ===== verification/Invokers.v ===== *)
(** * Invokers: chain, dead-letter and rate limit

    src/invoker/chain.go, dlq.go and rate-limit.go. An invoker wraps the handler
    closure; a [Chain] nests invokers, the first outermost. [invoker_eq] is the
    equality of invokers that callers can observe, and every invoker of the
    library respects it in its handler ([ext_invoker]), so that chains can be
    rewritten. *)

From S2P Require Import Prelude GoErrors Types Failure Runtime Observer Scope Dlq.
From S2P Require Import Settle Invoke.
Local Open Scope string_scope.
Local Open Scope list_scope.
Local Open Scope Z_scope.

(** ** Extensional equality *)

Section ext.
Context {U : Type}.

Definition handler_eq : relation (handler_fn U) := fun f g => forall c w, f c w = g c w.

#[export] Instance handler_eq_equivalence : Equivalence handler_eq.
Proof.
  split; [by intros f c w|by intros f g Hfg c w|].
  intros f g h Hfg Hgh c w. by rewrite Hfg.
Qed.

Definition invoker_eq : relation (Invoker U) := fun i j =>
  forall c evt h f g, handler_eq f g -> forall w, i c evt h f w = j c evt h g w.

(** An invoker that cannot tell equal handlers apart. *)
Class ext_invoker (i : Invoker U) := invoker_ext : invoker_eq i i.

Lemma bind_ext {A B} (m m' : M U A) (k k' : A -> M U B) w :
  m w = m' w -> (forall a w, k a w = k' a w) -> mbind k m w = mbind k' m' w.
Proof. intros Hm Hk. unfold mbind, M_bind. rewrite Hm. by destruct (m' w) as [[a|v|] w']. Qed.

Lemma deferring_ext {A} (z : A) m m' f f' w :
  m w = m' w -> (forall a w, f a w = f' a w) -> deferring (U := U) z m f w = deferring z m' f' w.
Proof.
  intros Hm Hf. unfold deferring. rewrite Hm.
  destruct (m' w) as [[a|v|] w']; apply bind_ext; done.
Qed.
End ext.

(** ** src/invoker/chain.go *)

Section chain.
Context {U : Type}.
Implicit Types (i : Invoker U) (l : list (Invoker U)).

(** The closure [next] of [Chain.Invoke] from the remaining invokers on. *)
Fixpoint chain_next (evt : option Event) (handler : string) (handle : handler_fn U) l
    : handler_fn U := fun c =>
  match l with
  | [] => handle c
  | i :: rest => i c evt handler (fun c => chain_next evt handler handle rest c)
  end.

(** [NewChain] and [Chain.Invoke]. *)
Definition Chain l : Invoker U := fun c evt handler handle => chain_next evt handler handle l c.

#[export] Instance chain_ext l : Forall ext_invoker l -> ext_invoker (Chain l).
Proof.
  intros Hl c evt h f g Hfg w. unfold Chain. revert c w.
  induction Hl as [|i l Hi Hl IH]; intros c w; simpl; [apply Hfg|].
  apply Hi. intros c' w'. apply IH.
Qed.

(** A chain of chains is the chain of their invokers. *)
Lemma chain_next_app evt h handle l1 l2 c w :
  Forall ext_invoker l1 ->
  chain_next evt h handle (l1 ++ l2) c w
  = chain_next evt h (fun c => chain_next evt h handle l2 c) l1 c w.
Proof.
  intros Hl. revert c w. induction Hl as [|i l Hi Hl IH]; intros c w; simpl; [done|].
  apply Hi. intros c' w'. apply IH.
Qed.
End chain.

(** ** src/invoker/dlq.go *)

Section dlq_invoker.
Context {U : Type} `{Env U}.

(** [DLQ.Invoke] with the publisher of [NewDLQ]. *)
Definition DLQ (publisher : option (DLQPublisher U)) : Invoker U := fun c evt handler next =>
  err ← next c;
  match err with
  | None => mret None
  | Some _ =>
      t ← now;
      match publisher with
      | None => mret err
      | Some p =>
          if IsInterrupted t (Some c) err then mret err
          else if negb (bool_decide (Dispose err (delivery_or_single c) = DispositionTerminal))
          then mret err
          else
            rec ← NewDLQRecord c evt handler err;
            perr ← PublishDeadLetter c p rec;
            match perr with
            | Some _ => mret (Some (DeadLetterFailedError err (rec_reason rec) perr))
            | None => mret (Some (DeadLetteredError err (rec_reason rec)))
            end
      end
  end.

#[export] Instance DLQ_ext p : ext_invoker (DLQ p).
Proof. intros c evt h f g Hfg w. unfold DLQ. by apply bind_ext. Qed.

Lemma NewDLQRecord_reason c evt h cause w r w' :
  NewDLQRecord (U := U) c evt h cause w = (Ret r, w') ->
  rec_reason r = ReasonOf cause /\ rec_cause r = cause /\ rec_delivery r = delivery_or_single c
  /\ rec_attempts r = AttemptsOf cause /\ rec_history r = history_of cause.
Proof.
  unfold NewDLQRecord. intros Hr. apply bind_ret_inv in Hr as (t & w1 & _ & Hr).
  destruct (MetadataFromContext c). apply bind_ret_inv in Hr as (n & w2 & _ & Hr).
  apply mret_inv in Hr as [-> _]. done.
Qed.
End dlq_invoker.

(** ** src/invoker/rate-limit.go *)

Section rate_limit.
Context {U : Type} `{Env U}.

(** The interface [RateLimitStore]. *)
Definition RateLimitStore : Type := Ctx -> string -> Z -> Z -> Z -> M U (bool * goerr).

Record RateLimitConfig := mkRateLimitConfig {
  rl_rate : Z;
  rl_period : Z;
  rl_burst : Z;
  rl_key_prefix : string;
  rl_on_limit : option (Ctx -> Event -> string -> M U unit);
}.

(** [RateLimiter.Invoke]. *)
Definition RateLimiter (store : RateLimitStore) (cfg : RateLimitConfig) : Invoker U :=
  fun c evt handler next =>
  match evt with
  | Some e =>
      match ev_rate_key e with
      | Some key =>
          if String.eqb key "" then next c
          else
            let key := rl_key_prefix cfg +:+ key in
            res ← store c key (rl_rate cfg) (rl_period cfg) (rl_burst cfg);
            let '(allowed, err) := res in
            match err with
            | Some _ =>
                name ← Name e;
                _ ← raise c (SStoreError (mkStoreErrorInfo handler name "rate_limit" "allow" err));
                mret err
            | None =>
                if negb allowed then
                  _ ← (match rl_on_limit cfg with Some f => f c e key | None => mret tt end);
                  mret (Some (Sentinel ErrRateLimited))
                else next c
            end
      | None => next c
      end
  | None => next c
  end.

#[export] Instance RateLimiter_ext s cfg : ext_invoker (RateLimiter s cfg).
Proof.
  intros c evt h f g Hfg w. unfold RateLimiter.
  destruct evt as [e|]; [|apply Hfg]. destruct (ev_rate_key e) as [key|]; [|apply Hfg].
  destruct (String.eqb key ""); [apply Hfg|]. apply bind_ext; [done|].
  intros [allowed [err|]] w'; [done|]. destruct allowed; [apply Hfg|done].
Qed.
End rate_limit.
Arguments RateLimitStore U : clear implicits.
Arguments RateLimitConfig U : clear implicits.
Arguments mkRateLimitConfig {U}.
