(* ===== verification/InvokersSpec.v ===== *)
(** * Properties of the chain, the dead-letter and the rate-limit invokers *)

From S2P Require Import Prelude GoErrors Types Failure Runtime Observer Scope Dlq Fixtures.
From S2P Require Import Settle Invoke Invokers.
Local Open Scope string_scope.
Local Open Scope list_scope.
Local Open Scope Z_scope.

(** A chain nests. The empty chain is the handler, a chain of one invoker is
    that invoker, and a chain of chains is the chain of all their invokers in
    order, as seen by any caller and for any handler. *)
Theorem chain_nests {U : Type} (l1 l2 : list (Invoker U)) (i : Invoker U) :
  Forall ext_invoker (l1 ++ l2) -> ext_invoker i ->
  invoker_eq (Chain (U := U) []) (fun c evt h f => f c)
  /\ invoker_eq (Chain [i]) i
  /\ invoker_eq (Chain (l1 ++ l2)) (Chain [Chain l1; Chain l2]).
Proof.
  intros Hl Hi. apply Forall_app in Hl as [Hl1 Hl2]. split; [|split].
  - intros c evt h f g Hfg w. apply Hfg.
  - intros c evt h f g Hfg w. apply Hi. intros c' w'. apply Hfg.
  - intros c evt h f g Hfg w. unfold Chain at 1. rewrite chain_next_app by done.
    apply (chain_ext l1 Hl1). intros c' w'. by apply (chain_ext l2 Hl2).
Qed.

Lemma chain_nests_witness :
  invoker_eq (Chain ([DLQ (Some (flaky 1))] ++ [RateLimiter (fun _ _ _ _ _ => mret (true, None))
      (mkRateLimitConfig 1 1 1 "" None)]))
    (Chain [Chain [DLQ (Some (flaky 1))]; Chain [RateLimiter (fun _ _ _ _ _ => mret (true, None))
      (mkRateLimitConfig 1 1 1 "" None)]]).
Proof.
  apply (chain_nests [DLQ (Some (flaky 1))] [RateLimiter (fun _ _ _ _ _ => mret (true, None))
      (mkRateLimitConfig 1 1 1 "" None)] (DLQ None)).
  - repeat (apply Forall_nil_2 || apply Forall_cons_2); apply _.
  - apply _.
Defined.

(** Dead-lettering once. The DLQ invoker returns nil exactly for a handler
    that did, passes every error on unchanged that the policy does not end on
    this delivery, and otherwise publishes one record, retried only after
    failures, and reports how that went; its own result then never makes the
    transport publish the message a second time on the same delivery, and after
    a successful publish the transport acknowledges it. *)
Theorem DLQ_publishes_once {U : Type} `{Env U} (c : Ctx) (evt : option Event) (handler : string)
    (next : handler_fn U) (p : DLQPublisher U) (w w' : World U) (res : goerr) :
  observers_keep (@same_publishes U) -> plain_publisher p ->
  DLQ (Some p) c evt handler next w = (Ret res, w') ->
  let d := delivery_or_single c in
  exists err w1, next c w = (Ret err, w1) /\ (res = None <-> err = None) /\
    ((res = err /\ publishes (w_log w') = publishes (w_log w1)
      /\ (Dispose err d = DispositionTerminal -> IsInterrupted (w_now w1) (Some c) err = true))
     \/ exists errs perr,
          Dispose err d = DispositionTerminal
          /\ publishes (w_log w') = publishes (w_log w1) ++ errs ++ [perr]
          /\ Forall (fun e => e <> None) errs
          /\ (length errs < if Final d then 3 else 1)%nat
          /\ res = match perr with
                   | Some _ => Some (DeadLetterFailedError err (ReasonOf err) perr)
                   | None => Some (DeadLetteredError err (ReasonOf err))
                   end
          /\ (forall interrupted, publish_needed res d interrupted = false)
          /\ (perr = None -> Dispose res d = DispositionAck)).
Proof.
  intros Hk Hp Hrun d. apply bind_ret_inv in Hrun as (err & w1 & Hn & Hrun).
  exists err, w1. split; [done|]. destruct err as [e|].
  2:{ apply mret_inv in Hrun as [-> ->]. split; [done|]. left. repeat split. discriminate. }
  apply bind_ret_inv in Hrun as (t & w2 & Ht & Hrun). apply now_inv in Ht as [-> ->].
  destruct (IsInterrupted (w_now w1) (Some c) (Some e)) eqn:Ei.
  { apply mret_inv in Hrun as [-> ->]. split; [done|]. by left. }
  case_bool_decide as HD; simpl in Hrun.
  2:{ apply mret_inv in Hrun as [-> ->]. split; [done|]. left. by repeat split. }
  apply bind_ret_inv in Hrun as (rec & w2 & Hrec & Hrun).
  destruct (NewDLQRecord_reason _ _ _ _ _ _ _ Hrec) as (Hreason & _ & Hdel & _).
  apply (respects_run _ _ _ _ _ (same_publishes_NewDLQRecord _ _ _ _)) in Hrec.
  apply bind_ret_inv in Hrun as (perr & w3 & Hpub & Hrun).
  destruct (PublishDeadLetter_run _ _ _ _ _ _ Hp Hpub) as (errs & Hl & Hall & Hlen).
  rewrite Hdel in Hlen. unfold same_publishes in Hrec. rewrite Hrec in Hl.
  assert (Hres : w' = w3 /\ res = match perr with
     | Some _ => Some (DeadLetterFailedError (Some e) (ReasonOf (Some e)) perr)
     | None => Some (DeadLetteredError (Some e) (ReasonOf (Some e))) end).
  { destruct perr; apply mret_inv in Hrun as [-> ->]; by rewrite Hreason. }
  destruct Hres as [-> ->]. split; [by destruct perr|]. right. exists errs, perr.
  split; [done|]. split; [done|]. split; [done|]. split; [exact Hlen|]. split; [done|].
  assert (Hno : forall x, Dispose x d <> DispositionTerminal ->
    forall interrupted, publish_needed x d interrupted = false).
  { intros x Hx b. unfold publish_needed. rewrite bool_decide_eq_false_2 by done.
    apply andb_false_r. }
  split.
  - apply Hno. destruct perr as [pe|].
    + destruct (Is (Some (DeadLetterFailedError (Some e) (ReasonOf (Some e)) (Some pe))) ErrDuplicate
                || Is (Some (DeadLetterFailedError (Some e) (ReasonOf (Some e)) (Some pe)))
                     ErrDeadLettered) eqn:Eo.
      * rewrite (proj2 (Dispose_ack _ d)); [done|]. right. by apply orb_prop in Eo.
      * apply orb_false_elim in Eo as [E1 E2]. rewrite Dispose_failed_publish; [done|done|done|].
        by rewrite is_dead_letter_failed, bool_decide_eq_true_2.
    + rewrite (proj2 (Dispose_ack _ d)); [done|]. right. right.
      by rewrite is_dead_lettered, bool_decide_eq_true_2.
  - intros ->. apply Dispose_ack. right. right. by rewrite is_dead_lettered, bool_decide_eq_true_2.
Qed.

Definition demo_failing : handler_fn nat := fun _ => mret (Some (Sentinel (External "boom"))).

Lemma DLQ_publishes_once_witness :
  exists res w', DLQ (Some (flaky 2)) background None "h" demo_failing (demo_world 0 ∅)
    = (Ret res, w') /\ exists errs, publishes (w_log w') = errs ++ [None].
Proof.
  assert (Hr : exists res w',
     DLQ (Some (flaky 2)) background None "h" demo_failing (demo_world 0 ∅) = (Ret res, w')
     /\ Is res ErrDeadLettered = true /\ Is res ErrDeadLetterFailed = false).
  { do 2 eexists. split; [vm_compute; reflexivity|split; reflexivity]. }
  destruct Hr as (res & w' & Hrun & Hdl & Hdf). exists res, w'. split; [exact Hrun|].
  destruct (DLQ_publishes_once background None "h" demo_failing (flaky 2) (demo_world 0 ∅) w' res
    demo_keeps_publishes (flaky_plain 2) Hrun)
    as (err & w1 & Hn & _ & [(-> & _)|(errs & perr & _ & Hp & _ & _ & -> & _)]).
  - injection Hn as <- _. discriminate Hdl.
  - destruct perr as [pe|].
    + rewrite is_dead_letter_failed in Hdf. discriminate Hdf.
    + exists (publishes (w_log w1) ++ errs). rewrite Hp. apply app_assoc.
Defined.

(** The key of an event, when the limiter applies to it. *)
Definition rate_key (evt : option Event) : option string :=
  match evt ≫= ev_rate_key with
  | Some k => if String.eqb k "" then None else Some k
  | None => None
  end.

(** Rate limiting. An event without a key, or with an empty one, goes straight
    to the handler. Otherwise the store is asked once, for the prefixed key: the
    handler runs exactly when it allows; a refusal is [ErrRateLimited], which the
    transport retries until the final delivery; and a failing store's error is
    returned. In the last two cases the handler plays no part. *)
Theorem RateLimiter_contract {U : Type} `{Env U} (store : RateLimitStore U)
    (cfg : RateLimitConfig U) (c : Ctx) (evt : option Event) (handler : string)
    (next : handler_fn U) (w : World U) :
  let r := RateLimiter store cfg c evt handler next w in
  match rate_key evt with
  | None => r = next c w
  | Some key =>
      let asked := store c (rl_key_prefix cfg +:+ key) (rl_rate cfg) (rl_period cfg)
                     (rl_burst cfg) w in
      match asked with
      | (Ret (true, None), w1) => r = next c w1
      | (Ret (false, None), _) =>
          (forall next', RateLimiter store cfg c evt handler next' w = r)
          /\ (forall res w', r = (Ret res, w') -> res = Some (Sentinel ErrRateLimited)
                /\ forall d, Dispose res d = retryUnlessFinal d)
      | (Ret (_, Some e), _) =>
          (forall next', RateLimiter store cfg c evt handler next' w = r)
          /\ (forall res w', r = (Ret res, w') -> res = Some e)
      | (Panicking v, w1) => r = (Panicking v, w1)
      | (Goexit, w1) => r = (Goexit, w1)
      end
  end.
Proof.
  cbv zeta. unfold rate_key, RateLimiter.
  destruct evt as [e|]; [|done]. cbn [mbind option_bind].
  destruct (ev_rate_key e) as [key|]; [|done]. destruct (String.eqb key ""); [done|].
  destruct (store _ _ _ _ _ w) as [[[allowed [err|]]|v|] w1] eqn:Es;
    [| |unfold mbind, M_bind; by rewrite Es..]; rewrite !(bind_run _ _ _ _ _ Es).
  - destruct allowed; (split; [intros next'; by rewrite (bind_run _ _ _ _ _ Es)|]);
      intros res w' Hr; apply bind_ret_inv in Hr as (name & w2 & _ & Hr);
      apply bind_ret_inv in Hr as ([] & w3 & _ & Hr); by apply mret_inv in Hr as [-> _].
  - destruct allowed; [done|]. split; [intros next'; by rewrite (bind_run _ _ _ _ _ Es)|].
    intros res w' Hr. simpl in Hr. apply bind_ret_inv in Hr as ([] & w3 & _ & Hr).
    apply mret_inv in Hr as [-> _]. split; [done|]. intros d. reflexivity.
Qed.
