(* ===== verification/Idempotency.v ===== *)
(** * The idempotency invoker

    src/invoker/idempotency.go: the invoker over any [IdempotencyStore], and the
    in-memory store. Reading and writing a record are two calls of the store. *)

From S2P Require Import Prelude GoErrors Types Failure Runtime Observer Scope Dlq.
From S2P Require Import Settle Invoke Invokers.
Local Open Scope string_scope.
Local Open Scope list_scope.
Local Open Scope Z_scope.

(** A status is a string: the four constants, and whatever other text a store holds. *)
Inductive IdempotencyStatus :=
  StatusProcessing | StatusCompleted | StatusFailed | StatusDeadLettered | StatusOther (s : string).

#[export] Instance IdempotencyStatus_eq_dec : EqDecision IdempotencyStatus.
Proof. solve_decision. Defined.

Record IdempotencyRecord := mkIdemRecord {
  ir_status : IdempotencyStatus;
  ir_started : Z;
  ir_ended : option Z;
}.

(** The zero record, what a store returns for a missing key. *)
Definition zero_record : IdempotencyRecord := mkIdemRecord (StatusOther "") zero_time None.

(** [extractKey]. *)
Definition extractKey (evt : option Event) : string * bool :=
  match evt with
  | None => ("", false)
  | Some e => match ev_idem_key e with
              | Some k => (k, true)
              | None => match ev_id e with Some k => (k, true) | None => ("", false) end
              end
  end.

(** The key of the store for a handler. *)
Definition store_key (key handler : string) : string :=
  if String.eqb handler "" then key else key +:+ ":" +:+ handler.

Section idempotency.
Context {U : Type} `{Env U}.

(** The interface [IdempotencyStore]. *)
Record IdempotencyStore := mkIdemStore {
  st_get : Ctx -> string -> M U (IdempotencyRecord * bool * goerr);
  st_put : Ctx -> string -> IdempotencyRecord -> M U goerr;
  st_delete : Ctx -> string -> M U goerr;
}.

(** The configuration after [NewIdempotency]. *)
Definition NewIdempotency (ttl : Z) : Z := if ttl =? 0 then 5 * 60 * 10 ^ 9 else ttl.

(** [storeError]. *)
Definition storeError (c : Ctx) (e : Event) (handler op : string) (err : goerr) : M U unit :=
  name ← Name e;
  raise c (SStoreError (mkStoreErrorInfo handler name "idempotency" op err)).

(** The status and the operation name of the final record. *)
Definition final_status (err : goerr) : IdempotencyStatus * string :=
  match err with
  | None => (StatusCompleted, "put_completed")
  | Some _ => if Is err ErrDeadLettered then (StatusDeadLettered, "put_dead_lettered")
              else (StatusFailed, "put_failed")
  end.

(** The run of the handler between its two records. *)
Definition run_marked (store : IdempotencyStore) (c : Ctx) (e : Event) (handler key : string)
    (handle : handler_fn U) : M U goerr :=
  started ← now;
  err ← st_put store c key (mkIdemRecord StatusProcessing started None);
  match err with
  | Some _ => _ ← storeError c e handler "put_processing" err; mret err
  | None =>
      err ← handle c;
      t ← now;
      let '(status, op) := final_status err in
      perr ← st_put store c key (mkIdemRecord status started (Some t));
      _ ← (match perr with
           | Some _ => storeError c e handler op perr
           | None => mret tt
           end);
      mret err
  end.

(** [Idempotency.Invoke], with the resolved [ProcessingTTL]. *)
Definition Idempotency (store : IdempotencyStore) (ttl : Z) : Invoker U :=
  fun c evt handler handle =>
  match evt, extractKey evt with
  | Some e, (key, true) =>
      let key := store_key key handler in
      got ← st_get store c key;
      let '(rec, exists_, err) := got in
      match err with
      | Some _ => _ ← storeError c e handler "get" err; mret err
      | None =>
          if exists_ : bool then
            match ir_status rec with
            | StatusCompleted => mret (Some (Sentinel ErrDuplicate))
            | StatusProcessing =>
                t ← now;
                if t - ir_started rec <? ttl then mret (Some (Sentinel ErrInProgress))
                else
                  name ← Name e;
                  t ← now;
                  _ ← raise c (SIdempotencyStale (mkIdempotencyStaleInfo handler name
                                 (t - ir_started rec)));
                  run_marked store c e handler key handle
            | StatusDeadLettered | StatusFailed | StatusOther _ => run_marked store c e handler key handle
            end
          else run_marked store c e handler key handle
      end
  | _, _ => handle c
  end.

#[export] Instance Idempotency_ext s ttl : ext_invoker (Idempotency s ttl).
Proof.
  intros c evt h f g Hfg w.
  assert (Hrun : forall e k w, run_marked s c e h k f w = run_marked s c e h k g w).
  { intros e k w'. unfold run_marked. apply bind_ext; [done|]. intros t w1.
    apply bind_ext; [done|]. intros [err|] w2; [done|]. by apply bind_ext. }
  unfold Idempotency. destruct evt as [e|]; [|apply Hfg].
  destruct (extractKey (Some e)) as [key [|]]; [|apply Hfg].
  apply bind_ext; [done|]. intros [[rec ex] [err|]] w1; [done|].
  destruct ex; [|apply Hrun]. destruct (ir_status rec); try apply Hrun; [|done].
  apply bind_ext; [done|]. intros t w2. destruct (_ <? _); [done|].
  apply bind_ext; [done|]. intros name w3. apply bind_ext; [done|]. intros t' w4.
  apply bind_ext; [done|]. intros _ w5. apply Hrun.
Qed.
End idempotency.
Arguments IdempotencyStore U : clear implicits.
Arguments mkIdemStore {U}.

(** ** [MemoryIdempotencyStore]: every method runs under the mutex *)

Section memory.
Context {U : Type} `{Lens (gmap string IdempotencyRecord) U}.

Definition Memory_Get (_ : Ctx) (key : string) : M U (IdempotencyRecord * bool * goerr) :=
  atomically (fun m : gmap string IdempotencyRecord =>
    (match m !! key with Some r => (r, true, None) | None => (zero_record, false, None) end, m)).

Definition Memory_Put (_ : Ctx) (key : string) (rec : IdempotencyRecord) : M U goerr :=
  atomically (fun m : gmap string IdempotencyRecord => (None, <[key := rec]> m)).

Definition Memory_Delete (_ : Ctx) (key : string) : M U goerr :=
  atomically (fun m : gmap string IdempotencyRecord => (None, delete key m)).

(** [NewMemoryIdempotencyStore]. *)
Definition MemoryIdempotencyStore : IdempotencyStore U :=
  mkIdemStore Memory_Get Memory_Put Memory_Delete.

(** The record of a key in a world. *)
Definition record_of (key : string) (w : World U) : option IdempotencyRecord :=
  (lget (w_user w) : gmap string IdempotencyRecord) !! key.
End memory.

(** ** What a key's record decides *)

Inductive verdict := Skip (e : error) | Run.

Definition verdict_of (ttl now : Z) (rec : option IdempotencyRecord) : verdict :=
  match rec with
  | Some r =>
      match ir_status r with
      | StatusCompleted => Skip (Sentinel ErrDuplicate)
      | StatusProcessing => if now - ir_started r <? ttl then Skip (Sentinel ErrInProgress) else Run
      | StatusFailed | StatusDeadLettered | StatusOther _ => Run
      end
  | None => Run
  end.

Section facts.
Context {U : Type} `{Env U} `{Lens (gmap string IdempotencyRecord) U}.
Context `{!observers_keep (same_part (S := gmap string IdempotencyRecord) (U := U))}.
Implicit Types (w : World U).

Lemma Memory_Get_run c key w :
  exists w1, Memory_Get c key w =
    (Ret (match record_of key w with
          | Some r => (r, true, None) | None => (zero_record, false, None) end), w1)
    /\ record_of key w1 = record_of key w /\ w_now w1 = w_now w
    /\ w_log w1 = w_log w.
Proof using Type.
  destruct (atomically_run (fun m : gmap string IdempotencyRecord =>
    (match m !! key with Some r => (r, true, @None error) | None => (zero_record, false, None) end, m)) w)
    as (w1 & Hr & Hu & Hl & Hn & _).
  exists w1. split; [exact Hr|]. unfold record_of. rewrite Hu. done.
Qed.

Lemma Memory_Put_run c key rec w :
  exists w1, Memory_Put c key rec w = (Ret None, w1)
    /\ (forall k, record_of k w1 = if decide (k = key) then Some rec else record_of k w)
    /\ w_now w1 = w_now w /\ w_log w1 = w_log w.
Proof using Type.
  destruct (atomically_run (fun m : gmap string IdempotencyRecord => (@None error, <[key := rec]> m)) w)
    as (w1 & Hr & Hu & Hl & Hn & _).
  exists w1. split; [exact Hr|]. split; [|done]. intros k. unfold record_of. rewrite Hu. simpl.
  destruct (decide (k = key)) as [->|]; [by rewrite lookup_insert_eq|by rewrite lookup_insert_ne].
Qed.

(** A marked run over the memory store. *)
Lemma run_marked_memory c e handler key (handle : handler_fn U) w res w' :
  run_marked MemoryIdempotencyStore c e handler key handle w = (Ret res, w') ->
  exists w1 w2, handle c w1 = (Ret res, w2)
    /\ record_of key w1 = Some (mkIdemRecord StatusProcessing (w_now w) None)
    /\ record_of key w' = Some (mkIdemRecord (final_status res).1 (w_now w) (Some (w_now w2))).
Proof using Type.
  intros Hrun. unfold run_marked in Hrun.
  apply bind_ret_inv in Hrun as (t & w0 & Ht & Hrun). apply now_inv in Ht as [-> ->].
  simpl st_put in Hrun.
  destruct (Memory_Put_run c key (mkIdemRecord StatusProcessing (w_now w) None) w)
    as (w1 & Hp & Hrec & _ & _).
  rewrite (bind_run _ _ _ _ _ Hp) in Hrun.
  apply bind_ret_inv in Hrun as (err & w2 & Hh & Hrun).
  apply bind_ret_inv in Hrun as (t2 & w3 & Ht & Hrun). apply now_inv in Ht as [-> ->].
  destruct (final_status err) as [status op] eqn:Efs.
  destruct (Memory_Put_run c key (mkIdemRecord status (w_now w) (Some (w_now w2))) w2)
    as (w4 & Hp2 & Hrec2 & _ & _).
  rewrite (bind_run _ _ _ _ _ Hp2) in Hrun.
  apply bind_ret_inv in Hrun as ([] & w5 & Hm & Hrun).
  apply mret_inv in Hm as [_ ->]. apply mret_inv in Hrun as [-> ->].
  exists w1, w2. split; [done|]. rewrite Hrec, Hrec2, !decide_True, Efs by done. done.
Qed.
End facts.
