(* ===== verification/IdempotencySpec.v ===== *)
(** * Properties of the idempotency invoker *)

From S2P Require Import Prelude GoErrors Types Failure Runtime Observer Scope Dlq Fixtures.
From S2P Require Import Settle Invoke Invokers Idempotency.
Local Open Scope string_scope.
Local Open Scope list_scope.
Local Open Scope Z_scope.

(** What one invocation over the memory store does, by the verdict. *)
Lemma Idempotency_run {U} `{Env U} `{Lens (gmap string IdempotencyRecord) U} ttl c e handler
    (handle : handler_fn U) key0 w res w' :
  extractKey (Some e) = (key0, true) ->
  Idempotency MemoryIdempotencyStore ttl c (Some e) handler handle w = (Ret res, w') ->
  let key := store_key key0 handler in
  match verdict_of ttl (w_now w) (record_of key w) with
  | Skip err => res = Some err /\ record_of key w' = record_of key w /\ w_log w' = w_log w
  | Run => exists started w1 w2, handle c w1 = (Ret res, w2)
      /\ record_of key w1 = Some (mkIdemRecord StatusProcessing started None)
      /\ record_of key w' = Some (mkIdemRecord (final_status res).1 started (Some (w_now w2)))
  end.
Proof.
  intros Hk Hrun key. unfold Idempotency in Hrun. rewrite Hk in Hrun. fold key in Hrun.
  simpl st_get in Hrun.
  destruct (Memory_Get_run c key w) as (w1 & Hg & Hrec & Hnow & Hlog).
  rewrite (bind_run _ _ _ _ _ Hg) in Hrun. unfold verdict_of.
  assert (Hmark : forall w0, run_marked MemoryIdempotencyStore c e handler key handle w0
      = (Ret res, w') -> exists started w1 w2, handle c w1 = (Ret res, w2)
      /\ record_of key w1 = Some (mkIdemRecord StatusProcessing started None)
      /\ record_of key w' = Some (mkIdemRecord (final_status res).1 started (Some (w_now w2)))).
  { intros w0 Hr. destruct (run_marked_memory _ _ _ _ _ _ _ _ Hr) as (wa & wb & ?).
    by exists (w_now w0), wa, wb. }
  destruct (record_of key w) as [rec|]; [|by eapply Hmark].
  destruct (ir_status rec); try (by eapply Hmark).
  - apply bind_ret_inv in Hrun as (t & w2 & Ht & Hrun). apply now_inv in Ht as [-> ->].
    rewrite Hnow in Hrun. destruct (_ <? _).
    + apply mret_inv in Hrun as [-> ->]. done.
    + apply bind_ret_inv in Hrun as (name & w2 & _ & Hrun).
      apply bind_ret_inv in Hrun as (t & w3 & _ & Hrun).
      apply bind_ret_inv in Hrun as ([] & w4 & _ & Hrun). by eapply Hmark.
  - apply mret_inv in Hrun as [-> ->]. done.
Qed.

(** Idempotency. Over the memory store the handler of a keyed event runs
    exactly when the key's record says so: a completed key is a duplicate, a
    processing one younger than the TTL is in progress, and in both cases
    nothing changes; a missing, failed, dead-lettered or stale record lets the
    handler run, under a fresh processing record, and its result, which is
    returned unchanged, decides the final record: completed for nil,
    dead-lettered or failed otherwise. *)
Theorem Idempotency_contract {U} `{Env U} `{Lens (gmap string IdempotencyRecord) U} (ttl : Z)
    (c : Ctx) (e : Event) (handler : string) (handle : handler_fn U) (key0 : string)
    (w w' : World U) (res : goerr) :
  extractKey (Some e) = (key0, true) ->
  Idempotency MemoryIdempotencyStore ttl c (Some e) handler handle w = (Ret res, w') ->
  let key := store_key key0 handler in
  match verdict_of ttl (w_now w) (record_of key w) with
  | Skip err => res = Some err /\ record_of key w' = record_of key w /\ w_log w' = w_log w
  | Run => exists started w1 w2, handle c w1 = (Ret res, w2)
      /\ record_of key w1 = Some (mkIdemRecord StatusProcessing started None)
      /\ record_of key w' = Some (mkIdemRecord
           (match res with
            | None => StatusCompleted
            | Some _ => if Is res ErrDeadLettered then StatusDeadLettered else StatusFailed
            end) started (Some (w_now w2)))
  end.
Proof.
  intros Hk Hrun key. pose proof (Idempotency_run ttl c e handler handle key0 w res w' Hk Hrun) as H1.
  cbv zeta in H1. fold key in H1. destruct (verdict_of _ _ _); [exact H1|].
  destruct H1 as (st & w1 & w2 & Hh & Hr1 & Hr2). exists st, w1, w2.
  split; [done|]. split; [done|]. rewrite Hr2. unfold final_status.
  destruct res; [by destruct (Is _ _)|done].
Qed.

(** Events with a key. *)
Definition keyed_event (key : string) : Event :=
  mkEvent "paid" false None None (Some key) None None (Some "{}").
Definition store_world (t : Z) (m : gmap string IdempotencyRecord)
    : World (gmap string IdempotencyRecord) := mkWorld t [] ∅ 0 ∅ ∅ m.

#[local] Instance store_env : Env (gmap string IdempotencyRecord) := silent_env _.

Lemma Idempotency_contract_witness :
  exists w' started ended, Idempotency MemoryIdempotencyStore (NewIdempotency 0) background
      (Some (keyed_event "k")) "h" (fun _ => mret None) (store_world 50 ∅) = (Ret None, w')
    /\ record_of "k:h" w' = Some (mkIdemRecord StatusCompleted started (Some ended)).
Proof.
  assert (Hrun : exists w', Idempotency MemoryIdempotencyStore (NewIdempotency 0) background
      (Some (keyed_event "k")) "h" (fun _ => mret None) (store_world 50 ∅) = (Ret None, w')).
  { eexists. vm_compute. reflexivity. }
  destruct Hrun as (w' & Hrun).
  pose proof (Idempotency_contract (NewIdempotency 0) background (keyed_event "k") "h"
    (fun _ => mret None) "k" (store_world 50 ∅) w' None eq_refl Hrun) as Hc.
  cbv zeta in Hc.
  assert (Hv : verdict_of (NewIdempotency 0) (w_now (store_world 50 ∅))
    (record_of (store_key "k" "h") (store_world 50 ∅)) = Run) by reflexivity.
  rewrite Hv in Hc. destruct Hc as (started & w1 & w2 & _ & _ & Hrec).
  exists w', started, (w_now w2). split; [exact Hrun|exact Hrec].
Defined.

(** C24: a completed message is not handled again. After an invocation that
    returned nil, every later invocation for the same key and handler name, with
    whatever event and handler, as long as the record is kept, returns
    [ErrDuplicate] without running its handler or changing the record, and the
    transport acknowledges the message. *)
Theorem completed_runs_once {U} `{Env U} `{Lens (gmap string IdempotencyRecord) U} (ttl : Z)
    (c c2 : Ctx) (e e2 : Event) (handler : string) (handle handle2 : handler_fn U)
    (key : string) (w w1 w2 w3 : World U) (res2 : goerr) (d : Delivery) :
  extractKey (Some e) = (key, true) -> extractKey (Some e2) = (key, true) ->
  Idempotency MemoryIdempotencyStore ttl c (Some e) handler handle w = (Ret None, w1) ->
  record_of (store_key key handler) w2 = record_of (store_key key handler) w1 ->
  Idempotency MemoryIdempotencyStore ttl c2 (Some e2) handler handle2 w2 = (Ret res2, w3) ->
  res2 = Some (Sentinel ErrDuplicate) /\ w_log w3 = w_log w2
  /\ record_of (store_key key handler) w3 = record_of (store_key key handler) w2
  /\ Dispose res2 d = DispositionAck.
Proof.
  intros Hk Hk2 Hrun Hsame Hrun2.
  pose proof (Idempotency_run ttl c e handler handle key w None w1 Hk Hrun) as H1.
  pose proof (Idempotency_run ttl c2 e2 handler handle2 key w2 res2 w3 Hk2 Hrun2) as H2.
  cbv zeta in H1, H2. rewrite Hsame in H2 |- *.
  assert (Hdone : exists st en, record_of (store_key key handler) w1
    = Some (mkIdemRecord StatusCompleted st en)).
  { destruct (verdict_of _ _ _); [by destruct H1 as [? _]|].
    destruct H1 as (st & wa & wb & _ & _ & Hr). eauto. }
  destruct Hdone as (st & en & Hdone). rewrite Hdone in H2. simpl in H2.
  destruct H2 as (-> & Hr & Hl). rewrite Hdone. split; [done|]. split; [done|].
  split; [by rewrite Hr|]. apply Dispose_ack. right. by left.
Qed.

Lemma completed_runs_once_witness :
  exists w1 w3, Idempotency MemoryIdempotencyStore (NewIdempotency 0) background
      (Some (keyed_event "k")) "h" (fun _ => mret None) (store_world 50 ∅) = (Ret None, w1)
    /\ Idempotency MemoryIdempotencyStore (NewIdempotency 0) background
      (Some (keyed_event "k")) "h" (fun _ => goexit) w1 = (Ret (Some (Sentinel ErrDuplicate)), w3)
    /\ w_log w3 = w_log w1.
Proof.
  assert (Hrun : exists w1 res2 w3, Idempotency MemoryIdempotencyStore (NewIdempotency 0) background
      (Some (keyed_event "k")) "h" (fun _ => mret None) (store_world 50 ∅) = (Ret None, w1)
    /\ Idempotency MemoryIdempotencyStore (NewIdempotency 0) background
      (Some (keyed_event "k")) "h" (fun _ => goexit) w1 = (Ret res2, w3)).
  { do 3 eexists. split; [vm_compute; reflexivity|vm_compute; reflexivity]. }
  destruct Hrun as (w1 & res2 & w3 & Hrun1 & Hrun2). exists w1, w3. split; [exact Hrun1|].
  destruct (completed_runs_once (NewIdempotency 0) background background (keyed_event "k")
    (keyed_event "k") "h" (fun _ => mret None) (fun _ => goexit) "k" (store_world 50 ∅) w1 w1 w3
    res2 single_delivery eq_refl eq_refl Hrun1 eq_refl Hrun2) as (Hres & Hlog & _ & _).
  subst res2. split; [exact Hrun2|exact Hlog].
Defined.
