(* ===== verification/RedisStores.v ===== *)
(** * The Redis idempotency store

    src/redis/idempotency.go: the store of the idempotency invoker that processes
    share. The Redis client and encoding/json are classes of operations; the store
    of the rate limiter is in TokenBucket.v. *)

From S2P Require Import Prelude GoErrors Types Runtime Invokers Idempotency.
Local Open Scope string_scope.
Local Open Scope list_scope.
Local Open Scope Z_scope.

(** The client: [redis.Nil], the error of a missing key; [Set] with an expiration,
    [Get] and [Del]. *)
Class RedisClient (U : Type) := {
  redis_Nil : sentinel;
  rdb_Set : Ctx -> string -> string -> Z -> M U goerr;
  rdb_Get : Ctx -> string -> M U (string * goerr);
  rdb_Del : Ctx -> string -> M U goerr;
}.

(** [json.Marshal] and [json.Unmarshal] of an [IdempotencyRecord]. *)
Class RecordJSON := {
  json_Marshal : IdempotencyRecord -> string + error;
  json_Unmarshal : string -> IdempotencyRecord + error;
  json_undoes rec data : json_Marshal rec = inl data -> json_Unmarshal data = inl rec;
}.

(** [time.Minute] and [time.Hour]. *)
Definition minute : Z := 60 * 10 ^ 9.
Definition hour : Z := 60 * minute.

Section stores.
Context {U : Type} `{RedisClient U} `{RecordJSON}.

(** How long a record is kept. *)
Definition redis_ttl (s : IdempotencyStatus) : Z :=
  match s with
  | StatusProcessing => 5 * minute
  | StatusCompleted => 24 * hour
  | _ => 1 * hour
  end.

(** [IdempotencyStore.Put]. *)
Definition Put (c : Ctx) (key : string) (rec : IdempotencyRecord) : M U goerr :=
  match json_Marshal rec with
  | inr e => mret (Some e)
  | inl data => rdb_Set c key data (redis_ttl (ir_status rec))
  end.

(** [err == redis.Nil]. *)
Definition is_Nil (err : goerr) : bool :=
  match err with Some (Sentinel s) => bool_decide (s = redis_Nil) | _ => false end.

(** [IdempotencyStore.Get]. *)
Definition Get (c : Ctx) (key : string) : M U (IdempotencyRecord * bool * goerr) :=
  r ← rdb_Get c key;
  let '(val, err) := r in
  if is_Nil err then mret (zero_record, false, None)
  else match err with
       | Some _ => mret (zero_record, false, err)
       | None => match json_Unmarshal val with
                 | inr e => mret (zero_record, false, Some e)
                 | inl rec => mret (rec, true, None)
                 end
       end.

(** [IdempotencyStore.Delete]. *)
Definition Delete (c : Ctx) (key : string) : M U goerr := rdb_Del c key.

(** [NewIdempotencyStore], as the invoker sees it. *)
Definition NewIdempotencyStore : IdempotencyStore U := mkIdemStore Get Put Delete.
End stores.
