(* ===== verification/RedisStoresSpec.v ===== *)
(** * Properties of the Redis stores

    What a record in Redis decides and for how long, over a server that keeps a
    value until its expiration. *)

From S2P Require Import Prelude GoErrors Types Failure Text Runtime Observer Scope Dlq Fixtures.
From S2P Require Import Settle Invoke Invokers Idempotency RedisStores.
Local Open Scope string_scope.
Local Open Scope list_scope.
Local Open Scope Z_scope.

(** ** The documented server

    A successful [Set] stores the value with an expiration, counted from a moment
    of the call; a [Get] finds the value of a key at a moment of the call, or
    nothing after the expiration; reading changes nothing. Other processes may write
    between calls, so nothing is said of them. *)
Class RedisLaws (U : Type) `{RedisClient U} := {
  redis_at : U -> string -> option (string * Z);
  law_set c k v ttl w w' : rdb_Set c k v ttl w = (Ret None, w') -> 0 < ttl ->
    exists t, w_now w <= t <= w_now w' /\ redis_at (w_user w') k = Some (v, t + ttl);
  law_get c k w v err w' : rdb_Get c k w = (Ret (v, err), w') ->
    w_now w <= w_now w' /\ redis_at (w_user w') = redis_at (w_user w) /\ w_log w' = w_log w
    /\ exists t, w_now w <= t <= w_now w'
         /\ (err = None -> exists e, redis_at (w_user w) k = Some (v, e) /\ t < e)
         /\ (is_Nil err = true -> forall v e, redis_at (w_user w) k = Some (v, e) -> e <= t);
}.

Section facts.
Context {U : Type} `{Env U} `{RL : RedisLaws U} `{RecordJSON}.
Implicit Types (w : World U).

Lemma redis_ttl_pos s : 0 < redis_ttl s.
Proof using Type. by destruct s. Qed.

(** A record put is kept for the time of its status. *)
Lemma Put_run c key rec w w' :
  Put c key rec w = (Ret None, w') ->
  exists data t, json_Marshal rec = inl data /\ w_now w <= t <= w_now w'
    /\ redis_at (w_user w') key = Some (data, t + redis_ttl (ir_status rec)).
Proof using Type.
  unfold Put. destruct (json_Marshal rec) as [data|e]; [|by intros [=]].
  intros Hr. destruct (law_set _ _ _ _ _ _ Hr (redis_ttl_pos _)) as (t & Ht & Ha).
  by exists data, t.
Qed.

(** A read of a key whose record is known, by a client that answers. *)
Lemma Get_run c key rec data expiry w v err w1 :
  redis_at (w_user w) key = Some (data, expiry) -> json_Marshal rec = inl data ->
  rdb_Get c key w = (Ret (v, err), w1) -> err = None \/ is_Nil err = true ->
  (Get c key w = (Ret (rec, true, None), w1) /\ w_now w < expiry)
  \/ (Get c key w = (Ret (zero_record, false, None), w1) /\ expiry <= w_now w1).
Proof using Type.
  intros Ha Hm Hg Hans. destruct (law_get _ _ _ _ _ _ Hg) as (Hle & _ & _ & t & Ht & Hsome & Hnil).
  unfold Get. rewrite (bind_run _ _ _ _ _ Hg).
  destruct Hans as [->|Hn].
  - destruct (Hsome eq_refl) as (e & Ha' & Hte). rewrite Ha in Ha'. injection Ha' as <- <-.
    simpl. rewrite (json_undoes _ _ Hm). left. split; [done|lia].
  - rewrite Hn. right. split; [done|]. specialize (Hnil Hn _ _ Ha). lia.
Qed.

(** The invoker after its read of the record. *)
Lemma Idempotency_after_get store ttl c e handler (handle : handler_fn U) key0 got w w1 :
  extractKey (Some e) = (key0, true) ->
  st_get store c (store_key key0 handler) w = (Ret (got, None), w1) ->
  match verdict_of ttl (w_now w1) (if got.2 then Some got.1 else None) with
  | Skip err => Idempotency store ttl c (Some e) handler handle w = (Ret (Some err), w1)
  | Run => got.2 = false ->
      Idempotency store ttl c (Some e) handler handle w
      = run_marked store c e handler (store_key key0 handler) handle w1
  end.
Proof using Type.
  intros Hk Hg. unfold Idempotency. rewrite Hk, (bind_run _ _ _ _ _ Hg).
  destruct got as [rec [|]]; simpl; [|done].
  destruct (ir_status rec); try done. unfold mbind, M_bind, now. by destruct (_ <? _).
Qed.
End facts.

(** C29: the lifetime of a record in Redis. Let a record be the last thing written
    to a key, by this process or another. A delivery of that key that reads Redis
    before the time of the record's status has passed - 5 minutes for a processing
    marker, 24 hours for a completed one - is decided by the record: a duplicate
    when it is completed, in progress when it is processing and younger than
    [ProcessingTTL], and then nothing else happens. A delivery that comes after
    that time runs the handler under a new marker, whatever [ProcessingTTL] is, and
    reports no stale marker. *)
Theorem redis_record_lifetime {U : Type} `{Env U} `{RL : RedisLaws U} `{RecordJSON}
    (c0 c : Ctx) (key0 : string) (rec : IdempotencyRecord) (e : Event) (handler : string)
    (ttl : Z) (handle : handler_fn U) (wp wp' w w1 : World U) (v : string) (err : goerr) :
  let key := store_key key0 handler in
  let kept := redis_ttl (ir_status rec) in
  extractKey (Some e) = (key0, true) ->
  Put c0 key rec wp = (Ret None, wp') ->
  redis_at (w_user w) key = redis_at (w_user wp') key ->
  rdb_Get c key w = (Ret (v, err), w1) ->
  err = None \/ is_Nil err = true ->
  (w_now w1 < w_now wp + kept -> forall verr, verdict_of ttl (w_now w1) (Some rec) = Skip verr ->
     Idempotency NewIdempotencyStore ttl c (Some e) handler handle w = (Ret (Some verr), w1)
     /\ w_log w1 = w_log w)
  /\ (w_now wp' + kept <= w_now w ->
     Idempotency NewIdempotencyStore ttl c (Some e) handler handle w
     = run_marked NewIdempotencyStore c e handler key handle w1).
Proof.
  intros key kept Hk Hput Hsame Hget Hans.
  destruct (Put_run _ _ _ _ _ Hput) as (data & t & Hm & Ht & Ha). rewrite <- Hsame in Ha.
  destruct (law_get _ _ _ _ _ _ Hget) as (Hle & _ & Hlog & _).
  fold kept in Ha.
  destruct (Get_run _ _ _ _ _ _ _ _ _ Ha Hm Hget Hans) as [[Hg Hlt]|[Hg Hge]].
  - pose proof (Idempotency_after_get NewIdempotencyStore ttl c e handler handle key0 (rec, true) w w1
      Hk Hg) as Hi. simpl in Hi. split; [|lia].
    intros _ verr Hv. split; [|done]. simpl in Hv. by rewrite Hv in Hi.
  - pose proof (Idempotency_after_get NewIdempotencyStore ttl c e handler handle key0
      (zero_record, false) w w1 Hk Hg) as Hi. split; [lia|]. intros _. by apply Hi.
Qed.

(** ** A concrete server

    Keys with their values and expirations, read against the clock; a codec that
    writes the number of the record in decimal. *)
Definition rd_state : Type := gmap string (string * Z).

#[local] Instance rd_client : RedisClient rd_state := {|
  redis_Nil := External "redis: nil";
  rdb_Set _ k v ttl :=
    t ← now; u ← get_user; _ ← put_user (<[k := (v, t + ttl)]> u); mret None;
  rdb_Get _ k :=
    t ← now; u ← get_user;
    mret (match u !! k with
          | Some (v, e) => if t <? e then (v, None) else ("", Some (Sentinel (External "redis: nil")))
          | None => ("", Some (Sentinel (External "redis: nil")))
          end);
  rdb_Del _ k := u ← get_user; _ ← put_user (delete k u); mret None;
|}.

#[local] Program Instance rd_laws : RedisLaws rd_state := {| redis_at u k := (u : rd_state) !! k |}.
Next Obligation.
  intros c k v ttl w w' [= <-] _. exists (w_now w). split; [simpl; lia|]. simpl.
  apply lookup_insert_eq.
Qed.
Next Obligation.
  intros c k w v err w' Hg. unfold rdb_Get, rd_client in Hg. simpl in Hg.
  injection Hg as Hg <-. split; [lia|]. split; [done|]. split; [done|]. exists (w_now w).
  split; [lia|]. destruct (w_user w !! k) as [[v1 e1]|] eqn:E.
  - destruct (Z.ltb_spec (w_now w) e1) as [Hlt|Hge]; injection Hg as <- <-.
    + split; [|done]. intros _. exists e1. by split.
    + split; [done|]. intros _ v2 e2 [= <- <-]. done.
  - injection Hg as <- <-. split; [done|]. intros _ v2 e2 [=].
Qed.

Definition status_code (s : IdempotencyStatus) : nat * string :=
  match s with
  | StatusProcessing => (0%nat, "") | StatusCompleted => (1%nat, "") | StatusFailed => (2%nat, "")
  | StatusDeadLettered => (3%nat, "") | StatusOther s => (4%nat, s)
  end.
Definition status_of_code (n : nat * string) : IdempotencyStatus :=
  match n.1 with 0%nat => StatusProcessing | 1%nat => StatusCompleted | 2%nat => StatusFailed
            | 3%nat => StatusDeadLettered | _ => StatusOther n.2 end.
Definition record_tuple (r : IdempotencyRecord) : (nat * string) * Z * option Z :=
  (status_code (ir_status r), ir_started r, ir_ended r).
Definition tuple_record (t : (nat * string) * Z * option Z) : IdempotencyRecord :=
  mkIdemRecord (status_of_code t.1.1) t.1.2 t.2.

Lemma tuple_record_tuple r : tuple_record (record_tuple r) = r.
Proof. by destruct r as [[] ? ?]. Qed.

Definition rd_marshal (r : IdempotencyRecord) : string := pretty (Npos (encode (record_tuple r))).
Definition rd_unmarshal (s : string) : IdempotencyRecord + error :=
  match parse_digits 0 (to_bytes s) with
  | Some (Zpos p) => match decode p with
                     | Some t => inl (tuple_record t)
                     | None => inr (Sentinel (External "json"))
                     end
  | _ => inr (Sentinel (External "json"))
  end.

#[local] Program Instance rd_json : RecordJSON := {|
  json_Marshal r := inl (rd_marshal r); json_Unmarshal := rd_unmarshal;
|}.
Next Obligation.
  intros rec data [= <-]. unfold rd_unmarshal, rd_marshal.
  assert (Hp : forall p, parse_digits 0 (to_bytes (pretty (Npos p))) = Some (Zpos p)).
  { intros p. unfold pretty, pretty_N. case_decide; [done|]. apply (parse_digits_go (Npos p) ""). }
  by rewrite Hp, decode_encode, tuple_record_tuple.
Qed.

#[local] Instance rd_env : Env rd_state := silent_env _.

Definition rd_record : IdempotencyRecord := mkIdemRecord StatusProcessing 100 None.
Definition rd_event : Event := mkEvent "paid" false None None (Some "k") None None (Some "{}").
Definition rd_world (t : Z) (u : rd_state) : World rd_state := mkWorld t [] ∅ 0 ∅ ∅ u.
Definition rd_marked : rd_state := {["k:h" := (rd_marshal rd_record, 100 + 5 * minute)]}.

(** A marker holds deliveries off for five minutes, although [ProcessingTTL] is an
    hour. *)
Lemma redis_record_lifetime_witness :
  Idempotency NewIdempotencyStore hour background (Some rd_event) "h" (fun _ => mret None)
    (rd_world 200 rd_marked) = (Ret (Some (Sentinel ErrInProgress)), rd_world 200 rd_marked)
  /\ Idempotency NewIdempotencyStore hour background (Some rd_event) "h" (fun _ => mret None)
       (rd_world (6 * minute) rd_marked)
     = run_marked NewIdempotencyStore background rd_event "h" "k:h" (fun _ => mret None)
         (rd_world (6 * minute) rd_marked).
Proof.
  assert (Hput : Put background "k:h" rd_record (rd_world 100 ∅) = (Ret None, rd_world 100 rd_marked))
    by reflexivity.
  split.
  - destruct (redis_record_lifetime background background "k" rd_record rd_event "h" hour
      (fun _ => mret None) (rd_world 100 ∅) (rd_world 100 rd_marked) (rd_world 200 rd_marked)
      (rd_world 200 rd_marked) (rd_marshal rd_record) None eq_refl Hput eq_refl) as [Hr _].
    + reflexivity.
    + by left.
    + destruct (Hr eq_refl (Sentinel ErrInProgress) eq_refl) as [Hres _]. exact Hres.
  - destruct (redis_record_lifetime background background "k" rd_record rd_event "h" hour
      (fun _ => mret None) (rd_world 100 ∅) (rd_world 100 rd_marked) (rd_world (6 * minute) rd_marked)
      (rd_world (6 * minute) rd_marked) "" (Some (Sentinel (External "redis: nil"))) eq_refl Hput eq_refl)
      as [_ Hr].
    + reflexivity.
    + by right.
    + apply Hr. discriminate.
Defined.
