(* ===== verification/TokenBucket.v ===== *)
(** * The token bucket in Redis

    The Lua script of src/redis/rate-limit.go, and [RateLimitStore.Allow], which runs
    it. The Redis commands the script calls are a class of operations of the server,
    [RedisServer]; the client that sends the script is [ScriptClient].

    A Lua number is a double: every arithmetic rounds its exact result to the nearest
    number of 53 bits, and a division by the zero a period below a millisecond is sent
    as makes infinities and a NaN. *)

From Stdlib Require Import QArith.
From S2P Require Import Prelude GoErrors Types Runtime Invokers.
Local Open Scope string_scope.
Local Open Scope list_scope.
Local Open Scope Z_scope.

(** ** Lua numbers

    The rationals that are doubles, the infinities and NaN. Left out are the ends of
    the exponents, and the sign of a zero. With arguments and a clock of 64 bits every
    number of the script is below 2^200 and, unless it is zero, a multiple of 2^-200,
    so that no arithmetic overflows or underflows; and the only divisor is the period,
    whose zero is positive. *)

Inductive number := Fin (q : Q) | Inf (negative : bool) | NaN.

(** [2 ^ e] when [e] is positive, and 1: [2 ^ e] is [up e / up (- e)]. *)
Definition up (e : Z) : Z := 2 ^ Z.max 0 e.

(** The integer nearest to [n / d], and of two the even one. *)
Definition nearest (n d : Z) : Z :=
  let q := n / d in
  match Z.compare (2 * (n mod d)) d with
  | Lt => q
  | Gt => q + 1
  | Eq => if Z.even q then q else q + 1
  end.

(** The [k] with [2 ^ k <= n / d < 2 ^ (k + 1)]. *)
Definition magnitude (n d : Z) : Z :=
  let k := Z.log2 n - Z.log2 d in
  if d * up k <=? n * up (- k) then k else k - 1.

(** The nearest double, and of two the even one: 53 bits from the first one on. *)
Definition rnd (q : Q) : Q :=
  let n := Qnum q in
  let d := Z.pos (Qden q) in
  if n =? 0 then 0%Q
  else let e := magnitude (Z.abs n) d - 52 in
       Qred (Qmake (nearest (n * up (- e)) (d * up e) * up e) (Z.to_pos (up (- e)))).

(** [tonumber] of the decimal of an integer, and an integer of the script. *)
Definition lua_int (z : Z) : number := Fin (rnd (inject_Z z)).

Definition negative (q : Q) : bool := negb (Qle_bool 0 q).

Definition num_add (x y : number) : number :=
  match x, y with
  | Fin a, Fin b => Fin (rnd (a + b))
  | NaN, _ | _, NaN => NaN
  | Inf n, Inf m => if Bool.eqb n m then Inf n else NaN
  | Inf n, Fin _ | Fin _, Inf n => Inf n
  end.

Definition num_mul (x y : number) : number :=
  match x, y with
  | Fin a, Fin b => Fin (rnd (a * b))
  | NaN, _ | _, NaN => NaN
  | Inf n, Inf m => Inf (xorb n m)
  | Inf n, Fin a | Fin a, Inf n => if Qeq_bool a 0 then NaN else Inf (xorb n (negative a))
  end.

Definition num_div (x y : number) : number :=
  match x, y with
  | Fin a, Fin b =>
      if Qeq_bool b 0 then (if Qeq_bool a 0 then NaN else Inf (negative a)) else Fin (rnd (a / b))
  | NaN, _ | _, NaN | Inf _, Inf _ => NaN
  | Inf n, Fin b => Inf (xorb n (negative b))
  | Fin _, Inf _ => Fin 0
  end.

(** [x < y]: no comparison with NaN holds. *)
Definition num_lt (x y : number) : bool :=
  match x, y with
  | Fin a, Fin b => negb (Qle_bool b a)
  | NaN, _ | _, NaN => false
  | Inf n, Inf m => n && negb m
  | Inf n, Fin _ => n
  | Fin _, Inf m => negb m
  end.

(** [math.min(x, y)]: the second number when it is smaller. *)
Definition num_min (x y : number) : number := if num_lt y x then y else x.

(** ** The server *)

(** [redis.call] of the four commands: the seconds and microseconds of the server's
    clock, the two fields of the hash of a key as [tonumber] reads them, and the
    writes. A number is written with 17 digits, from which it is read back; the
    milliseconds of the clock are integers below 2^53, which are exact. *)
Class RedisServer (U : Type) := {
  redis_TIME : M U (Z * Z);
  redis_HMGET : string -> M U (option number * option Z);
  redis_HMSET : string -> number -> Z -> M U unit;
  redis_PEXPIRE : string -> Z -> M U unit;
}.

Section script.
Context {U : Type} `{RedisServer U}.

(** The milliseconds of the server's clock. *)
Definition script_now : M U Z :=
  '(sec, usec) ← redis_TIME; mret (sec * 1000 + usec / 1000).

(** The tokens after the refill. *)
Definition refilled (rate period burst now : Z) (tokens : number) (ts : Z) : number :=
  let delta := Z.max 0 (now - ts) in
  let refill := num_div (num_mul (lua_int delta) (lua_int rate)) (lua_int period) in
  num_min (lua_int burst) (num_add tokens refill).

(** The script from the refill on: the bucket is written back with its clock and lives
    for another period, whatever the answer. *)
Definition script_write (key : string) (period : Z) (tokens : number) (now answer : Z)
    : M U (option Z) :=
  _ ← redis_HMSET key tokens now;
  _ ← redis_PEXPIRE key period;
  mret (Some answer).
Definition script_take (key : string) (rate period burst now : Z) (tokens : number) (ts : Z)
    : M U (option Z) :=
  let tokens := refilled rate period burst now tokens ts in
  if num_lt tokens (lua_int 1) then script_write key period tokens now 0
  else script_write key period (num_add tokens (lua_int (-1))) now 1.

(** The script; [None] is the error of an arithmetic on nil. *)
Definition allow_script (key : string) (rate period burst : Z) : M U (option Z) :=
  now ← script_now;
  '(tokens, ts) ← redis_HMGET key;
  let '(tokens, ts) := match tokens with
                       | None => (lua_int burst, Some now)
                       | Some tokens => (tokens, ts)
                       end in
  match ts with
  | None => mret None
  | Some ts => script_take key rate period burst now tokens ts
  end.
End script.

(** ** The store *)

(** [script.Run(ctx, client, keys, args...).Int()]: the script with its keys and
    arguments is sent to the server, which runs it in one step, and its reply comes
    back; or there is an error, the script having run or not. *)
Class ScriptClient (U : Type) := {
  script_Run : Ctx -> M U (option Z) -> M U (Z * goerr);
}.

Section store.
Context {U : Type} `{RedisServer U} `{ScriptClient U}.

(** [RateLimitStore.Allow], with [time.Duration.Milliseconds] of the period. *)
Definition Allow : RateLimitStore U := fun c key rate period burst =>
  '(res, err) ← script_Run c (allow_script key rate (Z.quot period (10 ^ 6)) burst);
  match err with
  | Some _ => mret (false, err)
  | None => mret (res =? 1, None)
  end.
End store.
