(* ===== verification/TokenBucketSpec.v ===== *)
(** * Properties of the token bucket

    Over the documented commands of Redis, and up to the rounding of its doubles, the
    script is an ideal token bucket as long as the burst is not larger than the rate,
    and it lets through at most a burst and what the refill of the larger of the two
    gives. Every call rounds by less than [eps], a [2 ^ 50]-th of the burst. *)

From Stdlib Require Import QArith Lqa Sorted SpecFloat.
From Stdlib Require Qcanon.
From S2P Require Import Prelude GoErrors Types Runtime Invokers TokenBucket.
Local Open Scope string_scope.
Local Open Scope list_scope.
Local Open Scope Z_scope.

(** ** The rounding *)

Lemma up_pos e : 0 < up e.
Proof. unfold up. lia. Qed.

Lemma up_nonneg e : 0 <= e -> up e = 2 ^ e.
Proof. intros. unfold up. by rewrite Z.max_r. Qed.
Lemma up_nonpos e : e <= 0 -> up e = 1.
Proof. intros. unfold up. by rewrite Z.max_l. Qed.

Lemma up_52 e : up (e + 52) * up (- e) = 2 ^ 52 * (up e * up (- (e + 52))).
Proof.
  destruct (Z_le_gt_dec 0 e); [|destruct (Z_le_gt_dec e (-52))].
  - rewrite (up_nonneg e), (up_nonneg (e + 52)), !up_nonpos, Z.pow_add_r by lia. lia.
  - rewrite (up_nonpos e), (up_nonpos (e + 52)), !up_nonneg by lia.
    replace (- e) with (52 + - (e + 52)) by lia. rewrite Z.pow_add_r by lia. lia.
  - rewrite (up_nonpos e), (up_nonpos (- (e + 52))), !up_nonneg, <- Z.pow_add_r by lia.
    rewrite !Z.mul_1_r. f_equal. lia.
Qed.

Lemma log2_below n d k : 0 < n -> 0 < d -> Z.log2 d + 1 + k <= Z.log2 n -> d * up k <= n * up (- k).
Proof.
  intros Hn Hd Hk. pose proof (Z.log2_spec n Hn) as [Hn' _]. pose proof (Z.log2_spec d Hd) as [_ Hd'].
  pose proof (Z.log2_nonneg d). pose proof (Z.log2_nonneg n). rewrite <- Z.add_1_r in Hd'. destruct (Z_le_gt_dec 0 k).
  - rewrite up_nonneg, up_nonpos by lia. pose proof (Z.pow_le_mono_r 2 _ _ ltac:(lia) Hk) as Hp.
    rewrite Z.pow_add_r in Hp by lia.
    apply Z.le_trans with (2 ^ (Z.log2 d + 1) * 2 ^ k); [apply Z.mul_le_mono_nonneg_r; [by apply Z.pow_nonneg|]|]; lia.
  - rewrite up_nonpos, up_nonneg by lia.
    pose proof (Z.pow_le_mono_r 2 (Z.log2 d + 1) (Z.log2 n + - k) ltac:(lia) ltac:(lia)) as Hp.
    rewrite (Z.pow_add_r 2 (Z.log2 n)) in Hp by lia.
    apply Z.le_trans with (2 ^ Z.log2 n * 2 ^ (- k)); [|apply Z.mul_le_mono_nonneg_r; [by apply Z.pow_nonneg|]]; lia.
Qed.

Lemma magnitude_below n d : 0 < n -> 0 < d ->
  let k := magnitude n d in d * up k <= n * up (- k).
Proof.
  intros Hn Hd. unfold magnitude. cbv zeta. set (k := Z.log2 n - Z.log2 d).
  destruct (Z.leb_spec (d * up k) (n * up (- k))); [done|]. apply log2_below; [done..|]. unfold k. lia.
Qed.

(** The quotient has at least 53 bits when it is rounded. *)
Lemma scaled_wide n d : 0 < n -> 0 < d ->
  let e := magnitude n d - 52 in 2 ^ 52 * (d * up e) <= n * up (- e).
Proof.
  intros Hn Hd e. pose proof (magnitude_below n d Hn Hd) as Hk. cbv zeta in Hk.
  replace (magnitude n d) with (e + 52) in Hk by (unfold e; lia).
  pose proof (up_52 e) as He. pose proof (up_pos (- e)). pose proof (up_pos (- (e + 52))).
  apply Z.mul_le_mono_pos_r with (up (- (e + 52))); [done|]. nia.
Qed.

Lemma nearest_close n d : 0 < d -> 2 * Z.abs (nearest n d * d - n) <= d.
Proof.
  intros Hd. unfold nearest. pose proof (Z.div_mod n d ltac:(lia)). pose proof (Z.mod_pos_bound n d Hd).
  destruct (Z.compare_spec (2 * (n mod d)) d); [destruct (Z.even _)|..]; nia.
Qed.

(** Half of the last of 53 bits. *)
Definition ulp : Q := 1 # 9007199254740992.

Lemma rnd_nonneg_bound (q : Q) : (0 <= q -> q * (1 - ulp) <= rnd q <= q * (1 + ulp))%Q.
Proof.
  destruct q as [n d]. unfold Qle at 1. cbn [Qnum Qden]. rewrite Z.mul_0_l, Z.mul_1_r. intros Hn.
  unfold rnd. cbn [Qnum Qden]. destruct (Z.eqb_spec n 0) as [->|Hn0].
  { unfold ulp, Qle, Qmult. cbn. lia. }
  rewrite Z.abs_eq by lia. set (e := magnitude n (Z.pos d) - 52).
  pose proof (scaled_wide n (Z.pos d) ltac:(lia) ltac:(lia)) as Hw. cbv zeta in Hw. fold e in Hw.
  pose proof (up_pos e) as Ha. pose proof (up_pos (- e)) as Hb.
  pose proof (nearest_close (n * up (- e)) (Z.pos d * up e) ltac:(nia)) as Hc.
  rewrite Qred_correct. set (m := nearest _ _) in *. unfold ulp, Qle. cbn [Qnum Qden Qmult Qplus Qminus Qopp].
  rewrite !Pos2Z.inj_mul, Z2Pos.id by lia. change (2 ^ 52) with 4503599627370496 in Hw.
  set (a := up e) in *. set (b := up (- e)) in *. clearbody m a b. clear e. split; nia.
Qed.

(** An integer of 53 bits is a double. *)
Lemma rnd_exact (z : Z) : 0 <= z < 2 ^ 53 -> rnd (inject_Z z) = inject_Z z.
Proof.
  intros Hz. unfold rnd. cbn [inject_Z Qnum Qden]. destruct (Z.eqb_spec z 0) as [->|Hz0]; [done|].
  rewrite Z.abs_eq by lia. unfold magnitude. change (Z.log2 1) with 0. rewrite Z.sub_0_r.
  pose proof (Z.log2_spec z ltac:(lia)) as [Hlog _]. pose proof (Z.log2_nonneg z).
  assert (H53 : Z.log2 z < 53) by (apply Z.log2_lt_pow2; lia).
  rewrite (up_nonneg (Z.log2 z)), (up_nonpos (- Z.log2 z)) by lia.
  rewrite (proj2 (Z.leb_le _ _)) by lia. set (e := Z.log2 z - 52).
  rewrite (up_nonpos e) by (unfold e; lia). pose proof (up_pos (- e)) as Hb.
  unfold nearest. rewrite Z.mul_1_r, Z.mod_1_r, Z.div_1_r. change (2 * 0 ?= 1 * 1) with Lt. cbv iota.
  transitivity (Qred (inject_Z z)).
  - apply Qred_complete. unfold Qeq. cbn [Qnum Qden inject_Z]. rewrite Z2Pos.id by lia. lia.
  - apply Qcanon.Qred_identity. cbn [Qnum Qden inject_Z]. apply Z.gcd_1_r.
Qed.

(** [rnd] against the Standard Library's specification of IEEE doubles. *)
Definition double (z : Z) : spec_float := binary_normalize 53 1024 z 0 false.
Definition rational (f : spec_float) : Q :=
  match f with
  | S754_finite s m e => Qred (Qmake ((if s then -1 else 1) * Z.pos m * up e) (Z.to_pos (up (- e))))
  | _ => 0%Q
  end.
Definition rnd_agrees (x y : Z) : bool :=
  let a := SFdiv 53 1024 (double x) (double y) in
  let b := SFmul 53 1024 a (double y) in
  Qeq_bool (rational (double x)) (rnd (inject_Z x))
  && Qeq_bool (rational a) (rnd (rnd (inject_Z x) / rnd (inject_Z y)))
  && Qeq_bool (rational b) (rnd (rational a * rnd (inject_Z y)))
  && Qeq_bool (rational (SFadd 53 1024 a (double 1))) (rnd (rational a + 1)).

Example rnd_runs :
  forallb (fun k => rnd_agrees (7919 * k * k + 1) (k + 3) && rnd_agrees (1 - 7919 * k) (k * k + 1)
                    && rnd_agrees (2 ^ 53 + k) 10 && rnd_agrees (2 ^ 60 + 2 * k) (3 * k + 1))
    (map Z.of_nat (seq 0 100)) = true.
Proof. vm_compute. reflexivity. Qed.

(** ** The documented server

    The clock, in microseconds, stands still during a script; a hash has its fields
    and, once [PEXPIRE] was called, the millisecond at which it expires: before it
    a read finds the fields, after it none. A time to live that is not positive
    deletes the key. *)
Class RedisServerLaws (U : Type) `{RedisServer U} := {
  srv_us : U -> Z;
  srv_hash : U -> string -> option (number * Z * option Z);
  law_TIME w : redis_TIME w = (Ret (srv_us (w_user w) / 10 ^ 6, srv_us (w_user w) mod 10 ^ 6), w);
  law_HMGET k w : exists r, redis_HMGET k w = (Ret r, w) /\
    match srv_hash (w_user w) k with
    | None => r = (None, None)
    | Some (v, ts, None) => r = (Some v, Some ts)
    | Some (v, ts, Some e) => r = (Some v, Some ts) /\ srv_us (w_user w) / 1000 <= e
                              \/ r = (None, None) /\ e <= srv_us (w_user w) / 1000
    end;
  law_HMSET k v ts w : exists u e, redis_HMSET k v ts w = put_user u w
    /\ srv_us u = srv_us (w_user w) /\ srv_hash u k = Some (v, ts, e)
    /\ forall k', k' <> k -> srv_hash u k' = srv_hash (w_user w) k';
  law_PEXPIRE k ttl w : exists u, redis_PEXPIRE k ttl w = put_user u w
    /\ srv_us u = srv_us (w_user w)
    /\ srv_hash u k = (if ttl <=? 0 then None
                       else (fun h => (h.1, Some (srv_us (w_user w) / 1000 + ttl))) <$> srv_hash (w_user w) k)
    /\ forall k', k' <> k -> srv_hash u k' = srv_hash (w_user w) k';
}.

(** ** An ideal bucket

    Tokens are refilled without end, never rounded and never forgotten; [None] is a
    new bucket. *)
Section ideal.
Context (rate period burst : Z).
Local Open Scope Q_scope.

Definition ideal_tokens (b : option (Q * Z)) (now : Z) : Q :=
  match b with
  | None => inject_Z burst
  | Some (tokens, ts) =>
      let full := tokens + inject_Z (Z.max 0 (now - ts) * rate) / inject_Z period in
      if Qle_bool (inject_Z burst) full then inject_Z burst else full
  end.

(** The bucket after a call at [now], which was let through or not. *)
Definition ideal_call (b : option (Q * Z)) (call : Z * bool) : option (Q * Z) :=
  let tokens := ideal_tokens b call.1 in
  Some (if call.2 then tokens - 1 else tokens, call.1).

(** What a call can be off by: a [2 ^ 50]-th of the burst. *)
Definition eps : Q := inject_Z burst * (1 # 1125899906842624).

(** [x] is [y] within [e]. *)
Definition close (e x y : Q) : Prop := x <= y + e /\ y <= x + e.
End ideal.

Lemma close_trans (e1 e2 x y z : Q) : close e1 x y -> close e2 y z -> close (e1 + e2) x z.
Proof. unfold close. intros [? ?] [? ?]. split; lra. Qed.

(** ** Arithmetic *)

Section arithmetic.
Context (rate period burst : Z).
Context (Hrate : 0 <= rate < 2 ^ 53) (Hperiod : 0 < period < 2 ^ 53) (Hburst : 0 <= burst < 2 ^ 53).
Local Open Scope Q_scope.

Lemma Qbool_cases (x y : Q) : (Qle_bool x y = true /\ x <= y) \/ (Qle_bool x y = false /\ y < x).
Proof.
  destruct (Qle_bool x y) eqn:E; [left|right]; (split; [done|]); [by apply Qle_bool_iff|].
  apply Qnot_le_lt. rewrite <- Qle_bool_iff. by rewrite E.
Qed.

Lemma inject_nonneg (z : Z) : (0 <= z)%Z -> 0 <= inject_Z z.
Proof. intros. change 0 with (inject_Z 0). by rewrite <- Zle_Qle. Qed.

Lemma period_pos : 0 < inject_Z period.
Proof using Hperiod. change 0 with (inject_Z 0). rewrite <- Zlt_Qlt. lia. Qed.

Lemma Qdiv_mono (x y : Q) : x <= y -> x / inject_Z period <= y / inject_Z period.
Proof using Hperiod.
  intros Hxy. pose proof period_pos. apply Qle_shift_div_l; [done|].
  rewrite Qmult_comm, Qmult_div_r by lra. done.
Qed.

Lemma refill_nonneg d : (0 <= d)%Z -> 0 <= inject_Z (d * rate) / inject_Z period.
Proof using Hrate Hperiod.
  intros Hd. apply Qle_shift_div_l; [apply period_pos|].
  pose proof (inject_nonneg (d * rate) ltac:(nia)). lra.
Qed.

(** The refill of the script, three times rounded: the time, the product, the quotient. *)
Lemma refill_close d : (0 <= d)%Z -> exists r, 
  num_div (num_mul (lua_int d) (lua_int rate)) (lua_int period) = Fin r
  /\ let c := inject_Z (d * rate) / inject_Z period in
     0 <= r /\ c * (1 - ulp) * (1 - ulp) * (1 - ulp) <= r <= c * (1 + ulp) * (1 + ulp) * (1 + ulp).
Proof using Hrate Hperiod Hburst.
  intros Hd. unfold lua_int. cbn [num_mul num_div]. rewrite (rnd_exact rate), (rnd_exact period) by lia.
  pose proof period_pos as Hp. pose proof (inject_nonneg rate ltac:(lia)) as Hr.
  pose proof (inject_nonneg d Hd) as Hdq. pose proof (refill_nonneg d Hd) as Hc.
  destruct (Qeq_bool _ 0) eqn:E; [apply Qeq_bool_iff in E; lra|]. eexists. split; [done|].
  cbv zeta. set (c := inject_Z (d * rate) / inject_Z period) in *.
  pose proof (rnd_nonneg_bound (inject_Z d) Hdq) as H1. set (d' := rnd (inject_Z d)) in *.
  assert (H2 : c * (1 - ulp) <= d' * inject_Z rate / inject_Z period <= c * (1 + ulp)).
  { assert (Hk : forall k, c * k == inject_Z d * k * inject_Z rate / inject_Z period)
      by (intros k; unfold c; rewrite inject_Z_mult; field; lra).
    rewrite !Hk. split; apply Qdiv_mono, Qmult_le_compat_r; tauto. }
  unfold ulp in *.
  pose proof (rnd_nonneg_bound (d' * inject_Z rate)) as H3. set (p := rnd (d' * inject_Z rate)) in *.
  assert (0 <= d' * inject_Z rate) by (apply Qmult_le_0_compat; lra). specialize (H3 ltac:(done)).
  set (x := d' * inject_Z rate) in *.
  assert (H4 : x / inject_Z period * (1 - ulp) <= p / inject_Z period <= x / inject_Z period * (1 + ulp)).
  { assert (Hk : forall k, x / inject_Z period * k == x * k / inject_Z period) by (intros; field; lra).
    rewrite !Hk. split; apply Qdiv_mono; tauto. }
  unfold ulp in *. set (f := p / inject_Z period) in *.
  set (y := x / inject_Z period) in *. pose proof (rnd_nonneg_bound f ltac:(lra)) as H5. unfold ulp in H5. lra.
Qed.

(** A refilled bucket has what the ideal one has, but for five roundings. *)
Lemma refilled_close x ts now : 0 <= x <= inject_Z burst -> exists t,
  refilled rate period burst now (Fin x) ts = Fin t /\ 0 <= t <= inject_Z burst
  /\ close (inject_Z burst * (5 * ulp)) t (ideal_tokens rate period burst (Some (x, ts)) now).
Proof using Hrate Hperiod Hburst.
  intros Hx. unfold refilled, ideal_tokens. cbv zeta. set (d := Z.max 0 (now - ts)).
  destruct (refill_close d ltac:(unfold d; lia)) as (r & -> & Hr0 & Hr).
  pose proof (refill_nonneg d ltac:(unfold d; lia)) as Hc.
  set (c := inject_Z (d * rate) / inject_Z period) in *. clearbody c d.
  pose proof (inject_nonneg burst ltac:(lia)) as Hb. unfold lua_int. rewrite (rnd_exact burst) by lia.
  cbn [num_add]. pose proof (rnd_nonneg_bound (x + r) ltac:(lra)) as Hs. set (s := rnd (x + r)) in *. clearbody s.
  unfold ulp in *. set (B := inject_Z burst) in *. clearbody B. unfold num_min, num_lt, close.
  destruct (Qbool_cases B s) as [[-> ?]|[-> ?]]; cbn [negb]; (eexists; split; [done|]);
    destruct (Qbool_cases B (x + c)) as [[-> ?]|[-> ?]]; split; lra.
Qed.

(** A new bucket has its burst at once. *)
Lemma ideal_new now :
  ideal_tokens rate period burst (Some (inject_Z burst, now)) now = ideal_tokens rate period burst None now.
Proof using Hrate Hperiod.
  unfold ideal_tokens. rewrite Z.sub_diag, Z.max_id. pose proof (refill_nonneg 0 ltac:(lia)) as Hc.
  match goal with |- context [Qle_bool ?x ?y] => destruct (Qbool_cases x y) as [[-> ?]|[_ Hlt]] end; [done|lra].
Qed.

(** What two buckets differ by after a refill. *)
Lemma ideal_close e x y ts now : close e x y ->
  close e (ideal_tokens rate period burst (Some (x, ts)) now) (ideal_tokens rate period burst (Some (y, ts)) now).
Proof.
  unfold close, ideal_tokens. intros [? ?]. set (c := inject_Z _ / _). set (B := inject_Z burst).
  destruct (Qbool_cases B (x + c)) as [[-> ?]|[-> ?]], (Qbool_cases B (y + c)) as [[-> ?]|[-> ?]]; split; lra.
Qed.

(** A period fills a bucket that is not larger than the rate, but for what it lacks to
    an empty one. *)
Lemma ideal_full e x y ts now : (burst <= rate)%Z -> 0 <= x -> close e x y -> (ts + period <= now)%Z ->
  close e (inject_Z burst) (ideal_tokens rate period burst (Some (y, ts)) now).
Proof using Hrate Hperiod Hburst.
  intros Hbr Hx [? ?] Hlate. unfold close, ideal_tokens. set (d := Z.max 0 (now - ts)).
  assert (Hc : inject_Z burst <= inject_Z (d * rate) / inject_Z period).
  { apply Qle_shift_div_l; [apply period_pos|]. rewrite <- inject_Z_mult, <- Zle_Qle. unfold d. nia. }
  set (c := inject_Z _ / _) in *. destruct (Qbool_cases (inject_Z burst) (y + c)) as [[-> ?]|[-> ?]]; split; lra.
Qed.

(** What a bucket can have gained since its last call. *)
Lemma tokens_gained b0 tokens ts now : 0 <= tokens -> (ts <= now)%Z ->
  (b0 = Some (tokens, ts) \/ b0 = None /\ (ts + period <= now)%Z) ->
  ideal_tokens rate period burst b0 now
  <= tokens + inject_Z ((now - ts) * Z.max rate burst) / inject_Z period.
Proof using Hrate Hperiod Hburst.
  intros Ht Hle Hb0. destruct Hb0 as [->|[-> Hlate]]; cbn [ideal_tokens].
  - pose proof (Qdiv_mono (inject_Z (Z.max 0 (now - ts) * rate)) (inject_Z ((now - ts) * Z.max rate burst))) as Hm.
    rewrite <- Zle_Qle in Hm. specialize (Hm ltac:(nia)).
    match goal with |- context [Qle_bool ?x ?y] => destruct (Qbool_cases x y) as [[-> ?]|[-> ?]] end; lra.
  - assert (inject_Z burst <= inject_Z ((now - ts) * Z.max rate burst) / inject_Z period); [|lra].
    apply Qle_shift_div_l; [apply period_pos|]. rewrite <- inject_Z_mult, <- Zle_Qle. nia.
Qed.
End arithmetic.

(** ** The script *)

Section script.
Context {U : Type} `{RL : RedisServerLaws U} (key : string) (rate period burst : Z).
Context (Hrate : 0 <= rate < 2 ^ 53) (Hperiod : 0 < period < 2 ^ 53) (Hburst : 0 <= burst < 2 ^ 53).
Implicit Types (u : U) (w : World U) (b : option (Q * Z)).

(** The milliseconds of the server. *)
Definition srv_ms u : Z := srv_us u / 1000.

Lemma script_now_run w : script_now w = (Ret (srv_ms (w_user w)), w).
Proof using RL.
  unfold script_now, srv_ms. erewrite bind_run by apply law_TIME. unfold mret, M_ret. do 2 f_equal.
  set (us := srv_us (w_user w)).
  rewrite (Z.div_mod us (10 ^ 6)) at 3 by lia.
  replace (10 ^ 6 * (us / 10 ^ 6) + us mod 10 ^ 6)
    with (us / 10 ^ 6 * 1000 * 1000 + us mod 10 ^ 6) by lia.
  rewrite Z.div_add_l by lia. lia.
Qed.

(** The server holds the bucket [b] for the key. *)
Definition holds u b : Prop :=
  match b with
  | None => srv_hash u key = None
  | Some (tokens, ts) =>
      srv_hash u key = Some (Fin tokens, ts, Some (ts + period)) /\ (0 <= tokens <= inject_Z burst)%Q
  end.

(** What a call is answered with the bucket [b0], and the tokens it leaves: those of
    the ideal bucket, but for the rounding. *)
Definition answered b0 (now : Z) (ok : bool) (left : Q) : Prop :=
  exists t, close (inject_Z burst * (5 * ulp)) t (ideal_tokens rate period burst b0 now)
    /\ ok = Qle_bool 1 t /\ (0 <= left <= inject_Z burst)%Q
    /\ close (inject_Z burst * ulp) left (if ok then t - 1 else t).

(** The end of the script. *)
Lemma script_write_run tokens now n w : now = srv_ms (w_user w) -> (0 <= tokens <= inject_Z burst)%Q ->
  exists w', script_write key period (Fin tokens) now n w = (Ret (Some n), w')
    /\ holds (w_user w') (Some (tokens, now)).
Proof using RL Hperiod.
  intros -> Ht. destruct (law_HMSET key (Fin tokens) (srv_ms (w_user w)) w) as (u1 & e & Hs & Hus & Hh & _).
  destruct (law_PEXPIRE key period (put_user u1 w).2) as (u2 & Hp & Hus2 & Hh2 & _).
  exists (put_user u2 (put_user u1 w).2).2. split.
  - unfold script_write. rewrite (bind_run _ _ _ _ _ Hs). by rewrite (bind_run _ _ _ _ _ Hp).
  - cbn in *. split; [|done].
    rewrite Hh2, (proj2 (Z.leb_gt _ _) (proj1 Hperiod)), Hh. cbn. by rewrite Hus.
Qed.

(** The last subtraction. *)
Lemma taken_close t : (1 <= t <= inject_Z burst)%Q ->
  (0 <= rnd (t + -1) <= inject_Z burst)%Q /\ close (inject_Z burst * ulp) (rnd (t + -1)) (t - 1).
Proof using Hburst.
  intros Ht. pose proof (rnd_nonneg_bound (t + -1) ltac:(lra)) as Hr. unfold close, ulp in *.
  assert (inject_Z burst <= inject_Z (2 ^ 53))%Q as Hb by (rewrite <- Zle_Qle; lia).
  change (inject_Z (2 ^ 53)) with 9007199254740992%Q in Hb.
  set (r := rnd _) in *. set (B := inject_Z burst) in *. clearbody r B. lra.
Qed.

(** What the script answers: [b] is a bucket that has as many tokens. *)
Definition answers b w (m : M U (option Z)) : Prop :=
  exists (ok : bool) (left : Q) w', m w = (Ret (Some (if ok then 1 else 0)), w')
    /\ answered b (srv_ms (w_user w)) ok left /\ holds (w_user w') (Some (left, srv_ms (w_user w))).

Lemma script_take_run b tokens ts w : (0 <= tokens <= inject_Z burst)%Q ->
  ideal_tokens rate period burst (Some (tokens, ts)) (srv_ms (w_user w))
  = ideal_tokens rate period burst b (srv_ms (w_user w)) ->
  answers b w (script_take key rate period burst (srv_ms (w_user w)) (Fin tokens) ts).
Proof using RL Hrate Hperiod Hburst.
  intros Ht Heq. set (now := srv_ms (w_user w)) in *.
  destruct (refilled_close rate period burst Hrate Hperiod Hburst tokens ts now Ht) as (t & Hf & Hb & Hc).
  rewrite Heq in Hc. unfold answers, script_take. rewrite Hf. cbv zeta.
  change (lua_int 1) with (Fin 1). change (lua_int (-1)) with (Fin (-1)). cbn [num_lt num_add].
  destruct (Qbool_cases 1 t) as [[E Ht1]|[E Ht1]]; rewrite E; cbn [negb].
  - destruct (taken_close t ltac:(lra)) as [Hl Hlc].
    destruct (script_write_run (rnd (t + -1)) now 1 w eq_refl Hl) as (w' & Hw & Hh).
    exists true, (rnd (t + -1)), w'. split; [exact Hw|]. split; [|exact Hh]. by exists t.
  - destruct (script_write_run t now 0 w eq_refl Hb) as (w' & Hw & Hh).
    exists false, t, w'. split; [exact Hw|]. split; [|exact Hh]. exists t.
    do 3 (split; [done|]). unfold close, ulp. lra.
Qed.

(** A run of the script is a call of the bucket the server holds, or of a new one when
    a period has passed since the last call. *)
Lemma script_run b w : holds (w_user w) b -> exists b0,
  (b0 = b \/ b0 = None /\ exists tokens ts, b = Some (tokens, ts) /\ ts + period <= srv_ms (w_user w))
  /\ answers b0 w (allow_script key rate period burst).
Proof using RL Hrate Hperiod Hburst.
  intros Hb. unfold answers, allow_script. rewrite (bind_run _ _ _ _ _ (script_now_run w)).
  destruct (law_HMGET key w) as (r & Hget & Hr). rewrite (bind_run _ _ _ _ _ Hget).
  assert (Hnew : answers None w (script_take key rate period burst (srv_ms (w_user w)) (lua_int burst) (srv_ms (w_user w)))).
  { unfold lua_int. rewrite (rnd_exact burst) by lia. apply script_take_run.
    - pose proof (inject_nonneg burst ltac:(lia)). lra.
    - by apply (ideal_new rate period burst Hrate Hperiod). }
  destruct b as [[tokens ts]|]; cbn [holds] in Hb.
  - destruct Hb as [Hh Ht]. rewrite Hh in Hr. destruct Hr as [[-> Hle]|[-> Hle]].
    + exists (Some (tokens, ts)). split; [by left|]. by apply script_take_run.
    + exists None. split; [|exact Hnew]. right. split; [done|]. by exists tokens, ts.
  - rewrite Hb in Hr. subst r. exists None. split; [by left|exact Hnew].
Qed.
End script.

(** ** Runs *)

Section runs.
Context {U : Type} `{RL : RedisServerLaws U} (key : string) (rate period burst : Z).
Implicit Types (u : U) (w : World U) (l : list (Z * bool)).

(** The calls of a key, with the milliseconds of the server at each and its answer, by
    whatever process; nothing else writes the key in between. *)
Inductive key_calls : U -> list (Z * bool) -> U -> Prop :=
| key_idle u : key_calls u [] u
| key_call u w n w' l u' :
    srv_hash (w_user w) key = srv_hash u key ->
    allow_script key rate period burst w = (Ret (Some n), w') ->
    key_calls (w_user w') l u' ->
    key_calls u ((srv_ms (w_user w), n =? 1) :: l) u'.

Definition allowed l : Z := Z.of_nat (length (filter (fun c => c.2 = true) l)).

(** One more call. *)
Lemma allowed_cons t (a : bool) l :
  (inject_Z (allowed ((t, a) :: l)) == (if a then 1 else 0) + inject_Z (allowed l))%Q.
Proof.
  unfold allowed. rewrite filter_cons. cbn [snd].
  destruct a; [rewrite decide_True by done|rewrite decide_False by done; ring].
  cbn [length]. rewrite Nat2Z.inj_succ, <- Z.add_1_l, inject_Z_plus. reflexivity.
Qed.

(** The time of the last call, [ts] when there is none. *)
Definition last_time (ts : Z) l : Z := fold_left (fun _ c => c.1) l ts.

(** An ideal bucket over the calls of a run. *)
Definition ideal_after (b : option (Q * Z)) l : option (Q * Z) :=
  fold_left (ideal_call rate period burst) l b.

Context (Hrate : 0 <= rate < 2 ^ 53) (Hperiod : 0 < period < 2 ^ 53) (Hburst : 0 <= burst < 2 ^ 53).

Lemma holds_idle u w b : srv_hash (w_user w) key = srv_hash u key ->
  holds key period burst u b -> holds key period burst (w_user w) b.
Proof. unfold holds. by intros ->. Qed.

(** One call of a run. *)
Lemma key_call_inv u b w n w' :
  holds key period burst u b -> srv_hash (w_user w) key = srv_hash u key ->
  allow_script key rate period burst w = (Ret (Some n), w') ->
  let now := srv_ms (w_user w) in
  exists b0 left, (b0 = b \/ b0 = None /\ exists tokens ts, b = Some (tokens, ts) /\ ts + period <= now)
    /\ answered rate period burst b0 now (n =? 1) left
    /\ holds key period burst (w_user w') (Some (left, now)).
Proof using RL Hrate Hperiod Hburst.
  intros Hb Hk Hrun now. apply (holds_idle u w b Hk) in Hb.
  destruct (script_run key rate period burst Hrate Hperiod Hburst b w Hb) as (b0 & Hb0 & ok & left & w1 & Ha & Hans & Hh).
  rewrite Hrun in Ha. injection Ha as -> ->. exists b0, left. split; [exact Hb0|]. split; [|exact Hh].
  by destruct ok.
Qed.

(** *** The burst within the rate *)

Local Open Scope Q_scope.

(** The server holds the ideal bucket [b] for the key, but for the rounding of [n]
    calls. *)
Definition holds_near (n : Z) u b : Prop :=
  match b with
  | None => holds key period burst u None
  | Some (level, ts) => exists tokens, holds key period burst u (Some (tokens, ts))
      /\ close (inject_Z n * eps burst) tokens level
  end.

Lemma near_call n u b w k w' : (burst <= rate)%Z -> (0 <= n)%Z -> holds_near n u b ->
  srv_hash (w_user w) key = srv_hash u key ->
  allow_script key rate period burst w = (Ret (Some k), w') ->
  let now := srv_ms (w_user w) in
  (exists t, (k =? 1)%Z = Qle_bool 1 t
     /\ close (inject_Z (n + 1) * eps burst) t (ideal_tokens rate period burst b now))
  /\ holds_near (n + 1) (w_user w') (ideal_call rate period burst b (now, (k =? 1)%Z)).
Proof using RL Hrate Hperiod Hburst.
  intros Hbr Hn Hnear Hk Hrun now. set (e := inject_Z n * eps burst).
  pose proof (inject_nonneg burst ltac:(lia)) as HB.
  assert (He : 0 <= e) by (apply Qmult_le_0_compat; [by apply inject_nonneg|unfold eps; lra]).
  assert (exists ba, holds key period burst u ba /\ forall b0,
    (b0 = ba \/ b0 = None /\ exists tokens ts, ba = Some (tokens, ts) /\ (ts + period <= now)%Z) ->
    close e (ideal_tokens rate period burst b0 now) (ideal_tokens rate period burst b now)) as (ba & Hba & Hsim).
  { destruct b as [[level ts]|]; cbn [holds_near] in Hnear.
    - destruct Hnear as (x & Hx & Hc). exists (Some (x, ts)). split; [done|]. intros b0 [->|[-> (y & s & [= <- <-] & Hl)]].
      + by apply ideal_close.
      + apply (ideal_full rate period burst Hrate Hperiod Hburst e x); [done|by destruct Hx as [_ []]|done|done].
    - exists None. split; [done|]. intros b0 [->|[-> (? & ? & [=] & _)]]. unfold close. lra. }
  destruct (key_call_inv u ba w k w' Hba Hk Hrun) as (b0 & left & Hb0 & (t & Ht & Hok & Hl & Hlc) & Hh).
  pose proof (close_trans _ _ _ _ _ Ht (Hsim b0 Hb0)) as Hcl. clear Ht Hsim.
  assert (Hn1 : inject_Z (n + 1) * eps burst == e + eps burst)
    by (unfold e; rewrite inject_Z_plus; change (inject_Z 1) with 1; ring).
  cbn [ideal_call holds_near fst snd]. unfold close, ulp in *. fold now in Hh.
  set (i := ideal_tokens rate period burst b now) in *. unfold eps in Hn1 |- *. clearbody e.
  split; [exists t; split; [done|lra]|]. exists left. split; [exact Hh|].
  destruct (k =? 1)%Z; lra.
Qed.

Lemma key_calls_near n u b l u' : (burst <= rate)%Z -> (0 <= n)%Z -> holds_near n u b -> key_calls u l u' ->
  holds_near (n + Z.of_nat (length l)) u' (ideal_after b l).
Proof using RL Hrate Hperiod Hburst.
  intros Hbr Hn Hb Hrun. revert n b Hn Hb.
  induction Hrun as [u|u w k w' l u' Hk Hs _ IH]; intros n b Hn Hb; [by rewrite Z.add_0_r|].
  destruct (near_call n u b w k w' Hbr Hn Hb Hk Hs) as [_ Hnext].
  replace (n + Z.of_nat (length _))%Z with (n + 1 + Z.of_nat (length l))%Z by (cbn [length]; lia).
  apply IH; [lia|exact Hnext].
Qed.

(** *** Any burst *)

Lemma key_calls_gained u tokens ts l u' :
  holds key period burst u (Some (tokens, ts)) -> key_calls u l u' -> Sorted Z.le (ts :: map fst l) ->
  inject_Z (allowed l)
  <= tokens + inject_Z ((last_time ts l - ts) * Z.max rate burst) / inject_Z period
     + inject_Z (Z.of_nat (length l)) * eps burst.
Proof using RL Hrate Hperiod Hburst.
  intros Hb Hrun. revert tokens ts Hb. pose proof (period_pos period Hperiod) as Hp.
  induction Hrun as [u|u w n w' l u' Hk Hs _ IH]; intros tokens ts Hb Hsort.
  { cbn [map last_time fold_left length]. rewrite Z.sub_diag, Z.mul_0_l. destruct Hb as [_ Hb].
    assert (0 <= inject_Z 0 / inject_Z period)
      by (apply Qle_shift_div_l; [done|change (inject_Z 0) with 0; lra]).
    change (inject_Z (allowed [])) with 0. change (inject_Z (Z.of_nat 0)) with 0. lra. }
  destruct (key_call_inv _ _ _ _ _ Hb Hk Hs) as (b0 & left & Hb0 & (t & Ht & Hok & Hl & Hlc) & Hh).
  set (now := srv_ms (w_user w)) in *. cbn [map fst] in Hsort |- *.
  apply Sorted_inv in Hsort as [Hsort Hhd]. apply HdRel_inv in Hhd.
  assert (Hgain : ideal_tokens rate period burst b0 now
    <= tokens + inject_Z ((now - ts) * Z.max rate burst) / inject_Z period).
  { apply tokens_gained; [done..|by destruct Hb as [_ []]|done|].
    destruct Hb0 as [->|[-> (x & y & [= <- <-] & ?)]]; [by left|by right]. }
  specialize (IH _ _ Hh Hsort).
  cbn [last_time fold_left fst]. fold (last_time now l). set (z := last_time now l) in *.
  pose proof (allowed_cons now (n =? 1)%Z l) as Hcount.
  assert (Hsum : inject_Z ((z - ts) * Z.max rate burst) / inject_Z period
    == inject_Z ((now - ts) * Z.max rate burst) / inject_Z period
       + inject_Z ((z - now) * Z.max rate burst) / inject_Z period).
  { replace ((z - ts) * Z.max rate burst)%Z
      with ((now - ts) * Z.max rate burst + (z - now) * Z.max rate burst)%Z by lia.
    rewrite inject_Z_plus. field. lra. }
  cbn [length]. rewrite Nat2Z.inj_succ, <- Z.add_1_l, inject_Z_plus, Qmult_plus_distr_l.
  change (inject_Z 1) with 1. unfold close, eps, ulp in *. pose proof (inject_nonneg burst ltac:(lia)).
  destruct (n =? 1)%Z; lra.
Qed.

Local Close Scope Q_scope.

Lemma key_calls_app u l1 l2 u' : key_calls u (l1 ++ l2) u' ->
  exists um, key_calls u l1 um /\ key_calls um l2 u'.
Proof.
  revert u. induction l1 as [|c l1 IH]; intros u Hrun; [exists u; split; [constructor|done]|].
  inversion Hrun as [|u0 w n w' l u1 Hk Hs Hrest]; subst. destruct (IH _ Hrest) as (um & H1 & H2).
  exists um. split; [by econstructor|done].
Qed.

Lemma key_calls_holds u b l u' : holds key period burst u b -> key_calls u l u' ->
  exists b', holds key period burst u' b'.
Proof using RL Hrate Hperiod Hburst.
  intros Hb Hrun. revert b Hb. induction Hrun as [u|u w n w' l u' Hk Hs _ IH]; intros b Hb; [by exists b|].
  destruct (key_call_inv _ _ _ _ _ Hb Hk Hs) as (b0 & left & _ & _ & Hh). by eapply IH.
Qed.

Lemma ideal_most b0 now : (ideal_tokens rate period burst b0 now <= inject_Z burst)%Q.
Proof.
  destruct b0 as [[tokens ts]|]; cbn [ideal_tokens]; [|lra].
  match goal with |- context [Qle_bool ?x ?y] => destruct (Qbool_cases x y) as [[-> ?]|[-> ?]] end; lra.
Qed.

(** A window of calls, from its first. *)
Lemma window_bound u b c l u' : holds key period burst u b -> key_calls u (c :: l) u' ->
  Sorted Z.le (map fst (c :: l)) ->
  2 ^ 50 * (allowed (c :: l) * period - burst * period - Z.max rate burst * (last_time c.1 l - c.1))
  <= Z.of_nat (length (c :: l)) * burst * period.
Proof using RL Hrate Hperiod Hburst.
  intros Hb Hrun Hsort. inversion Hrun as [|u0 w n w' l0 u1 Hk Hs Hrest]; subst.
  destruct (key_call_inv _ _ _ _ _ Hb Hk Hs) as (b0 & left & Hb0 & (t & Ht & Hok & Hl & Hlc) & Hh). cbn [fst snd map] in *.
  set (now := srv_ms (w_user w)) in *.
  pose proof (key_calls_gained _ _ _ _ _ Hh Hrest Hsort) as Hg.
  pose proof (period_pos period Hperiod) as Hp. set (z := last_time now l) in *.
  pose proof (allowed_cons now (n =? 1) l) as Hcount.
  pose proof (ideal_most b0 now) as Htok.
  set (A := allowed ((now, n =? 1) :: l)) in *. cbn [length]. rewrite Nat2Z.inj_succ. unfold Z.succ.
  set (len := Z.of_nat (length l)) in *. set (d := z - now) in *. clearbody A len d.
  assert (Hall : (inject_Z A <= inject_Z burst + inject_Z (d * Z.max rate burst) / inject_Z period
                  + inject_Z (len + 1) * eps burst)%Q).
  { rewrite inject_Z_plus. change (inject_Z 1) with 1%Q. unfold close, eps, ulp in *.
    pose proof (inject_nonneg burst ltac:(lia)). destruct (n =? 1); lra. }
  apply (Qmult_le_compat_r _ _ (inject_Z period)) in Hall; [|lra].
  assert (Hdiv : (inject_Z (d * Z.max rate burst) / inject_Z period * inject_Z period
    == inject_Z (d * Z.max rate burst))%Q) by (field; lra).
  rewrite Zle_Qle. unfold Z.sub. unfold eps in Hall.
  rewrite !inject_Z_mult, !inject_Z_plus, !inject_Z_opp, !inject_Z_mult in *.
  change (inject_Z (2 ^ 50)) with 1125899906842624%Q. lra.
Qed.
End runs.

(** A period under a millisecond is sent as zero: whatever the bucket holds, the call
    finds it full. *)
Lemma zero_period_is_full (rate burst now ts : Z) (tokens : Q) :
  0 <= rate -> 0 <= burst < 2 ^ 53 ->
  refilled rate 0 burst now (Fin tokens) ts = Fin (inject_Z burst).
Proof.
  intros Hr Hb. unfold refilled, lua_int. cbv zeta. rewrite (rnd_exact burst) by done. cbn [num_mul num_div].
  change (Qeq_bool (rnd (inject_Z 0)) 0) with true. cbv iota.
  set (p := rnd (_ * _)). destruct (Qeq_bool p 0); [done|].
  assert (Hp : (0 <= p)%Q).
  { assert (Hn : forall q, (0 <= q -> 0 <= rnd q)%Q)
      by (intros q Hq; pose proof (rnd_nonneg_bound q Hq); unfold ulp in *; lra).
    apply Hn, Qmult_le_0_compat; apply Hn, inject_nonneg; lia. }
  unfold negative. by rewrite (proj2 (Qle_bool_iff _ _) Hp).
Qed.

(** The documented client: without an error, the script has run once at the server. *)
Class ScriptLaws (U : Type) `{ScriptClient U} : Prop :=
  law_script c s n w w' : script_Run c s w = (Ret (n, None), w') ->
    exists w1 w2, s w1 = (Ret (Some n), w2).

(** * Properties *)

(** C28: the rate limit. In any window of the calls of a key, by whatever processes and
    in whatever grouping, the calls let through are at most the burst and what the
    time between the first and the last call of the window refills, and a [2 ^ 50]-th
    of the burst for each call of the window, by which its doubles may round; the
    refill is that of the rate or, where the burst is the larger, of the burst,
    because a key expires after a period. The three arguments are integers of 53 bits,
    the period is not zero, and the clock of the server does not go back in the window. *)
Theorem rate_is_bounded {U : Type} `{RL : RedisServerLaws U} (key : string) (rate period burst : Z)
    (u u' : U) (before : list (Z * bool)) (c : Z * bool) (l : list (Z * bool)) :
  0 <= rate < 2 ^ 53 -> 0 < period < 2 ^ 53 -> 0 <= burst < 2 ^ 53 ->
  srv_hash u key = None ->
  key_calls key rate period burst u (before ++ c :: l) u' ->
  Sorted Z.le (map fst (c :: l)) ->
  2 ^ 50 * (allowed (c :: l) * period - burst * period - Z.max rate burst * (last_time c.1 l - c.1))
  <= Z.of_nat (length (c :: l)) * burst * period.
Proof.
  intros Hrate Hperiod Hburst Hnew Hrun Hsort.
  destruct (key_calls_app _ _ _ _ _ _ _ _ Hrun) as (um & Hbefore & Hwin).
  destruct (key_calls_holds key rate period burst Hrate Hperiod Hburst u None before um Hnew Hbefore) as (b & Hb).
  by apply (window_bound key rate period burst Hrate Hperiod Hburst um b c l u').
Qed.

(** C27: the store is a token bucket. When the burst is not larger than the rate, the
    answer of [Allow], whenever it comes without an error, is that of an ideal bucket
    which was refilled without end since the first call of the key and from which
    every call that was let through took one token, but for the rounding of the
    doubles: after [n] calls an answer is true only when that bucket has one token or
    lacks less than [n + 1] times [eps], a [2 ^ 50]-th of the burst, and false only when it
    has less than a token and that much. Expiration loses nothing, the clock of the
    server may go back. The period is at least a millisecond, and the rate is an integer
    of 53 bits. *)
Theorem Allow_is_ideal {U : Type} `{RL : RedisServerLaws U} `{SL : ScriptLaws U} (c : Ctx) (key : string)
    (rate period burst : Z) (ok : bool) (w w' : World U) :
  0 <= rate < 2 ^ 53 -> 10 ^ 6 <= period < 2 ^ 63 -> 0 <= burst < 2 ^ 53 -> burst <= rate ->
  Allow c key rate period burst w = (Ret (ok, None), w') ->
  let ms := period ÷ 10 ^ 6 in
  exists n w1 w2, allow_script key rate ms burst w1 = (Ret (Some n), w2) /\ ok = (n =? 1)
    /\ forall u l u', srv_hash u key = None -> key_calls key rate ms burst u l u' ->
         srv_hash (w_user w1) key = srv_hash u' key ->
         let level := ideal_tokens rate ms burst (ideal_after rate ms burst None l) (srv_ms (w_user w1)) in
         let err := (inject_Z (Z.of_nat (length l) + 1) * eps burst)%Q in
         if ok then (1 - err <= level)%Q else (level < 1 + err)%Q.
Proof.
  intros Hrate Hperiod Hburst Hbr Hrun ms. unfold Allow in Hrun.
  assert (Hms : 0 < ms < 2 ^ 53)
    by (unfold ms; rewrite Z.quot_div_nonneg by lia; split;
        [apply Z.div_str_pos|apply Z.div_lt_upper_bound]; lia).
  apply bind_ret_inv in Hrun as ([n err] & wr & Hs & Hrun).
  destruct err as [e|]; apply mret_inv in Hrun as [[= ->] ->].
  destruct (law_script _ _ _ _ _ Hs) as (w1 & w2 & Hscript). exists n, w1, w2.
  split; [exact Hscript|]. split; [done|]. intros u l u' Hnew Hcalls Hk level err.
  pose proof (key_calls_near key rate ms burst Hrate Hms Hburst 0 u None l u' Hbr ltac:(lia) Hnew Hcalls) as Hb.
  destruct (near_call key rate ms burst Hrate Hms Hburst (0 + Z.of_nat (length l)) _ _ _ _ _ Hbr
    ltac:(lia) Hb Hk Hscript)
    as [(t & -> & Hc) _].
  rewrite Z.add_0_l in Hc. unfold close in Hc. fold level err in Hc.
  destruct (Qbool_cases 1 t) as [[-> ?]|[-> ?]]; lra.
Qed.

(** ** A concrete server

    A clock in microseconds and the hashes. *)
Definition tb_state : Type := Z * gmap string (number * Z * option Z).

#[local] Instance tb_server : RedisServer tb_state := {|
  redis_TIME := u ← get_user; mret (u.1 / 10 ^ 6, u.1 mod 10 ^ 6);
  redis_HMGET k := u ← get_user;
    mret (match u.2 !! k with
          | Some (v, ts, Some e) => if u.1 / 1000 <=? e then (Some v, Some ts) else (None, None)
          | Some (v, ts, None) => (Some v, Some ts)
          | None => (None, None)
          end);
  redis_HMSET k v ts := u ← get_user; put_user (u.1, <[k := (v, ts, None)]> u.2);
  redis_PEXPIRE k ttl := u ← get_user;
    put_user (u.1, if ttl <=? 0 then delete k u.2
                   else match u.2 !! k with
                        | Some (h, _) => <[k := (h, Some (u.1 / 1000 + ttl))]> u.2
                        | None => u.2
                        end);
|}.

#[local] Program Instance tb_server_laws : RedisServerLaws tb_state := {|
  srv_us u := u.1;
  srv_hash u k := u.2 !! k;
|}.
Next Obligation. done. Qed.
Next Obligation.
  intros k [? ? ? ? ? ? [us m]]. eexists. split; [reflexivity|]. cbn.
  destruct (m !! k) as [[[v ts] [e|]]|]; [|done..].
  destruct (Z.leb_spec (us / 1000) e); [left|right]; (split; [done|lia]).
Qed.
Next Obligation.
  intros k v ts w. do 2 eexists. split; [reflexivity|]. split; [done|].
  split; [apply lookup_insert_eq|]. intros k' Hk. by apply lookup_insert_ne.
Qed.
Next Obligation.
  intros k ttl [? ? ? ? ? ? [us m]]. eexists. split; [reflexivity|]. split; [done|]. cbn.
  destruct (ttl <=? 0); [split; [apply lookup_delete_eq|intros k' Hk; by apply lookup_delete_ne]|].
  destruct (m !! k) as [[h e]|] eqn:E; (split; [|intros k' Hk; try by apply lookup_insert_ne]).
  - apply lookup_insert_eq.
  - exact E.
  - done.
Qed.

#[local] Instance tb_client : ScriptClient tb_state := {|
  script_Run _ s := n ← s; mret (default 0 n, if n is Some _ then None else Some (Sentinel (External "redis")));
|}.
#[local] Instance tb_client_laws : ScriptLaws tb_state.
Proof.
  intros c s n w w' Hrun. apply bind_ret_inv in Hrun as ([x|] & w1 & Hs & Hrun);
    apply mret_inv in Hrun as [[= ->] _]. by exists w, w1.
Qed.

(** The answers to calls at these milliseconds. *)
Fixpoint tb_calls (rate period burst : Z) (times : list Z) (u : tb_state) : list bool :=
  match times with
  | [] => []
  | t :: times =>
      match allow_script "k" rate period burst (mkWorld 0 [] ∅ 0 ∅ ∅ (t * 1000, u.2)) with
      | (Ret (Some n), w) => (n =? 1) :: tb_calls rate period burst times (w_user w)
      | _ => []
      end
  end.

(** A burst of two at one token per second: a refusal, and a token a second later. *)
Example tb_runs :
  tb_calls 2 2000 2 [5000; 5000; 5000; 5999; 6000; 9000] (0, ∅) = [true; true; false; false; true; true].
Proof. vm_compute. reflexivity. Qed.

(** One token per second and a burst of three: a bucket that is left alone for a little
    more than a second is full again, so that six calls go through in 1001 ms. *)
Example burst_outlives_rate :
  tb_calls 1 1000 3 [0; 0; 0; 0; 1001; 1001; 1001; 1001] (0, ∅)
  = [true; true; true; false; true; true; true; false].
Proof. vm_compute. reflexivity. Qed.

(** One token per ten milliseconds and a burst of one: nine refills of a tenth and one
    more are rounded to less than a token, and the call at 10 ms is refused. *)
Example tenths_are_rounded :
  tb_calls 1 10 1 [0; 1; 2; 3; 4; 5; 6; 7; 8; 9; 10; 11] (0, ∅)
  = true :: repeat false 10 ++ [true].
Proof. vm_compute. reflexivity. Qed.

Definition tb_world (t : Z) (u : tb_state) : World tb_state := mkWorld 0 [] ∅ 0 ∅ ∅ (t * 1000, u.2).
Definition tb_step (rate period burst t : Z) (u : tb_state) : outcome (any error) (option Z) * World tb_state :=
  allow_script "k" rate period burst (tb_world t u).
Definition tb_first (rate : Z) : tb_state := w_user (tb_step rate 1000 3 5 (0, ∅)).2.
Definition tb_second (rate : Z) : tb_state := w_user (tb_step rate 1000 3 6 (tb_first rate)).2.

Lemma tb_run rate : rate = 1 \/ rate = 4 ->
  key_calls "k" rate 1000 3 (0, ∅) [(5, true); (6, true)] (tb_second rate).
Proof.
  intros Hr.
  change [(5, true); (6, true)] with
    [(srv_ms (w_user (tb_world 5 (0, ∅))), 1 =? 1); (srv_ms (w_user (tb_world 6 (tb_first rate))), 1 =? 1)].
  apply (key_call "k" rate 1000 3 (0, ∅) (tb_world 5 (0, ∅)) 1
    (tb_step rate 1000 3 5 (0, ∅)).2); [reflexivity| |].
  { apply injective_projections; [|reflexivity]. destruct Hr as [-> | ->]; vm_compute; reflexivity. }
  apply (key_call "k" rate 1000 3 (tb_first rate) (tb_world 6 (tb_first rate)) 1
    (tb_step rate 1000 3 6 (tb_first rate)).2); [reflexivity| |constructor].
  apply injective_projections; [|reflexivity]. destruct Hr as [-> | ->]; vm_compute; reflexivity.
Qed.

Lemma rate_is_bounded_witness :
  2 ^ 50 * (allowed [(5, true); (6, true)] * 1000 - 3 * 1000 - 3 * (6 - 5)) <= 2 * 3 * 1000.
Proof.
  apply (rate_is_bounded "k" 1 1000 3 (0, ∅) (tb_second 1) [] (5, true) [(6, true)]);
    [lia|lia|lia|reflexivity|apply (tb_run 1); by left|repeat constructor; simpl; lia].
Defined.

Definition tb_allow : outcome (any error) (bool * goerr) * World tb_state :=
  Allow background "k" 4 (10 ^ 9) 3 (tb_world 7 (tb_second 4)).

Lemma Allow_is_ideal_witness :
  exists w1 : World tb_state, forall u l u', srv_hash u "k" = None ->
    key_calls "k" 4 1000 3 u l u' -> srv_hash (w_user w1) "k" = srv_hash u' "k" ->
    (1 - inject_Z (Z.of_nat (length l) + 1) * eps 3
     <= ideal_tokens 4 1000 3 (ideal_after 4 1000 3 None l) (srv_ms (w_user w1)))%Q.
Proof.
  assert (Ho : tb_allow = (Ret (true, None), tb_allow.2))
    by (apply injective_projections; [vm_compute|]; reflexivity).
  destruct (Allow_is_ideal background "k" 4 (10 ^ 9) 3 true (tb_world 7 (tb_second 4)) tb_allow.2
    ltac:(lia) ltac:(lia) ltac:(lia) ltac:(lia) Ho) as (n & w1 & w2 & _ & _ & Hall).
  exists w1. exact Hall.
Defined.
