(* ===== verification/Retry.v ===== *)
(** * The retry invoker

    src/invoker/retry.go: the classification of errors, the exponential backoff
    in 64-bit arithmetic, the bounded history of attempts, and the loop. The loop
    runs on the number of attempts more, so it needs no fuel: [Retry] starts it
    with [max MaxAttempts 1 - 1]. *)

From S2P Require Import Prelude GoErrors Types Failure Text Runtime Observer Scope Dlq.
From S2P Require Import Settle Invoke Invokers.
Local Open Scope string_scope.
Local Open Scope list_scope.
Local Open Scope Z_scope.

(** ** src/signals.go: an attempt *)

Definition AttemptErrLimit : Z := 256.

(** [NewAttempt]. *)
Definition NewAttempt (n : Z) (err : goerr) (class : AttemptClass) (started duration delay : Z)
    : Attempt :=
  mkAttempt n
    (match err with Some e => TruncateHeader (error_text e) AttemptErrLimit | None => "" end)
    class started duration delay.

(** ** The policy and the history *)

Record RetryPolicy := mkRetryPolicy {
  rp_max_attempts : Z;
  rp_base_delay : Z;
  rp_max_delay : Z;
  rp_history_size : Z;
}.

Definition DefaultHistorySize : Z := 5.

Record attemptRing := mkRing { ring_size : Z; ring_items : list Attempt }.

(** [newAttemptRing]. *)
Definition newAttemptRing (configured : Z) : attemptRing :=
  mkRing (if configured =? 0 then DefaultHistorySize
          else if configured <? 0 then 0 else configured) [].

(** [attemptRing.enabled] and [attemptRing.add]. *)
Definition enabled (g : attemptRing) : bool := 0 <? ring_size g.
Definition add (g : attemptRing) (a : Attempt) : attemptRing :=
  if ring_size g <=? 0 then g
  else if Z.of_nat (length (ring_items g)) =? ring_size g
  then mkRing (ring_size g) (tail (ring_items g) ++ [a])
  else mkRing (ring_size g) (ring_items g ++ [a]).

(** ** Classification and backoff *)

(** [classify]: whether to retry, and whether the error is terminal. *)
Definition classify (err : goerr) : bool * bool :=
  match err with
  | None => (false, false)
  | Some _ =>
      if Is err ErrDuplicate then (false, false)
      else if Is err ErrRateLimited then (false, false)
      else if Is err ErrCircuitOpen then (false, false)
      else if Is err ErrInProgress then (false, false)
      else if Is err ErrDeadLettered || Is err ErrDeadLetterFailed then (false, false)
      else if Is err Canceled || Is err DeadlineExceeded then (false, false)
      else match As as_terminal err with
           | Some true => (false, true)
           | _ => match As as_retryable err with
                  | Some r => (r, false)
                  | None => (true, false)
                  end
           end
  end.

(** [backoff] in the arithmetic of [time.Duration], an [int64]. *)
Definition backoff (attempt base max : Z) : Z :=
  let d := wrap64 (wrap64 (Z.shiftl 1 attempt) * base) in
  if max <? d then max else d.

Section retry.
Context {U : Type} `{Env U}.

(** [wait]. *)
Definition wait (c : Ctx) (d : Z) : M U goerr :=
  if d <=? 0 then Err c
  else fired ← select_timer c d; if fired : bool then mret None else Err c.

(** [eventName]. *)
Definition eventName (evt : option Event) : M U string :=
  match evt with None => mret "" | Some e => Name e end.

(** The loop of [Retry.Invoke] with [more] attempts after this one. *)
Fixpoint retry_loop (p : RetryPolicy) (c : Ctx) (evt : option Event) (handler : string)
    (next : handler_fn U) (more : nat) (attempt : Z) (hist : attemptRing) : M U goerr :=
  started ← now;
  err ← next c;
  match err with
  | None => mret None
  | Some _ =>
      t ← now;
      let took := t - started in
      let '(retry, terminal) := classify err in
      let class := AttemptClassOf t (Some c) err in
      let noted delay :=
        if enabled hist then add hist (NewAttempt attempt err class started took delay)
        else hist in
      if terminal : bool then
        mret (Some (FailureError err ReasonTerminal attempt (ring_items (noted 0))))
      else if negb retry then
        if (1 <? attempt) && Is err ErrCircuitOpen
        then mret (Some (FailureError err ReasonCircuitOpen (attempt - 1) (ring_items hist)))
        else mret err
      else
        match more with
        | O => mret (Some (FailureError err ReasonRetriesExhausted attempt (ring_items (noted 0))))
        | S more =>
            let delay := backoff (attempt - 1) (rp_base_delay p) (rp_max_delay p) in
            name ← eventName evt;
            _ ← raise c (SRetryAttempt (mkRetryAttempt handler name attempt class err delay
                           (started + took)));
            werr ← wait c delay;
            match werr with
            | Some _ => mret werr
            | None => retry_loop p c evt handler next more (attempt + 1) (noted delay)
            end
        end
  end.

(** [Retry.Invoke]. *)
Definition Retry (p : RetryPolicy) : Invoker U := fun c evt handler next =>
  retry_loop p c evt handler next (Z.to_nat (Z.max (rp_max_attempts p) 1 - 1)) 1
    (newAttemptRing (rp_history_size p)).

#[export] Instance Retry_ext p : ext_invoker (Retry p).
Proof.
  intros c evt h f g Hfg w. unfold Retry.
  generalize (Z.to_nat (Z.max (rp_max_attempts p) 1 - 1)). intros k.
  generalize (newAttemptRing (rp_history_size p)), 1. revert w.
  induction k as [|more IH]; intros w hist n;
    cbn [retry_loop];
    (apply bind_ext; [done|intros t w1]); (apply bind_ext; [apply Hfg|intros [e|] w2; [|done]]);
    (apply bind_ext; [done|intros t2 w3]); destruct (classify (Some e)) as [[|] [|]]; try done.
  simpl. apply bind_ext; [done|intros name w4]. apply bind_ext; [done|intros _ w5].
  apply bind_ext; [done|intros [we|] w6]; [done|apply IH].
Qed.
End retry.

(** ** The ring keeps the last attempts *)

Lemma tail_drop {A} n (l : list A) : tail (drop n l) = drop (S n) l.
Proof. revert l. induction n as [|n IH]; intros [|x l]; simpl; [done..|]. apply IH. Qed.

Lemma add_last_n g l a :
  0 <= ring_size g ->
  ring_items g = last_n (Z.to_nat (ring_size g)) l ->
  let g' := if enabled g then add g a else g in
  ring_items g' = last_n (Z.to_nat (ring_size g)) (l ++ [a]) /\ ring_size g' = ring_size g.
Proof.
  intros Hs Hl. unfold enabled, add. cbv zeta.
  destruct (Z.ltb_spec 0 (ring_size g)) as [Hpos|].
  2:{ replace (Z.to_nat (ring_size g)) with 0%nat in * by lia. split; [|done]. rewrite Hl.
      unfold last_n. rewrite !drop_ge; [done|lia..]. }
  destruct (Z.leb_spec (ring_size g) 0); [lia|].
  pose proof (last_n_length l (Z.to_nat (ring_size g))) as Hlen. rewrite <- Hl in Hlen.
  destruct (Z.to_nat (ring_size g)) as [|n] eqn:En; [lia|].
  rewrite last_n_snoc.
  assert (Hcase : (length l <= n)%nat \/ (n < length l)%nat) by lia.
  rewrite Hl. unfold last_n. rewrite length_drop.
  destruct (Z.eqb_spec (Z.of_nat (length l - (length l - S n))) (ring_size g)) as [He|He]; simpl;
    (split; [|done]); f_equal.
  - rewrite tail_drop. f_equal. lia.
  - replace (length l - S n)%nat with (length l - n)%nat by lia. done.
Qed.
