(* ===== verification/RetrySpec.v ===== *)
(** * Properties of the retry invoker

    What [Retry] returns as a function of the results of the runs it made, which
    the handler enters in a ledger, and how long it waits in between. *)

From S2P Require Import Prelude GoErrors Types Failure Text Runtime Observer Scope Dlq Fixtures.
From S2P Require Import Settle Invoke Invokers Retry.
Local Open Scope string_scope.
Local Open Scope list_scope.
Local Open Scope Z_scope.

(** The size of the history of a policy, and the largest number of runs. *)
Definition history_size (p : RetryPolicy) : nat :=
  Z.to_nat (ring_size (newAttemptRing (rp_history_size p))).
Definition max_runs (p : RetryPolicy) : nat := Z.to_nat (Z.max (rp_max_attempts p) 1).

(** An error that makes the invoker try again. *)
Definition retryable (err : goerr) : Prop := classify err = (true, false).

(** The numbers and the texts of the attempts that ended with [errs]. *)
Definition attempt_text (err : goerr) : string :=
  match err with Some e => TruncateHeader (error_text e) AttemptErrLimit | None => "" end.
Definition attempts_of (errs : list goerr) : list (Z * string) :=
  zip (map Z.of_nat (seq 1 (length errs))) (map attempt_text errs).
Definition att_mark (a : Attempt) : Z * string := (att_n a, att_err a).

(** A history holds the last attempts of those that ended with [errs], in order. *)
Definition history_of_runs (p : RetryPolicy) (errs : list goerr) (h : list Attempt) : Prop :=
  map att_mark h = last_n (history_size p) (attempts_of errs).

(** What the invoker returns at time [t] when the runs before the last ended with
    [front] and the last one with [err]. *)
Inductive retry_outcome (p : RetryPolicy) (c : Ctx) (front : list goerr) (t : Z) : goerr -> goerr -> Prop :=
| outcome_ok : retry_outcome p c front t None None
| outcome_unchanged e :
    classify (Some e) = (false, false) -> front = [] \/ errors_is e ErrCircuitOpen = false ->
    retry_outcome p c front t (Some e) (Some e)
| outcome_cancelled e ce :
    retryable (Some e) -> (S (length front) < max_runs p)%nat -> ctx_err t c = Some ce ->
    retry_outcome p c front t (Some e) (Some ce)
| outcome_terminal e h :
    classify (Some e) = (false, true) -> history_of_runs p (front ++ [Some e]) h ->
    retry_outcome p c front t (Some e)
      (Some (FailureError (Some e) ReasonTerminal (Z.of_nat (S (length front))) h))
| outcome_circuit e h :
    classify (Some e) = (false, false) -> front <> [] -> errors_is e ErrCircuitOpen = true ->
    history_of_runs p front h ->
    retry_outcome p c front t (Some e)
      (Some (FailureError (Some e) ReasonCircuitOpen (Z.of_nat (length front)) h))
| outcome_exhausted e h :
    retryable (Some e) -> S (length front) = max_runs p -> history_of_runs p (front ++ [Some e]) h ->
    retry_outcome p c front t (Some e)
      (Some (FailureError (Some e) ReasonRetriesExhausted (Z.of_nat (max_runs p)) h)).

Lemma classify_not_both e : classify e <> (true, true).
Proof. unfold classify. by repeat case_match. Qed.

Lemma map_last_n {A B} (f : A -> B) n l : map f (last_n n l) = last_n n (map f l).
Proof. unfold last_n. rewrite length_map. symmetry. apply skipn_map. Qed.

Lemma attempts_snoc errs e :
  attempts_of (errs ++ [e]) = attempts_of errs ++ [(Z.of_nat (S (length errs)), attempt_text e)].
Proof.
  unfold attempts_of. rewrite length_app, map_app. simpl. rewrite Nat.add_1_r, seq_S, map_app.
  rewrite zip_with_app by (by rewrite !length_map, length_seq). done.
Qed.

Section loop.
Context {U : Type} `{Env U}.
(** A ledger in the user's state: the results of the handler's runs so far, which
    only the handler writes. *)
Context (ledger : U -> list goerr) (next : handler_fn U) (p : RetryPolicy).
Definition same_runs : relation (World U) := fun w w' => ledger (w_user w') = ledger (w_user w).
#[local] Instance same_runs_preorder : PreOrder same_runs.
Proof using Type. split; [done|]. intros w1 w2 w3 H1 H2. unfold same_runs in *. congruence. Qed.
Context (Hnext : forall c w err w', next c w = (Ret err, w') ->
  ledger (w_user w') = ledger (w_user w) ++ [err]).
Context `{!observers_keep same_runs}.

Lemma wait_run c d (w w' : World U) r :
  wait c d w = (Ret r, w') -> same_runs w w' /\ (forall e, r = Some e -> ctx_err (w_now w') c = Some e).
Proof using Type.
  unfold wait. destruct (d <=? 0).
  - intros Hr. injection Hr as <- <-. done.
  - intros Hr. destruct (select_timer_spec c d w) as (b & t & Hs & _).
    rewrite (bind_run _ _ _ _ _ Hs) in Hr. destruct b; injection Hr as <- <-; done.
Qed.

(** The ring after one more attempt. *)
Lemma ring_grows (hist : attemptRing) front e class started took delay :
  ring_size hist = Z.of_nat (history_size p) ->
  map att_mark (ring_items hist) = last_n (history_size p) (attempts_of front) ->
  let a := NewAttempt (Z.of_nat (S (length front))) (Some e) class started took delay in
  let g := if enabled hist then add hist a else hist in
  ring_size g = Z.of_nat (history_size p) /\ history_of_runs p (front ++ [Some e]) (ring_items g).
Proof using Type.
  intros Hsize Hitems a g.
  assert (Hg : ring_items g = last_n (history_size p) (ring_items hist ++ [a]) /\ ring_size g = ring_size hist).
  { destruct (add_last_n hist (ring_items hist) a) as [H1 H2]; [lia| |].
    - pose proof (f_equal length Hitems) as Hlen. rewrite length_map in Hlen.
      pose proof (last_n_length (attempts_of front) (history_size p)).
      rewrite Hsize, Nat2Z.id, last_n_all by lia. done.
    - by rewrite Hsize, Nat2Z.id in H1. }
  destruct Hg as [Hg ->]. split; [done|]. unfold history_of_runs.
  rewrite Hg, map_last_n, map_app, Hitems, attempts_snoc.
  destruct (history_size p) as [|n]; [unfold last_n; by rewrite !drop_ge by lia|].
  change (map att_mark [a]) with [(Z.of_nat (S (length front)), attempt_text (Some e))].
  rewrite !last_n_snoc. f_equal. unfold last_n. rewrite length_drop, drop_drop. f_equal. lia.
Qed.

Definition loop_outcome c front t0 (w w' : World U) res : Prop :=
  exists more err, ledger (w_user w') = ledger (w_user w) ++ more ++ [err]
    /\ Forall retryable more /\ (length (front ++ more) < max_runs p)%nat
    /\ retry_outcome p c (front ++ more) t0 err res.

Lemma retry_loop_outcome c evt handler more front hist (w w' : World U) res :
  (length front + S more = max_runs p)%nat -> ring_size hist = Z.of_nat (history_size p) ->
  map att_mark (ring_items hist) = last_n (history_size p) (attempts_of front) ->
  retry_loop p c evt handler next more (Z.of_nat (S (length front))) hist w = (Ret res, w') ->
  loop_outcome c front (w_now w') w w' res.
Proof using All.
  revert front hist w. induction more as [|more IH]; intros front hist w Hk Hsize Hitems Hrun;
    cbn [retry_loop] in Hrun;
    apply bind_ret_inv in Hrun as (started & w0 & Ht & Hrun); apply now_inv in Ht as [-> ->];
    apply bind_ret_inv in Hrun as (err & w1 & Hn & Hrun); apply Hnext in Hn.
  all: assert (Hlast : ledger (w_user w') = ledger (w_user w1) -> retry_outcome p c front (w_now w') err res ->
    loop_outcome c front (w_now w') w w' res)
    by (intros Hl Ho; exists [], err; rewrite Hl, app_nil_r; split; [done|]; split; [constructor|]; split; [lia|done]).
  all: destruct err as [e|]; [|apply mret_inv in Hrun as [-> ->]; apply Hlast; [done|constructor]].
  all: apply bind_ret_inv in Hrun as (t & w2 & Ht & Hrun); apply now_inv in Ht as [-> ->].
  all: pose proof (classify_not_both (Some e)) as Hnb.
  all: destruct (classify (Some e)) as [retry terminal] eqn:Ec; cbv zeta in Hrun.
  all: set (class := AttemptClassOf (w_now w1) (Some c) (Some e)) in Hrun.
  all: pose proof (fun delay => ring_grows hist front e class (w_now w) (w_now w1 - w_now w) delay Hsize Hitems)
    as Hring; cbv zeta in Hring.
  all: destruct terminal; [destruct retry; [done|]; apply mret_inv in Hrun as [-> ->]; apply Hlast; [done|];
    apply outcome_terminal; [done|apply Hring]|].
  all: destruct retry; cbn [negb] in Hrun.
  2, 4: destruct ((1 <? Z.of_nat (S (length front))) && Is (Some e) ErrCircuitOpen) eqn:Eo;
    apply mret_inv in Hrun as [-> ->]; (apply Hlast; [done|]); b2p;
    [replace (Z.of_nat (S (length front)) - 1) with (Z.of_nat (length front)) by lia; apply outcome_circuit;
      [done|intros ->; simpl in *; lia|done|exact Hitems]
    |apply outcome_unchanged; [done|]; destruct Eo as [Eo|Eo];
      [left; b2p; destruct front; [done|simpl in *; lia]|by right]].
  - apply mret_inv in Hrun as [-> ->]. apply Hlast; [done|].
    replace (Z.of_nat (S (length front))) with (Z.of_nat (max_runs p)) at 1 by lia.
    apply outcome_exhausted; [done|lia|apply Hring].
  - apply bind_ret_inv in Hrun as (name & w2 & Hname & Hrun).
    assert (Hw2 : same_runs w1 w2).
    { unfold eventName in Hname. destruct evt as [ev|]; [|by apply mret_inv in Hname as [_ ->]].
      unfold Name in Hname. destruct (ev_name_panics ev); [done|].
      by apply mret_inv in Hname as [_ ->]. }
    apply bind_ret_inv in Hrun as ([] & w3 & Hraise & Hrun).
    apply (respects_run same_runs) in Hraise; [|by apply raise_keeps; [apply _|apply _|by intros ?]].
    apply bind_ret_inv in Hrun as (werr & w4 & Hw & Hrun). apply wait_run in Hw as [Hw4 Hctx].
    unfold same_runs in *. destruct werr as [we|].
    + apply mret_inv in Hrun as [-> ->]. apply Hlast; [congruence|].
      apply outcome_cancelled; [done|lia|by apply Hctx].
    + set (delay := backoff (Z.of_nat (S (length front)) - 1) (rp_base_delay p) (rp_max_delay p)) in *.
      destruct (Hring delay) as [Hs Hh].
      replace (Z.of_nat (S (length front)) + 1) with (Z.of_nat (S (length (front ++ [Some e])))) in Hrun
        by (rewrite length_app; simpl; lia).
      destruct (IH (front ++ [Some e]) _ w4 ltac:(rewrite length_app; simpl; lia) Hs Hh Hrun)
        as (l & err & Hl & Hall & Hlen & Ho).
      exists (Some e :: l), err. rewrite <- app_assoc in Hlen, Ho.
      split; [rewrite Hl; replace (ledger (w_user w4)) with (ledger (w_user w1)) by congruence;
              by rewrite Hn, <- app_assoc|].
      split; [by constructor|]. by split.
Qed.
End loop.

Lemma ring_size_policy p :
  ring_size (newAttemptRing (rp_history_size p)) = Z.of_nat (history_size p).
Proof.
  unfold history_size, newAttemptRing. simpl.
  destruct (Z.eqb_spec (rp_history_size p) 0); [done|].
  destruct (Z.ltb_spec (rp_history_size p) 0); [done|]. rewrite Z2Nat.id; lia.
Qed.

(** C30: retrying. The handler ran at least once and at most [max MaxAttempts 1]
    times; every run but the last ended with an error that is worth a retry, and what
    the invoker returns is a function of the last run: nil when that run returned
    nil; its error unchanged when it is not an attempt; the context's error when it
    is worth a retry, runs are left and the wait before the next one is cut short;
    and otherwise a [FailureError] whose cause is that error, for a terminal one, for
    a breaker that opened after earlier attempts, and for the policy's last run.
    Its attempt count is the number of runs that counted, and its history has the
    numbers and the error texts of the last of those, in order, as many as the policy
    keeps. The handler enters its results in a ledger that nothing else writes. *)
Theorem Retry_contract {U : Type} `{Env U} (ledger : U -> list goerr) (p : RetryPolicy) (c : Ctx)
    (evt : option Event) (handler : string) (next : handler_fn U) (w w' : World U)
    (res : goerr) :
  (forall c w err w', next c w = (Ret err, w') -> ledger (w_user w') = ledger (w_user w) ++ [err]) ->
  observers_keep (same_runs ledger) ->
  Retry p c evt handler next w = (Ret res, w') ->
  exists front err, ledger (w_user w') = ledger (w_user w) ++ front ++ [err]
    /\ Forall retryable front /\ (S (length front) <= max_runs p)%nat
    /\ retry_outcome p c front (w_now w') err res.
Proof.
  intros Hnext Hk Hrun. unfold Retry in Hrun.
  destruct (retry_loop_outcome ledger next p Hnext c evt handler
    (Z.to_nat (Z.max (rp_max_attempts p) 1 - 1)) [] (newAttemptRing (rp_history_size p)) w w' res)
    as (front & err & Hl & Hall & Hlen & Ho).
  - simpl. unfold max_runs. lia.
  - apply ring_size_policy.
  - done.
  - exact Hrun.
  - exists front, err. split; [exact Hl|]. split; [exact Hall|]. split; [simpl in Hlen; lia|exact Ho].
Qed.

(** A handler that enters its results: two failures, then success. *)
Definition third_time : handler_fn (list goerr) := fun _ =>
  u ← get_user;
  let r : goerr := if Nat.ltb (length u) 2 then Some (Sentinel (External "boom")) else None in
  _ ← put_user (u ++ [r]); mret r.

Definition third_policy (n : Z) : RetryPolicy := mkRetryPolicy n 100 1000 1.
Definition third_start : World (list goerr) := mkWorld 0 [] ∅ 0 ∅ ∅ [].
Definition third_run (n : Z) : outcome (any error) goerr * World (list goerr) :=
  @Retry (list goerr) (silent_env _) (third_policy n) background None "h" third_time third_start.

(** Three runs are enough for it, two are not. *)
Lemma Retry_contract_witness :
  (third_run 3).1 = Ret None /\
  exists h, (third_run 2).1 = Ret (Some (FailureError (Some (Sentinel (External "boom"))) ReasonRetriesExhausted 2 h))
    /\ map att_mark h = [(2, "boom")].
Proof.
  split; [vm_compute; reflexivity|].
  assert (Hr : exists h, (third_run 2).1 =
    Ret (Some (FailureError (Some (Sentinel (External "boom"))) ReasonRetriesExhausted 2 h)))
    by (eexists; vm_compute; reflexivity).
  destruct Hr as [h Hr]. exists h. split; [exact Hr|].
  assert (Hrun : @Retry (list goerr) (silent_env _) (third_policy 2) background None "h" third_time third_start
    = (Ret (Some (FailureError (Some (Sentinel (External "boom"))) ReasonRetriesExhausted 2 h)), (third_run 2).2))
    by (apply injective_projections; [exact Hr|reflexivity]).
  destruct (@Retry_contract (list goerr) (silent_env _) (fun u => u) (third_policy 2)
    background None "h" third_time third_start (third_run 2).2 _
    ltac:(intros c w err w' [= <- <-]; reflexivity)
    ltac:(apply silent_keeps; [apply same_runs_preorder|intros e w; reflexivity|
          intros ch m w; reflexivity|intros g w; reflexivity]) Hrun)
    as (front & err & Hl & _ & _ & Ho).
  assert (Hu : w_user (third_run 2).2
    = [] ++ [Some (Sentinel (External "boom"))] ++ [Some (Sentinel (External "boom"))])
    by (vm_compute; reflexivity).
  rewrite Hu in Hl. apply app_inv_head, app_inj_tail in Hl as [<- <-].
  inversion Ho as [| |e ce Hre Hlt Hce| | |e h' Hre Hlen Hh]; subst.
  - discriminate Hce.
  - rewrite Hh. vm_compute. reflexivity.
Defined.

(** The backoff is the capped exponential as long as the product fits the
    width of a duration: it never exceeds the cap, never goes down from one
    attempt to the next, and is what the mathematical expression says. *)
Theorem backoff_exponential (attempt base max : Z) :
  0 <= attempt < 63 -> 0 <= base -> 2 ^ attempt * base < 2 ^ 63 -> 0 <= max ->
  backoff attempt base max = Z.min (2 ^ attempt * base) max
  /\ 0 <= backoff attempt base max <= max
  /\ (1 <= attempt -> backoff (attempt - 1) base max <= backoff attempt base max).
Proof.
  intros Ha Hb Hfit Hmax.
  assert (Hgen : forall n, 0 <= n <= attempt -> backoff n base max = Z.min (2 ^ n * base) max).
  { intros n Hn. unfold backoff. rewrite Z.shiftl_1_l.
    pose proof (Z.pow_le_mono_r 2 n attempt ltac:(lia) ltac:(lia)) as Hmono.
    pose proof (Z.pow_lt_mono_r 2 n 63 ltac:(lia) ltac:(lia) ltac:(lia)).
    pose proof (Z.pow_pos_nonneg 2 n ltac:(lia) ltac:(lia)).
    rewrite (wrap64_id (2 ^ n)) by lia. rewrite wrap64_id by nia.
    destruct (Z.ltb_spec max (2 ^ n * base)); lia. }
  rewrite !Hgen by lia. pose proof (Z.pow_pos_nonneg 2 attempt ltac:(lia) ltac:(lia)).
  split; [done|]. split; [nia|]. intros H1. rewrite Hgen by lia.
  pose proof (Z.pow_le_mono_r 2 (attempt - 1) attempt ltac:(lia) ltac:(lia)). nia.
Qed.

Lemma backoff_exponential_witness :
  backoff 4 (100 * 10 ^ 6) (5 * 10 ^ 9) = 1600 * 10 ^ 6.
Proof.
  destruct (backoff_exponential 4 (100 * 10 ^ 6) (5 * 10 ^ 9) ltac:(lia) ltac:(lia) ltac:(lia)
    ltac:(lia)) as [H _]. exact H.
Defined.

(** The backoff overflows. With a base delay of 100 ms and a cap of 5 s, the
    delay after the 38th attempt is negative, and after the 57th and every later
    attempt it is zero: there [wait] returns at once and the next attempt runs
    without a pause, although the policy asks for 5 s. *)
Theorem backoff_overflows {U : Type} `{Env U} (w : World U) :
  backoff (38 - 1) (100 * 10 ^ 6) (5 * 10 ^ 9) < 0
  /\ (forall n, 57 <= n -> backoff (n - 1) (100 * 10 ^ 6) (5 * 10 ^ 9) = 0)
  /\ wait background (backoff (38 - 1) (100 * 10 ^ 6) (5 * 10 ^ 9)) w = (Ret None, w).
Proof.
  split; [vm_compute; reflexivity|]. split; [|reflexivity]. intros n Hn.
  assert (Hc : n = 57 \/ n = 58 \/ n = 59 \/ n = 60 \/ n = 61 \/ n = 62 \/ n = 63 \/ n = 64
    \/ 64 <= n - 1) by lia.
  destruct Hc as [->|[->|[->|[->|[->|[->|[->|[->|Hc]]]]]]]]; try reflexivity.
  unfold backoff. rewrite Z.shiftl_1_l.
  replace (wrap64 (2 ^ (n - 1))) with 0; [reflexivity|].
  unfold wrap64. replace (n - 1) with (n - 1 - 64 + 64) by lia.
  rewrite Z.pow_add_r by lia. rewrite Z.add_comm, Z_mod_plus_full. reflexivity.
Qed.
