(* ===== verification/CircuitBreaker.v ===== *)
(** * The circuit breaker

    src/invoker/circuit-breaker.go. The critical sections [admit], [record] and
    [State] are functions of one handler's breaker; [CircuitBreaker] is the
    invoker, whose breakers live at a lens of the user state, keyed by the
    breaker's identity and the handler's name. The counters [gen] and [seq] are
    [uint64] that grow by at most one per call, and are unbounded here. *)

From S2P Require Import Prelude GoErrors Types Failure Runtime Observer Scope Dlq.
From S2P Require Import Settle Invoke Invokers.
Local Open Scope string_scope.
Local Open Scope list_scope.
Local Open Scope Z_scope.

Inductive circuitState := stateClosed | stateOpen | stateHalfOpen.

#[export] Instance circuitState_eq_dec : EqDecision circuitState.
Proof. solve_decision. Defined.

(** [breakerState]: the state under its public name. *)
Definition breakerState (s : circuitState) : BreakerState :=
  match s with
  | stateClosed => BreakerClosed
  | stateOpen => BreakerOpen
  | stateHalfOpen => BreakerHalfOpen
  end.

Record token := mkToken { tok_gen : Z; tok_probe : bool }.

Inductive call_outcome := outcomeSuccess | outcomeFailure | outcomeNeutral.

Record transition := mkTransition {
  tr_from : circuitState;
  tr_to : circuitState;
  tr_reason : BreakerReason;
  tr_failures : Z;
  tr_at : Z;
  tr_seq : Z;
}.

Record handlerBreaker := mkBreaker {
  hb_state : circuitState;
  hb_failures : Z;
  hb_successes : Z;
  hb_opened_at : Z;
  hb_gen : Z;
  hb_seq : Z;
  hb_probing : bool;
  hb_probe_at : Z;
}.

(** [&handlerBreaker{state: stateClosed}]. *)
Definition new_breaker : handlerBreaker := mkBreaker stateClosed 0 0 zero_time 0 0 false zero_time.

(** [move]: the new state and the description of the change. *)
Definition move (b : handlerBreaker) (to : circuitState) (reason : BreakerReason) (now : Z)
    : handlerBreaker * transition :=
  (mkBreaker to (hb_failures b) (hb_successes b) (hb_opened_at b) (hb_gen b + 1) (hb_seq b + 1)
     (hb_probing b) (hb_probe_at b),
   mkTransition (hb_state b) to reason (hb_failures b) now (hb_seq b + 1)).

(** Assignments of single fields. *)
Definition set_probe (b : handlerBreaker) (probing : bool) (at_ : Z) : handlerBreaker :=
  mkBreaker (hb_state b) (hb_failures b) (hb_successes b) (hb_opened_at b) (hb_gen b) (hb_seq b)
    probing at_.
Definition set_counts (b : handlerBreaker) (failures successes : Z) : handlerBreaker :=
  mkBreaker (hb_state b) failures successes (hb_opened_at b) (hb_gen b) (hb_seq b)
    (hb_probing b) (hb_probe_at b).
Definition set_opened (b : handlerBreaker) (at_ : Z) : handlerBreaker :=
  mkBreaker (hb_state b) (hb_failures b) (hb_successes b) at_ (hb_gen b) (hb_seq b)
    (hb_probing b) (hb_probe_at b).
Definition bump_gen (b : handlerBreaker) : handlerBreaker :=
  mkBreaker (hb_state b) (hb_failures b) (hb_successes b) (hb_opened_at b) (hb_gen b + 1)
    (hb_seq b) (hb_probing b) (hb_probe_at b).

Record CircuitBreakerConfig := mkCBConfig {
  cb_failure_threshold : Z;
  cb_success_threshold : Z;
  cb_open_timeout : Z;
}.

(** [admit] at time [now]: the token, the transition, the state and whether the
    call may run; and the breaker after the decision. *)
Definition admit_call (cfg : CircuitBreakerConfig) (now : Z) (b : handlerBreaker)
    : (token * option transition * circuitState * bool) * handlerBreaker :=
  match hb_state b with
  | stateOpen =>
      if now - hb_opened_at b <? cb_open_timeout cfg
      then ((mkToken 0 false, None, hb_state b, false), b)
      else
        let b := set_counts b (hb_failures b) 0 in
        let '(b, tr) := move b stateHalfOpen BreakerReasonOpenTimeoutElapsed now in
        let b := set_probe b true now in
        ((mkToken (hb_gen b) true, Some tr, hb_state b, true), b)
  | stateHalfOpen =>
      if hb_probing b then
        if (0 <? cb_open_timeout cfg) && (cb_open_timeout cfg <=? now - hb_probe_at b)
        then let b := set_probe (bump_gen b) (hb_probing b) now in
             ((mkToken (hb_gen b) true, None, hb_state b, true), b)
        else ((mkToken 0 false, None, hb_state b, false), b)
      else
        let b := set_probe b true now in
        ((mkToken (hb_gen b) true, None, hb_state b, true), b)
  | stateClosed => ((mkToken (hb_gen b) false, None, hb_state b, true), b)
  end.

(** [record] at time [now]: the transition and the state, and the breaker. *)
Definition record (cfg : CircuitBreakerConfig) (tok : token) (out : call_outcome) (now : Z)
    (b : handlerBreaker) : (option transition * circuitState) * handlerBreaker :=
  let moved '(b, tr) := ((Some tr, hb_state b), b) in
  let stay b := ((None, hb_state b), b) in
  if negb (tok_gen tok =? hb_gen b) then stay b
  else
    match hb_state b with
    | stateClosed =>
        match out with
        | outcomeFailure =>
            let b := set_counts b (hb_failures b + 1) (hb_successes b) in
            if cb_failure_threshold cfg <=? hb_failures b
            then moved (move (set_opened b now) stateOpen BreakerReasonFailureThreshold now)
            else stay b
        | outcomeSuccess => stay (set_counts b 0 (hb_successes b))
        | outcomeNeutral => stay b
        end
    | stateHalfOpen =>
        if negb (tok_probe tok) then stay b
        else
          let b := set_probe b false (hb_probe_at b) in
          match out with
          | outcomeFailure => moved (move (set_opened b now) stateOpen BreakerReasonProbeFailed now)
          | outcomeSuccess =>
              let b := set_counts b (hb_failures b) (hb_successes b + 1) in
              if cb_success_threshold cfg <=? hb_successes b
              then moved (move (set_counts b 0 0) stateClosed BreakerReasonProbeSucceeded now)
              else stay b
          | outcomeNeutral => stay b
          end
    | stateOpen => stay b
    end.

(** [classify] at time [now]. *)
Definition cb_classify (now : Z) (c : Ctx) (err : goerr) : call_outcome :=
  match err with
  | None => outcomeSuccess
  | Some _ =>
      if Is err ErrHandlerPanic then outcomeNeutral
      else
        let ctxErr := Is err Canceled || Is err DeadlineExceeded in
        if Is err ErrHandlerTimeout || (ctxErr && Is (ctx_cause now c) ErrHandlerTimeout)
        then outcomeFailure
        else if ctxErr then outcomeNeutral
        else match Dispose err zero_delivery with
             | DispositionAck | DispositionTerminal => outcomeNeutral
             | DispositionRetryDelayed =>
                 if Is err ErrCircuitOpen || Is err ErrRateLimited || Is err ErrInProgress
                    || Is err ErrDeadLetterFailed || Is err ErrUnknownVersion
                 then outcomeNeutral else outcomeFailure
             | _ => outcomeFailure
             end
  end.

(** ** The invoker *)

(** The breakers of a program: the next identity of [breakerIDs] and every
    breaker by identity and handler name. *)
Record breaker_store := mkBreakers {
  bs_ids : Z;
  bs_breakers : gmap (Z * string) handlerBreaker;
}.

Section invoker.
Context {U : Type} `{Env U} `{Lens breaker_store U}.

(** The identity, the thresholds and [OnStateChange]. *)
Record CircuitBreaker := mkCircuitBreaker {
  cb_id : Z;
  cb_cfg : CircuitBreakerConfig;
  cb_on_change : option (Ctx -> BreakerTransition -> M U unit);
}.

(** [NewCircuitBreaker]. *)
Definition NewCircuitBreaker (cfg : CircuitBreakerConfig)
    (on_change : option (Ctx -> BreakerTransition -> M U unit)) : M U CircuitBreaker :=
  id ← atomically (fun s => (bs_ids s + 1, mkBreakers (bs_ids s + 1) (bs_breakers s)));
  mret (mkCircuitBreaker id cfg on_change).

(** [breaker]: the breaker of a handler, created closed. *)
Definition breaker (cb : CircuitBreaker) (handler : string) (s : breaker_store) : handlerBreaker :=
  default new_breaker (bs_breakers s !! (cb_id cb, handler)).

(** A critical section of the breaker of [handler]. *)
Definition with_breaker {A} (cb : CircuitBreaker) (handler : string)
    (f : handlerBreaker -> A * handlerBreaker) : M U A :=
  atomically (fun s =>
    let '(a, b) := f (breaker cb handler s) in
    (a, mkBreakers (bs_ids s) (<[(cb_id cb, handler) := b]> (bs_breakers s)))).

(** [State]. *)
Definition State (cb : CircuitBreaker) (handler : string) : M U BreakerState :=
  atomically (fun s =>
    (match bs_breakers s !! (cb_id cb, handler) with
     | Some b => breakerState (hb_state b)
     | None => BreakerClosed
     end, s)).

(** [guarded]. *)
Definition guarded (c : Ctx) (handler : string) (fn : M U unit) : M U unit :=
  recovering fn (fun r =>
    recovering
      (raise c (SInternalError (mkInternalErrorInfo ComponentCircuitBreaker OpPanic handler ""
        (Some (Wrapped ("circuit breaker callback panicked: " +:+ any_text r) [])))))
      (fun _ => mret tt)).

(** The description of a change for the observers. *)
Definition transition_info (id : Z) (handler : string) (tr : transition) : BreakerTransition :=
  mkBreakerTransition handler (breakerState (tr_from tr)) (breakerState (tr_to tr))
    (tr_reason tr) (tr_failures tr) (tr_at tr) (tr_seq tr) id.

(** [emitTransition]. *)
Definition emitTransition (cb : CircuitBreaker) (c : Ctx) (handler : string)
    (tr : option transition) : M U unit :=
  match tr with
  | None => mret tt
  | Some tr =>
      let t := transition_info (cb_id cb) handler tr in
      _ ← guarded c handler (raise c (SBreakerTransition t));
      match cb_on_change cb with
      | Some f => guarded c handler (f c t)
      | None => mret tt
      end
  end.

(** [report]. *)
Definition report (cb : CircuitBreaker) (c : Ctx) (handler : string) (tr : option transition)
    (state : circuitState) : M U unit :=
  _ ← (match FailureScopeFromContext c with
       | Some s => SetBreaker (Some s) (breakerState state)
       | None => mret tt
       end);
  emitTransition cb c handler tr.

(** [record] and [report] of a finished call. *)
Definition finish (cb : CircuitBreaker) (c : Ctx) (handler : string) (tok : token)
    (out : call_outcome) : M U unit :=
  t ← now;
  r ← with_breaker cb handler (record (cb_cfg cb) tok out t);
  let '(tr, state) := r in
  report cb c handler tr state.

(** [CircuitBreaker.Invoke]. *)
Definition CircuitBreaker_Invoke (cb : CircuitBreaker) : Invoker U := fun c _ handler next =>
  t ← now;
  a ← with_breaker cb handler (admit_call (cb_cfg cb) t);
  let '(tok, tr, state, ok) := a in
  _ ← report cb c handler tr state;
  if negb ok then mret (Some (Sentinel ErrCircuitOpen))
  else
    (* the deferred release runs only when [next] did not return *)
    deferring None
      (err ← next c;
       mret (Some err))
      (fun done => match done with
                   | Some err => t ← now; finish cb c handler tok (cb_classify t c err)
                   | None => finish cb c handler tok outcomeNeutral
                   end) ≫= fun done => mret (default None done).
End invoker.
Arguments CircuitBreaker U : clear implicits.
Arguments mkCircuitBreaker {U}.

#[export] Instance CircuitBreaker_ext {U} `{Env U} `{Lens breaker_store U} cb :
  ext_invoker (U := U) (CircuitBreaker_Invoke cb).
Proof.
  intros c evt h f g Hfg w. unfold CircuitBreaker_Invoke.
  apply bind_ext; [done|intros t w1]. apply bind_ext; [done|intros [[[tok tr] st] ok] w2].
  apply bind_ext; [done|intros _ w3]. destruct ok; [|done].
  apply bind_ext; [|done]. apply deferring_ext; [|done].
  apply bind_ext; [apply Hfg|done].
Qed.

(** ** One breaker and its concurrent calls

    The breaker, the calls that hold a token, the clock and the transitions so
    far. A call may finish at any time, or never; the clock does not go back. *)
Record cb_system := mkCbSystem {
  cs_breaker : handlerBreaker;
  cs_calls : gmap nat token;
  cs_now : Z;
  cs_trace : list transition;
}.

Definition cb_start (t : Z) : cb_system := mkCbSystem new_breaker ∅ t [].

Definition trace_of (tr : option transition) : list transition :=
  match tr with Some x => [x] | None => [] end.

Inductive cb_step (cfg : CircuitBreakerConfig) : cb_system -> cb_system -> Prop :=
| cb_tick s t : cs_now s <= t ->
    cb_step cfg s (mkCbSystem (cs_breaker s) (cs_calls s) t (cs_trace s))
| cb_admit s i tok tr st b :
    cs_calls s !! i = None ->
    admit_call cfg (cs_now s) (cs_breaker s) = ((tok, tr, st, true), b) ->
    cb_step cfg s (mkCbSystem b (<[i := tok]> (cs_calls s)) (cs_now s) (cs_trace s ++ trace_of tr))
| cb_refuse s tok tr st b :
    admit_call cfg (cs_now s) (cs_breaker s) = ((tok, tr, st, false), b) ->
    cb_step cfg s (mkCbSystem b (cs_calls s) (cs_now s) (cs_trace s ++ trace_of tr))
| cb_record s i tok out tr st b :
    cs_calls s !! i = Some tok ->
    record cfg tok out (cs_now s) (cs_breaker s) = ((tr, st), b) ->
    cb_step cfg s (mkCbSystem b (delete i (cs_calls s)) (cs_now s) (cs_trace s ++ trace_of tr)).

(** The transitions of the state machine, with their reasons. *)
Definition legal (tr : transition) : Prop :=
  match tr_from tr, tr_to tr, tr_reason tr with
  | stateClosed, stateOpen, BreakerReasonFailureThreshold
  | stateOpen, stateHalfOpen, BreakerReasonOpenTimeoutElapsed
  | stateHalfOpen, stateClosed, BreakerReasonProbeSucceeded
  | stateHalfOpen, stateOpen, BreakerReasonProbeFailed => True
  | _, _, _ => False
  end.

(** A trace of legal transitions, each from where the one before went, numbered
    from 1: it starts closed and ends in [st] with number [n]. *)
Inductive good_trace : list transition -> circuitState -> Z -> Prop :=
| good_nil : good_trace [] stateClosed 0
| good_snoc l st n tr :
    good_trace l st n -> legal tr -> tr_from tr = st -> tr_seq tr = n + 1 ->
    good_trace (l ++ [tr]) (tr_to tr) (n + 1).

(** The calls whose completion the breaker will count. *)
Definition current (s : cb_system) (i : nat) (tok : token) : Prop :=
  cs_calls s !! i = Some tok /\ tok_gen tok = hb_gen (cs_breaker s).

Record cb_inv (s : cb_system) : Prop := {
  ci_gen : forall i tok, cs_calls s !! i = Some tok -> tok_gen tok <= hb_gen (cs_breaker s);
  ci_kind : forall i tok, current s i tok ->
    if tok_probe tok then hb_state (cs_breaker s) = stateHalfOpen /\ hb_probing (cs_breaker s) = true
    else hb_state (cs_breaker s) = stateClosed;
  ci_unique : forall i j tok tok', current s i tok -> current s j tok' ->
    tok_probe tok = true -> tok_probe tok' = true -> i = j;
  ci_slot : hb_probing (cs_breaker s) = true ->
    hb_state (cs_breaker s) = stateHalfOpen /\ exists i tok, current s i tok /\ tok_probe tok = true;
  ci_trace : good_trace (cs_trace s) (hb_state (cs_breaker s)) (hb_seq (cs_breaker s));
}.

Lemma cb_inv_start t : cb_inv (cb_start t).
Proof.
  assert (Hno : forall i tok, cs_calls (cb_start t) !! i = Some tok -> False).
  { intros i tok. simpl. by rewrite lookup_empty. }
  split.
  - intros i tok Hi. by destruct (Hno i tok).
  - intros i tok [Hi _]. by destruct (Hno i tok).
  - intros i j tok tok' [Hi _]. by destruct (Hno i tok).
  - done.
  - apply good_nil.
Qed.

(** A breaker that moves to a new generation has no current call. *)
Lemma cb_inv_moved s calls b b0 tr :
  cb_inv s -> (forall i tok, calls !! i = Some tok -> tok_gen tok <= hb_gen (cs_breaker s)) ->
  hb_state b0 = hb_state (cs_breaker s) -> hb_seq b0 = hb_seq (cs_breaker s) ->
  hb_gen b0 = hb_gen (cs_breaker s) -> hb_probing b0 = false ->
  (b, tr) = move b0 (tr_to tr) (tr_reason tr) (tr_at tr) -> legal tr ->
  cb_inv (mkCbSystem b calls (cs_now s) (cs_trace s ++ [tr])).
Proof.
  intros Hi Hgen Hst Hseq Hg Hpr Hm Hl. unfold move in Hm.
  injection Hm as -> Htr. rewrite Hst, Hseq, Hg, Hpr in *. split; simpl.
  - intros i tok Hlk. specialize (Hgen i tok Hlk). lia.
  - intros i tok [Hlk He]. simpl in *. specialize (Hgen i tok Hlk). lia.
  - intros i j tok tok' [Hlk He]. simpl in *. specialize (Hgen i tok Hlk). lia.
  - done.
  - apply good_snoc with (st := hb_state (cs_breaker s)); [apply Hi|done| |];
      rewrite Htr; done.
Qed.

(** A breaker that stays, while calls end. *)
Lemma cb_inv_stay s calls b :
  cb_inv s -> (forall i tok, calls !! i = Some tok -> cs_calls s !! i = Some tok) ->
  hb_state b = hb_state (cs_breaker s) -> hb_seq b = hb_seq (cs_breaker s) ->
  hb_gen b = hb_gen (cs_breaker s) ->
  (if hb_probing b then hb_probing (cs_breaker s) = true /\
      (forall i tok, current s i tok -> tok_probe tok = true -> calls !! i = Some tok)
   else forall i tok, calls !! i = Some tok -> tok_gen tok = hb_gen b -> tok_probe tok = false) ->
  cb_inv (mkCbSystem b calls (cs_now s) (cs_trace s)).
Proof.
  intros [Hg Hk Hu Hs Ht] Hsub Hst Hseq Hgen Hp.
  assert (Hcur : forall i tok, current (mkCbSystem b calls (cs_now s) (cs_trace s)) i tok ->
    current s i tok).
  { intros i tok [Hl He]. simpl in *. split; [by apply Hsub|by rewrite <- Hgen]. }
  split; simpl.
  - intros i tok Hl. rewrite Hgen. apply (Hg i). by apply Hsub.
  - intros i tok Hc. pose proof (Hk i tok (Hcur i tok Hc)) as Hx. destruct Hc as [Hl He].
    simpl in *. rewrite Hst. destruct (tok_probe tok) eqn:Ep; [|done].
    split; [by destruct Hx|]. destruct (hb_probing b); [done|]. by rewrite (Hp i tok) in Ep.
  - intros i j tok tok' H1 H2. apply (Hu i j); by apply Hcur.
  - intros Hpr. rewrite Hpr in Hp. destruct Hp as [Hp Hkeep]. destruct (Hs Hp) as [Hh (i & tok & Hc & Hpt)].
    split; [by rewrite Hst|]. exists i, tok. split; [|done]. split; simpl; [by apply Hkeep|].
    rewrite Hgen. apply Hc.
  - by rewrite Hst, Hseq.
Qed.

(** A new probe, of the current generation or of a new one. *)
Lemma cb_inv_probe s i b g n tr :
  cb_inv s -> g = hb_gen b -> cs_calls s !! i = None -> 0 <= n ->
  hb_state b = stateHalfOpen -> hb_probing b = true ->
  hb_gen b = hb_gen (cs_breaker s) + n ->
  (n = 0 -> hb_probing (cs_breaker s) = false /\ hb_state (cs_breaker s) = stateHalfOpen) ->
  good_trace (cs_trace s ++ tr) stateHalfOpen (hb_seq b) ->
  cb_inv (mkCbSystem b (<[i := mkToken g true]> (cs_calls s)) (cs_now s) (cs_trace s ++ tr)).
Proof.
  intros [Hg Hk Hu Hs Ht] -> Hi Hn Hst Hpr Hgen Hz Htr.
  assert (Hold : forall j tok, cs_calls s !! j = Some tok -> tok_gen tok = hb_gen b ->
    tok_probe tok = true -> False).
  { intros j tok Hl He Hp. pose proof (Hg j tok Hl).
    assert (n = 0) as -> by lia. destruct (Hz eq_refl) as [Hz1 _].
    assert (Hc : current s j tok) by (split; [done|lia]).
    pose proof (Hk j tok Hc) as Hx. rewrite Hp in Hx. destruct Hx. congruence. }
  split; simpl.
  - intros j tok Hl. apply lookup_insert_Some in Hl as [[<- <-]|[_ Hl]]; [done|].
    pose proof (Hg j tok Hl). lia.
  - intros j tok [Hl He]. simpl in *.
    apply lookup_insert_Some in Hl as [[<- <-]|[_ Hl]]; [done|].
    destruct (tok_probe tok) eqn:Ep; [done|]. pose proof (Hg j tok Hl).
    assert (n = 0) as -> by lia. destruct (Hz eq_refl) as [_ Hz2].
    assert (Hc : current s j tok) by (split; [done|lia]).
    pose proof (Hk j tok Hc) as Hx. rewrite Ep in Hx. congruence.
  - intros j k tok tok' [Hl He] [Hl' He'] Hp Hp'. simpl in *.
    apply lookup_insert_Some in Hl as [[<- <-]|[_ Hl]];
      apply lookup_insert_Some in Hl' as [[<- <-]|[_ Hl']]; try done;
      exfalso; by eapply Hold.
  - intros _. split; [done|]. exists i, (mkToken (hb_gen b) true). split; [|done].
    split; simpl; [by rewrite lookup_insert_eq|done].
  - by rewrite Hst.
Qed.

Lemma cb_inv_step cfg s s' : cb_inv s -> cb_step cfg s s' -> cb_inv s'.
Proof.
  intros Hi Hstep. pose proof Hi as [Hg Hk Hu Hs Ht].
  destruct Hstep as [s t Hle|s i tok tr st b Hfree Ha|s tok tr st b Ha|s i tok out tr st b Hl Hr].
  - split; done.
  - unfold admit_call in Ha. destruct (hb_state (cs_breaker s)) eqn:Est.
    + injection Ha as <- <- <- <-. rewrite app_nil_r. split; simpl.
      * intros j tok Hl. apply lookup_insert_Some in Hl as [[<- <-]|[_ Hl]]; [done|by apply (Hg j)].
      * intros j tok [Hl He]. simpl in *.
        apply lookup_insert_Some in Hl as [[<- <-]|[_ Hl]]; [by rewrite Est|].
        rewrite Est. by apply (Hk j tok).
      * intros j k tok tok' [Hl He] [Hl' He'] Hp Hp'. simpl in *.
        apply lookup_insert_Some in Hl as [[<- <-]|[_ Hl]]; [done|].
        apply lookup_insert_Some in Hl' as [[<- <-]|[_ Hl']]; [done|].
        by apply (Hu j k tok tok').
      * intros Hpr. destruct (Hs Hpr) as [Hh _]. congruence.
      * by rewrite Est.
    + destruct (_ <? _); [done|]. injection Ha as <- <- <- <-.
      apply (cb_inv_probe s i _ _ 1); try done; simpl; [lia..|].
      apply (good_snoc _ _ _ (mkTransition (hb_state (cs_breaker s)) stateHalfOpen
        BreakerReasonOpenTimeoutElapsed (hb_failures (cs_breaker s)) (cs_now s)
        (hb_seq (cs_breaker s) + 1)) Ht); [by unfold legal; simpl; rewrite Est|done|done].
    + destruct (hb_probing (cs_breaker s)) eqn:Ep; [destruct (_ && _); [|done]|];
        injection Ha as <- <- <- <-.
      * apply (cb_inv_probe s i _ _ 1); try done; simpl; try lia. by rewrite app_nil_r.
      * apply (cb_inv_probe s i _ _ 0); try done; simpl; try lia. by rewrite app_nil_r.
  - assert (b = cs_breaker s /\ tr = None) as [-> ->].
    { unfold admit_call in Ha. destruct (hb_state (cs_breaker s)); [done|..];
        [destruct (_ <? _)|destruct (hb_probing _); [destruct (_ && _)|]]; try done;
        by injection Ha. }
    rewrite app_nil_r. by destruct s.
  - assert (Hsub : forall j tok, delete i (cs_calls s) !! j = Some tok -> cs_calls s !! j = Some tok).
    { intros j tok' Hd. by apply lookup_delete_Some in Hd as [_ ?]. }
    assert (Hgsub : forall j tok, delete i (cs_calls s) !! j = Some tok ->
      tok_gen tok <= hb_gen (cs_breaker s)) by eauto.
    unfold record in Hr. destruct (Z.eqb_spec (tok_gen tok) (hb_gen (cs_breaker s))) as [He|Hne];
      simpl in Hr.
    2:{ injection Hr as <- <- <-. rewrite app_nil_r. apply cb_inv_stay; try done.
        destruct (hb_probing (cs_breaker s)) eqn:Ep.
        - split; [done|]. intros j tok' [Hl' He'] Hp'. apply lookup_delete_Some. split; [|done].
          intros ->. congruence.
        - intros j tok' Hl' He'. pose proof (Hk j tok' (conj (Hsub j tok' Hl') He')) as Hx.
          destruct (tok_probe tok'); [|done]. destruct Hx. congruence. }
    pose proof (Hk i tok (conj Hl He)) as Hkind.
    assert (Hnoprobe : tok_probe tok = true -> forall j tok', delete i (cs_calls s) !! j = Some tok' ->
      tok_gen tok' = hb_gen (cs_breaker s) -> tok_probe tok' = false).
    { intros Hp j tok' Hl' He'. apply lookup_delete_Some in Hl' as [Hne Hl'].
      destruct (tok_probe tok') eqn:Ep'; [|done].
      by destruct Hne, (Hu i j tok tok'). }
    destruct (hb_state (cs_breaker s)) eqn:Est.
    + (* closed *)
      assert (Hpf : hb_probing (cs_breaker s) = false).
      { destruct (hb_probing (cs_breaker s)) eqn:Ep; [|done]. by destruct (Hs eq_refl). }
      assert (Hall : forall j tok', delete i (cs_calls s) !! j = Some tok' ->
        tok_gen tok' = hb_gen (cs_breaker s) -> tok_probe tok' = false).
      { intros j tok' Hl' He'. pose proof (Hk j tok' (conj (Hsub j tok' Hl') He')) as Hx.
        destruct (tok_probe tok'); [|done]. by destruct Hx. }
      destruct out.
      * injection Hr as <- <- <-. rewrite app_nil_r. apply cb_inv_stay; try done. simpl.
        by rewrite Hpf.
      * destruct (_ <=? _).
        -- injection Hr as <- <- <-. cbn [trace_of].
           eapply (cb_inv_moved s _ _ (set_opened (set_counts (cs_breaker s)
             (hb_failures (cs_breaker s) + 1) (hb_successes (cs_breaker s))) (cs_now s)));
             try done; unfold legal, move; simpl; by rewrite ?Est.
        -- injection Hr as <- <- <-. rewrite app_nil_r. apply cb_inv_stay; try done. simpl.
           by rewrite Hpf.
      * injection Hr as <- <- <-. rewrite app_nil_r. apply cb_inv_stay; try done.
        by rewrite Hpf.
    + (* open: no current call *)
      destruct (tok_probe tok); [by destruct Hkind|done].
    + (* half-open *)
      destruct (tok_probe tok) eqn:Ep; [|done]. simpl in Hr.
      destruct out.
      * destruct (_ <=? _).
        -- injection Hr as <- <- <-. cbn [trace_of].
           eapply (cb_inv_moved s _ _ (set_counts (set_counts (set_probe (cs_breaker s) false
             (hb_probe_at (cs_breaker s))) (hb_failures (cs_breaker s))
             (hb_successes (cs_breaker s) + 1)) 0 0)); try done; unfold legal, move; simpl; by rewrite ?Est.
        -- injection Hr as <- <- <-. rewrite app_nil_r. apply cb_inv_stay; try done. simpl.
           by apply Hnoprobe.
      * injection Hr as <- <- <-. cbn [trace_of].
        eapply (cb_inv_moved s _ _ (set_opened (set_probe (cs_breaker s) false
          (hb_probe_at (cs_breaker s))) (cs_now s))); try done; unfold legal, move; simpl; by rewrite ?Est.
      * injection Hr as <- <- <-. rewrite app_nil_r. apply cb_inv_stay; try done. simpl.
        by apply Hnoprobe.
Qed.

Lemma cb_reachable_inv cfg t s : rtc (cb_step cfg) (cb_start t) s -> cb_inv s.
Proof.
  intros Hr. remember (cb_start t) as s0 eqn:E.
  assert (H0 : cb_inv s0) by (subst; apply cb_inv_start). clear E.
  induction Hr as [|s0 s1 s Hstep _ IH]; [done|]. apply IH. by eapply cb_inv_step.
Qed.
