(* ===== verification/CircuitBreakerSpec.v ===== *)
(** * Properties of the circuit breaker *)

From S2P Require Import Prelude GoErrors Types Failure Runtime Observer Scope Dlq Fixtures.
From S2P Require Import Settle Invoke Invokers CircuitBreaker.
Local Open Scope string_scope.
Local Open Scope list_scope.
Local Open Scope Z_scope.

Lemma good_trace_seq l st n :
  good_trace l st n -> n = Z.of_nat (length l) /\ map tr_seq l = map Z.of_nat (seq 1 (length l))
  /\ Forall legal l.
Proof.
  induction 1 as [|l st n tr _ (-> & Hs & Hl) Hleg _ Hseq]; [done|].
  rewrite length_app, Nat.add_comm. simpl length. cbn [Nat.add]. split; [lia|].
  rewrite map_app, Hs, seq_S, map_app. simpl. split.
  - f_equal. rewrite Hseq. f_equal. lia.
  - apply Forall_app. split; [done|]. by constructor.
Qed.

(** C12: the breaker's state machine under concurrency. However calls overlap,
    finish late or never finish: at most one half-open probe is counted at a
    time, a completion is counted only in the generation that admitted it, a
    closed breaker has no probe, and the transitions so far are legal, chained,
    start from closed, end in the current state, and are numbered 1, 2, 3, ...
    without a gap. *)
Theorem breaker_state_machine (cfg : CircuitBreakerConfig) (t : Z) (s : cb_system) :
  rtc (cb_step cfg) (cb_start t) s ->
  (forall i j tok tok', current s i tok -> current s j tok' ->
     tok_probe tok = true -> tok_probe tok' = true -> i = j)
  /\ (forall i tok, current s i tok ->
        hb_state (cs_breaker s) = if tok_probe tok then stateHalfOpen else stateClosed)
  /\ good_trace (cs_trace s) (hb_state (cs_breaker s)) (hb_seq (cs_breaker s))
  /\ map tr_seq (cs_trace s) = map Z.of_nat (seq 1 (length (cs_trace s)))
  /\ Forall legal (cs_trace s).
Proof.
  intros Hr. pose proof (cb_reachable_inv _ _ _ Hr) as Hi.
  pose proof (good_trace_seq _ _ _ (ci_trace s Hi)) as (_ & Hs & Hl).
  split; [apply Hi|]. split; [|split; [apply Hi|done]].
  intros i tok Hc. pose proof (ci_kind s Hi i tok Hc) as Hk. destruct (tok_probe tok); [|done].
  by destruct Hk.
Qed.

Definition demo_cfg : CircuitBreakerConfig := mkCBConfig 1 1 10.

(** A failure opens the breaker; after the timeout a probe is admitted. *)
Definition demo_opened : handlerBreaker := mkBreaker stateOpen 1 0 5 1 1 false zero_time.
Definition demo_tr1 : transition :=
  mkTransition stateClosed stateOpen BreakerReasonFailureThreshold 1 5 1.
Definition demo_tr2 : transition :=
  mkTransition stateOpen stateHalfOpen BreakerReasonOpenTimeoutElapsed 1 20 2.
Definition demo_running : cb_system :=
  mkCbSystem new_breaker (<[0%nat := mkToken 0 false]> ∅) 5 [].
Definition demo_failed (t : Z) : cb_system :=
  mkCbSystem demo_opened (delete 0%nat (<[0%nat := mkToken 0 false]> ∅)) t [demo_tr1].
Definition demo_half_open : cb_system :=
  mkCbSystem (mkBreaker stateHalfOpen 1 0 5 2 2 true 20)
    (<[0%nat := mkToken 2 true]> (cs_calls (demo_failed 20))) 20 [demo_tr1; demo_tr2].

Lemma demo_reachable : rtc (cb_step demo_cfg) (cb_start 5) demo_half_open.
Proof.
  apply (rtc_l _ _ demo_running).
  { exact (cb_admit demo_cfg (cb_start 5) 0 (mkToken 0 false) None stateClosed new_breaker
      eq_refl eq_refl). }
  apply (rtc_l _ _ (demo_failed 5)).
  { exact (cb_record demo_cfg demo_running 0 (mkToken 0 false) outcomeFailure (Some demo_tr1)
      stateOpen demo_opened eq_refl eq_refl). }
  apply (rtc_l _ _ (demo_failed 20)).
  { apply (cb_tick demo_cfg (demo_failed 5) 20). discriminate. }
  apply rtc_once.
  exact (cb_admit demo_cfg (demo_failed 20) 0 (mkToken 2 true) (Some demo_tr2) stateHalfOpen
    (mkBreaker stateHalfOpen 1 0 5 2 2 true 20) eq_refl eq_refl).
Qed.

Lemma breaker_state_machine_witness :
  map tr_seq (cs_trace demo_half_open) = [1; 2].
Proof.
  destruct (breaker_state_machine demo_cfg 5 demo_half_open demo_reachable)
    as (_ & _ & _ & Hs & _). exact Hs.
Defined.

(** ** When it opens *)

(** The counted failures since the last success. *)
Fixpoint trailing (acc : Z) (outs : list call_outcome) : Z :=
  match outs with
  | [] => acc
  | outcomeSuccess :: r => trailing 0 r
  | outcomeFailure :: r => trailing (acc + 1) r
  | outcomeNeutral :: r => trailing acc r
  end.

(** Calls that finish one after the other, each admitted by the breaker it
    finds. *)
Fixpoint feed (cfg : CircuitBreakerConfig) (now : Z) (b : handlerBreaker)
    (outs : list call_outcome) : handlerBreaker :=
  match outs with
  | [] => b
  | o :: r => feed cfg now (record cfg (mkToken (hb_gen b) false) o now b).2 r
  end.

Lemma feed_open cfg now b outs : hb_state b = stateOpen -> hb_state (feed cfg now b outs) = stateOpen.
Proof.
  revert b. induction outs as [|o outs IH]; intros b Hb; [done|]. simpl. apply IH.
  unfold record. simpl. rewrite Z.eqb_refl. simpl. by rewrite Hb.
Qed.

Lemma feed_closed cfg now b outs :
  hb_state b = stateClosed -> hb_failures b < cb_failure_threshold cfg ->
  0 < cb_failure_threshold cfg ->
  (exists k, cb_failure_threshold cfg <= trailing (hb_failures b) (take k outs))
    /\ hb_state (feed cfg now b outs) = stateOpen
  \/ (forall k, trailing (hb_failures b) (take k outs) < cb_failure_threshold cfg)
    /\ hb_state (feed cfg now b outs) = stateClosed
    /\ hb_failures (feed cfg now b outs) = trailing (hb_failures b) outs.
Proof.
  intros Hb Hf Hpos. revert b Hb Hf. induction outs as [|o outs IH]; intros b Hb Hf.
  { right. split; [intros k; by rewrite take_nil|done]. }
  assert (Hstep : forall b', hb_state b' = stateClosed ->
    hb_failures b' < cb_failure_threshold cfg ->
    (forall k, trailing (hb_failures b) (take (S k) (o :: outs))
       = trailing (hb_failures b') (take k outs)) ->
    trailing (hb_failures b) (o :: outs) = trailing (hb_failures b') outs ->
    (record cfg (mkToken (hb_gen b) false) o now b).2 = b' ->
    (exists k, cb_failure_threshold cfg <= trailing (hb_failures b) (take k (o :: outs)))
      /\ hb_state (feed cfg now b (o :: outs)) = stateOpen
    \/ (forall k, trailing (hb_failures b) (take k (o :: outs)) < cb_failure_threshold cfg)
      /\ hb_state (feed cfg now b (o :: outs)) = stateClosed
      /\ hb_failures (feed cfg now b (o :: outs)) = trailing (hb_failures b) (o :: outs)).
  { intros b' Hb' Hf' Ht Ht' Hr. cbn [feed]. rewrite Hr, Ht'.
    destruct (IH b' Hb' Hf') as [[[k Hk] Ho]|[Hk Hc]].
    - left. split; [|done]. exists (S k). by rewrite Ht.
    - right. split; [|done]. intros [|k]; [done|]. by rewrite Ht. }
  assert (Hrec : forall o', record cfg (mkToken (hb_gen b) false) o' now b =
    match o' with
    | outcomeSuccess => ((None, stateClosed), set_counts b 0 (hb_successes b))
    | outcomeFailure =>
        if cb_failure_threshold cfg <=? hb_failures b + 1
        then let '(b', tr) := move (set_opened (set_counts b (hb_failures b + 1) (hb_successes b))
                                      now) stateOpen BreakerReasonFailureThreshold now in
             ((Some tr, stateOpen), b')
        else ((None, stateClosed), set_counts b (hb_failures b + 1) (hb_successes b))
    | outcomeNeutral => ((None, stateClosed), b)
    end).
  { intros o'. unfold record. cbn [tok_gen]. rewrite Z.eqb_refl, Hb. cbn [negb].
    by destruct o'; simpl; rewrite ?Hb; try done; destruct (_ <=? _); simpl; rewrite ?Hb. }
  destruct o.
  - apply (Hstep (set_counts b 0 (hb_successes b))); [done|simpl; lia|done|done|].
    by rewrite Hrec.
  - destruct (Z.leb_spec (cb_failure_threshold cfg) (hb_failures b + 1)) as [Hle|Hlt].
    + left. split; [exists 1%nat; simpl; lia|]. cbn [feed]. apply feed_open.
      by rewrite Hrec.
    + apply (Hstep (set_counts b (hb_failures b + 1) (hb_successes b)));
        [done|simpl; lia|done|done|].
      by rewrite Hrec.
  - apply (Hstep b); [done|lia|done|done|]. by rewrite Hrec.
Qed.

(** When the breaker opens. A closed breaker whose calls finish one after the
    other opens exactly when the counted failures since the last success reach
    the threshold; neutral outcomes neither count nor reset, and until then the
    failure counter is that number. *)
Theorem breaker_opens_at_threshold (cfg : CircuitBreakerConfig) (now : Z)
    (outs : list call_outcome) :
  0 < cb_failure_threshold cfg ->
  (hb_state (feed cfg now new_breaker outs) = stateOpen <->
     exists k, cb_failure_threshold cfg <= trailing 0 (take k outs))
  /\ ((forall k, trailing 0 (take k outs) < cb_failure_threshold cfg) ->
        hb_state (feed cfg now new_breaker outs) = stateClosed
        /\ hb_failures (feed cfg now new_breaker outs) = trailing 0 outs).
Proof.
  intros Hpos. destruct (feed_closed cfg now new_breaker outs eq_refl Hpos Hpos)
    as [[[k Hk] Ho]|[Hk [Hc Hf]]]; simpl in *.
  - split; [split; [by exists k|done]|]. intros Hall. specialize (Hall k). lia.
  - split; [|done]. rewrite Hc. split; [done|]. intros [k Hk']. specialize (Hk k). lia.
Qed.

Lemma breaker_opens_at_threshold_witness :
  hb_state (feed (mkCBConfig 2 1 10) 0 new_breaker
    [outcomeFailure; outcomeSuccess; outcomeFailure; outcomeNeutral; outcomeFailure]) = stateOpen.
Proof.
  destruct (breaker_opens_at_threshold (mkCBConfig 2 1 10) 0
    [outcomeFailure; outcomeSuccess; outcomeFailure; outcomeNeutral; outcomeFailure])
    as [[_ H] _]; [reflexivity|].
  apply H. exists 5%nat. discriminate.
Defined.

(** The breaker never locks a handler out. With a positive timeout, from any
    breaker there is a time from which every call is admitted, as a probe unless
    the breaker is closed: an open breaker half-opens, a free probe slot is
    taken, and a probe that outlived its lease is superseded; the superseded
    probe's late completion then changes nothing. A refused call never changes
    the breaker. *)
Theorem breaker_recovers (cfg : CircuitBreakerConfig) (b : handlerBreaker) :
  0 < cb_open_timeout cfg ->
  (exists t0, forall now, t0 <= now ->
     exists tok tr st b', admit_call cfg now b = ((tok, tr, st, true), b')
       /\ tok_gen tok = hb_gen b' /\ tok_probe tok = negb (bool_decide (hb_state b = stateClosed))
       /\ (hb_state b <> stateClosed -> hb_state b' = stateHalfOpen /\ hb_probing b' = true)
       /\ (hb_probing b = true -> hb_state b = stateHalfOpen ->
             forall late out later, tok_gen late = hb_gen b -> (record cfg late out later b').2 = b'))
  /\ (forall now tok tr st b', admit_call cfg now b = ((tok, tr, st, false), b') -> b' = b /\ tr = None).
Proof.
  intros Hpos. split.
  - exists (Z.max (hb_opened_at b) (hb_probe_at b) + cb_open_timeout cfg). intros now Hnow.
    unfold admit_call. destruct (hb_state b) eqn:Est.
    + do 4 eexists. split; [done|]. repeat split; done.
    + destruct (Z.ltb_spec (now - hb_opened_at b) (cb_open_timeout cfg)); [lia|].
      do 4 eexists. split; [reflexivity|]. simpl. repeat split; done.
    + destruct (hb_probing b) eqn:Ep.
      * rewrite (proj2 (Z.ltb_lt 0 _) Hpos). simpl.
        destruct (Z.leb_spec (cb_open_timeout cfg) (now - hb_probe_at b)); [|lia].
        do 4 eexists. split; [reflexivity|]. simpl. repeat split; try done.
        intros _ _ late out later Hl. unfold record. simpl.
        by rewrite (proj2 (Z.eqb_neq _ _)) by lia.
      * do 4 eexists. split; [reflexivity|]. simpl. repeat split; done.
  - intros now tok tr st b' Ha. unfold admit_call in Ha.
    destruct (hb_state b); [done|..];
      [destruct (_ <? _)|destruct (hb_probing b); [destruct (_ && _)|]]; try done;
      by injection Ha.
Qed.

Lemma breaker_recovers_witness :
  exists t0, forall now, t0 <= now ->
    exists tok tr st b', admit_call demo_cfg now demo_opened = ((tok, tr, st, true), b')
      /\ hb_state b' = stateHalfOpen.
Proof.
  destruct (breaker_recovers demo_cfg demo_opened ltac:(reflexivity)) as [[t0 H] _].
  exists t0. intros now Hn. destruct (H now Hn) as (tok & tr & st & b' & Ha & _ & _ & Hs & _).
  exists tok, tr, st, b'. split; [exact Ha|]. apply Hs. discriminate.
Defined.

(** ** The invoker around the state machine *)

Section invoke.
Context {U : Type} `{Env U} `{Lens breaker_store U}.
Context `{!observers_keep (same_part (S := breaker_store) (U := U))}.
Context (cb : CircuitBreaker U) (handler : string).
Context (Hchange : forall f c t, cb_on_change cb = Some f ->
  respects (same_part (S := breaker_store)) (f c t)).
Implicit Types (w : World U).

(** The breaker of [handler] in a world. *)
Definition breaker_at w : handlerBreaker := breaker cb handler (lget (w_user w)).

Lemma with_breaker_run {A} (f : handlerBreaker -> A * handlerBreaker) w :
  exists w1, with_breaker cb handler f w = (Ret (f (breaker_at w)).1, w1)
    /\ breaker_at w1 = (f (breaker_at w)).2 /\ w_now w1 = w_now w.
Proof using Type.
  unfold with_breaker, breaker_at.
  match goal with |- context [atomically ?g w] =>
    destruct (atomically_run g w) as (w1 & Hr & Hu & _ & Hn & _) end.
  exists w1. rewrite Hr, Hu, Hn. destruct (f _) as [a b]. simpl. split; [done|]. split; [|done].
  unfold breaker. simpl. by rewrite lookup_insert_eq.
Qed.

Lemma report_keeps c tr st :
  respects (same_part (S := breaker_store)) (report cb c handler tr st).
Proof using All.
  assert (Hlog : forall e, respects (same_part (S := breaker_store)) (log_entry (U := U) e))
    by (intros e w; done).
  unfold report. apply respects_bind; [apply _| |intros _].
  { destruct (FailureScopeFromContext c) as [s|]; [|by apply respects_ret, _].
    intros w. unfold SetBreaker, mbind, M_bind, get_scope. by destruct (w_scopes w !! s). }
  unfold emitTransition. destruct tr as [tr|]; [|by apply respects_ret, _].
  assert (Hg : forall m, respects (same_part (S := breaker_store)) m ->
    respects (same_part (S := breaker_store)) (guarded c handler m)).
  { intros m Hm. apply respects_recovering; [apply _|done|]. intros v.
    apply respects_recovering; [apply _| |intros; by apply respects_ret, _].
    by apply raise_keeps; [apply _|apply _|]. }
  apply respects_bind; [apply _|apply Hg; by apply raise_keeps; [apply _|apply _|]|intros _].
  destruct (cb_on_change cb) as [f|] eqn:Ef; [|by apply respects_ret, _].
  apply Hg. by apply Hchange.
Qed.

Lemma finish_run c tok out w w' :
  finish cb c handler tok out w = (Ret tt, w') ->
  breaker_at w' = (record (cb_cfg cb) tok out (w_now w) (breaker_at w)).2.
Proof using All.
  intros Hf. unfold finish in Hf.
  apply bind_ret_inv in Hf as (t & w0 & Ht & Hf). apply now_inv in Ht as [-> ->].
  destruct (with_breaker_run (record (cb_cfg cb) tok out (w_now w)) w) as (w1 & Hr & Hb & _).
  rewrite (bind_run _ _ _ _ _ Hr) in Hf.
  destruct (record (cb_cfg cb) tok out (w_now w) (breaker_at w)) as [[tr st] b]. simpl in *.
  apply (respects_run _ _ _ _ _ (report_keeps c tr st)) in Hf.
  unfold same_part in Hf. rewrite <- Hb. unfold breaker_at. by rewrite Hf.
Qed.

Lemma CircuitBreaker_run c evt next w res w' :
  CircuitBreaker_Invoke cb c evt handler next w = (Ret res, w') ->
  let a := admit_call (cb_cfg cb) (w_now w) (breaker_at w) in
  if a.1.2 then
    exists w1 w2, next c w1 = (Ret res, w2) /\ breaker_at w1 = a.2
      /\ breaker_at w' = (record (cb_cfg cb) a.1.1.1.1 (cb_classify (w_now w2) c res) (w_now w2)
                            (breaker_at w2)).2
  else res = Some (Sentinel ErrCircuitOpen) /\ breaker_at w' = breaker_at w.
Proof using All.
  intros Hrun. unfold CircuitBreaker_Invoke in Hrun.
  apply bind_ret_inv in Hrun as (t & w0 & Ht & Hrun). apply now_inv in Ht as [-> ->].
  destruct (with_breaker_run (admit_call (cb_cfg cb) (w_now w)) w) as (w1 & Hr & Hb & _).
  rewrite (bind_run _ _ _ _ _ Hr) in Hrun. cbv zeta.
  destruct (admit_call (cb_cfg cb) (w_now w) (breaker_at w)) as [[[[tok tr] st] ok] b] eqn:Ea.
  cbn [fst snd] in *.
  apply bind_ret_inv in Hrun as ([] & w2 & Hrep & Hrun).
  apply (respects_run _ _ _ _ _ (report_keeps c tr st)) in Hrep.
  unfold same_part in Hrep. assert (Hb2 : breaker_at w2 = b) by (unfold breaker_at in *; congruence).
  destruct ok; cbn [negb] in Hrun.
  - apply bind_ret_inv in Hrun as (done & w3 & Hd & Hrun). apply mret_inv in Hrun as [-> ->].
    apply deferring_ret_inv in Hd as (w4 & Hn & Hf).
    apply bind_ret_inv in Hn as (err & w5 & Hn & Hr5). apply mret_inv in Hr5 as [-> ->].
    apply bind_ret_inv in Hf as (t & w6 & Ht & Hf). apply now_inv in Ht as [-> ->].
    exists w2, w5. split; [done|]. split; [done|]. by apply finish_run in Hf.
  - apply mret_inv in Hrun as [-> ->]. split; [done|]. rewrite Hb2.
    unfold admit_call in Ea. destruct (hb_state (breaker_at w)); [done|..];
      [destruct (_ <? _)|destruct (hb_probing _); [destruct (_ && _)|]]; try done;
      by injection Ea.
Qed.
End invoke.

(** The breaker invoker. A refused call returns [ErrCircuitOpen] and leaves the
    breaker as it was; an admitted one runs the handler after the admission,
    returns its result unchanged, and records it, as classified, in the breaker
    it finds then. The user's observers and [OnStateChange] play no part. *)
Theorem breaker_invoke_contract {U : Type} `{Env U} `{Lens breaker_store U}
    (cb : CircuitBreaker U) (c : Ctx) (evt : option Event) (handler : string)
    (next : handler_fn U) (w w' : World U) (res : goerr) :
  observers_keep (same_part (S := breaker_store) (U := U)) ->
  (forall f c t, cb_on_change cb = Some f -> respects (same_part (S := breaker_store)) (f c t)) ->
  CircuitBreaker_Invoke cb c evt handler next w = (Ret res, w') ->
  match admit_call (cb_cfg cb) (w_now w) (breaker_at cb handler w) with
  | ((tok, _, _, true), b) =>
      exists w1 w2, next c w1 = (Ret res, w2) /\ breaker_at cb handler w1 = b
        /\ breaker_at cb handler w' =
           (record (cb_cfg cb) tok (cb_classify (w_now w2) c res) (w_now w2)
              (breaker_at cb handler w2)).2
  | ((_, _, _, false), _) =>
      res = Some (Sentinel ErrCircuitOpen) /\ breaker_at cb handler w' = breaker_at cb handler w
  end.
Proof.
  intros Hk Hchange Hrun.
  pose proof (CircuitBreaker_run cb handler Hchange c evt next w res w' Hrun) as Hr.
  cbv zeta in Hr. by destruct (admit_call _ _ _) as [[[[tok tr] st] [|]] b].
Qed.

#[local] Instance breaker_env : Env breaker_store := silent_env _.

Definition demo_breaker : CircuitBreaker breaker_store := mkCircuitBreaker 1 demo_cfg None.
Definition breaker_world (t : Z) (b : handlerBreaker) : World breaker_store :=
  mkWorld t [] ∅ 0 ∅ ∅ (mkBreakers 1 (<[(1, "h") := b]> ∅)).

Lemma breaker_invoke_contract_witness :
  exists res w', CircuitBreaker_Invoke demo_breaker background None "h" (fun _ => goexit)
      (breaker_world 7 demo_opened) = (Ret res, w')
    /\ res = Some (Sentinel ErrCircuitOpen).
Proof.
  assert (Hrun : exists res w', CircuitBreaker_Invoke demo_breaker background None "h"
    (fun _ => goexit) (breaker_world 7 demo_opened) = (Ret res, w')).
  { do 2 eexists. vm_compute. reflexivity. }
  destruct Hrun as (res & w' & Hrun). exists res, w'. split; [exact Hrun|].
  assert (Hk : observers_keep (same_part (S := breaker_store) (U := breaker_store))).
  { apply silent_keeps; [apply _|intros e w; reflexivity|intros ch m w; reflexivity|
      intros g w; reflexivity]. }
  assert (Hch : forall f c t, cb_on_change demo_breaker = Some f ->
    respects (same_part (S := breaker_store)) (f c t)) by (intros f c t Hf; discriminate Hf).
  pose proof (breaker_invoke_contract demo_breaker background None "h" (fun _ => goexit)
    (breaker_world 7 demo_opened) w' res Hk Hch Hrun) as Hc.
  assert (Ha : admit_call (cb_cfg demo_breaker) (w_now (breaker_world 7 demo_opened))
     (breaker_at demo_breaker "h" (breaker_world 7 demo_opened))
     = ((mkToken 0 false, None, stateOpen, false), demo_opened)) by reflexivity.
  rewrite Ha in Hc. exact (proj1 Hc).
Defined.
