(* ===== verification/Metrics.v ===== *)
(** * What the metric observers share

    src/prometheus/observer.go and src/telemetry/observer.go are packages of
    their own that declare the same buckets, gauge values, breaker key and order
    of a breaker's transitions; the definitions here stand for both. Values of a
    gauge and of a histogram are float64s, in the standard library's model of
    them. *)

From Stdlib Require Import SpecFloat.
From S2P Require Import Prelude Types.
Local Open Scope list_scope.
Local Open Scope Z_scope.

(** ** float64 and package time *)

Definition float64 : Type := spec_float.

(** [float64(z)] of an integer: the nearest one, ties to even. *)
Definition float_of_Z (z : Z) : float64 := binary_normalize 53 1024 z 0 false.

(** [time.Duration.Seconds]; Go's division truncates. *)
Definition Seconds (d : Z) : float64 :=
  SFadd 53 1024 (float_of_Z (Z.quot d (10 ^ 9)))
    (SFdiv 53 1024 (float_of_Z (Z.rem d (10 ^ 9))) (float_of_Z (10 ^ 9))).

#[export] Instance float64_eq_dec : EqDecision float64.
Proof. solve_decision. Defined.

(** [DefaultBuckets]: the bounds in thousandths of a second. *)
Definition DefaultBuckets : list float64 :=
  map (fun ms => SFdiv 53 1024 (float_of_Z ms) (float_of_Z 1000))
    [1; 5; 10; 25; 50; 100; 250; 500; 1000; 2500; 5000; 10000].

(** ** The state of a breaker on a gauge *)

(** The breaker gauge values. *)
Definition breakerGaugeClosed : Z := 0.
Definition breakerGaugeOpen : Z := 1.
Definition breakerGaugeHalfOpen : Z := 2.

(** [breakerKey]: the handler and the breaker id. *)
Definition breakerKey : Type := string * Z.

(** [breakerState] of [BreakerTransition]: the gauge value of a state, none for a
    state outside the vocabulary. *)
Definition gauge_value (s : BreakerState) : option Z :=
  match s with
  | BreakerClosed => Some breakerGaugeClosed
  | BreakerOpen => Some breakerGaugeOpen
  | BreakerHalfOpen => Some breakerGaugeHalfOpen
  | BreakerNone => None
  end.

(** The check of a sequence number against the last one of its breaker, which it
    replaces when it is newer. *)
Definition newer (key : breakerKey) (seq : Z) (last : gmap breakerKey Z)
    : bool * gmap breakerKey Z :=
  match last !! key with
  | Some n => if seq <=? n then (false, last) else (true, <[key := seq]> last)
  | None => (true, <[key := seq]> last)
  end.
