(* ===== verification/Prometheus.v ===== *)
(** * The Prometheus observer

    src/prometheus/observer.go: the metric vectors declared once on a registry,
    and the methods that count the signals in them. The client library is the
    class [PromClient]; a vector is known by the registry it is declared on and
    the options it is declared with, less its help text. *)

From S2P Require Import Prelude GoErrors Types Runtime Metrics.
Local Open Scope string_scope.
Local Open Scope list_scope.
Local Open Scope Z_scope.

(** ** Metric vectors *)

Inductive VecKind := CounterVec | GaugeVec | HistogramVec.

Record Vec := mkVec {
  v_registry : nat;
  v_kind : VecKind;
  v_namespace : string;
  v_name : string;
  v_buckets : list float64;
  v_labels : list string;
}.

#[export] Instance VecKind_eq_dec : EqDecision VecKind.
Proof. solve_decision. Defined.
#[export] Instance Vec_eq_dec : EqDecision Vec.
Proof. solve_decision. Defined.

(** The client library: [prometheus.DefaultRegisterer]; the declaration of a
    vector with [promauto], which panics when the registry has it; and, for the
    series [WithLabelValues] finds, [Inc], [Observe] and [Set]. *)
Class PromClient (U : Type) := {
  DefaultRegisterer : nat;
  prom_declare : Vec -> M U unit;
  prom_inc : Vec -> list string -> M U unit;
  prom_observe : Vec -> list string -> float64 -> M U unit;
  prom_set : Vec -> list string -> float64 -> M U unit;
}.

(** ** The observer *)

(** [config], [Option] and [WithNamespace]. *)
Definition config : Type := string.
Definition Option : Type := config -> config.
Definition WithNamespace (ns : string) : Option := fun _ => ns.

(** [Observer]; its map [lastSeq] lives at a lens of the user state. *)
Record Observer := mkObserver {
  handlerDuration : Vec;
  handlerTotal : Vec;
  retryAttempts : Vec;
  breakerTransitions : Vec;
  breakerStateVec : Vec;
  dlqRecords : Vec;
  dlqPublishErrors : Vec;
  decodeFailures : Vec;
  storeErrors : Vec;
  idempotencyStale : Vec;
  internalErrors : Vec;
}.

(** The metric set of a registry under a namespace. *)
Definition metric_set (reg : nat) (ns : string) : Observer :=
  let counter name labels := mkVec reg CounterVec ns name [] labels in
  mkObserver
    (mkVec reg HistogramVec ns "eventbus_handler_duration_seconds"
       DefaultBuckets ["handler"; "event"; "outcome"])
    (counter "eventbus_handler_total" ["handler"; "event"; "outcome"])
    (counter "eventbus_retry_attempts_total" ["handler"; "event"; "reason"])
    (counter "eventbus_breaker_transitions_total" ["handler"; "from"; "to"; "reason"])
    (mkVec reg GaugeVec ns "eventbus_breaker_state" [] ["handler"])
    (counter "eventbus_dlq_records_total" ["handler"; "event"; "reason"])
    (counter "eventbus_dlq_publish_errors_total" ["handler"; "event"])
    (counter "eventbus_decode_failures_total" ["reason"])
    (counter "eventbus_store_errors_total" ["handler"; "store"; "op"])
    (counter "eventbus_idempotency_stale_total" ["handler"])
    (counter "eventbus_internal_errors_total" ["component"; "op"]).

(** The vectors in the order of their declaration. *)
Definition vectors (o : Observer) : list Vec :=
  [handlerDuration o; handlerTotal o; retryAttempts o; breakerTransitions o; breakerStateVec o;
   dlqRecords o; dlqPublishErrors o; decodeFailures o; storeErrors o; idempotencyStale o;
   internalErrors o].

Section observer.
Context {U : Type} `{PromClient U} `{Lens (gmap breakerKey Z) U}.

Fixpoint declare_all (vs : list Vec) : M U unit :=
  match vs with
  | [] => mret tt
  | v :: rest => _ ← prom_declare v; declare_all rest
  end.

(** [NewObserver]; a nil registry is the default one. *)
Definition NewObserver (reg : option nat) (opts : list Option) : M U Observer :=
  let reg := default DefaultRegisterer reg in
  let ns := fold_left (fun c opt => opt c) opts "" in
  let o := metric_set reg ns in
  _ ← declare_all (vectors o);
  _ ← atomically (fun _ => (tt, ∅ : gmap breakerKey Z));
  mret o.

Implicit Types (o : Observer).

Definition RetryAttempt o (i : RetryAttemptInfo) : M U unit :=
  prom_inc (retryAttempts o) [ra_handler i; ra_event i; attempt_class_string (ra_class i)].

Definition Failure o (_ : FailureContext) : M U unit := mret tt.

Definition DeadLettered o (i : DeadLetterInfo) : M U unit :=
  prom_inc (dlqRecords o) [dl_handler i; dl_event i; dl_reason i].

Definition DLQPublishFailed o (f : DLQPublishFailure) : M U unit :=
  prom_inc (dlqPublishErrors o) [pf_handler f; pf_event f].

Definition DecodeFailed o (f : DecodeFailure) : M U unit :=
  prom_inc (decodeFailures o) [df_reason f].

Definition StoreError o (e : StoreErrorInfo) : M U unit :=
  prom_inc (storeErrors o) [se_handler e; se_store e; se_op e].

Definition IdempotencyStale o (s : IdempotencyStaleInfo) : M U unit :=
  prom_inc (idempotencyStale o) [is_handler s].

Definition InternalError o (e : InternalErrorInfo) : M U unit :=
  prom_inc (internalErrors o) [ie_component e; ie_op e].

Definition HandlerDone o (r : HandlerResult) : M U unit :=
  let outcome := outcome_string (hr_outcome r) in
  _ ← prom_observe (handlerDuration o) [hr_handler r; hr_event r; outcome] (Seconds (hr_duration r));
  prom_inc (handlerTotal o) [hr_handler r; hr_event r; outcome].

(** [BreakerTransition]; what follows the counter runs under the mutex. *)
Definition BreakerTransition o (t : Types.BreakerTransition) : M U unit :=
  _ ← prom_inc (breakerTransitions o)
        [bt_handler t; breaker_string (bt_from t); breaker_string (bt_to t);
         breaker_reason_string (bt_reason t)];
  match gauge_value (bt_to t) with
  | None => mret tt
  | Some v =>
      fresh ← atomically (newer (bt_handler t, bt_breaker_id t) (bt_seq t));
      if fresh : bool
      then prom_set (breakerStateVec o) [bt_handler t] (float_of_Z v)
      else mret tt
  end.

(** The methods of the observer, by signal. *)
Definition observe o (s : signal) : M U unit :=
  match s with
  | SRetryAttempt i => RetryAttempt o i
  | SBreakerTransition t => BreakerTransition o t
  | SFailure f => Failure o f
  | SDeadLettered i => DeadLettered o i
  | SHandlerDone r => HandlerDone o r
  | SDecodeFailed f => DecodeFailed o f
  | SDLQPublishFailed f => DLQPublishFailed o f
  | SStoreError e => StoreError o e
  | SIdempotencyStale s => IdempotencyStale o s
  | SInternalError e => InternalError o e
  end.
End observer.
