(* ===== verification/Telemetry.v ===== *)
(** * The OpenTelemetry observer

    src/telemetry/observer.go and semconv.go: the observer adds one span event per
    in-chain signal to the span of the context, and records the metric set through
    the instruments of a meter provider when it has one. The OpenTelemetry API is
    the class [OtelSDK]; descriptions of instruments are left out. *)

From S2P Require Import Prelude GoErrors Types Runtime Trace Metrics.
Local Open Scope string_scope.
Local Open Scope list_scope.
Local Open Scope Z_scope.

(** ** semconv.go *)

Definition ScopeName := "github.com/isaquesb/go-event-bus/telemetry".

Definition EventRetryAttempt := "eventbus.retry.attempt".
Definition EventBreakerTransition := "eventbus.breaker.transition".
Definition EventDeadLettered := "eventbus.dead_lettered".
Definition EventDLQPublishFailed := "eventbus.dlq.publish_failed".
Definition EventStoreError := "eventbus.store.error".
Definition EventIdempotencyStale := "eventbus.idempotency.stale".
Definition EventInternalError := "eventbus.internal_error".

Definition AttrHandler := "eventbus.handler".
Definition AttrDeliveryCount := "eventbus.delivery_count".
Definition AttrRetryAttempt := "eventbus.retry.attempt".
Definition AttrRetryClass := "eventbus.retry.class".
Definition AttrRetryDelayMs := "eventbus.retry.delay_ms".
Definition AttrBreakerFrom := "eventbus.breaker.from".
Definition AttrBreakerTo := "eventbus.breaker.to".
Definition AttrBreakerReason := "eventbus.breaker.reason".
Definition AttrBreakerFailures := "eventbus.breaker.failures".
Definition AttrBreakerSeq := "eventbus.breaker.seq".
Definition AttrReason := "eventbus.reason".
Definition AttrStore := "eventbus.store".
Definition AttrOp := "eventbus.op".
Definition AttrComponent := "eventbus.component".

(** ** The API *)

(** A list of string attributes. *)
Definition strings (l : list (string * string)) : list KeyValue :=
  map (fun kv => (kv.1, AString kv.2)) l.

(** The span of a context, as far as the observer uses it; the creation of an
    instrument with its name and unit, none with an error being the nil
    interface; and the recordings. [noop_meter] is the meter of the no-op
    provider, [otel_Handle] the global error handler, [ErrorType] the attribute
    semconv makes of an error. *)
Class OtelSDK (U : Type) := {
  MeterProvider : Type;
  Meter : Type;
  Instrument : Type;
  mp_Meter : MeterProvider -> string -> M U Meter;
  noop_meter : Meter;
  new_Int64Counter : Meter -> string -> string -> M U (option Instrument * goerr);
  new_Int64Gauge : Meter -> string -> string -> M U (option Instrument * goerr);
  new_Float64Histogram : Meter -> string -> string -> list float64 ->
    M U (option Instrument * goerr);
  counter_Add : Instrument -> Ctx -> Z -> list KeyValue -> M U unit;
  gauge_Record : Instrument -> Ctx -> Z -> list KeyValue -> M U unit;
  histogram_Record : Instrument -> Ctx -> float64 -> list KeyValue -> M U unit;
  otel_Handle : error -> M U unit;
  ErrorType : goerr -> KeyValue;
  span_IsRecording : Ctx -> M U bool;
  span_AddEvent : Ctx -> string -> list KeyValue -> M U unit;
}.

(** ** Instruments *)

(** [instruments]: interface values, nil only if the no-op provider gives nil. *)
Record instruments {U} `{OtelSDK U} := mkInstruments {
  i_duration : option Instrument;
  i_handlers : option Instrument;
  i_retries : option Instrument;
  i_transitions : option Instrument;
  i_state : option Instrument;
  i_dlq_records : option Instrument;
  i_dlq_errors : option Instrument;
  i_decode : option Instrument;
  i_store_errors : option Instrument;
  i_stale : option Instrument;
  i_internal : option Instrument;
}.
Arguments instruments U {_}.

Section observer.
Context {U : Type} `{OtelSDK U} `{Lens (gmap breakerKey Z) U}.

(** A method of an instrument through its interface. *)
Definition with_instrument (i : option Instrument) (f : Instrument -> M U unit) : M U unit :=
  match i with Some i => f i | None => panic nil_deref end.

(** The instrument and the error of a creation, the no-op instrument in the place
    of nil. *)
Definition or_noop (create : Meter -> M U (option Instrument * goerr)) (m : Meter)
    : M U (option Instrument * goerr) :=
  r ← create m;
  match r.1 with
  | Some _ => mret r
  | None => n ← create noop_meter; mret (n.1, r.2)
  end.

(** The function literal [counter] of [newInstruments]; the no-op meter ignores the
    unit. *)
Definition counter (m : Meter) (name unit_ : string) : M U (option Instrument * goerr) :=
  or_noop (fun m => new_Int64Counter m name unit_) m.

(** [newInstruments]. *)
Definition newInstruments (m : Meter) : M U (instruments U * goerr) :=
  d ← or_noop (fun m => new_Float64Histogram m "eventbus.handler.duration" "s" DefaultBuckets) m;
  handlers ← counter m "eventbus.handler" "{message}";
  retries ← counter m "eventbus.retry.attempts" "{attempt}";
  transitions ← counter m "eventbus.breaker.transitions" "{transition}";
  g ← or_noop (fun m => new_Int64Gauge m "eventbus.breaker.state" "{state}") m;
  dlqRecords ← counter m "eventbus.dlq.records" "{record}";
  dlqErrors ← counter m "eventbus.dlq.publish.errors" "{error}";
  decode ← counter m "eventbus.decode.failures" "{failure}";
  storeErrors ← counter m "eventbus.store.errors" "{error}";
  stale ← counter m "eventbus.idempotency.stale" "{lock}";
  internal ← counter m "eventbus.internal.errors" "{error}";
  mret (mkInstruments U _ d.1 handlers.1 retries.1 transitions.1 g.1 dlqRecords.1 dlqErrors.1
          decode.1 storeErrors.1 stale.1 internal.1,
        join [d.2; handlers.2; retries.2; transitions.2; g.2; dlqRecords.2; dlqErrors.2;
              decode.2; storeErrors.2; stale.2; internal.2]).

(** ** The observer

    [Observer]: its instruments, none without a meter provider. The map
    [breakerSeq] lives at a lens of the user state. *)
Definition Observer : Type := option (instruments U).

(** [ObserverOption] and [WithMeterProvider], on the field [mp]. *)
Definition ObserverOption : Type := option MeterProvider -> option MeterProvider.
Definition WithMeterProvider (mp : MeterProvider) : ObserverOption := fun _ => Some mp.

(** [NewObserver]. *)
Definition NewObserver (opts : list ObserverOption) : M U Observer :=
  _ ← atomically (fun _ => (tt, ∅ : gmap breakerKey Z));
  match fold_left (fun mp opt => opt mp) opts None with
  | None => mret None
  | Some mp =>
      m ← mp_Meter mp ScopeName;
      r ← newInstruments m;
      _ ← (match r.2 with Some e => otel_Handle e | None => mret tt end);
      mret (Some r.1)
  end.

(** [addEvent]. *)
Definition addEvent (c : Ctx) (name : string) (attrs : list KeyValue) : M U unit :=
  recording ← span_IsRecording c;
  if negb recording then mret tt else span_AddEvent c name attrs.

(** [if ins := o.instruments; ins != nil]. *)
Definition with_instruments (o : Observer) (f : instruments U -> M U unit) : M U unit :=
  match o with Some ins => f ins | None => mret tt end.

(** [Add(ctx, 1, attrs)]. *)
Definition count (i : option Instrument) (c : Ctx) (attrs : list KeyValue) : M U unit :=
  with_instrument i (fun i => counter_Add i c 1 attrs).

Implicit Types (o : Observer) (c : Ctx).

Definition RetryAttempt o c (i : RetryAttemptInfo) : M U unit :=
  _ ← addEvent c EventRetryAttempt
        [(AttrHandler, AString (ra_handler i)); (AttrRetryAttempt, AInt (ra_attempt i));
         (AttrRetryClass, AString (attempt_class_string (ra_class i)));
         (AttrRetryDelayMs, AInt (Z.quot (ra_delay i) (10 ^ 6))); ErrorType (ra_err i)];
  with_instruments o (fun ins =>
    count (i_retries ins) c
      (strings [("handler", ra_handler i); ("event", ra_event i);
                ("reason", attempt_class_string (ra_class i))])).

(** [recordBreakerState], under the mutex from the check on. *)
Definition recordBreakerState (ins : instruments U) c (t : Types.BreakerTransition) : M U unit :=
  match gauge_value (bt_to t) with
  | None => mret tt
  | Some v =>
      fresh ← atomically (newer (bt_handler t, bt_breaker_id t) (bt_seq t));
      if fresh : bool
      then with_instrument (i_state ins) (fun i =>
             gauge_Record i c v (strings [("handler", bt_handler t)]))
      else mret tt
  end.

Definition BreakerTransition o c (t : Types.BreakerTransition) : M U unit :=
  _ ← addEvent c EventBreakerTransition
        [(AttrHandler, AString (bt_handler t)); (AttrBreakerFrom, AString (breaker_string (bt_from t)));
         (AttrBreakerTo, AString (breaker_string (bt_to t)));
         (AttrBreakerReason, AString (breaker_reason_string (bt_reason t)));
         (AttrBreakerFailures, AInt (bt_failures t)); (AttrBreakerSeq, AInt (wrap64 (bt_seq t)))];
  with_instruments o (fun ins =>
    _ ← count (i_transitions ins) c
          (strings [("handler", bt_handler t); ("from", breaker_string (bt_from t));
                    ("to", breaker_string (bt_to t)); ("reason", breaker_reason_string (bt_reason t))]);
    recordBreakerState ins c t).

Definition Failure o c (_ : FailureContext) : M U unit := mret tt.

Definition DeadLettered o c (i : DeadLetterInfo) : M U unit :=
  _ ← addEvent c EventDeadLettered
        [(AttrHandler, AString (dl_handler i)); (AttrReason, AString (dl_reason i));
         (AttrDeliveryCount, AInt (d_count (dl_delivery i)))];
  with_instruments o (fun ins =>
    count (i_dlq_records ins) c
      (strings [("handler", dl_handler i); ("event", dl_event i); ("reason", dl_reason i)])).

Definition HandlerDone o c (r : HandlerResult) : M U unit :=
  with_instruments o (fun ins =>
    let attrs := strings [("handler", hr_handler r); ("event", hr_event r);
                          ("outcome", outcome_string (hr_outcome r))] in
    _ ← with_instrument (i_duration ins) (fun i =>
          histogram_Record i c (Seconds (hr_duration r)) attrs);
    count (i_handlers ins) c attrs).

Definition DecodeFailed o c (f : DecodeFailure) : M U unit :=
  with_instruments o (fun ins => count (i_decode ins) c (strings [("reason", df_reason f)])).

Definition DLQPublishFailed o c (f : DLQPublishFailure) : M U unit :=
  _ ← addEvent c EventDLQPublishFailed
        [(AttrHandler, AString (pf_handler f)); (AttrReason, AString (pf_reason f));
         ErrorType (pf_err f)];
  with_instruments o (fun ins =>
    count (i_dlq_errors ins) c (strings [("handler", pf_handler f); ("event", pf_event f)])).

Definition StoreError o c (e : StoreErrorInfo) : M U unit :=
  _ ← addEvent c EventStoreError
        [(AttrHandler, AString (se_handler e)); (AttrStore, AString (se_store e));
         (AttrOp, AString (se_op e)); ErrorType (se_err e)];
  with_instruments o (fun ins =>
    count (i_store_errors ins) c
      (strings [("handler", se_handler e); ("store", se_store e); ("op", se_op e)])).

Definition IdempotencyStale o c (s : IdempotencyStaleInfo) : M U unit :=
  _ ← addEvent c EventIdempotencyStale [(AttrHandler, AString (is_handler s))];
  with_instruments o (fun ins => count (i_stale ins) c (strings [("handler", is_handler s)])).

Definition InternalError o c (e : InternalErrorInfo) : M U unit :=
  _ ← addEvent c EventInternalError
        [(AttrComponent, AString (ie_component e)); (AttrOp, AString (ie_op e))];
  with_instruments o (fun ins =>
    count (i_internal ins) c (strings [("component", ie_component e); ("op", ie_op e)])).

(** The methods of the observer, by signal. *)
Definition observe o c (s : signal) : M U unit :=
  match s with
  | SRetryAttempt i => RetryAttempt o c i
  | SBreakerTransition t => BreakerTransition o c t
  | SFailure f => Failure o c f
  | SDeadLettered i => DeadLettered o c i
  | SHandlerDone r => HandlerDone o c r
  | SDecodeFailed f => DecodeFailed o c f
  | SDLQPublishFailed f => DLQPublishFailed o c f
  | SStoreError e => StoreError o c e
  | SIdempotencyStale s => IdempotencyStale o c s
  | SInternalError e => InternalError o c e
  end.
End observer.
