(* ===== verification/MetricsSpec.v ===== *)
(** * Properties of the metric observers

    What a Prometheus registry shows after the observer's methods ran: no method
    panics over a label, the breaker gauge follows the breaker however late its
    transitions arrive, and the OpenTelemetry observer records the same metrics. *)

From Stdlib Require Import SpecFloat Ascii.
From S2P Require Import Prelude GoErrors Types Failure Text Runtime Trace Observer Scope Dlq.
From S2P Require Import Settle Invoke Invokers CircuitBreaker CircuitBreakerSpec.
From S2P Require Import Metrics Prometheus Telemetry.
Local Open Scope string_scope.
Local Open Scope list_scope.
Local Open Scope Z_scope.

(** ** The documented client

    [WithLabelValues] finds a series when it gets one value per declared label, all
    valid UTF-8. A counter or a histogram then has one call more, a gauge the new
    value, and every other series is as it was. *)
Definition labels_ok (v : Vec) (vals : list string) : Prop :=
  length vals = length (Prometheus.v_labels v) /\ Forall (fun s => valid (to_bytes s)) vals.

Class PromLaws (U : Type) `{Prometheus.PromClient U, Lens (gmap breakerKey Z) U} := {
  p_count : U -> Vec -> list string -> Z;
  p_gauge : U -> Vec -> list string -> option float64;
  p_inc v vals w : labels_ok v vals -> Prometheus.v_kind v = CounterVec ->
    exists u', Prometheus.prom_inc v vals w = put_user u' w
      /\ (forall v' l, p_count u' v' l =
            p_count (w_user w) v' l + if decide ((v', l) = (v, vals)) then 1 else 0)
      /\ p_gauge u' = p_gauge (w_user w) /\ lget u' = lget (w_user w);
  p_observe v vals x w : labels_ok v vals -> Prometheus.v_kind v = HistogramVec ->
    exists u', Prometheus.prom_observe v vals x w = put_user u' w
      /\ (forall v' l, p_count u' v' l =
            p_count (w_user w) v' l + if decide ((v', l) = (v, vals)) then 1 else 0)
      /\ p_gauge u' = p_gauge (w_user w) /\ lget u' = lget (w_user w);
  p_set v vals x w : labels_ok v vals -> Prometheus.v_kind v = GaugeVec ->
    exists u', Prometheus.prom_set v vals x w = put_user u' w
      /\ p_count u' = p_count (w_user w)
      /\ (forall v' l, p_gauge u' v' l =
            if decide ((v', l) = (v, vals)) then Some x else p_gauge (w_user w) v' l)
      /\ lget u' = lget (w_user w);
  p_count_put (s : gmap breakerKey Z) u : p_count (lput s u) = p_count u;
  p_gauge_put (s : gmap breakerKey Z) u : p_gauge (lput s u) = p_gauge u;
}.

(** The names a signal carries into labels, the user's and the library's. *)
Definition label_names (s : signal) : list string :=
  match s with
  | SRetryAttempt i => [ra_handler i; ra_event i]
  | SBreakerTransition t => [bt_handler t]
  | SFailure _ => []
  | SDeadLettered i => [dl_handler i; dl_event i; dl_reason i]
  | SHandlerDone r => [hr_handler r; hr_event r]
  | SDecodeFailed f => [df_reason f]
  | SDLQPublishFailed f => [pf_handler f; pf_event f]
  | SStoreError e => [se_handler e; se_store e; se_op e]
  | SIdempotencyStale s => [is_handler s]
  | SInternalError e => [ie_component e; ie_op e]
  end.

Definition named (s : signal) : Prop := Forall (fun n => valid (to_bytes n)) (label_names s).

(** ** One method of the Prometheus observer *)

Section laws.
Context {U : Type} `{PL : PromLaws U}.
Implicit Types (w : World U) (reg : nat) (ns h : string).

(** The state a breaker's gauge depends on: the sequence numbers and the gauge of a
    handler. *)
Definition gauge_of (o : Prometheus.Observer) h w : option float64 :=
  p_gauge (w_user w) (breakerStateVec o) [h].

Definition gauge_step h (s : signal) (st : gmap breakerKey Z * option float64)
    : gmap breakerKey Z * option float64 :=
  match s with
  | SBreakerTransition t =>
      match gauge_value (bt_to t) with
      | None => st
      | Some v =>
          let '(fresh, last) := newer (bt_handler t, bt_breaker_id t) (bt_seq t) st.1 in
          (last, if fresh && String.eqb (bt_handler t) h then Some (float_of_Z v) else st.2)
      end
  | _ => st
  end.

(** The transitions counted under a label tuple. *)
Definition transition_labels (t : Types.BreakerTransition) : list string :=
  [bt_handler t; breaker_string (bt_from t); breaker_string (bt_to t);
   breaker_reason_string (bt_reason t)].
Definition as_transition (s : signal) : option Types.BreakerTransition :=
  match s with SBreakerTransition t => Some t | _ => None end.
Definition counts_transition (l : list string) (s : signal) : bool :=
  match as_transition s with
  | Some t => bool_decide (transition_labels t = l)
  | None => false
  end.

(** A run of an observer that only writes its own series. *)
Definition observed (o : Prometheus.Observer) (s : signal) w (r : outcome (any error) unit * World U)
    : Prop :=
  exists u', r = put_user u' w
    /\ (forall h, (lget u', p_gauge u' (breakerStateVec o) [h])
                  = gauge_step h s (lget (w_user w), gauge_of o h w))
    /\ (forall l, p_count u' (breakerTransitions o) l =
          p_count (w_user w) (breakerTransitions o) l
          + if counts_transition l s then 1 else 0).

Lemma literal_valid (s : string) : ToValidUTF8 (to_bytes s) = to_bytes s -> valid (to_bytes s).
Proof using Type. intros <-. apply ToValidUTF8_valid. Qed.

Lemma class_valid c : valid (to_bytes (attempt_class_string c)).
Proof using Type. apply literal_valid. by destruct c. Qed.
Lemma outcome_valid o : valid (to_bytes (outcome_string o)).
Proof using Type. apply literal_valid. by destruct o. Qed.
Lemma breaker_valid s : valid (to_bytes (breaker_string s)).
Proof using Type. apply literal_valid. by destruct s. Qed.
Lemma reason_valid r : valid (to_bytes (breaker_reason_string r)).
Proof using Type. apply literal_valid. by destruct r. Qed.

Create HintDb labels discriminated.
#[local] Hint Resolve class_valid outcome_valid breaker_valid reason_valid : labels.
#[local] Hint Constructors Forall : labels.

(** The counter of a signal that is no transition. *)
Lemma inc_observed reg ns s v vals w :
  as_transition s = None -> labels_ok v vals -> v_kind v = CounterVec ->
  v <> breakerTransitions (metric_set reg ns) ->
  observed (metric_set reg ns) s w (prom_inc v vals w).
Proof using Type.
  intros Hs Hok Hk Hne. destruct (p_inc v vals w Hok Hk) as (u' & Hr & Hc & Hg & Hl).
  exists u'. split; [exact Hr|]. split.
  - intros h. unfold gauge_of. rewrite Hg, Hl. by destruct s.
  - intros l. rewrite Hc. unfold counts_transition. rewrite Hs. rewrite decide_False; [done|].
    congruence.
Qed.

Lemma transition_observed reg ns t w :
  valid (to_bytes (bt_handler t)) ->
  observed (metric_set reg ns) (SBreakerTransition t) w
    (Prometheus.BreakerTransition (metric_set reg ns) t w).
Proof using Type.
  intros Hv. unfold Prometheus.BreakerTransition.
  assert (Hok1 : labels_ok (breakerTransitions (metric_set reg ns)) (transition_labels t))
    by (split; [done|]; unfold transition_labels; auto with labels).
  assert (Hok2 : labels_ok (breakerStateVec (metric_set reg ns)) [bt_handler t])
    by (split; [done|]; auto with labels).
  assert (Hk1 : v_kind (breakerTransitions (metric_set reg ns)) = CounterVec) by done.
  assert (Hk2 : v_kind (breakerStateVec (metric_set reg ns)) = GaugeVec) by done.
  generalize dependent (metric_set reg ns). intros o Hok1 Hok2 Hk1 Hk2.
  destruct (p_inc (breakerTransitions o) (transition_labels t) w Hok1 Hk1)
    as (u1 & Hr & Hc & Hg & Hl).
  unfold transition_labels in Hr. unfold mbind, M_bind. rewrite Hr. cbn [put_user].
  unfold observed, gauge_step, counts_transition, gauge_of. simpl as_transition. cbv iota.
  destruct (gauge_value (bt_to t)) as [v|] eqn:Ev.
  2:{ exists u1. split; [done|]. split; [intros h; by rewrite Hg, Hl|]. intros l. rewrite Hc.
      destruct (decide _) as [[= <-]|Hne]; case_bool_decide; congruence. }
  unfold atomically. simpl w_user. rewrite Hl. cbn [fst snd].
  destruct (newer _ _ _) as [[|] last]; simpl.
  - destruct (p_set (breakerStateVec o) [bt_handler t] (float_of_Z v)
      (mkWorld (w_now w) (w_log w) (w_scopes w) (w_children w) (w_logged w) (w_ended w)
         (lput last u1)) Hok2 Hk2) as (u2 & Hr2 & Hc2 & Hg2 & Hl2).
    exists u2. rewrite Hr2. split; [done|]. split.
    + intros h. rewrite Hl2, Hg2. simpl. rewrite lget_lput, p_gauge_put, Hg.
      destruct (String.eqb_spec (bt_handler t) h) as [->|Hne]; [by rewrite decide_True|].
      rewrite decide_False; [done|]. congruence.
    + intros l. rewrite Hc2. simpl. rewrite p_count_put, Hc.
      destruct (decide _) as [[= <-]|Hne]; case_bool_decide; congruence.
  - eexists. split; [reflexivity|]. split.
    + intros h. by rewrite lget_lput, p_gauge_put, Hg.
    + intros l. rewrite p_count_put, Hc.
      destruct (decide _) as [[= <-]|Hne]; case_bool_decide; congruence.
Qed.

Lemma done_observed reg ns r w :
  valid (to_bytes (hr_handler r)) -> valid (to_bytes (hr_event r)) ->
  observed (metric_set reg ns) (SHandlerDone r) w (Prometheus.HandlerDone (metric_set reg ns) r w).
Proof using Type.
  intros Hv1 Hv2.
  destruct (p_observe (handlerDuration (metric_set reg ns))
    [hr_handler r; hr_event r; outcome_string (hr_outcome r)] (Seconds (hr_duration r)) w)
    as (u1 & Hr & Hc & Hg & Hl); [split; [done|auto with labels]|done|].
  unfold Prometheus.HandlerDone, mbind, M_bind. cbv zeta. rewrite Hr. cbn [put_user].
  match goal with |- context [prom_inc ?v ?l ?w1] =>
    destruct (inc_observed reg ns (SHandlerDone r) v l w1) as (u2 & Hr2 & Hg2 & Hc2) end;
    [done|split; [done|auto with labels]|done|done|].
  exists u2. rewrite Hr2. split; [done|]. cbn [w_user] in Hg2, Hc2. split.
  - intros h. rewrite Hg2. unfold gauge_of. cbn [w_user gauge_step]. by rewrite Hg, Hl.
  - intros l. rewrite Hc2, Hc. rewrite decide_False; [cbn; lia|]. intros [= Hv _].
Qed.

(** Every method of the observer, on a signal whose names are valid UTF-8. *)
Lemma observe_observed reg ns s w :
  named s -> observed (metric_set reg ns) s w (Prometheus.observe (metric_set reg ns) s w).
Proof using Type.
  unfold named. destruct s as [i|t|f|i|r|f|f|e|i|e]; cbn [Prometheus.observe label_names]; intros Hn;
    repeat match goal with H : Forall _ (_ :: _) |- _ => apply Forall_cons in H as [? H] end;
    try (by apply inc_observed; [done|split; [done|auto with labels]|done|]).
  - by apply transition_observed.
  - exists (w_user w). split; [by destruct w|]. split; [done|]. intros l. simpl. lia.
  - by apply done_observed.
Qed.
End laws.

(** ** Runs *)

Section runs.
Context {U : Type} `{PL : PromLaws U}.
Implicit Types (w : World U) (reg : nat) (ns h : string) (l : list signal).

(** The signals in the order in which the methods ran. *)
Fixpoint report_all (o : Prometheus.Observer) l : M U unit :=
  match l with
  | [] => mret tt
  | s :: rest => _ ← Prometheus.observe o s; report_all o rest
  end.

Definition count_of (p : signal -> bool) l : Z :=
  Z.of_nat (length (filter (fun s => p s = true) l)).

Lemma count_of_cons p s l : count_of p (s :: l) = (if p s then 1 else 0) + count_of p l.
Proof.
  unfold count_of. rewrite filter_cons. case_decide as Hp; [rewrite Hp; simpl; lia|].
  destruct (p s); [done|simpl; lia].
Qed.

(** A run never panics; its gauges and transition counters are those of the
    signals. *)
Lemma report_all_run reg ns l w :
  Forall named l ->
  exists w', report_all (metric_set reg ns) l w = (Ret tt, w')
    /\ (forall h, (lget (w_user w'), gauge_of (metric_set reg ns) h w')
          = fold_left (fun st s => gauge_step h s st) l
              (lget (w_user w), gauge_of (metric_set reg ns) h w))
    /\ (forall k, p_count (w_user w') (breakerTransitions (metric_set reg ns)) k =
          p_count (w_user w) (breakerTransitions (metric_set reg ns)) k
          + count_of (counts_transition k) l).
Proof using Type.
  intros Hl. revert w. induction Hl as [|s l Hs _ IH]; intros w.
  { exists w. split; [done|]. split; [done|]. intros k. unfold count_of. simpl. lia. }
  destruct (observe_observed reg ns s w Hs) as (u1 & Hr & Hg & Hc).
  destruct (IH (put_user u1 w).2) as (w' & Hrun & Hg' & Hc').
  exists w'. split; [|split].
  - cbn [report_all]. by rewrite (bind_run _ _ _ _ _ Hr).
  - intros h. rewrite Hg'. cbn [fold_left]. by rewrite <- Hg.
  - intros k. rewrite Hc', count_of_cons. cbn [put_user snd w_user]. rewrite Hc. lia.
Qed.
End runs.

(** ** The latest transition *)

Definition later (acc : option Types.BreakerTransition) (t : Types.BreakerTransition)
    : option Types.BreakerTransition :=
  match acc with
  | Some m => if bt_seq t <=? bt_seq m then Some m else Some t
  | None => Some t
  end.

Lemma later_spec acc l x :
  fold_left later l acc = Some x ->
  (x ∈ l \/ acc = Some x) /\ (forall t, t ∈ l \/ acc = Some t -> bt_seq t <= bt_seq x).
Proof.
  revert acc. induction l as [|t l IH]; intros acc; simpl.
  { intros ->. split; [by right|]. intros t [Ht|[= ->]]; [by apply not_elem_of_nil in Ht|lia]. }
  intros Hf. destruct (IH _ Hf) as [Hin Hmax]. clear IH Hf. unfold later in *.
  destruct acc as [m|].
  - destruct (Z.leb_spec (bt_seq t) (bt_seq m)) as [Hle|Hlt].
    + split; [destruct Hin as [?|[= ->]]; [left; by right|by right]|].
      intros t' [Ht'|[= ->]]; [|by apply Hmax; right].
      apply elem_of_cons in Ht' as [->|Ht']; [|by apply Hmax; left].
      pose proof (Hmax m (or_intror eq_refl)). lia.
    + split; [destruct Hin as [?|[= ->]]; left; [by right|by left]|].
      pose proof (Hmax t (or_intror eq_refl)).
      intros t' [Ht'|[= ->]]; [|lia].
      apply elem_of_cons in Ht' as [->|Ht']; [lia|]. by apply Hmax; left.
  - split; [destruct Hin as [?|[= ->]]; left; [by right|by left]|].
    intros t' [Ht'|?]; [|done]. apply Hmax.
    apply elem_of_cons in Ht' as [->|Ht']; [by right|by left].
Qed.

Lemma later_nonempty l acc : l <> [] \/ is_Some acc -> is_Some (fold_left later l acc).
Proof.
  revert acc. induction l as [|t l IH]; intros acc; simpl; [by intros [?|?]|].
  intros _. apply IH. right. unfold later. destruct acc; [destruct (_ <=? _)|]; by eexists.
Qed.

(** The transitions of a handler among the signals. *)
Definition transitions_of (h : string) (l : list signal) : list Types.BreakerTransition :=
  filter (fun t => bt_handler t = h) (omap as_transition l).

(** The gauge and the sequence number of a handler's only breaker are those of the
    latest transition. *)
Lemma gauge_fold h id l acc st g0 :
  Forall (fun t => bt_breaker_id t = id /\ is_Some (gauge_value (bt_to t))) (transitions_of h l) ->
  st.1 !! (h, id) = bt_seq <$> acc ->
  st.2 = match acc with Some t => float_of_Z <$> gauge_value (bt_to t) | None => g0 end ->
  (fold_left (fun st s => gauge_step h s st) l st).2 =
  match fold_left later (transitions_of h l) acc with
  | Some t => float_of_Z <$> gauge_value (bt_to t)
  | None => g0
  end.
Proof.
  revert acc st. induction l as [|s l IH]; intros acc st Hall Hlast Hg; [exact Hg|].
  cbn [fold_left]. unfold transitions_of in *. simpl omap in *.
  destruct s as [i|t|f|i|r|f|f|e|i|e]; simpl in Hall |- *; try by apply IH.
  rewrite filter_cons in Hall |- *. destruct st as [last g]; simpl in Hlast, Hg.
  unfold newer.
  destruct (decide (bt_handler t = h)) as [Hh|Hh].
  - apply Forall_cons in Hall as [[Hid [v Hv]] Hall]. rewrite Hv, Hh, Hid. cbn [fst snd].
    unfold breakerKey in *. rewrite Hlast, String.eqb_refl. cbn [fold_left]. destruct acc as [m|]; simpl.
    + destruct (Z.leb_spec (bt_seq t) (bt_seq m)); apply IH; try done; simpl.
      * by rewrite lookup_insert_eq.
      * by rewrite Hv.
    + apply IH; [done|simpl; by rewrite lookup_insert_eq|simpl; by rewrite Hv].
  - destruct (gauge_value (bt_to t)) as [v|]; [|by apply IH].
    cbn [fst snd].
    assert (Hne : (bt_handler t, bt_breaker_id t) <> (h, id)) by congruence.
    rewrite (proj2 (String.eqb_neq _ _) Hh). unfold breakerKey in *.
    destruct (last !! (bt_handler t, bt_breaker_id t)) as [n|]; [destruct (_ <=? n)|];
      rewrite ?andb_false_r; apply IH; try done; simpl; by rewrite lookup_insert_ne.
Qed.

(** ** The breaker behind the transitions *)

Lemma numbered_inj (f : transition -> Z) l x y :
  map f l = map Z.of_nat (seq 1 (length l)) -> x ∈ l -> y ∈ l -> f x = f y -> x = y.
Proof.
  intros Hm Hx Hy He. apply list_elem_of_lookup in Hx as [i Hi], Hy as [j Hj].
  assert (Hn : forall k z, l !! k = Some z -> f z = Z.of_nat (S k)).
  { intros k z Hk. pose proof (lookup_lt_Some _ _ _ Hk) as Hlt.
    assert (H1 : map f l !! k = Some (f z)) by (change map with (@fmap list _); by rewrite list_lookup_fmap, Hk).
    rewrite Hm in H1. change (map Z.of_nat) with (fmap (M := list) Z.of_nat) in H1.
    rewrite list_lookup_fmap, lookup_seq_lt in H1 by done. simpl in H1. by injection H1 as <-. }
  rewrite (Hn _ _ Hi), (Hn _ _ Hj) in He. assert (i = j) as -> by lia. congruence.
Qed.

(** The last transition of a trace has its highest number. *)
Lemma good_trace_last l st n :
  good_trace l st n -> l <> [] ->
  exists tr, tr ∈ l /\ tr_to tr = st /\ (forall tr', tr' ∈ l -> tr_seq tr' <= tr_seq tr).
Proof.
  intros Hg Hne. pose proof (good_trace_seq _ _ _ Hg) as (Hn & Hs & _).
  assert (Hmax : forall tr', tr' ∈ l -> tr_seq tr' <= n).
  { intros tr' Hin. assert (H2 : tr_seq tr' ∈ map tr_seq l)
      by (change map with (@fmap list _); by apply list_elem_of_fmap_2).
    rewrite Hs in H2. change (map Z.of_nat) with (fmap (M := list) Z.of_nat) in H2.
    apply list_elem_of_fmap in H2 as (k & -> & Hk). apply elem_of_seq in Hk. lia. }
  destruct Hg as [|l st n tr _ _ _ Hseq]; [done|].
  exists tr. split; [apply elem_of_app; right; by left|]. split; [done|]. by rewrite Hseq.
Qed.

Lemma transition_gauge id h tr :
  is_Some (gauge_value (bt_to (transition_info id h tr))).
Proof. simpl. destruct (tr_to tr); by eexists. Qed.

Lemma count_transitions h l k :
  count_of (counts_transition (h :: k)) l
  = Z.of_nat (length (filter (fun t => transition_labels t = h :: k) (transitions_of h l))).
Proof.
  unfold transitions_of. induction l as [|s l IH]; [done|]. rewrite count_of_cons, IH.
  destruct s as [i|t|f|i|r|f|f|e|i|e]; try done.
  change (omap as_transition (SBreakerTransition t :: l)) with (t :: omap as_transition l).
  unfold counts_transition. cbn [as_transition]. rewrite filter_cons.
  destruct (decide (bt_handler t = h)) as [Hh|Hh].
  - rewrite filter_cons. case_bool_decide as Hd; destruct (decide _) as [He|He]; try done.
    cbn [length]. lia.
  - rewrite bool_decide_eq_false_2; [lia|]. unfold transition_labels. congruence.
Qed.

Section breaker_gauge.
Context (cfg : CircuitBreakerConfig) (t0 : Z) (s : cb_system) (id : Z) (h : string).
Context (Hreach : rtc (cb_step cfg) (cb_start t0) s).
Context (ts : list transition) (l : list signal).
Context (Hsub : ts ⊆+ cs_trace s).
Context (Hperm : transitions_of h l ≡ₚ map (transition_info id h) ts).

(** The latest of the delivered transitions is the one with the highest number. *)
Lemma later_delivered tr :
  tr ∈ ts -> (forall tr', tr' ∈ ts -> tr_seq tr' <= tr_seq tr) ->
  fold_left later (transitions_of h l) None = Some (transition_info id h tr).
Proof using Hreach Hsub Hperm.
  intros Hin Hmax.
  assert (Hmem : forall t, t ∈ transitions_of h l <-> exists tr, t = transition_info id h tr /\ tr ∈ ts).
  { intros t. rewrite Hperm. change map with (@fmap list _). apply list_elem_of_fmap. }
  destruct (later_nonempty (transitions_of h l) None) as [x Hx].
  { left. intros E. assert (transition_info id h tr ∈ transitions_of h l) as Hm
      by (apply Hmem; eauto). rewrite E in Hm. by apply not_elem_of_nil in Hm. }
  rewrite Hx. f_equal. destruct (later_spec _ _ _ Hx) as [[Hxin|?] Hxmax]; [|done].
  apply Hmem in Hxin as (tr1 & -> & Hin1). f_equal.
  pose proof (cb_reachable_inv _ _ _ Hreach) as Hi.
  pose proof (good_trace_seq _ _ _ (ci_trace s Hi)) as (_ & Hs & _).
  apply (numbered_inj tr_seq (cs_trace s)); [done|by eapply elem_of_submseteq|
    by eapply elem_of_submseteq|].
  specialize (Hxmax (transition_info id h tr)). simpl in Hxmax.
  pose proof (Hmax tr1 Hin1). assert (tr_seq tr <= tr_seq tr1); [|lia].
  apply Hxmax. left. apply Hmem. eauto.
Qed.

Lemma delivered_gauges :
  Forall (fun t => bt_breaker_id t = id /\ is_Some (gauge_value (bt_to t))) (transitions_of h l).
Proof using Hperm.
  rewrite Hperm. change map with (@fmap list _). apply Forall_fmap, Forall_true.
  intros tr. split; [done|]. apply transition_gauge.
Qed.
End breaker_gauge.

(** C21: the gauge eventbus_breaker_state follows the breaker. Take any run of a
    breaker under concurrent calls, deliver any of its transitions to the observer
    in any order, among any other signals: nothing panics, the gauge of the handler
    shows the state of the delivered transition with the highest number, however
    late the others arrive; once all are delivered it is the state of the breaker;
    and every transition is counted once under its labels. *)
Theorem gauge_follows_breaker {U : Type} `{PL : PromLaws U} (cfg : CircuitBreakerConfig)
    (t0 : Z) (s : cb_system) (id : Z) (h : string) (ts : list transition) (l : list signal)
    (reg : nat) (ns : string) (w : World U) :
  rtc (cb_step cfg) (cb_start t0) s ->
  ts ⊆+ cs_trace s ->
  transitions_of h l ≡ₚ map (transition_info id h) ts ->
  Forall named l ->
  lget (w_user w) !! (h, id) = None ->
  let o := metric_set reg ns in
  exists w', report_all o l w = (Ret tt, w')
    /\ (forall tr, tr ∈ ts -> (forall tr', tr' ∈ ts -> tr_seq tr' <= tr_seq tr) ->
          gauge_of o h w' = float_of_Z <$> gauge_value (breakerState (tr_to tr)))
    /\ (ts = [] -> gauge_of o h w' = gauge_of o h w)
    /\ (ts ≡ₚ cs_trace s -> ts <> [] ->
          gauge_of o h w' = float_of_Z <$> gauge_value (breakerState (hb_state (cs_breaker s))))
    /\ (forall tr, let k := transition_labels (transition_info id h tr) in
          p_count (w_user w') (breakerTransitions o) k
          = p_count (w_user w) (breakerTransitions o) k
            + Z.of_nat (length (filter (fun tr' => transition_labels (transition_info id h tr') = k) ts))).
Proof.
  intros Hreach Hsub Hperm Hnamed Hfresh o.
  destruct (report_all_run reg ns l w Hnamed) as (w' & Hrun & Hg & Hc).
  pose proof (gauge_fold h id l None (lget (w_user w), gauge_of o h w) (gauge_of o h w)
    (delivered_gauges id h ts l Hperm) Hfresh eq_refl) as Hfold.
  rewrite <- Hg in Hfold. simpl in Hfold.
  assert (Hlast : forall tr, tr ∈ ts -> (forall tr', tr' ∈ ts -> tr_seq tr' <= tr_seq tr) ->
    gauge_of o h w' = float_of_Z <$> gauge_value (breakerState (tr_to tr))).
  { intros tr Hin Hmax. unfold o. rewrite Hfold.
    by rewrite (later_delivered cfg t0 s id h Hreach ts l Hsub Hperm tr Hin Hmax). }
  exists w'. split; [exact Hrun|]. split; [exact Hlast|]. split; [|split].
  - intros ->. apply Permutation_nil_r in Hperm. unfold o. rewrite Hfold. by rewrite Hperm.
  - intros Hall Hne. pose proof (ci_trace s (cb_reachable_inv _ _ _ Hreach)) as Hgt.
    destruct (good_trace_last _ _ _ Hgt) as (tr & Hin & <- & Hmax).
    { intros E. rewrite E in Hall. by apply Permutation_nil_r in Hall. }
    apply Hlast; [by rewrite Hall|]. intros tr' Hin'. apply Hmax. by rewrite <- Hall.
  - intros tr k. unfold o. rewrite Hc. f_equal. unfold k, transition_labels at 1.
    rewrite count_transitions. f_equal. fold k. rewrite Hperm.
    apply length_filter_map.
Qed.

(** ** Labels *)

(** A signal with everything that is not a label, a duration or the order of a
    breaker taken away: identifiers, subjects, deliveries, errors, payloads. *)
Definition bounded (s : signal) : signal :=
  match s with
  | SRetryAttempt i => SRetryAttempt (mkRetryAttempt (ra_handler i) (ra_event i) 0 (ra_class i) None 0 0)
  | SBreakerTransition t =>
      SBreakerTransition (mkBreakerTransition (bt_handler t) (bt_from t) (bt_to t) (bt_reason t) 0 0
        (bt_seq t) (bt_breaker_id t))
  | SFailure f =>
      SFailure (mkFailureContext "" None zero_metadata OutcomeFailed "" None InvokerTransport 0
        zero_delivery BreakerNone [] 0)
  | SDeadLettered i =>
      SDeadLettered (mkDeadLetterInfo (dl_handler i) (dl_event i) (dl_reason i) "" 0 zero_delivery 0 0)
  | SHandlerDone r =>
      SHandlerDone (mkHandlerResult (hr_handler r) (hr_event r) (hr_outcome r) (hr_duration r) None 0)
  | SDecodeFailed f => SDecodeFailed (mkDecodeFailure "" "" (df_reason f) None zero_delivery false)
  | SDLQPublishFailed f =>
      SDLQPublishFailed (mkDLQPublishFailure (pf_handler f) (pf_event f) "" "" 0 None zero_delivery false)
  | SStoreError e =>
      SStoreError (mkStoreErrorInfo (se_handler e) "" (se_store e) (se_op e) None)
  | SIdempotencyStale s => SIdempotencyStale (mkIdempotencyStaleInfo (is_handler s) "" 0)
  | SInternalError e => SInternalError (mkInternalErrorInfo (ie_component e) (ie_op e) "" "" None)
  end.

(** C26: label discipline. The metric set declares each vector once, and every
    method gives each vector it uses one value per declared label, so that no
    signal whose names are valid UTF-8 panics on the handler's goroutine, and the
    method touches nothing but the client's series and the observer's own map. What
    is recorded depends on the bounded fields alone: no identifier, subject, error
    text or delivery reaches a label. *)
Theorem labels_are_declared {U : Type} `{PL : PromLaws U} (reg : nat) (ns : string) (s : signal)
    (w : World U) :
  named s ->
  (exists u', Prometheus.observe (metric_set reg ns) s w = put_user u' w)
  /\ Prometheus.observe (metric_set reg ns) (bounded s) = Prometheus.observe (metric_set reg ns) s
  /\ NoDup (vectors (metric_set reg ns)).
Proof.
  intros Hn. split; [|split].
  - destruct (observe_observed reg ns s w Hn) as (u' & Hr & _). eauto.
  - by destruct s.
  - apply (NoDup_fmap_1 v_name), (bool_decide_unpack _). vm_compute. exact I.
Qed.

(** ** The two observers

    The documented translation of OpenTelemetry metrics to Prometheus: dots become
    underscores, the unit s a suffix, counters end in _total, and the attributes of
    a recording are the labels. Over it an OpenTelemetry meter provider is a view of
    a Prometheus client. *)
Section exporter.
Context {U : Type} `{PromClient U, Lens (gmap breakerKey Z) U}.

Fixpoint underscores (s : string) : string :=
  match s with
  | EmptyString => ""
  | String c r => String (if Ascii.eqb c "."%char then "_"%char else c) (underscores r)
  end.
Definition exported_name (k : VecKind) (name unit_ : string) : string :=
  underscores name +:+ (if String.eqb unit_ "s" then "_seconds" else "")
  +:+ match k with CounterVec => "_total" | _ => "" end.

Definition label_value (v : attr_value) : string :=
  match v with AString s => s | AInt z => pretty z | ABool b => if b then "true" else "false" end.

(** The vector of an instrument that is recorded with these attributes. *)
Definition exported (v : Vec) (kvs : list KeyValue) : Vec :=
  mkVec (v_registry v) (v_kind v) (v_namespace v) (v_name v) (v_buckets v) (map fst kvs).
Definition recorded (f : Vec -> list string -> M U unit) (i : option Vec) (kvs : list KeyValue)
    : M U unit :=
  match i with
  | Some v => f (exported v kvs) (map (fun kv => label_value kv.2) kvs)
  | None => mret tt
  end.

Context (is_recording : Ctx -> M U bool) (add_event : Ctx -> string -> list KeyValue -> M U unit).
Context (error_type : goerr -> KeyValue).

(** An instrument, none for the no-op one. *)
Definition new_instrument (k : VecKind) (m : option nat) (name unit_ : string) (buckets : list float64)
    : M U (option (option Vec) * goerr) :=
  mret (Some ((fun reg => mkVec reg k "" (exported_name k name unit_) buckets []) <$> m), None).

Definition exporter : OtelSDK U := {|
  MeterProvider := nat;
  Meter := option nat;
  Instrument := option Vec;
  mp_Meter reg _ := mret (Some reg);
  noop_meter := None;
  new_Int64Counter m name unit_ := new_instrument CounterVec m name unit_ [];
  new_Int64Gauge m name unit_ := new_instrument GaugeVec m name unit_ [];
  new_Float64Histogram m name unit_ buckets := new_instrument HistogramVec m name unit_ buckets;
  counter_Add i _ n kvs :=
    Nat.iter (Z.to_nat n) (fun m => _ ← recorded prom_inc i kvs; m) (mret tt);
  gauge_Record i _ v kvs := recorded (fun vec vals => prom_set vec vals (float_of_Z v)) i kvs;
  histogram_Record i _ x kvs := recorded (fun vec vals => prom_observe vec vals x) i kvs;
  otel_Handle _ := mret tt;
  ErrorType := error_type;
  span_IsRecording := is_recording;
  span_AddEvent := add_event;
|}.

(** The instruments [newInstruments] creates on a registry. *)
Definition exported_instruments (reg : nat) : @instruments U exporter :=
  let ins k name unit_ buckets := Some (Some (mkVec reg k "" (exported_name k name unit_) buckets [])) in
  let counter name unit_ := ins CounterVec name unit_ [] in
  @mkInstruments U exporter
    (ins HistogramVec "eventbus.handler.duration" "s" DefaultBuckets)
    (counter "eventbus.handler" "{message}")
    (counter "eventbus.retry.attempts" "{attempt}")
    (counter "eventbus.breaker.transitions" "{transition}")
    (ins GaugeVec "eventbus.breaker.state" "{state}" [])
    (counter "eventbus.dlq.records" "{record}")
    (counter "eventbus.dlq.publish.errors" "{error}")
    (counter "eventbus.decode.failures" "{failure}")
    (counter "eventbus.store.errors" "{error}")
    (counter "eventbus.idempotency.stale" "{lock}")
    (counter "eventbus.internal.errors" "{error}").

(** One increment. *)
Lemma count_once v c kvs w :
  @count U exporter (Some (Some v)) c kvs w
  = prom_inc (exported v kvs) (map (fun kv => label_value kv.2) kvs) w.
Proof using Type.
  unfold count. simpl. unfold mbind, M_bind.
  by destruct (prom_inc _ _ w) as [[[]|e|] w1].
Qed.

(** The signals in the order in which the methods ran. *)
Fixpoint record_all (o : @Telemetry.Observer U exporter) (l : list (Ctx * signal)) : M U unit :=
  match l with
  | [] => mret tt
  | (c, s) :: rest => _ ← @Telemetry.observe U exporter _ o c s; record_all o rest
  end.
End exporter.

(** C25: one metric set. An OpenTelemetry observer whose meter provider exports to
    Prometheus, and whose span events stay out of the program, makes the calls of a
    Prometheus client, series by series and in the same order, that the Prometheus
    observer makes on the same signals: the same names, labels, buckets, values and
    breaker order. *)
Theorem observers_agree {U : Type} `{PromClient U, Lens (gmap breakerKey Z) U}
    (is_recording : Ctx -> M U bool) (add_event : Ctx -> string -> list KeyValue -> M U unit)
    (error_type : goerr -> KeyValue) (reg : nat) (w : World U) :
  (forall c w, exists b, is_recording c w = (Ret b, w)) ->
  (forall c n kvs w, add_event c n kvs w = (Ret tt, w)) ->
  let sdk := exporter is_recording add_event error_type in
  exists o w1, @Telemetry.NewObserver U sdk _ [@WithMeterProvider U sdk reg] w = (Ret o, w1)
    /\ forall (l : list (Ctx * signal)) w2,
         record_all is_recording add_event error_type o l w2
         = report_all (metric_set reg "") (map snd l) w2.
Proof.
  intros Hrec Hadd sdk. exists (Some (exported_instruments is_recording add_event error_type reg)).
  eexists. split; [reflexivity|].
  assert (Hev : forall c n kvs w, @addEvent U sdk c n kvs w = (Ret tt, w)).
  { intros c n kvs w2. unfold addEvent, mbind, M_bind. simpl.
    destruct (Hrec c w2) as [[|] ->]; [apply Hadd|done]. }
  induction l as [|[c s] l IH]; intros w2; [done|]. cbn [record_all report_all map snd].
  apply bind_ext; [|intros _ w3; apply IH].
  destruct s as [i|t|f|i|r|f|f|e|i|e]; cbn [Telemetry.observe Prometheus.observe];
    [unfold Telemetry.RetryAttempt|unfold Telemetry.BreakerTransition|done
    |unfold Telemetry.DeadLettered|unfold Telemetry.HandlerDone|unfold Telemetry.DecodeFailed
    |unfold Telemetry.DLQPublishFailed|unfold Telemetry.StoreError|unfold Telemetry.IdempotencyStale
    |unfold Telemetry.InternalError];
    cbv zeta; rewrite ?(bind_run _ _ _ _ _ (Hev _ _ _ _)); cbn [with_instruments];
    try (etransitivity; [apply count_once|]; reflexivity).
  - apply bind_ext; [apply count_once|]. intros _ w3. unfold recordBreakerState.
    destruct (gauge_value _) as [v|]; [|done]. apply bind_ext; [done|]. by intros [|] w4.
  - apply bind_ext; [done|]. intros _ w3. apply count_once.
Qed.

(** ** A concrete client

    It keeps every call and panics, as the client library does, when a value is
    missing, too many, or not UTF-8. *)
Record demo_prom := mkDemoProm {
  dp_last : gmap breakerKey Z;
  dp_calls : list (Vec * list string);
  dp_gauges : list (Vec * list string * float64);
}.

#[local] Program Instance demo_last : Lens (gmap breakerKey Z) demo_prom := {|
  lget u := dp_last u;
  lput s u := mkDemoProm s (dp_calls u) (dp_gauges u);
|}.
Solve All Obligations with try done.
Next Obligation. by intros []. Qed.

Definition labels_okb (v : Vec) (vals : list string) : bool :=
  bool_decide (length vals = length (v_labels v))
  && forallb (fun s => bool_decide (ToValidUTF8 (to_bytes s) = to_bytes s)) vals.

Definition when_ok (v : Vec) (vals : list string) (f : demo_prom -> demo_prom) : M demo_prom unit :=
  if labels_okb v vals then u ← get_user; put_user (f u) else panic (mkAny "labels" None).

#[local] Instance demo_client : PromClient demo_prom := {|
  DefaultRegisterer := 0%nat;
  prom_declare _ := mret tt;
  prom_inc v vals := when_ok v vals (fun u =>
    mkDemoProm (dp_last u) ((v, vals) :: dp_calls u) (dp_gauges u));
  prom_observe v vals _ := when_ok v vals (fun u =>
    mkDemoProm (dp_last u) ((v, vals) :: dp_calls u) (dp_gauges u));
  prom_set v vals x := when_ok v vals (fun u =>
    mkDemoProm (dp_last u) (dp_calls u) ((v, vals, x) :: dp_gauges u));
|}.

Definition demo_count (u : demo_prom) (v : Vec) (l : list string) : Z :=
  Z.of_nat (length (filter (fun c => c = (v, l)) (dp_calls u))).
Definition demo_gauge (u : demo_prom) (v : Vec) (l : list string) : option float64 :=
  first_some (fun c => if decide (c.1 = (v, l)) then Some c.2 else None) (dp_gauges u).

Lemma labels_okb_ok v vals : labels_ok v vals -> labels_okb v vals = true.
Proof.
  intros [Hl Hv]. unfold labels_okb. rewrite bool_decide_eq_true_2 by done. simpl.
  apply forallb_forall. intros s Hs. apply bool_decide_eq_true_2, ToValidUTF8_id.
  rewrite Forall_forall in Hv. apply Hv. by apply list_elem_of_In.
Qed.

Lemma when_ok_run v vals f (w : World demo_prom) :
  labels_ok v vals -> when_ok v vals f w = put_user (f (w_user w)) w.
Proof. intros Hok. unfold when_ok. by rewrite (labels_okb_ok _ _ Hok). Qed.

Lemma demo_count_cons v vals v' l calls gs last :
  demo_count (mkDemoProm last ((v, vals) :: calls) gs) v' l
  = demo_count (mkDemoProm last calls gs) v' l + if decide ((v', l) = (v, vals)) then 1 else 0.
Proof.
  unfold demo_count. simpl. rewrite filter_cons.
  destruct (decide ((v, vals) = (v', l))) as [He|Hne]; destruct (decide _) as [He2|Hne2];
    simpl; try lia; congruence.
Qed.

#[local] Program Instance demo_laws : PromLaws demo_prom := {|
  p_count := demo_count; p_gauge := demo_gauge;
|}.
Next Obligation.
  intros v vals w Hok _. eexists. split; [by apply when_ok_run|]. split; [|done].
  intros v' l. destruct (w_user w). apply demo_count_cons.
Qed.
Next Obligation.
  intros v vals x w Hok _. eexists. split; [by apply when_ok_run|]. split; [|done].
  intros v' l. destruct (w_user w). apply demo_count_cons.
Qed.
Next Obligation.
  intros v vals x w Hok _. eexists. split; [by apply when_ok_run|]. split; [done|]. split; [|done].
  intros v' l. unfold demo_gauge. simpl.
  destruct (decide ((v, vals) = (v', l))) as [He|Hne]; destruct (decide _) as [He2|Hne2];
    congruence.
Qed.
Next Obligation. done. Qed.
Next Obligation. done. Qed.

Definition demo_prom_world : World demo_prom :=
  mkWorld 0 [] ∅ 0 ∅ ∅ (mkDemoProm ∅ [] []).

(** A transition of the breaker of [demo_reachable], delivered late. *)
Definition demo_signals : list signal :=
  [SBreakerTransition (transition_info 1 "h" demo_tr2);
   SHandlerDone (mkHandlerResult "h" "order.created" OutcomeOK (10 ^ 9) None 0);
   SBreakerTransition (transition_info 1 "h" demo_tr1)].

Lemma demo_signals_named : Forall named demo_signals.
Proof. repeat constructor; apply literal_valid; reflexivity. Qed.

Lemma gauge_follows_breaker_witness :
  exists w', report_all (metric_set 0 "") demo_signals demo_prom_world = (Ret tt, w')
    /\ gauge_of (metric_set 0 "") "h" w' = Some (float_of_Z 2).
Proof.
  destruct (gauge_follows_breaker demo_cfg 5 demo_half_open 1 "h" [demo_tr1; demo_tr2] demo_signals
    0 "" demo_prom_world) as (w' & Hr & _ & _ & Hg & _).
  - exact demo_reachable.
  - reflexivity.
  - unfold demo_signals. apply Permutation_swap.
  - exact demo_signals_named.
  - reflexivity.
  - exists w'. split; [exact Hr|]. rewrite Hg; [reflexivity|reflexivity|discriminate].
Defined.

Lemma labels_are_declared_witness :
  exists u', Prometheus.observe (metric_set 0 "shop") (SDecodeFailed
      (mkDecodeFailure "h" "orders" "bad_payload" None zero_delivery true)) demo_prom_world
    = put_user u' demo_prom_world.
Proof.
  destruct (labels_are_declared 0 "shop" (SDecodeFailed
      (mkDecodeFailure "h" "orders" "bad_payload" None zero_delivery true)) demo_prom_world)
    as (Hr & _ & _); [repeat constructor; apply literal_valid; reflexivity|exact Hr].
Defined.

Lemma observers_agree_witness :
  let sdk := exporter (U := demo_prom) (fun _ => mret true) (fun _ _ _ => mret tt)
               (fun _ => ("error.type", AString "*errors.errorString")) in
  exists o w1, @Telemetry.NewObserver demo_prom sdk _ [@WithMeterProvider demo_prom sdk 0%nat]
      demo_prom_world = (Ret o, w1)
    /\ record_all _ _ _ o (map (pair background) demo_signals) demo_prom_world
       = report_all (metric_set 0 "") demo_signals demo_prom_world.
Proof.
  destruct (observers_agree (U := demo_prom) (fun _ => mret true) (fun _ _ _ => mret tt)
    (fun _ => ("error.type", AString "*errors.errorString")) 0 demo_prom_world)
    as (o & w1 & Ho & Hl).
  - intros c w. by exists true.
  - done.
  - exists o, w1. split; [exact Ho|]. exact (Hl (map (pair background) demo_signals) demo_prom_world).
Defined.
