(* ===== verification/SlogObserver.v ===== *)
(** * The log observer

    src/slog_observer.go: the record each signal becomes, and the deduplication of
    the records of one series within a window. The sink, a [slog.Logger], is not part
    of the repository; a record counts as written when it is handed to it.

    [record], [flush_key] and [flush] are the critical sections of the mutex. The
    record that a caller writes after it has released the mutex, and the timer that
    ends a window, are steps of [so_step], which interleaves them freely. The clock of
    a call is read before the mutex is taken, so that calls enter in any order of
    their times. An entry is known by the identity of its pointer. *)

From S2P Require Import Prelude GoErrors Types Failure Runtime Observer.
Local Open Scope string_scope.
Local Open Scope list_scope.
Local Open Scope Z_scope.

Definition DefaultLogEvery : Z := 10 * 10 ^ 9.
Definition soMaxKeys : Z := 1024.
Definition soSummaryMsg := "eventbus: repeated log records suppressed".

Inductive Level := LevelDebug | LevelInfo | LevelWarn | LevelError.

(** The values of [slog.Attr] in use. *)
Inductive attr_value :=
| AString (s : string)
| AInt (n : Z)
| AUint64 (n : Z)
| ABool (b : bool)
| ADuration (d : Z).
Definition attr : Type := string * attr_value.

(** [soKey]. *)
Record soKey := mkSoKey { k_signal : string; k_handler : string; k_outcome : string; k_reason : string }.

#[export] Instance soKey_eq_dec : EqDecision soKey.
Proof. solve_decision. Defined.
#[export] Program Instance soKey_countable : Countable soKey :=
  inj_countable' (fun k => (k_signal k, k_handler k, k_outcome k, k_reason k))
    (fun x => mkSoKey x.1.1.1 x.1.1.2 x.1.2 x.2) _.
Next Obligation. by intros []. Qed.

(** ** From a signal to a record *)

(** A call of [record], or of [log] when the signal is never deduplicated. *)
Record request := mkRequest {
  rq_key : option soKey;
  rq_level : Level;
  rq_msg : string;
  rq_attrs : list attr;
}.

(** [soOpt]. *)
Definition soOpt (key v : string) : list attr := if String.eqb v "" then [] else [(key, AString v)].

(** The error text, and the stack of a recovered panic. *)
Definition err_attr (err : goerr) : list attr :=
  match err with Some e => [("err", AString (error_text e))] | None => [] end.
Definition stack_attr (err : goerr) : list attr :=
  match As as_panic err with Some (_, stack) => soOpt "stack" stack | None => [] end.

Definition invoker_string (i : FailingInvoker) : string :=
  match i with
  | InvokerRetry => "retry"
  | InvokerCircuitBreaker => "circuit_breaker"
  | InvokerDLQ => "dlq"
  | InvokerTransport => "transport"
  end.

(** [Failure], once the name of the event is known. *)
Definition failure_request (f : FailureContext) (name : option string) : request :=
  let level := if Is (fc_cause f) ErrDeadLettered || bool_decide (fc_outcome f = OutcomeRejected)
               then LevelWarn else LevelError in
  mkRequest (Some (mkSoKey "failure" (fc_handler f) (outcome_string (fc_outcome f)) (fc_reason f)))
    level "eventbus: message failed"
    ([("outcome", AString (outcome_string (fc_outcome f))); ("reason", AString (fc_reason f));
      ("handler", AString (fc_handler f))]
     ++ match name with Some n => [("event", AString n)] | None => [] end
     ++ soOpt "event_id" (md_id (fc_metadata f))
     ++ soOpt "correlation_id" (md_correlation_id (fc_metadata f))
     ++ [("attempts", AInt (fc_attempts f)); ("delivery_count", AInt (d_count (fc_delivery f)));
         ("max_deliver", AInt (d_max (fc_delivery f)));
         ("subject", AString (d_subject (fc_delivery f)));
         ("invoker", AString (invoker_string (fc_invoker f)))]
     ++ soOpt "breaker" (breaker_string (fc_breaker f))
     ++ [("history_len", AInt (Z.of_nat (length (fc_history f))))]
     ++ err_attr (fc_cause f) ++ stack_attr (fc_cause f)).

(** The methods of [SlogObserver] on a signal: [None] when nothing is logged. *)
Definition signal_request {U} (s : signal) : M U (option request) :=
  match s with
  | SFailure f =>
      name ← match fc_event f with
             | Some e => n ← Name e; mret (Some n)
             | None => mret None
             end;
      mret (Some (failure_request f name))
  | SDeadLettered i =>
      mret (Some (mkRequest (Some (mkSoKey "dead_lettered" (dl_handler i) "" (dl_reason i)))
        LevelInfo "eventbus: message dead-lettered"
        [("handler", AString (dl_handler i)); ("event", AString (dl_event i));
         ("reason", AString (dl_reason i)); ("subject", AString (dl_subject i));
         ("attempts", AInt (dl_attempts i)); ("delivery_count", AInt (d_count (dl_delivery i)));
         ("size", AInt (dl_size i))]))
  | SDecodeFailed f =>
      mret (Some (mkRequest (Some (mkSoKey "decode_failed" (df_handler f) "" (df_reason f)))
        LevelWarn "eventbus: decode failed"
        ([("handler", AString (df_handler f)); ("subject", AString (df_subject f));
          ("reason", AString (df_reason f)); ("delivery_count", AInt (d_count (df_delivery f)));
          ("final", ABool (df_final f))] ++ err_attr (df_err f))))
  | SDLQPublishFailed f =>
      mret (Some (mkRequest (Some (mkSoKey "dlq_publish_failed" (pf_handler f) "" (pf_reason f)))
        LevelError "eventbus: dead-letter publish failed"
        ([("handler", AString (pf_handler f)); ("event", AString (pf_event f));
          ("reason", AString (pf_reason f)); ("subject", AString (pf_subject f));
          ("attempts", AInt (pf_attempts f)); ("final", ABool (pf_final f))] ++ err_attr (pf_err f))))
  | SStoreError e =>
      mret (Some (mkRequest
        (Some (mkSoKey "store_error" (se_handler e) "" (se_store e +:+ ":" +:+ se_op e)))
        LevelError "eventbus: store error"
        ([("handler", AString (se_handler e)); ("event", AString (se_event e));
          ("store", AString (se_store e)); ("op", AString (se_op e))] ++ err_attr (se_err e))))
  | SIdempotencyStale i =>
      mret (Some (mkRequest (Some (mkSoKey "idempotency_stale" (is_handler i) "" ""))
        LevelWarn "eventbus: stale idempotency lock"
        [("handler", AString (is_handler i)); ("event", AString (is_event i));
         ("age", ADuration (is_age i))]))
  | SInternalError e =>
      mret (Some (mkRequest
        (Some (mkSoKey "internal_error" (ie_handler e) "" (ie_component e +:+ ":" +:+ ie_op e)))
        LevelError "eventbus: internal error"
        ([("component", AString (ie_component e)); ("op", AString (ie_op e));
          ("handler", AString (ie_handler e)); ("subject", AString (ie_subject e))]
         ++ err_attr (ie_err e) ++ stack_attr (ie_err e))))
  | SBreakerTransition t =>
      mret (Some (mkRequest None (if bool_decide (bt_to t = BreakerOpen) then LevelWarn else LevelInfo)
        "eventbus: circuit breaker transition"
        [("handler", AString (bt_handler t)); ("from", AString (breaker_string (bt_from t)));
         ("to", AString (breaker_string (bt_to t)));
         ("reason", AString (breaker_reason_string (bt_reason t)));
         ("failures", AInt (bt_failures t)); ("seq", AUint64 (bt_seq t))]))
  | SRetryAttempt i =>
      mret (Some (mkRequest None LevelDebug "eventbus: retry scheduled"
        ([("handler", AString (ra_handler i)); ("event", AString (ra_event i));
          ("attempt", AInt (ra_attempt i)); ("class", AString (attempt_class_string (ra_class i)));
          ("delay", ADuration (ra_delay i))] ++ err_attr (ra_err i))))
  | SHandlerDone _ => mret None
  end.

(** ** Deduplication *)

(** [soEntry], with the identity of its pointer. *)
Record soEntry := mkSoEntry {
  en_id : nat;
  en_first : Z;
  en_suppressed : nat;
  en_level : Level;
}.

(** [SlogObserver.entries], and the next identity. *)
Record slog := mkSlog { sl_entries : gmap soKey soEntry; sl_next : nat }.
Definition new_slog : slog := mkSlog ∅ 0.

(** A record to write after the mutex is released: a record itself, or a summary. *)
Inductive line := Plain (k : soKey) (level : Level) | Summary (k : soKey) (level : Level) (n : nat).

Section dedup.
Context (every : Z).

(** [WithLogEvery]. *)
Definition WithLogEvery (d : Z) : Z := if d <? 0 then 0 else d.

(** The window of [e] has ended at [now] with nothing suppressed. *)
Definition idle (now : Z) (e : soEntry) : bool :=
  bool_decide (en_suppressed e = 0%nat) && (every <=? now - en_first e).

(** Making room: every key whose window is over. *)
Definition evict (now : Z) (m : gmap soKey soEntry) : gmap soKey soEntry :=
  if (soMaxKeys <=? Z.of_nat (size m)) then filter (fun kv => idle now kv.2 = false) m else m.

(** The critical section of [record] when deduplication is on: the new state, the
    record to write, and the timer that was started. *)
Definition record (now : Z) (k : soKey) (level : Level) (s : slog)
    : slog * list line * option (soKey * nat) :=
  match sl_entries s !! k with
  | Some e =>
      if idle now e
      then (mkSlog (<[k := mkSoEntry (en_id e) now 0 level]> (sl_entries s)) (sl_next s),
            [Plain k level], None)
      else (mkSlog (<[k := mkSoEntry (en_id e) (en_first e) (S (en_suppressed e)) (en_level e)]>
                      (sl_entries s)) (sl_next s),
            [], if bool_decide (en_suppressed e = 0%nat) then Some (k, en_id e) else None)
  | None =>
      let m := evict now (sl_entries s) in
      if (soMaxKeys <=? Z.of_nat (size m))
      then (mkSlog m (sl_next s), [Plain k level], None)
      else (mkSlog (<[k := mkSoEntry (sl_next s) now 0 level]> m) (S (sl_next s)),
            [Plain k level], None)
  end.

(** [summary]. *)
Definition summary (k : soKey) (e : soEntry) : line := Summary k (en_level e) (en_suppressed e).

(** [flushKey]. *)
Definition flush_key (k : soKey) (id : nat) (s : slog) : slog * list line :=
  match sl_entries s !! k with
  | Some e => if bool_decide (en_id e = id)
              then (mkSlog (delete k (sl_entries s)) (sl_next s), [summary k e])
              else (s, [])
  | None => (s, [])
  end.

(** [Flush]: the entries with a pending summary. *)
Definition pending (s : slog) : list (soKey * soEntry) :=
  filter (fun kv => en_suppressed kv.2 <> 0%nat) (map_to_list (sl_entries s)).
Definition flush (s : slog) : slog * list line :=
  (mkSlog ∅ (sl_next s), map (fun kv => summary kv.1 kv.2) (pending s)).

(** ** Goroutines *)

(** The state, the timers that are armed, the timer goroutines not in their critical
    section yet, the records on their way to the sink, the sink, and the calls. *)
Record so_sys := mkSoSys {
  ss_state : slog;
  ss_armed : gset (soKey * nat);
  ss_fired : gset (soKey * nat);
  ss_writing : list line;
  ss_sink : list line;
  ss_calls : list soKey;
}.

Definition so_start : so_sys := mkSoSys new_slog ∅ ∅ [] [] [].

(** A call of [record] of a deduplicated signal. *)
Definition call_record (now : Z) (k : soKey) (level : Level) (s : so_sys) : so_sys :=
  let calls := ss_calls s ++ [k] in
  if every <=? 0
  then mkSoSys (ss_state s) (ss_armed s) (ss_fired s) (ss_writing s ++ [Plain k level]) (ss_sink s) calls
  else
    let '(st, ls, timer) := record now k level (ss_state s) in
    mkSoSys st (match timer with Some t => {[t]} ∪ ss_armed s | None => ss_armed s end)
      (ss_fired s) (ss_writing s ++ ls) (ss_sink s) calls.

(** A timer goroutine in [flushKey]. *)
Definition call_flush_key (t : soKey * nat) (s : so_sys) : so_sys :=
  let '(st, ls) := flush_key t.1 t.2 (ss_state s) in
  mkSoSys st (ss_armed s) (ss_fired s ∖ {[t]}) (ss_writing s ++ ls) (ss_sink s) (ss_calls s).

(** [Flush] stops the timers of the entries it reports; one that has fired goes on. *)
Definition call_flush (s : so_sys) : so_sys :=
  let stopped := list_to_set (map (fun kv => (kv.1, en_id kv.2)) (pending (ss_state s))) in
  let '(st, ls) := flush (ss_state s) in
  mkSoSys st (ss_armed s ∖ stopped) (ss_fired s) (ss_writing s ++ ls) (ss_sink s) (ss_calls s).

Inductive so_step : so_sys -> so_sys -> Prop :=
| so_record s now k level : so_step s (call_record now k level s)
| so_fire s t : t ∈ ss_armed s ->
    so_step s (mkSoSys (ss_state s) (ss_armed s ∖ {[t]}) ({[t]} ∪ ss_fired s) (ss_writing s)
                 (ss_sink s) (ss_calls s))
| so_flush_key s t : t ∈ ss_fired s -> so_step s (call_flush_key t s)
| so_flush s : so_step s (call_flush s)
| so_write s l1 x l2 : ss_writing s = l1 ++ x :: l2 ->
    so_step s (mkSoSys (ss_state s) (ss_armed s) (ss_fired s) (l1 ++ l2) (ss_sink s ++ [x]) (ss_calls s)).

Definition so_reachable (s : so_sys) : Prop := rtc so_step so_start s.
End dedup.
