(* ===== verification/SlogObserverSpec.v ===== *)
(** * Properties of the log observer

    Every record is written or counted, whatever the interleaving of callers, timers
    and flushes, and a storm costs one line and one summary. *)

From S2P Require Import Prelude GoErrors Types Failure Runtime Observer SlogObserver.
Local Open Scope string_scope.
Local Open Scope list_scope.
Local Open Scope Z_scope.

(** ** Counting *)

(** The records of the series [k] that a line stands for. *)
Definition weight (k : soKey) (l : line) : nat :=
  match l with
  | Plain k' _ => if decide (k' = k) then 1 else 0
  | Summary k' _ n => if decide (k' = k) then n else 0
  end.
Definition accounted (k : soKey) (ls : list line) : nat := sum_list_with (weight k) ls.

Lemma accounted_app k l1 l2 : accounted k (l1 ++ l2) = (accounted k l1 + accounted k l2)%nat.
Proof. apply sum_list_with_app. Qed.

(** The records of [k] waiting for the summary of its window. *)
Definition held_back (k : soKey) (s : slog) : nat :=
  match sl_entries s !! k with Some e => en_suppressed e | None => 0 end.

Definition calls_of (k : soKey) (l : list soKey) : nat := length (filter (fun x => x = k) l).

(** No summary reports zero records. *)
Definition honest (l : line) : Prop := match l with Summary _ _ n => n <> 0%nat | Plain _ _ => True end.

Section dedup.
Context (every : Z).
Implicit Types (k : soKey) (s : slog) (e : soEntry) (x : so_sys).

(** ** The critical sections *)

Lemma evict_lookup now m k e : evict every now m !! k = Some e -> m !! k = Some e.
Proof. unfold evict. case_match; [|done]. intros Hl. by apply map_lookup_filter_Some in Hl as [Hl _]. Qed.

(** Eviction takes nothing that is still to be reported. *)
Lemma evict_held now s k : held_back k (mkSlog (evict every now (sl_entries s)) (sl_next s)) = held_back k s.
Proof.
  unfold held_back, evict. simpl. destruct (soMaxKeys <=? _); [|done]. rewrite map_lookup_filter.
  destruct (sl_entries s !! k) as [e|]; [|done]. simpl. unfold idle.
  destruct (decide (en_suppressed e = 0%nat)) as [H0|H0].
  - case_guard; simpl; [done|by rewrite H0].
  - rewrite bool_decide_eq_false_2 by done. by case_guard.
Qed.

Lemma record_conserves now k level s k' :
  let r := record every now k level s in
  (accounted k' r.1.2 + held_back k' r.1.1 = held_back k' s + if decide (k = k') then 1 else 0)%nat.
Proof.
  unfold record. destruct (sl_entries s !! k) as [e|] eqn:He.
  - destruct (idle every now e) eqn:Hi; unfold held_back; simpl;
      (destruct (decide (k = k')) as [<-|Hne]; [rewrite lookup_insert_eq, He|rewrite lookup_insert_ne by done]);
      simpl; try lia. unfold idle in Hi. b2p. apply bool_decide_eq_true in H. lia.
  - pose proof (evict_held now s k') as Hev. destruct (soMaxKeys <=? _); unfold held_back in *; simpl in *.
    + rewrite Hev. destruct (decide (k = k')); lia.
    + destruct (decide (k = k')) as [<-|Hne].
      * rewrite lookup_insert_eq, He. simpl. lia.
      * rewrite lookup_insert_ne by done. rewrite Hev. lia.
Qed.

Lemma flush_key_conserves k id s k' :
  let r := flush_key k id s in
  (accounted k' r.2 + held_back k' r.1 = held_back k' s)%nat.
Proof.
  unfold flush_key. destruct (sl_entries s !! k) as [e|] eqn:He; [|done].
  case_bool_decide; [|done]. unfold held_back. simpl.
  destruct (decide (k = k')) as [<-|Hne].
  - rewrite lookup_delete_eq, He. simpl. lia.
  - by rewrite lookup_delete_ne.
Qed.

(** The summaries of a list of entries with distinct keys. *)
Lemma accounted_summaries k (l : list (soKey * soEntry)) : NoDup l.*1 ->
  accounted k (map (fun kv => summary kv.1 kv.2) l)
  = match list_to_map (M := gmap soKey soEntry) l !! k with Some e => en_suppressed e | None => 0%nat end.
Proof.
  induction l as [|[k' e] l IH]; intros Hnd; [done|]. apply NoDup_cons in Hnd as [Hk Hnd].
  simpl in *. unfold accounted in *. simpl. rewrite IH by done. destruct (decide (k' = k)) as [->|Hne].
  - rewrite lookup_insert_eq. rewrite not_elem_of_list_to_map_1 by done. lia.
  - by rewrite lookup_insert_ne.
Qed.

Lemma flush_conserves s k : accounted k (flush s).2 = held_back k s.
Proof.
  unfold flush, pending. simpl.
  rewrite accounted_summaries by (eapply sublist_NoDup; [apply (NoDup_fst_map_to_list (sl_entries s))|apply fmap_sublist, sublist_filter]).
  rewrite <- map_filter_alt. unfold held_back. rewrite map_lookup_filter.
  destruct (sl_entries s !! k) as [e|]; [|done]. simpl. case_guard; simpl; [done|lia].
Qed.

(** ** The invariant *)

(** A timer belongs to an entry with something to report, or to none any more. *)
Definition timer_ok s (t : soKey * nat) : Prop :=
  (t.2 < sl_next s)%nat /\
  forall e, sl_entries s !! t.1 = Some e -> en_id e = t.2 -> en_suppressed e <> 0%nat.

(** The entries and the timers [T] that are not done. *)
Record windows_ok s (T : gset (soKey * nat)) : Prop := {
  wi_bounded : Z.of_nat (size (sl_entries s)) <= soMaxKeys;
  wi_ids k e : sl_entries s !! k = Some e -> (en_id e < sl_next s)%nat;
  wi_timed k e : sl_entries s !! k = Some e -> en_suppressed e <> 0%nat -> (k, en_id e) ∈ T;
  wi_timers t : t ∈ T -> timer_ok s t;
}.

(** An entry changes, its identity does not. *)
Lemma windows_update s T k e e' : windows_ok s T -> sl_entries s !! k = Some e ->
  en_id e' = en_id e -> (en_suppressed e <> 0%nat -> en_suppressed e' <> 0%nat) ->
  let T' := if bool_decide (en_suppressed e' = 0%nat) then T else {[ (k, en_id e) ]} ∪ T in
  windows_ok (mkSlog (<[k := e']> (sl_entries s)) (sl_next s)) T'.
Proof.
  intros [Hb Hi Ht Htm] He Hid Hs T'. split; simpl.
  - by rewrite map_size_insert_Some by eauto.
  - intros k' x. destruct (decide (k' = k)) as [->|Hne].
    + rewrite lookup_insert_eq. intros [= <-]. rewrite Hid. eauto.
    + rewrite lookup_insert_ne by done. apply Hi.
  - intros k' x. destruct (decide (k' = k)) as [->|Hne].
    + rewrite lookup_insert_eq. intros [= <-] Hx. unfold T'. rewrite bool_decide_eq_false_2 by done.
      rewrite Hid. set_solver.
    + rewrite lookup_insert_ne by done. intros Hx Hn. unfold T'. specialize (Ht k' x Hx Hn).
      case_bool_decide; set_solver.
  - intros t Hin. assert (Hor : t ∈ T \/ (t = (k, en_id e) /\ en_suppressed e' <> 0%nat)).
    { unfold T' in Hin. case_bool_decide; [by left|]. apply elem_of_union in Hin as [Hin|Hin]; [right|by left].
      apply elem_of_singleton in Hin as ->. done. }
    destruct Hor as [Hor|[-> Hn]].
    + destruct (Htm t Hor) as [Hlt Hx]. split; [done|]. intros x. simpl.
      destruct (decide (t.1 = k)) as [Hk|Hne]; [|by rewrite lookup_insert_ne; [apply Hx|done]].
      rewrite Hk, lookup_insert_eq. rewrite Hk in Hx. intros [= <-] Hidt. apply Hs, (Hx e He). congruence.
    + split; [simpl; eauto|]. intros x. simpl. rewrite lookup_insert_eq. by intros [= <-].
Qed.

Lemma windows_evict s T now : windows_ok s T ->
  windows_ok (mkSlog (evict every now (sl_entries s)) (sl_next s)) T.
Proof.
  intros [Hb Hi Ht Htm]. split; simpl.
  - etransitivity; [|exact Hb]. unfold evict. case_match; [|done]. apply inj_le, map_size_filter.
  - intros k e Hk. eapply Hi, evict_lookup, Hk.
  - intros k e Hk. eapply Ht, evict_lookup, Hk.
  - intros t Hin. destruct (Htm t Hin) as [Hlt Hx]. split; [done|]. intros e Hk.
    eapply Hx, evict_lookup, Hk.
Qed.

Lemma windows_insert s T k e : windows_ok s T -> sl_entries s !! k = None ->
  Z.of_nat (size (sl_entries s)) < soMaxKeys -> en_id e = sl_next s -> en_suppressed e = 0%nat ->
  windows_ok (mkSlog (<[k := e]> (sl_entries s)) (S (sl_next s))) T.
Proof.
  intros [Hb Hi Ht Htm] Hk Hlt Hid H0. split; simpl.
  - rewrite map_size_insert_None by done. lia.
  - intros k' x. destruct (decide (k' = k)) as [->|Hne].
    + rewrite lookup_insert_eq. intros [= <-]. lia.
    + rewrite lookup_insert_ne by done. intros Hx. specialize (Hi k' x Hx). lia.
  - intros k' x. destruct (decide (k' = k)) as [->|Hne].
    + rewrite lookup_insert_eq. by intros [= <-].
    + rewrite lookup_insert_ne by done. apply Ht.
  - intros t Hin. destruct (Htm t Hin) as [Hl Hx]. split; [simpl; lia|]. intros x. simpl.
    destruct (decide (t.1 = k)) as [Ht1|Hne]; [|by rewrite lookup_insert_ne; [apply Hx|done]].
    rewrite Ht1, lookup_insert_eq. intros [= <-]. lia.
Qed.

Definition timer_set (o : option (soKey * nat)) : gset (soKey * nat) :=
  match o with Some t => {[t]} | None => ∅ end.

Lemma windows_record now k level s T : windows_ok s T ->
  windows_ok (record every now k level s).1.1 (timer_set (record every now k level s).2 ∪ T).
Proof.
  intros Hw. unfold record. destruct (sl_entries s !! k) as [e|] eqn:He.
  - destruct (idle every now e) eqn:Hi; simpl.
    + unfold idle in Hi. b2p. apply bool_decide_eq_true in H.
      pose proof (windows_update s T k e (mkSoEntry (en_id e) now 0 level) Hw He eq_refl ltac:(done)) as Hu.
      simpl in Hu. by rewrite union_empty_l_L.
    + pose proof (windows_update s T k e (mkSoEntry (en_id e) (en_first e) (S (en_suppressed e)) (en_level e))
        Hw He eq_refl ltac:(done)) as Hu. cbv zeta in Hu. rewrite bool_decide_eq_false_2 in Hu by done.
      case_bool_decide as H0; simpl; [exact Hu|]. rewrite union_empty_l_L.
      replace ({[(k, en_id e)]} ∪ T) with T in Hu; [exact Hu|].
      pose proof (wi_timed s T Hw k e He H0). set_solver.
  - pose proof (windows_evict s T now Hw) as Hev. destruct (soMaxKeys <=? _) eqn:Hsz; b2p; simpl; rewrite union_empty_l_L; [done|].
    apply (windows_insert _ T k (mkSoEntry (sl_next s) now 0 level) Hev); simpl; try done.
    destruct (evict every now (sl_entries s) !! k) as [x|] eqn:Hx; [|done].
    apply evict_lookup in Hx. congruence.
Qed.

(** The window of [t] ends: its entry, if it is still there, is gone. *)
Lemma flush_key_entries t s k e : sl_entries (flush_key t.1 t.2 s).1 !! k = Some e ->
  sl_entries s !! k = Some e /\ (k, en_id e) <> t.
Proof.
  unfold flush_key. destruct (sl_entries s !! t.1) as [x|] eqn:Hx; [case_bool_decide as Hid|]; simpl.
  - destruct (decide (k = t.1)) as [->|Hne]; [by rewrite lookup_delete_eq|].
    rewrite lookup_delete_ne by done. intros Hk. split; [done|]. by intros <-.
  - intros Hk. split; [done|]. intros <-. simpl in *. congruence.
  - intros Hk. split; [done|]. intros <-. simpl in *. congruence.
Qed.

Lemma flush_key_next t s : sl_next (flush_key t.1 t.2 s).1 = sl_next s.
Proof. unfold flush_key. by repeat case_match. Qed.

Lemma flush_key_size t s : (size (sl_entries (flush_key t.1 t.2 s).1) <= size (sl_entries s))%nat.
Proof.
  apply map_subseteq_size, map_subseteq_spec. intros k e Hk. by apply flush_key_entries in Hk as [Hk _].
Qed.

Lemma windows_flush_key t s A F : windows_ok s (A ∪ F) -> t ∈ F ->
  windows_ok (flush_key t.1 t.2 s).1 (A ∪ F ∖ {[t]}) /\ Forall honest (flush_key t.1 t.2 s).2.
Proof.
  intros [Hb Hi Ht Htm] HtF. split; [split|].
  - etransitivity; [apply inj_le, flush_key_size|done].
  - intros k e Hk. rewrite flush_key_next. by eapply Hi, flush_key_entries.
  - intros k e Hk Hn. apply flush_key_entries in Hk as [Hk Hne]. specialize (Ht k e Hk Hn). set_solver.
  - intros t' Hin. destruct (Htm t') as [Hl Hx]; [set_solver|]. split; [by rewrite flush_key_next|].
    intros e Hk. by eapply Hx, flush_key_entries.
  - unfold flush_key. destruct (sl_entries s !! t.1) as [x|] eqn:Hx; [case_bool_decide as Hid|]; simpl;
      repeat constructor. simpl. eapply (Htm t); [set_solver|done|done].
Qed.

(** Flushing empties the entries and reports each pending summary. *)
Lemma windows_flush s T : windows_ok s T ->
  windows_ok (flush s).1 (T ∖ list_to_set (map (fun kv => (kv.1, en_id kv.2)) (pending s)))
  /\ Forall honest (flush s).2.
Proof.
  intros [Hb Hi Ht Htm]. split.
  - split; simpl; [by rewrite map_size_empty|done|done|].
    intros t Hin. apply elem_of_difference in Hin as [Hin _]. by destruct (Htm t Hin).
  - apply Forall_map, Forall_forall. intros kv Hin. apply list_elem_of_filter in Hin as [Hn _]. exact Hn.
Qed.

Record so_inv x : Prop := {
  so_conserved k : (accounted k (ss_sink x ++ ss_writing x) + held_back k (ss_state x))%nat
    = calls_of k (ss_calls x);
  so_windows : windows_ok (ss_state x) (ss_armed x ∪ ss_fired x);
  so_honest : Forall honest (ss_sink x ++ ss_writing x);
}.

Lemma so_inv_start : so_inv so_start.
Proof.
  split; [done| |constructor]. split; simpl; [|done|done|].
  - rewrite map_size_empty. done.
  - intros t Ht. by apply elem_of_union in Ht as [Ht|Ht]; apply elem_of_empty in Ht.
Qed.

Lemma calls_of_snoc k l k' : calls_of k (l ++ [k']) = (calls_of k l + if decide (k' = k) then 1 else 0)%nat.
Proof. unfold calls_of. rewrite filter_app, length_app. simpl. rewrite filter_cons. by case_decide. Qed.

Lemma so_inv_record x now k level : so_inv x -> so_inv (call_record every now k level x).
Proof.
  intros [Hc Hw Hh]. unfold call_record. destruct (every <=? 0).
  { split; simpl; [|done|rewrite app_assoc; apply Forall_app; split; [done|by repeat constructor]].
    intros k'. rewrite app_assoc, accounted_app, calls_of_snoc, <- Hc. unfold accounted at 2. simpl. lia. }
  pose proof (record_conserves now k level (ss_state x)) as Hrec.
  pose proof (windows_record now k level (ss_state x) _ Hw) as Hwin.
  assert (Hline : Forall honest (record every now k level (ss_state x)).1.2)
    by (unfold record; repeat case_match; simpl; by repeat constructor).
  destruct (record every now k level (ss_state x)) as [[st ls] timer]. cbn [fst snd] in *.
  split; simpl.
  - intros k'. rewrite app_assoc, accounted_app, calls_of_snoc, <- Hc. specialize (Hrec k'). lia.
  - destruct timer; simpl in Hwin; [by rewrite <- union_assoc_L|by rewrite union_empty_l_L in Hwin].
  - rewrite app_assoc. by apply Forall_app.
Qed.

Lemma so_inv_step x x' : so_inv x -> so_step every x x' -> so_inv x'.
Proof.
  intros Hx Hst. pose proof Hx as [Hc Hw Hh]. destruct Hst as [x now k level|x t Ht|x t Ht|x|x l1 y l2 Hl].
  - by apply so_inv_record.
  - split; simpl; try done. replace (ss_armed x ∖ {[t]} ∪ ({[t]} ∪ ss_fired x)) with (ss_armed x ∪ ss_fired x);
      [done|]. apply set_eq. intros t'. destruct (decide (t' = t)); set_solver.
  - unfold call_flush_key. pose proof (flush_key_conserves t.1 t.2 (ss_state x)) as Hf.
    destruct (windows_flush_key t (ss_state x) _ _ Hw Ht) as [Hwf Hhf].
    destruct (flush_key t.1 t.2 (ss_state x)) as [st ls]. cbn [fst snd] in *. split; simpl.
    + intros k'. rewrite app_assoc, accounted_app, <- Hc. specialize (Hf k'). lia.
    + exact Hwf.
    + rewrite app_assoc. by apply Forall_app.
  - unfold call_flush. pose proof (fun k => flush_conserves (ss_state x) k) as Hf.
    destruct (windows_flush (ss_state x) _ Hw) as [[Hb Hi Htd Htm] Hhf].
    split; simpl in *.
    + intros k'. rewrite app_assoc, accounted_app, Hf, <- Hc. unfold held_back at 2. simpl. rewrite lookup_empty. lia.
    + split; simpl; try done. intros t Hin.
      destruct (wi_timers _ _ Hw t) as [Hl _]; [set_solver|]. by split.
    + rewrite app_assoc. by apply Forall_app.
  - rewrite Hl in Hc, Hh. split; simpl; [|done|].
    + intros k'. rewrite <- Hc, !accounted_app. unfold accounted. simpl. lia.
    + rewrite <- app_assoc. simpl. eapply Permutation_Forall; [|exact Hh]. apply Permutation_app_head.
      by rewrite Permutation_middle.
Qed.

Lemma so_reachable_inv x : so_reachable every x -> so_inv x.
Proof.
  intros Hr. unfold so_reachable in Hr. remember so_start as x0 eqn:E.
  assert (H0 : so_inv x0) by (subst; apply so_inv_start). clear E.
  induction Hr as [|x0 x1 x Hst _ IH]; [done|]. apply IH. by eapply so_inv_step.
Qed.

(** A run of calls of one series, each at its time and level. *)
Fixpoint record_all k (calls : list (Z * Level)) s : slog * list line :=
  match calls with
  | [] => (s, [])
  | (now, level) :: rest =>
      let '(s, ls, _) := record every now k level s in
      let '(s, ls') := record_all k rest s in (s, ls ++ ls')
  end.

(** Repeats inside the window only count. *)
Lemma record_repeats k calls : forall s e,
  sl_entries s !! k = Some e -> Forall (fun c => c.1 - en_first e < every) calls ->
  let e' := mkSoEntry (en_id e) (en_first e) (en_suppressed e + length calls) (en_level e) in
  (record_all k calls s).2 = [] /\ sl_entries (record_all k calls s).1 !! k = Some e'.
Proof.
  induction calls as [|[now level] calls IH]; intros s e He Hall; simpl.
  { rewrite Nat.add_0_r. split; [done|]. by destruct e. }
  apply Forall_cons in Hall as [Hnow Hall]. simpl in Hnow.
  assert (Hidle : idle every now e = false).
  { unfold idle. replace (every <=? now - en_first e) with false by (symmetry; apply Z.leb_gt; lia).
    apply andb_false_r. }
  unfold record at 1 2. rewrite He, Hidle.
  set (s1 := mkSlog _ _).
  destruct (IH s1 (mkSoEntry (en_id e) (en_first e) (S (en_suppressed e)) (en_level e))) as [H1 H2];
    [unfold s1; simpl; by rewrite lookup_insert_eq|done|].
  destruct (record_all k calls s1) as [s2 ls]. simpl in *. split; [done|]. rewrite H2. do 2 f_equal. lia.
Qed.

(** * Properties *)

(** C22: deduplication loses nothing. Whatever the interleaving of the callers, the
    timers, the flushes and the writes, the records of a series written so far, the
    records its summaries stand for and those its open window holds back add up to
    the calls made for it; so once a flush was made and every line has reached the
    sink nothing is missing. No summary reports zero, every window that holds
    something back has a timer that will end it, and the observer never tracks more
    than 1024 series. *)
Theorem log_conservation x : so_reachable every x ->
  (forall k, (accounted k (ss_sink x ++ ss_writing x) + held_back k (ss_state x))%nat
     = calls_of k (ss_calls x))
  /\ (forall k, held_back k (ss_state (call_flush x)) = 0%nat)
  /\ Forall honest (ss_sink x ++ ss_writing x)
  /\ (forall k, held_back k (ss_state x) <> 0%nat ->
      exists id, (k, id) ∈ ss_armed x ∪ ss_fired x
        /\ (flush_key k id (ss_state x)).2 <> [] /\ held_back k (flush_key k id (ss_state x)).1 = 0%nat)
  /\ Z.of_nat (size (sl_entries (ss_state x))) <= soMaxKeys.
Proof.
  intros Hr. pose proof (so_reachable_inv x Hr) as [Hc [Hb Hi Ht Htm] Hh].
  split; [done|]. split; [done|]. split; [done|]. split; [|done].
  intros k Hk. unfold held_back in Hk. destruct (sl_entries (ss_state x) !! k) as [e|] eqn:He; [|done].
  exists (en_id e). split; [by apply Ht|]. unfold flush_key. rewrite He, bool_decide_eq_true_2 by done.
  split; [done|]. unfold held_back. simpl. by rewrite lookup_delete_eq.
Qed.

(** A failure storm is one line and one summary. Of any number of records of one
    series that arrive within the window of the first, in any order of their clocks,
    the first is written at once, with its level, and no other; the end of the window
    writes one summary with the level of the first and the exact number of the rest,
    and the series starts afresh. *)
Theorem storm_is_one_line k t0 level (rest : list (Z * Level)) s :
  sl_entries s !! k = None -> Z.of_nat (size (sl_entries s)) < soMaxKeys -> 0 < every ->
  Forall (fun c => c.1 - t0 < every) rest ->
  let r := record_all k ((t0, level) :: rest) s in
  r.2 = [Plain k level]
  /\ (flush_key k (sl_next s) r.1).2 = [Summary k level (length rest)]
  /\ sl_entries (flush_key k (sl_next s) r.1).1 !! k = None.
Proof.
  intros Hk Hsz Hpos Hall r. unfold r. cbn [record_all]. unfold record. rewrite Hk. unfold evict.
  rewrite !(proj2 (Z.leb_gt soMaxKeys (Z.of_nat (size (sl_entries s)))) Hsz).
  set (s1 := mkSlog _ _).
  destruct (record_repeats k rest s1 (mkSoEntry (sl_next s) t0 0 level)) as [H1 H2];
    [unfold s1; simpl; by rewrite lookup_insert_eq|done|].
  destruct (record_all k rest s1) as [s2 ls]. simpl in *. subst ls. split; [done|].
  unfold flush_key. rewrite H2. rewrite bool_decide_eq_true_2 by done. unfold summary. simpl.
  split; [done|]. by rewrite lookup_delete_eq.
Qed.
End dedup.

(** ** A storm of three failures, one late flush *)

Definition storm_key : soKey := mkSoKey "failure" "billing" "dropped" "terminal".
Definition storm_world : so_sys :=
  call_flush (call_record 10 4 storm_key LevelError (call_record 10 2 storm_key LevelError
    (call_record 10 3 storm_key LevelError so_start))).

Lemma storm_reachable : so_reachable 10 storm_world.
Proof.
  eapply rtc_l; [apply so_record|]. eapply rtc_l; [apply so_record|].
  eapply rtc_l; [apply so_record|]. eapply rtc_l; [apply so_flush|]. apply rtc_refl.
Qed.

Lemma log_conservation_witness :
  ss_writing storm_world = [Plain storm_key LevelError; Summary storm_key LevelError 2]
  /\ accounted storm_key (ss_sink storm_world ++ ss_writing storm_world) = 3%nat.
Proof.
  split; [vm_compute; reflexivity|].
  destruct (log_conservation 10 storm_world storm_reachable) as (Hc & _).
  specialize (Hc storm_key). assert (Hh : held_back storm_key (ss_state storm_world) = 0%nat) by (vm_compute; reflexivity).
  rewrite Hh, Nat.add_0_r in Hc. rewrite Hc. vm_compute. reflexivity.
Defined.

Lemma storm_is_one_line_witness :
  (record_all 10 storm_key [(3, LevelError); (2, LevelWarn); (4, LevelError)] new_slog).2
  = [Plain storm_key LevelError].
Proof.
  apply (storm_is_one_line 10 storm_key 3 LevelError [(2, LevelWarn); (4, LevelError)] new_slog);
    [reflexivity|reflexivity|lia|repeat constructor; simpl; lia].
Defined.
