(* ===== verification/LocalBus.v ===== *)
(** * The in-process bus

    src/local-bus.go: what one emit does on its own goroutine and what one task
    does on its. The bus' fields that never change after [NewLocalBus] are a
    record; its subscriptions are the value [Subscribe] returns; its [Lifecycle]
    lives at a lens of the user state, and [lb_interrupt] is the moment, if any,
    at which its context is cancelled by [Interrupt]. The scheduling of tasks
    between slots and queue is in LocalBusSched.v. *)

From S2P Require Import Prelude GoErrors Types Failure Runtime Observer Scope Dlq.
From S2P Require Import Settle Invoke Invokers Lifecycle LifeOps Emit.
Local Open Scope string_scope.
Local Open Scope list_scope.
Local Open Scope Z_scope.

Definition DefaultMaxConcurrent : Z := 16.
Definition DefaultQueueSize : Z := 1024.
Definition DefaultShutdownTimeout : Z := 30 * 10 ^ 9.

Inductive OverflowPolicy := OverflowBlock | OverflowUnbounded | OverflowDrop.

(** [OverflowPolicy.String]. *)
Definition OverflowPolicy_String (p : OverflowPolicy) : string :=
  match p with
  | OverflowBlock => "block"
  | OverflowUnbounded => "unbounded"
  | OverflowDrop => "drop"
  end.

(** [passthroughInvoker.Invoke]. *)
Definition passthroughInvoker {U} : Invoker U := fun c _ _ fn => fn c.

Record namedHandle (U : Type) := mkHandle {
  nh_name : string;
  nh_fn : Ctx -> Event -> M U goerr;
}.
Arguments mkHandle {U}.
Arguments nh_name {U}.
Arguments nh_fn {U}.

Record LocalBusOptions (U : Type) := mkLocalBusOptions {
  lo_invoker : option (Invoker U);
  lo_observer : option observer;
  lo_max_concurrent : Z;
  lo_queue_size : Z;
  lo_overflow : OverflowPolicy;
  lo_shutdown_timeout : Z;
  lo_handler_timeout : Z;
  lo_id_generator : option (M U string);
  lo_inherit_headers : list string;
  lo_dlq : option (DLQPublisher U);
}.
Arguments lo_invoker {U}.
Arguments lo_observer {U}.
Arguments lo_max_concurrent {U}.
Arguments lo_queue_size {U}.
Arguments lo_overflow {U}.
Arguments lo_shutdown_timeout {U}.
Arguments lo_handler_timeout {U}.
Arguments lo_id_generator {U}.
Arguments lo_inherit_headers {U}.
Arguments lo_dlq {U}.

Record LocalBus (U : Type) := mkLocalBus {
  lb_handlers : gmap string (list (namedHandle U));
  lb_observer : observer;
  lb_default_log : bool;
  lb_dlq : option (DLQPublisher U);
  lb_invoker : Invoker U;
  lb_exec : Z;
  lb_pending : Z;
  lb_overflow : OverflowPolicy;
  lb_shutdown_timeout : Z;
  lb_handler_timeout : Z;
  lb_id_gen : option (M U string);
  lb_inherit : list string;
  lb_life : nat;
  lb_interrupt : option done_info;
}.
Arguments mkLocalBus {U}.
Arguments lb_handlers {U}.
Arguments lb_observer {U}.
Arguments lb_default_log {U}.
Arguments lb_dlq {U}.
Arguments lb_invoker {U}.
Arguments lb_exec {U}.
Arguments lb_pending {U}.
Arguments lb_overflow {U}.
Arguments lb_shutdown_timeout {U}.
Arguments lb_handler_timeout {U}.
Arguments lb_id_gen {U}.
Arguments lb_inherit {U}.
Arguments lb_life {U}.
Arguments lb_interrupt {U}.

Section construction.
Context {U : Type} `{Env U}.

(** [NewLocalBus]; [default_observer] is what [NewSlogObserver(nil)] gives, [life]
    the identity of the bus' [Lifecycle]. *)
Definition NewLocalBus (default_observer : observer) (life : nat) (interrupt : option done_info)
    (o : LocalBusOptions U) : M U (LocalBus U) :=
  let max_concurrent := if lo_max_concurrent o <=? 0 then DefaultMaxConcurrent
                        else lo_max_concurrent o in
  let queue_size := if lo_queue_size o <=? 0 then DefaultQueueSize else lo_queue_size o in
  let shutdown := if lo_shutdown_timeout o <=? 0 then DefaultShutdownTimeout
                  else lo_shutdown_timeout o in
  let inv := default passthroughInvoker (lo_invoker o) in
  let default_log := is_nil (lo_observer o) in
  obs ← MultiObserver [Some (default default_observer (lo_observer o))];
  mret (mkLocalBus ∅ obs default_log (lo_dlq o) inv max_concurrent queue_size (lo_overflow o)
          shutdown (lo_handler_timeout o) (lo_id_generator o) (lo_inherit_headers o) life
          interrupt).

Definition with_handlers (b : LocalBus U) (hs : gmap string (list (namedHandle U))) : LocalBus U :=
  mkLocalBus hs (lb_observer b) (lb_default_log b) (lb_dlq b) (lb_invoker b) (lb_exec b)
    (lb_pending b) (lb_overflow b) (lb_shutdown_timeout b) (lb_handler_timeout b) (lb_id_gen b)
    (lb_inherit b) (lb_life b) (lb_interrupt b).

(** [snapshot]. *)
Definition snapshot (b : LocalBus U) (subject : string) : list (namedHandle U) :=
  default [] (lb_handlers b !! subject).

(** [Subscribe], with the state of the lifecycle at the check. *)
Definition Subscribe (l : Lifecycle) (b : LocalBus U) (subject : string)
    (handler : Ctx -> Event -> M U goerr) (opts : list SubscribeOption) : LocalBus U * goerr :=
  if Closing l then (b, Some (Sentinel ErrBusClosed))
  else
    let cfg := ApplyOptions opts in
    let name := if String.eqb (so_handler_name cfg) "" then subject else so_handler_name cfg in
    (with_handlers b (<[subject := snapshot b subject ++ [mkHandle name handler]]>
       (lb_handlers b)), None).

(** A [Subscriber]: its name, the entries of its [Events] map in the order of
    the iteration, and its [SubscribeOptions]. *)
Record Subscriber := mkSubscriber {
  sub_name : string;
  sub_events : list (string * (Ctx -> Event -> M U goerr));
  sub_options : list SubscribeOption;
}.

Fixpoint subscribe_all (l : Lifecycle) (b : LocalBus U) (opts : list SubscribeOption)
    (events : list (string * (Ctx -> Event -> M U goerr))) : LocalBus U * goerr :=
  match events with
  | [] => (b, None)
  | (subject, handler) :: rest =>
      match Subscribe l b subject handler opts with
      | (b, None) => subscribe_all l b opts rest
      | r => r
      end
  end.

(** [RegisterSubscribers]. *)
Fixpoint RegisterSubscribers (l : Lifecycle) (b : LocalBus U) (subs : list Subscriber)
    : LocalBus U * goerr :=
  match subs with
  | [] => (b, None)
  | s :: rest =>
      match subscribe_all l b (WithHandlerName (sub_name s) :: sub_options s) (sub_events s) with
      | (b, None) => RegisterSubscribers l b rest
      | r => r
      end
  end.
End construction.

Section bus.
Context {U : Type} `{Env U} (b : LocalBus U).

(** The context of the bus, [b.life.Context()]. *)
Definition bus_context : Ctx := Context_ (lb_interrupt b).

(** [reportPanic]. *)
Definition reportPanic (c : Ctx) (subject handler : string) (r : any error) : M U unit :=
  raise_to (lb_observer b) c
    (SInternalError (mkInternalErrorInfo ComponentTransport OpPanic handler subject
      (Some (recoveredPanic r)))).

(** [guardReport]. *)
Definition guardReport (c : Ctx) (subject handler : string) (report : M U unit) : M U unit :=
  recovering report (reportPanic c subject handler).

(** The delivery of every execution and report of the bus. *)
Definition local_delivery (subject : string) : Delivery :=
  mkDelivery 1 1 subject None None "" "" 0 zero_time "".

(** [reportCtx]. *)
Definition reportCtx (c : Ctx) (subject : string) : M U Ctx :=
  c ← WithObserver (WithDelivery c (local_delivery subject)) (Some (lb_observer b));
  cs ← WithFailureScope c;
  mret cs.1.

(** [reject]. *)
Definition reject (c : Ctx) (subject : string) (e : Event) (err : goerr) : M U unit :=
  rc ← reportCtx c subject;
  reportUnsettled rc (mkSettleInput None (Some e) "" None None) OutcomeRejected err.

(** [dropQueueFull]. *)
Definition dropQueueFull (c : Ctx) (subject : string) (e : Event) (handler : string) : M U unit :=
  rc ← reportCtx c subject;
  reportUnsettled rc (mkSettleInput None (Some e) handler None None) OutcomeDropped
    (Some (Sentinel ErrQueueFull)).

(** [interrupted]. *)
Definition interrupted (c : Ctx) (subject : string) (e : Event) (handler : string) : M U unit :=
  t ← now;
  match ctx_err t bus_context with
  | None => reject c subject e (Some (Sentinel ErrBusClosed))
  | Some _ =>
      rc ← reportCtx c subject;
      t ← now;
      _ ← Settle rc (mkSettleInput (Some bus_context) (Some e) handler
             (WrapInterrupted t bus_context (Some (Sentinel Canceled))) (lb_dlq b));
      mret tt
  end.

(** The context of one handler run: [hctx] and [subCtx] of [execute]. *)
Definition handler_ctx (c : Ctx) (subject : string) (h : namedHandle U) (async : bool)
    : M U (Ctx * Ctx) :=
  let sub := HandlerContext (lb_life b) (lb_interrupt b) c async in
  t ← now;
  let hctx := if async && (0 <? lb_handler_timeout b)
              then WithTimeoutCause t (lb_handler_timeout b) (Sentinel ErrHandlerTimeout) sub
              else sub in
  let hctx := WithDelivery hctx (local_delivery subject) in
  t ← now;
  let hctx := WithExecution hctx (mkExecution (nh_name h) t) in
  hctx ← WithObserver hctx (Some (lb_observer b));
  cs ← WithFailureScope hctx;
  mret (cs.1, sub).

(** What [execute] makes of the chain's error before it settles it. *)
Definition adjust_error (t : Z) (hctx sub : Ctx) (e : error) : goerr :=
  let err := Some e in
  let err :=
    if (Is err DeadlineExceeded || Is err Canceled) && Is (ctx_cause t hctx) ErrHandlerTimeout
    then Some (wrap2 (Sentinel ErrHandlerTimeout) e) else err in
  WrapInterrupted t sub err.

(** The part of [execute] after the chain failed with [e]. *)
Definition settle_failure (hctx sub : Ctx) (e : Event) (handler : string) (err : error)
    : M U goerr :=
  t ← now;
  let err := adjust_error t hctx sub err in
  let sctx := HandlerContext (lb_life b) (lb_interrupt b) hctx true in
  s ← Settle sctx (mkSettleInput (Some sub) (Some e) handler err (lb_dlq b));
  mret (match s_err s with Some _ => s_err s | None => err end).

(** [execute]. *)
Definition execute (c : Ctx) (subject : string) (e : Event) (h : namedHandle U) (async : bool)
    : M U goerr :=
  cs ← handler_ctx c subject h async;
  let '(hctx, sub) := cs in
  err ← InvokeHandler hctx (Some (lb_invoker b)) (Some e) (nh_name h) (fun c => nh_fn h c e);
  match err with
  | None => mret None
  | Some err => settle_failure hctx sub e (nh_name h) err
  end.

(** [runTask], without its accounting: the recover around [execute]. *)
Definition runTask (c : Ctx) (subject : string) (e : Event) (h : namedHandle U) : M U unit :=
  recovering (_ ← execute c subject e h true; mret tt) (reportPanic c subject (nh_name h)).

(** The handled outcomes of [EmitSync]. *)
Definition handled (err : goerr) : bool :=
  is_nil err || Is err ErrDeadLettered || Is err ErrDuplicate.

(** The loop of [EmitSync], with the errors so far. *)
Fixpoint sync_loop (c : Ctx) (subject : string) (e : Event) (hs : list (namedHandle U))
    (errs : list error) : M U (list error) :=
  match hs with
  | [] => mret errs
  | h :: rest =>
      cerr ← Err c;
      match cerr with
      | Some ce => mret (errs ++ [ce])
      | None =>
          rerr ← execute c subject e h false;
          sync_loop c subject e rest
            (if handled rerr then errs else errs ++ [HandlerError (nh_name h) rerr])
      end
  end.

Context `{Lens Lifecycle U} (newid : M U string).

(** The options, the metadata and the context at the start of [Emit] and
    [EmitSync]. *)
Definition emit_ctx (c : Ctx) (e : Event) (opts : list (EmitOption U)) : M U (Ctx * string) :=
  cfg ← ApplyEmitOptions e opts;
  let cfg := bus_options (lb_id_gen b) (lb_inherit b) cfg in
  md ← ResolveOutbound newid c e cfg;
  c ← WithObserver (WithMetadata c md) (Some (lb_observer b));
  mret (c, eo_subject cfg).

(** [EmitSync]: the error. *)
Definition EmitSync (c : Ctx) (e : Event) (opts : list (EmitOption U)) : M U goerr :=
  cs ← emit_ctx c e opts;
  let '(c, subject) := cs in
  match snapshot b subject with
  | [] => mret None
  | hs =>
      err ← admit_life (lb_life b) c;
      match err with
      | Some _ => mret err
      | None =>
          deferring None
            (errs ← sync_loop c subject e hs []; mret (join (map Some errs)))
            (fun _ => release_life)
      end
  end.
End bus.
