(* ===== verification/LocalBusSched.v ===== *)
(** * Scheduling on the in-process bus

    The concurrency of src/local-bus.go: [Emit], [dispatchAsync], the parked
    goroutine and [runTask], as a transition system whose atomic actions are the
    operations on the two channels ([exec], the execution slots, and [pending],
    the queue budget), on the [Lifecycle] and the ends of the handlers. What a
    handler run or a report does is LocalBus.v; here a run may end at any time,
    but not before the emits it made with its own context returned.

    [perform] is executable: the state after an action, or [None] when the
    action is not enabled. Handlers that emit from their context have their task
    as [em_parent]; such an emit is nested. *)

From S2P Require Import Prelude GoErrors Types Failure Runtime Observer Scope Dlq.
From S2P Require Import Settle Invoke Invokers Lifecycle Emit LocalBus.
Local Open Scope list_scope.
Local Open Scope nat_scope.

(** How a task ended: it ran, it was dropped for lack of room, it was handed
    back because of the shutdown, or [Track] refused it. *)
Inductive fate := Ran | DroppedFull | HandedBack | Refused.

(** Where a task is. [Tracked], [NoSlot] (no free slot was found), [Waiting] and
    [Inline] are on the goroutine of the emit; the flag of [Parked], [Claimed] and [Quitting] is the variable
    [parked] of the code; [Leaving] is before the release, after the report. *)
Inductive phase :=
| Tracked
| NoSlot
| Waiting
| Inline
| Slotted
| Parked (budget : bool)
| Claimed (budget : bool)
| Cleared
| Quitting (budget : bool)
| Leaving (f : fate)
| Ended (f : fate).

Inductive emit_status := EmRunning | EmReturned | EmRejected.

Record task := mkTask { tk_phase : phase; tk_emit : nat }.

(** One call of [Emit] that found handlers: the task whose handler made it,
    whether its context is nested, whether its context is done, the handlers of
    the subject and those not dispatched yet, the task that its goroutine is busy
    with, and how far it is. *)
Record emit := mkEmit {
  em_parent : option nat;
  em_nested : bool;
  em_ctx_done : bool;
  em_handlers : nat;
  em_rest : nat;
  em_cur : option nat;
  em_status : emit_status;
}.

(** The lifecycle, the lengths of the two channels, the calls of [EmitSync] in
    flight, and every task and emit so far. *)
Record sched := mkSched {
  sd_life : Lifecycle;
  sd_exec : nat;
  sd_pending : nat;
  sd_sync : nat;
  sd_tasks : list task;
  sd_emits : list emit;
}.

(** [MaxConcurrent], [QueueSize] and [Overflow] of a bus. *)
Record sched_cfg := mkSchedCfg {
  sg_max : nat;
  sg_queue : nat;
  sg_overflow : OverflowPolicy;
}.

Definition cfg_of {U} (b : LocalBus U) : sched_cfg :=
  mkSchedCfg (Z.to_nat (lb_exec b)) (Z.to_nat (lb_pending b)) (lb_overflow b).

Definition idle_bus : sched := mkSched zero_lifecycle 0 0 0 [] [].

(** ** Updates *)

Definition with_sd_life (s : sched) (l : Lifecycle) : sched :=
  mkSched l (sd_exec s) (sd_pending s) (sd_sync s) (sd_tasks s) (sd_emits s).
Definition with_exec (s : sched) (n : nat) : sched :=
  mkSched (sd_life s) n (sd_pending s) (sd_sync s) (sd_tasks s) (sd_emits s).
Definition with_pending (s : sched) (n : nat) : sched :=
  mkSched (sd_life s) (sd_exec s) n (sd_sync s) (sd_tasks s) (sd_emits s).
Definition with_sync (s : sched) (n : nat) : sched :=
  mkSched (sd_life s) (sd_exec s) (sd_pending s) n (sd_tasks s) (sd_emits s).
Definition with_emit (s : sched) (e : nat) (em : emit) : sched :=
  mkSched (sd_life s) (sd_exec s) (sd_pending s) (sd_sync s) (sd_tasks s) (<[e := em]> (sd_emits s)).
Definition with_task (s : sched) (t : nat) (tk : task) : sched :=
  mkSched (sd_life s) (sd_exec s) (sd_pending s) (sd_sync s) (<[t := tk]> (sd_tasks s)) (sd_emits s).

(** The task moves on. *)
Definition goes (s : sched) (t : nat) (tk : task) (p : phase) : sched :=
  with_task s t (mkTask p (tk_emit tk)).

(** The goroutine of the emit is done with its task. *)
Definition free_emit (em : emit) : emit :=
  mkEmit (em_parent em) (em_nested em) (em_ctx_done em) (em_handlers em) (em_rest em) None
    (em_status em).
Definition free_emits (t e : nat) (l : list emit) : list emit :=
  match l !! e with
  | Some em => if bool_decide (em_cur em = Some t) then <[e := free_emit em]> l else l
  | None => l
  end.
Definition frees (s : sched) (t : nat) (tk : task) : sched :=
  mkSched (sd_life s) (sd_exec s) (sd_pending s) (sd_sync s) (sd_tasks s)
    (free_emits t (tk_emit tk) (sd_emits s)).

(** The emits a handler run waits for. *)
Definition child_of (t : nat) (em : emit) : bool :=
  bool_decide (em_parent em = Some t) &&
  match em_status em with EmRunning => true | _ => false end.

(** ** Actions *)

Inductive action :=
| AEmit (parent : option nat) (nested : bool) (handlers : nat)
| ACallerDone (e : nat)
| ASync (nested : bool)
| ASyncReturn
| ABegin
| AInterrupt
| ADrained
| ADispatch (e : nat)
| ASlot (t : nat)
| ANoSlot (t : nat)
| AOverflow (t : nat)
| ARoom (t : nat)
| AGiveUp (t : nat)
| ATake (t : nat)
| ACancelled (t : nat)
| AReturnBudget (t : nat)
| ACheck (t : nat)
| AFinish (t : nat)
| ARelease (t : nat)
| AReturn (e : nat).

(** The actions of the emits and tasks of the bus themselves; the others come
    from its users. *)
Definition internal (a : action) : bool :=
  match a with
  | AEmit _ _ _ | ACallerDone _ | ASync _ | ASyncReturn | ABegin | AInterrupt | ADrained => false
  | _ => true
  end.

Definition running (p : phase) : bool := match p with Inline | Slotted => true | _ => false end.

Section perform.
Context (g : sched_cfg).

(** [Emit], up to the loop: a nested emit is made by a running handler or by
    code that kept its context. *)
Definition emit_start (s : sched) (parent : option nat) (nested : bool) (n : nat) : option sched :=
  let made_by_handler :=
    match parent with
    | Some p => nested && match sd_tasks s !! p with
                          | Some tk => running (tk_phase tk) | None => false end
    | None => true
    end in
  if made_by_handler && negb (n =? 0) then
    let '(l, err) := Admit nested (sd_life s) in
    let status := if is_nil err then EmRunning else EmRejected in
    Some (mkSched l (sd_exec s) (sd_pending s) (sd_sync s) (sd_tasks s)
            (sd_emits s ++ [mkEmit parent nested false n n None status]))
  else None.

(** The start of [dispatchAsync]: [Track]. *)
Definition dispatch (s : sched) (e : nat) (em : emit) : option sched :=
  match em_status em, em_cur em, em_rest em with
  | EmRunning, None, S rest =>
      let '(l, ok) := Track (sd_life s) in
      let t := length (sd_tasks s) in
      Some (mkSched l (sd_exec s) (sd_pending s) (sd_sync s)
        (sd_tasks s ++ [mkTask (if ok : bool then Tracked else Ended Refused) e])
        (<[e := mkEmit (em_parent em) (em_nested em) (em_ctx_done em) (em_handlers em) rest
                  (if ok : bool then Some t else None) EmRunning]> (sd_emits s)))
  | _, _, _ => None
  end.

(** The rest of [dispatchAsync] when no slot was free. *)
Definition no_slot (s : sched) (t : nat) (tk : task) (em : emit) : sched :=
  if em_nested em then goes s t tk Inline
  else match sg_overflow g with
       | OverflowUnbounded => frees (goes s t tk (Parked false)) t tk
       | OverflowDrop =>
           if sd_pending s <? sg_queue g
           then frees (with_pending (goes s t tk (Parked true)) (S (sd_pending s))) t tk
           else goes s t tk (Leaving DroppedFull)
       | OverflowBlock =>
           if sd_pending s <? sg_queue g
           then frees (with_pending (goes s t tk (Parked true)) (S (sd_pending s))) t tk
           else goes s t tk Waiting
       end.

(** One atomic action of a task. *)
Definition task_action (s : sched) (a : action) (t : nat) (tk : task) : option sched :=
  match a, tk_phase tk with
  | ASlot _, Tracked =>
      if sd_exec s <? sg_max g
      then Some (frees (with_exec (goes s t tk Slotted) (S (sd_exec s))) t tk) else None
  | ANoSlot _, Tracked =>
      if sd_exec s <? sg_max g then None else Some (goes s t tk NoSlot)
  | AOverflow _, NoSlot =>
      em ← sd_emits s !! tk_emit tk; Some (no_slot s t tk em)
  | ARoom _, Waiting =>
      if sd_pending s <? sg_queue g
      then Some (frees (with_pending (goes s t tk (Parked true)) (S (sd_pending s))) t tk)
      else None
  | AGiveUp _, Waiting =>
      em ← sd_emits s !! tk_emit tk;
      if em_ctx_done em then Some (goes s t tk (Leaving DroppedFull)) else None
  | ACancelled _, Waiting =>
      if l_cancelled (sd_life s) then Some (goes s t tk (Leaving HandedBack)) else None
  | ATake _, Parked p =>
      if sd_exec s <? sg_max g
      then Some (with_exec (goes s t tk (Claimed p)) (S (sd_exec s))) else None
  | ACancelled _, Parked p =>
      if l_cancelled (sd_life s) then Some (goes s t tk (Quitting p)) else None
  | AReturnBudget _, Claimed p =>
      Some (with_pending (goes s t tk Cleared) (if p : bool then pred (sd_pending s) else sd_pending s))
  | AReturnBudget _, Quitting p =>
      Some (with_pending (goes s t tk (Leaving HandedBack))
        (if p : bool then pred (sd_pending s) else sd_pending s))
  | ACheck _, Cleared =>
      if l_cancelled (sd_life s)
      then Some (with_exec (goes s t tk (Leaving HandedBack)) (pred (sd_exec s)))
      else Some (goes s t tk Slotted)
  | AFinish _, Inline =>
      if existsb (child_of t) (sd_emits s) then None else Some (goes s t tk (Leaving Ran))
  | AFinish _, Slotted =>
      if existsb (child_of t) (sd_emits s) then None
      else Some (with_exec (goes s t tk (Leaving Ran)) (pred (sd_exec s)))
  | ARelease _, Leaving f =>
      Some (frees (with_sd_life (goes s t tk (Ended f)) (releaser (sd_life s)).1) t tk)
  | _, _ => None
  end.

(** The end of [Emit] and its deferred release. *)
Definition emit_return (s : sched) (e : nat) (em : emit) : option sched :=
  match em_status em, em_cur em, em_rest em with
  | EmRunning, None, 0 =>
      Some (with_emit (with_sd_life s (releaser (sd_life s)).1) e
              (mkEmit (em_parent em) (em_nested em) (em_ctx_done em) (em_handlers em) 0 None
                 EmReturned))
  | _, _, _ => None
  end.

Definition perform (s : sched) (a : action) : option sched :=
  match a with
  | AEmit parent nested n => emit_start s parent nested n
  | ACallerDone e =>
      em ← sd_emits s !! e;
      Some (with_emit s e (mkEmit (em_parent em) (em_nested em) true (em_handlers em) (em_rest em)
                             (em_cur em) (em_status em)))
  | ASync nested =>
      let '(l, err) := Admit nested (sd_life s) in
      if is_nil err then Some (with_sync (with_sd_life s l) (S (sd_sync s))) else None
  | ASyncReturn =>
      match sd_sync s with
      | S n => Some (with_sync (with_sd_life s (releaser (sd_life s)).1) n)
      | O => None
      end
  | ABegin => Some (with_sd_life s (BeginShutdown (sd_life s)))
  | AInterrupt => Some (with_sd_life s (Interrupt (sd_life s)))
  | ADrained =>
      if l_closed (sd_life s) && (l_inflight (sd_life s) =? 0)%Z
      then Some (with_sd_life s (Wait_check 0 (sd_life s)).1) else None
  | ADispatch e => em ← sd_emits s !! e; dispatch s e em
  | AReturn e => em ← sd_emits s !! e; emit_return s e em
  | ASlot t | ANoSlot t | AOverflow t | ARoom t | AGiveUp t | ATake t | ACancelled t | AReturnBudget t
  | ACheck t | AFinish t | ARelease t => tk ← sd_tasks s !! t; task_action s a t tk
  end.

Inductive schedule : sched -> list action -> sched -> Prop :=
| schedule_nil s : schedule s [] s
| schedule_snoc s l s1 a s2 :
    schedule s l s1 -> perform s1 a = Some s2 -> schedule s (l ++ [a]) s2.

Definition reaches (s : sched) : Prop := exists l, schedule idle_bus l s.
End perform.

(** ** Counting *)

Definition total {A} (f : A -> nat) (l : list A) : nat := sum_list_with f l.

Lemma total_insert {A} (f : A -> nat) l i x y :
  l !! i = Some x -> total f (<[i := y]> l) + f x = total f l + f y.
Proof.
  revert i. induction l as [|z l IH]; intros [|i] Hi; simplify_eq/=; [lia|].
  specialize (IH i Hi). lia.
Qed.

Lemma total_snoc {A} (f : A -> nat) l x : total f (l ++ [x]) = total f l + f x.
Proof. induction l as [|z l IH]; simpl; [lia|]. rewrite IH. lia. Qed.

Lemma total_pos {A} (f : A -> nat) l : 0 < total f l -> exists i x, l !! i = Some x /\ 0 < f x.
Proof.
  induction l as [|z l IH]; simpl; [lia|]. intros Hp.
  destruct (decide (0 < f z)) as [Hz|Hz]; [by exists 0, z|].
  destruct IH as (i & x & ? & ?); [lia|]. by exists (S i), x.
Qed.

Lemma total_elem {A} (f : A -> nat) l i x : l !! i = Some x -> f x <= total f l.
Proof.
  revert i. induction l as [|z l IH]; intros [|i] Hi; simplify_eq/=; [lia|].
  specialize (IH i Hi). lia.
Qed.

(** The slot, the budget and the in-flight count of a task. *)
Definition slots (tk : task) : nat :=
  match tk_phase tk with Slotted | Claimed _ | Cleared => 1 | _ => 0 end.
Definition budgets (tk : task) : nat :=
  match tk_phase tk with Parked true | Claimed true | Quitting true => 1 | _ => 0 end.
Definition tracked (tk : task) : nat := match tk_phase tk with Ended _ => 0 | _ => 1 end.
Definition live_emit (em : emit) : nat := match em_status em with EmRunning => 1 | _ => 0 end.

(** The phases on the goroutine of the emit, and those it may be busy with. *)
Definition on_emit (p : phase) : bool :=
  match p with Tracked | NoSlot | Waiting | Inline => true | _ => false end.
Definition busy (p : phase) : bool := match p with Leaving _ => true | _ => on_emit p end.

(** ** The invariant *)

Record sched_inv (g : sched_cfg) (s : sched) : Prop := {
  si_exec : sd_exec s = total slots (sd_tasks s);
  si_exec_max : sd_exec s <= sg_max g;
  si_pending : sd_pending s = total budgets (sd_tasks s);
  si_pending_max : sd_pending s <= sg_queue g;
  si_inflight : l_inflight (sd_life s) =
    Z.of_nat (total tracked (sd_tasks s) + total live_emit (sd_emits s) + sd_sync s);
  si_owner : forall t tk, sd_tasks s !! t = Some tk ->
    exists em, sd_emits s !! tk_emit tk = Some em
      /\ (on_emit (tk_phase tk) = true ->
            em_cur em = Some t /\ em_status em = EmRunning)
      /\ (tk_phase tk = Waiting -> em_nested em = false);
  si_cur : forall e em t, sd_emits s !! e = Some em -> em_cur em = Some t ->
    em_status em = EmRunning
    /\ exists tk, sd_tasks s !! t = Some tk /\ tk_emit tk = e /\ busy (tk_phase tk) = true;
  si_parent : forall e em p, sd_emits s !! e = Some em -> em_parent em = Some p ->
    em_nested em = true /\ p < length (sd_tasks s)
    /\ forall t tk, sd_tasks s !! t = Some tk -> tk_emit tk = e -> p < t;
}.

(** The emits after [free_emits]. *)
Lemma free_emits_lookup t e l e' em' :
  free_emits t e l !! e' = Some em' ->
  exists em, l !! e' = Some em /\ (em' = em \/ (e' = e /\ em' = free_emit em))
    /\ (e' = e -> em_cur em' <> Some t).
Proof.
  unfold free_emits. destruct (l !! e) as [em|] eqn:He.
  - case_bool_decide as Hc.
    + intros Hl. apply list_lookup_insert_Some in Hl as [(<- & <- & _)|[Hne Hl]].
      * exists em. split; [done|]. split; [by right|]. intros _. done.
      * exists em'. split; [done|]. split; [by left|]. done.
    + intros Hl. exists em'. split; [done|]. split; [by left|]. intros ->. by simplify_eq.
  - intros Hl. exists em'. split; [done|]. split; [by left|]. intros ->. congruence.
Qed.

Lemma free_emits_keeps t e l e' em :
  l !! e' = Some em -> em_cur em <> Some t -> free_emits t e l !! e' = Some em.
Proof.
  intros Hl Hc. unfold free_emits. destruct (l !! e) as [em0|] eqn:He; [|done].
  case_bool_decide as Hc'; [|done]. rewrite list_lookup_insert_ne; [done|]. intros ->. congruence.
Qed.

Lemma free_emits_owner t e l em :
  l !! e = Some em -> exists em', free_emits t e l !! e = Some em' /\ em_nested em' = em_nested em.
Proof.
  intros Hl. unfold free_emits. rewrite Hl. case_bool_decide; [|by exists em].
  exists (free_emit em). split; [|done]. apply list_lookup_insert_eq. by eapply lookup_lt_Some.
Qed.

Lemma free_emits_total (f : emit -> nat) t e l :
  (forall em, f (free_emit em) = f em) -> total f (free_emits t e l) = total f l.
Proof.
  intros Hf. unfold free_emits. destruct (l !! e) as [em|] eqn:He; [|done].
  case_bool_decide; [|done].
  pose proof (total_insert f l e em (free_emit em) He) as Ht. rewrite Hf in Ht. lia.
Qed.

(** A task moves on, and the emit's goroutine may be freed. *)
Lemma inv_move g s t tk p l n m (fr : bool) :
  sched_inv g s -> sd_tasks s !! t = Some tk ->
  let tk' := mkTask p (tk_emit tk) in
  n + slots tk = sd_exec s + slots tk' -> n <= sg_max g ->
  m + budgets tk = sd_pending s + budgets tk' -> m <= sg_queue g ->
  (l_inflight l + Z.of_nat (tracked tk) = l_inflight (sd_life s) + Z.of_nat (tracked tk'))%Z ->
  (on_emit p = true -> fr = false /\ on_emit (tk_phase tk) = true) ->
  (p = Waiting -> forall em, sd_emits s !! tk_emit tk = Some em -> em_nested em = false) ->
  (fr = false -> busy p = true \/ busy (tk_phase tk) = false) ->
  sched_inv g (mkSched l n m (sd_sync s) (<[t := tk']> (sd_tasks s))
    (if fr then free_emits t (tk_emit tk) (sd_emits s) else sd_emits s)).
Proof.
  intros [He Hemax Hp Hpmax Hin Hown Hcur Hpar] Ht tk' Hn Hnmax Hm Hmmax Hl Hon Hwait Hfr.
  pose proof (total_insert slots _ t tk tk' Ht) as Ts.
  pose proof (total_insert budgets _ t tk tk' Ht) as Tb.
  pose proof (total_insert tracked _ t tk tk' Ht) as Tt.
  set (emits' := if fr then free_emits t (tk_emit tk) (sd_emits s) else sd_emits s).
  assert (Hlive : total live_emit emits' = total live_emit (sd_emits s)).
  { unfold emits'. destruct fr; [by apply free_emits_total|done]. }
  assert (Hback : forall e em', emits' !! e = Some em' -> exists em, sd_emits s !! e = Some em
      /\ (em' = em \/ em' = free_emit em) /\ (fr = true -> e = tk_emit tk -> em_cur em' <> Some t)).
  { unfold emits'. intros e em' Hem. destruct fr; [|by exists em'; auto].
    destruct (free_emits_lookup _ _ _ _ _ Hem) as (em & H1 & H2 & H3).
    exists em. split; [done|]. split; [by destruct H2 as [|[_ ?]]; auto|auto]. }
  split; simpl; try lia.
  - intros t' tk1 Hl'. apply list_lookup_insert_Some in Hl' as [(<- & <- & _)|[Hne Hl']].
    + destruct (Hown t tk Ht) as (em & Hem & Ho & Hw). simpl. destruct fr.
      * destruct (free_emits_owner t (tk_emit tk) _ em Hem) as (em' & Hem' & Hnest).
        exists em'. split; [done|]. rewrite Hnest.
        split; [intros Hp'; by destruct (Hon Hp')|]. intros ->. by apply Hwait.
      * exists em. split; [done|]. split; [intros Hp'; apply Ho; by apply Hon|].
        intros ->. by apply Hwait.
    + destruct (Hown t' tk1 Hl') as (em & Hem & Ho & Hw). unfold emits'. destruct fr; [|by exists em].
      destruct (decide (em_cur em = Some t)) as [Hc|Hc].
      * destruct (free_emits_owner t (tk_emit tk) (sd_emits s) em) as (em' & Hem' & Hnest).
        { destruct (Hcur _ _ _ Hem Hc) as (_ & tk2 & Ht2 & He2 & _). simplify_eq. by rewrite He2. }
        assert (tk_emit tk1 = tk_emit tk) as ->.
        { destruct (Hcur _ _ _ Hem Hc) as (_ & tk2 & Ht2 & He2 & _). by simplify_eq. }
        exists em'. split; [done|]. rewrite Hnest. split; [|done].
        intros Hp'. destruct (Ho Hp') as [Hc' _]. congruence.
      * exists em. split; [by apply free_emits_keeps|]. done.
  - intros e em' t' Hem Hc. destruct (Hback e em' Hem) as (em & Hem0 & Heq & Hnc).
    assert (em_cur em = Some t' /\ em' = em) as [Hc0 ->].
    { destruct Heq as [->| ->]; [done|]. discriminate Hc. }
    destruct (Hcur e em t' Hem0 Hc0) as (Hst & tk1 & Ht1 & He1 & Hb). split; [done|].
    destruct (decide (t' = t)) as [->|Hne].
    + assert (tk1 = tk) as -> by congruence. exists tk'.
      split; [by apply list_lookup_insert_eq; eapply lookup_lt_Some|].
      split; [done|]. simpl. destruct fr; [by destruct Hnc|].
      destruct (Hfr eq_refl) as [|Hnb]; [done|congruence].
    + exists tk1. split; [by rewrite list_lookup_insert_ne|done].
  - intros e em' pr Hem Hpr. destruct (Hback e em' Hem) as (em & Hem0 & Heq & _).
    destruct (Hpar e em pr Hem0) as (Hnest & Hlt & Hall); [by destruct Heq as [->| ->]|].
    split; [by destruct Heq as [->| ->]|]. split; [by rewrite length_insert|].
    intros t' tk1 Hl' He1. apply list_lookup_insert_Some in Hl' as [(<- & <- & _)|[_ Hl']]; eauto.
Qed.

Lemma releaser_inflight l : l_inflight (releaser l).1 = (l_inflight l - 1)%Z.
Proof. unfold releaser. simpl. destruct (l_idle l); [|done]. by destruct (_ && _). Qed.

Section preservation.
Context (g : sched_cfg).

Lemma no_slot_inv s t tk em :
  sched_inv g s -> sd_tasks s !! t = Some tk -> sd_emits s !! tk_emit tk = Some em ->
  tk_phase tk = NoSlot -> sched_inv g (no_slot g s t tk em).
Proof.
  intros Hi Ht Hem Hph. destruct tk as [ph e]. simpl in *. subst ph.
  pose proof (si_exec_max _ _ Hi) as Hx. pose proof (si_pending_max _ _ Hi) as Hp.
  assert (Hpark : forall bu, sd_pending s + (if bu : bool then 1 else 0) <= sg_queue g ->
    sched_inv g (frees (with_pending (goes s t (mkTask NoSlot e) (Parked bu))
      (sd_pending s + if bu then 1 else 0)) t (mkTask NoSlot e))).
  { intros bu Hb. apply (inv_move g s t (mkTask NoSlot e) (Parked bu) (sd_life s) (sd_exec s)
      (sd_pending s + if bu then 1 else 0) true); try done; destruct bu; simpl; lia. }
  assert (Hstay : forall p, (p = Inline \/ p = Leaving DroppedFull \/ (p = Waiting /\ em_nested em = false)) ->
    sched_inv g (goes s t (mkTask NoSlot e) p)).
  { intros p Hc. apply (inv_move g s t (mkTask NoSlot e) p (sd_life s) (sd_exec s) (sd_pending s) false);
      simpl; destruct Hc as [->|[->|[-> Hn]]]; simpl; try done; try lia; try (by auto).
    intros _ em' Hem'. simpl in Hem'. congruence. }
  unfold no_slot. destruct (em_nested em) eqn:Hn; [apply Hstay; auto|].
  pose proof (Hpark true) as Ht1. pose proof (Hpark false) as Hf1. simpl in Ht1, Hf1.
  rewrite Nat.add_1_r in Ht1. rewrite Nat.add_0_r in Hf1.
  destruct (sg_overflow g); [destruct (Nat.ltb_spec (sd_pending s) (sg_queue g))
    |by apply Hf1|destruct (Nat.ltb_spec (sd_pending s) (sg_queue g))];
    first [by apply Ht1 | by apply Hstay; auto].
Qed.

Lemma task_action_inv s a t tk s' :
  sched_inv g s -> sd_tasks s !! t = Some tk -> task_action g s a t tk = Some s' ->
  sched_inv g s'.
Proof.
  intros Hi Ht Ha.
  pose proof (si_exec_max _ _ Hi) as Hx. pose proof (si_pending_max _ _ Hi) as Hp.
  pose proof (total_elem slots _ _ _ Ht) as Hs1. rewrite <- (si_exec _ _ Hi) in Hs1.
  pose proof (total_elem budgets _ _ _ Ht) as Hb1. rewrite <- (si_pending _ _ Hi) in Hb1.
  pose proof (releaser_inflight (sd_life s)) as Hrel.
  destruct (tk_phase tk) eqn:Hph; unfold task_action in Ha; rewrite Hph in Ha;
    destruct a; try discriminate Ha; unfold mbind, option_bind in Ha;
    repeat (case_hyp Ha; try discriminate Ha); injection Ha as <-;
    try (by eapply no_slot_inv);
    destruct tk as [ph ow]; simpl in Hph; subst ph;
    repeat match goal with
    | H : (_ <? _) = true |- _ => apply Nat.ltb_lt in H
    | b : bool |- _ => destruct b
    end; unfold slots, budgets in Hs1, Hb1; simpl in Hs1, Hb1;
    match goal with
    | |- sched_inv _ (mkSched ?l ?n ?m _ (<[_ := mkTask ?p _]> _) (free_emits _ _ _)) =>
        idtac
    | |- _ => unfold frees, with_pending, with_exec, with_sd_life, goes, with_task; simpl
    end;
    match goal with
    | |- sched_inv _ (mkSched ?l ?n ?m _ (<[_ := mkTask ?p _]> _) (free_emits _ _ _)) =>
        apply (inv_move g s t (mkTask _ ow) p l n m true Hi Ht)
    | |- sched_inv _ (mkSched ?l ?n ?m _ (<[_ := mkTask ?p _]> _) _) =>
        apply (inv_move g s t (mkTask _ ow) p l n m false Hi Ht)
    end; unfold slots, budgets, tracked; simpl; try done; try lia; auto.
Qed.

Lemma inv_life s l n :
  sched_inv g s -> (l_inflight l + Z.of_nat (sd_sync s) = l_inflight (sd_life s) + Z.of_nat n)%Z ->
  sched_inv g (with_sync (with_sd_life s l) n).
Proof. intros [He Hemax Hp Hpmax Hin Hown Hcur Hpar] Hl. split; simpl; try done. lia. Qed.

(** An emit whose goroutine has no task changes. *)
Lemma inv_emit s l e em em' :
  sched_inv g s -> sd_emits s !! e = Some em ->
  em_parent em' = em_parent em -> em_nested em' = em_nested em -> em_cur em' = em_cur em ->
  (em_status em' = em_status em \/ em_cur em = None) ->
  (l_inflight l + Z.of_nat (live_emit em) = l_inflight (sd_life s) + Z.of_nat (live_emit em'))%Z ->
  sched_inv g (with_emit (with_sd_life s l) e em').
Proof.
  intros [He Hemax Hp Hpmax Hin Hown Hcur Hpar] Hem Hpa Hne Hcu Hst Hl.
  pose proof (total_insert live_emit _ e em em' Hem) as Ht.
  split; simpl; try done; try lia.
  - intros t tk Htk. destruct (Hown t tk Htk) as (em0 & Hem0 & Ho & Hw).
    destruct (decide (tk_emit tk = e)) as [Heq|Hn].
    + rewrite Heq in *. assert (em0 = em) as -> by congruence. exists em'.
      split; [apply list_lookup_insert_eq; by eapply lookup_lt_Some|].
      rewrite Hcu, Hne. split; [|done]. intros Hon. destruct (Ho Hon) as [Hc Hs].
      split; [done|]. destruct Hst as [->|]; [done|congruence].
    + exists em0. split; [by rewrite list_lookup_insert_ne|done].
  - intros e1 em1 t Hem1 Hc. apply list_lookup_insert_Some in Hem1 as [(<- & <- & _)|[_ Hem1]]; eauto.
    rewrite Hcu in Hc. destruct (Hcur e em t Hem Hc) as [Hs Htk]. split; [|done].
    destruct Hst as [->|]; [done|congruence].
  - intros e1 em1 p Hem1 Hc. apply list_lookup_insert_Some in Hem1 as [(<- & <- & _)|[_ Hem1]]; eauto.
    rewrite Hpa in Hc. rewrite Hne. eauto.
Qed.

Lemma emit_start_inv s parent nested n s' :
  sched_inv g s -> emit_start s parent nested n = Some s' -> sched_inv g s'.
Proof.
  intros [He Hemax Hp Hpmax Hin Hown Hcur Hpar]. unfold emit_start.
  destruct (_ && _) eqn:Hok; [|done]. apply andb_prop in Hok as [Hmade _].
  destruct (Admit nested (sd_life s)) as [l err] eqn:Had. intros [= <-].
  assert (Hl : (l_inflight l = l_inflight (sd_life s) + if is_nil err then 1 else 0)%Z).
  { unfold Admit in Had. repeat case_hyp Had; injection Had as <- <-; simpl; lia. }
  split; simpl; try done.
  - rewrite total_snoc. unfold live_emit at 2. simpl. destruct (is_nil err); lia.
  - intros t tk Htk. destruct (Hown t tk Htk) as (em & Hem & Ho). exists em.
    split; [by apply lookup_app_l_Some|done].
  - intros e em t Hem Hc. apply lookup_app_Some in Hem as [Hem|[Hlen Hem]]; [eauto|].
    apply list_lookup_singleton_Some in Hem as [_ <-]. done.
  - intros e em p Hem Hpa. apply lookup_app_Some in Hem as [Hem|[Hlen Hem]]; [eauto|].
    apply list_lookup_singleton_Some in Hem as [Hz <-]. simpl in Hpa. subst parent. simpl.
    apply andb_prop in Hmade as [-> Hr]. destruct (sd_tasks s !! p) as [tk|] eqn:Htk; [|done].
    split; [done|]. split; [by eapply lookup_lt_Some|]. intros t tk1 Ht1 He1.
    destruct (Hown t tk1 Ht1) as (em1 & Hem1 & _). apply lookup_lt_Some in Hem1. lia.
Qed.

Lemma dispatch_inv s e em s' :
  sched_inv g s -> sd_emits s !! e = Some em -> dispatch s e em = Some s' -> sched_inv g s'.
Proof.
  intros [He Hemax Hp Hpmax Hin Hown Hcur Hpar] Hem. unfold dispatch.
  destruct (em_status em) eqn:Hst; [|done..]. destruct (em_cur em) eqn:Hc; [done|].
  destruct (em_rest em) as [|rest]; [done|].
  destruct (Track (sd_life s)) as [l ok] eqn:Htr. intros [= <-].
  assert (Hl : (l_inflight l = l_inflight (sd_life s) + if ok then 1 else 0)%Z).
  { unfold Track in Htr. case_hyp Htr; injection Htr as <- <-; simpl; lia. }
  set (t := length (sd_tasks s)). set (em' := mkEmit _ _ _ _ _ _ _).
  set (tk := mkTask (if ok then Tracked else Ended Refused) e).
  pose proof (total_insert live_emit _ e em em' Hem) as Ht.
  assert (Hlv : live_emit em' = live_emit em) by (unfold live_emit; by rewrite Hst).
  assert (Hnew : forall t1 tk1, (sd_tasks s ++ [tk]) !! t1 = Some tk1 ->
    sd_tasks s !! t1 = Some tk1 \/ (t1 = t /\ tk1 = tk)).
  { intros t1 tk1 H1. apply lookup_app_Some in H1 as [H1|[Hlen H1]]; [by left|].
    apply list_lookup_singleton_Some in H1 as [Hz <-]. right. split; [unfold t; lia|done]. }
  split; simpl; rewrite ?total_snoc; try done.
  - rewrite He. destruct ok; simpl; unfold slots; simpl; lia.
  - rewrite Hp. destruct ok; simpl; unfold budgets; simpl; lia.
  - destruct ok; unfold tracked at 2; simpl; lia.
  - intros t1 tk1 H1. destruct (Hnew t1 tk1 H1) as [H2|[-> ->]].
    + destruct (Hown t1 tk1 H2) as (em1 & Hem1 & Ho & Hw).
      destruct (decide (tk_emit tk1 = e)) as [Heq|Hn].
      * rewrite Heq in *. exists em'. split; [apply list_lookup_insert_eq; by eapply lookup_lt_Some|].
        assert (em1 = em) as -> by congruence.
        split; [intros Hon; destruct (Ho Hon); congruence|done].
      * exists em1. split; [by rewrite list_lookup_insert_ne|done].
    + exists em'. split; [apply list_lookup_insert_eq; by eapply lookup_lt_Some|].
      by destruct ok.
  - intros e1 em1 t1 Hem1 Hc1.
    apply list_lookup_insert_Some in Hem1 as [(<- & <- & _)|[_ Hem1]].
    + split; [done|]. destruct ok; [|done]. injection Hc1 as <-. exists tk.
      split; [by apply list_lookup_middle|done].
    + destruct (Hcur e1 em1 t1 Hem1 Hc1) as (? & tk1 & ? & ?). split; [done|]. exists tk1.
      split; [by apply lookup_app_l_Some|done].
  - intros e1 em1 p Hem1 Hpa. rewrite length_app. simpl.
    assert (Hpar1 : exists em2, sd_emits s !! e1 = Some em2 /\ em_parent em2 = Some p
      /\ em_nested em1 = em_nested em2).
    { apply list_lookup_insert_Some in Hem1 as [(<- & <- & _)|[_ Hem1]]; [by exists em|by exists em1]. }
    destruct Hpar1 as (em2 & Hem2 & Hpa2 & ->).
    destruct (Hpar e1 em2 p Hem2 Hpa2) as (? & ? & Hall). split; [done|]. split; [lia|].
    intros t1 tk1 H1 He1. destruct (Hnew t1 tk1 H1) as [H2|[-> ->]]; [eauto|]. unfold t. lia.
Qed.

Lemma perform_inv s a s' : sched_inv g s -> perform g s a = Some s' -> sched_inv g s'.
Proof.
  intros Hi Ha. pose proof (releaser_inflight (sd_life s)) as Hrel.
  assert (Hlife : forall l, l_inflight l = l_inflight (sd_life s) ->
    sched_inv g (with_sd_life s l)).
  { intros l Hl. change (with_sd_life s l) with (with_sync (with_sd_life s l) (sd_sync s)).
    apply inv_life; [done|]. by rewrite Hl. }
  destruct a; cbn [perform] in Ha; unfold mbind, option_bind in Ha;
    try (destruct (sd_tasks s !! t) as [tk|] eqn:Ht; [by eapply task_action_inv|done]);
    try (destruct (sd_emits s !! e) as [em|] eqn:Hem; [|done]).
  - by eapply emit_start_inv.
  - injection Ha as <-. by eapply (inv_emit s (sd_life s)); eauto.
  - destruct (Admit nested (sd_life s)) as [l err] eqn:Had. destruct (is_nil err) eqn:He; [|done].
    injection Ha as <-. apply inv_life; [done|].
    unfold Admit in Had. repeat case_hyp Had; injection Had as <- <-; try done. simpl. lia.
  - destruct (sd_sync s) as [|n] eqn:Hn; [done|]. injection Ha as <-. apply inv_life; [done|]. lia.
  - injection Ha as <-. by apply Hlife.
  - injection Ha as <-. by apply Hlife.
  - destruct (_ && _); [|done]. injection Ha as <-. apply Hlife. unfold Wait_check.
    destruct (_ =? _)%Z; [done|]. destruct (l_idle (sd_life s)), (l_idle_closed (sd_life s)); done.
  - by eapply dispatch_inv.
  - unfold emit_return in Ha. destruct (em_status em) eqn:Hst; [|done..].
    destruct (em_cur em) eqn:Hc; [done|]. destruct (em_rest em); [|done]. injection Ha as <-.
    eapply inv_emit; eauto; simpl. unfold live_emit. rewrite Hst. simpl. lia.
Qed.

Lemma reaches_inv s : reaches g s -> sched_inv g s.
Proof.
  intros [l Hl]. remember idle_bus as s0 eqn:Hs0. induction Hl as [s|s l s1 a s2 _ IH Ha].
  - subst. split; simpl; try done; try lia. all: by intros [|?].
  - eapply perform_inv; eauto.
Qed.
End preservation.
