(* ===== verification/LocalBusSchedSpec.v ===== *)
(** * The scheduling contract of the in-process bus

    What [LocalBusOptions] and the comments of src/local-bus.go promise about
    concurrency, for every interleaving: the slots and the queue stay within
    their bounds, the bus never deadlocks on its own emits and drains, and every
    handler of every admitted emit ends with a fate that the configuration and
    the shutdown explain. *)

From S2P Require Import Prelude GoErrors Types Failure Runtime Observer Scope Dlq.
From S2P Require Import Settle Invoke Invokers Lifecycle Emit LocalBus LocalBusSched.
Local Open Scope list_scope.
Local Open Scope nat_scope.

(** ** Progress *)

Definition ended (tk : task) : bool := match tk_phase tk with Ended _ => true | _ => false end.
Definition live (em : emit) : bool := match em_status em with EmRunning => true | _ => false end.

(** Nothing of the bus itself is left to do. *)
Definition quiescent (s : sched) : Prop :=
  Forall (fun tk => ended tk = true) (sd_tasks s) /\ Forall (fun em => live em = false) (sd_emits s).

Section progress.
Context (g : sched_cfg) (Hmax : 0 < sg_max g) (Hqueue : 0 < sg_queue g).

Definition can_move (s : sched) : Prop :=
  exists a s', internal a = true /\ perform g s a = Some s'.

Lemma moves s a s' : internal a = true -> perform g s a = Some s' -> can_move s.
Proof using Type*. intros Hi Ha. by exists a, s'. Qed.

(** A task whose next action waits for nothing but its emits. *)
Lemma task_moves s a t tk s' :
  internal a = true -> sd_tasks s !! t = Some tk ->
  perform g s a = (tk ← sd_tasks s !! t; task_action g s a t tk) ->
  task_action g s a t tk = Some s' -> can_move s.
Proof using Type*.
  intros Hi Ht Hp Ha. apply (moves s a s' Hi). by rewrite Hp, Ht.
Qed.

Lemma emit_moves s e em :
  sd_emits s !! e = Some em -> em_status em = EmRunning -> em_cur em = None -> can_move s.
Proof using Type*.
  intros He Hs Hc. destruct (em_rest em) as [|rest] eqn:Hr.
  - eapply (moves s (AReturn e)); [done|]. simpl. rewrite He. simpl.
    unfold emit_return. by rewrite Hs, Hc, Hr.
  - destruct (Track (sd_life s)) as [l ok] eqn:Ht.
    eapply (moves s (ADispatch e)); [done|]. simpl. rewrite He. simpl.
    unfold dispatch. by rewrite Hs, Hc, Hr, Ht.
Qed.

(** The phases that never wait. *)
Lemma free_task_moves s t tk :
  sched_inv g s -> sd_tasks s !! t = Some tk ->
  match tk_phase tk with
  | Tracked | NoSlot | Claimed _ | Cleared | Quitting _ | Leaving _ => True
  | _ => False
  end -> can_move s.
Proof using Type*.
  intros Hi Ht Hp. destruct (tk_phase tk) eqn:Hph; try done.
  - destruct (sd_exec s <? sg_max g) eqn:Hx.
    + eapply (task_moves s (ASlot t)); eauto. unfold task_action. by rewrite Hph, Hx.
    + eapply (task_moves s (ANoSlot t)); eauto. unfold task_action. by rewrite Hph, Hx.
  - destruct (si_owner _ _ Hi t tk Ht) as (em & Hem & _).
    eapply (task_moves s (AOverflow t)); eauto. unfold task_action. by rewrite Hph, Hem.
  - eapply (task_moves s (AReturnBudget t)); eauto. unfold task_action. by rewrite Hph.
  - destruct (l_cancelled (sd_life s)) eqn:Hc; (eapply (task_moves s (ACheck t)); eauto);
      unfold task_action; by rewrite Hph, Hc.
  - eapply (task_moves s (AReturnBudget t)); eauto. unfold task_action. by rewrite Hph.
  - eapply (task_moves s (ARelease t)); eauto. unfold task_action. by rewrite Hph.
Qed.

(** A running handler ends, or one of the emits it waits for moves: the tasks of
    a nested emit never wait for a slot, and have larger numbers. *)
Lemma running_moves s n t tk :
  sched_inv g s -> length (sd_tasks s) - t <= n -> sd_tasks s !! t = Some tk ->
  running (tk_phase tk) = true -> can_move s.
Proof using Type*.
  intros Hi. revert t tk. induction n as [|n IH]; intros t tk Hn Ht Hr;
    [apply lookup_lt_Some in Ht; lia|].
  destruct (existsb (child_of t) (sd_emits s)) eqn:Hch.
  - apply existsb_exists in Hch as (em & Hin & Hc). unfold child_of in Hc.
    apply andb_prop in Hc as [Hp Hs]. apply bool_decide_eq_true in Hp.
    destruct (em_status em) eqn:Hst; [|done..]. apply list_elem_of_In, list_elem_of_lookup in Hin as [e He].
    destruct (em_cur em) as [t1|] eqn:Hcur; [|by eapply emit_moves].
    destruct (si_cur _ _ Hi e em t1 He Hcur) as (_ & tk1 & Ht1 & He1 & Hb).
    destruct (si_parent _ _ Hi e em t He Hp) as (Hnest & _ & Hlt).
    specialize (Hlt t1 tk1 Ht1 He1).
    destruct (tk_phase tk1) eqn:Hph; try done;
      try (eapply (free_task_moves s t1 tk1 Hi Ht1); by rewrite Hph).
    + destruct (si_owner _ _ Hi t1 tk1 Ht1) as (em1 & Hem1 & _ & Hw).
      rewrite He1, He in Hem1. injection Hem1 as <-. rewrite (Hw Hph) in Hnest. done.
    + apply (IH t1 tk1); [lia|done|by rewrite Hph].
  - destruct (tk_phase tk) eqn:Hph; try done;
      (eapply (task_moves s (AFinish t)); eauto); unfold task_action; by rewrite Hph, Hch.
Qed.

(** A goroutine that holds a slot moves. *)
Lemma slot_moves s : sched_inv g s -> 0 < sd_exec s -> can_move s.
Proof using Type*.
  intros Hi Hx. rewrite (si_exec _ _ Hi) in Hx. apply total_pos in Hx as (t & tk & Ht & Hs).
  unfold slots in Hs. destruct (tk_phase tk) eqn:Hph; try lia;
    try (eapply (free_task_moves s t tk Hi Ht); by rewrite Hph).
  eapply (running_moves s _ t tk Hi (Nat.le_refl _) Ht). by rewrite Hph.
Qed.

Lemma parked_moves s t tk p :
  sched_inv g s -> sd_tasks s !! t = Some tk -> tk_phase tk = Parked p -> can_move s.
Proof using Type*.
  intros Hi Ht Hph. destruct (decide (sd_exec s < sg_max g)) as [Hx|Hx].
  - eapply (task_moves s (ATake t)); eauto. unfold task_action. rewrite Hph.
    by rewrite (proj2 (Nat.ltb_lt _ _) Hx).
  - apply slot_moves; [done|]. lia.
Qed.

(** Some action of the bus is enabled as long as anything is left to do. *)
Lemma not_quiescent_moves s : sched_inv g s -> ~ quiescent s -> can_move s.
Proof using Type*.
  intros Hi Hq.
  assert (Htask : forall t tk, sd_tasks s !! t = Some tk -> ended tk = false -> can_move s).
  { intros t tk Ht He. unfold ended in He. destruct (tk_phase tk) eqn:Hph; try done;
      try (eapply (free_task_moves s t tk Hi Ht); by rewrite Hph);
      try (by eapply parked_moves);
      try (eapply (running_moves s _ t tk Hi (Nat.le_refl _) Ht); by rewrite Hph).
    destruct (decide (sd_pending s < sg_queue g)) as [Hp|Hp].
    - eapply (task_moves s (ARoom t)); eauto. unfold task_action. rewrite Hph.
      by rewrite (proj2 (Nat.ltb_lt _ _) Hp).
    - assert (Hb : 0 < total budgets (sd_tasks s)) by (rewrite <- (si_pending _ _ Hi); lia).
      apply total_pos in Hb as (t1 & tk1 & Ht1 & Hb). unfold budgets in Hb.
      destruct (tk_phase tk1) as [| | | | |[|]|[|]| |[|]| |] eqn:Hph1; try lia;
        try (eapply (free_task_moves s t1 tk1 Hi Ht1); by rewrite Hph1).
      by eapply parked_moves. }
  destruct (decide (Forall (fun tk => ended tk = true) (sd_tasks s))) as [Ha|Ha].
  - destruct (decide (Forall (fun em => live em = false) (sd_emits s))) as [Hb|Hb]; [by destruct Hq|].
    apply not_Forall_Exists, Exists_exists in Hb as (em & Hin & Hl); [|intros ?; apply _].
    apply list_elem_of_lookup in Hin as [e He]. unfold live in Hl. simpl in Hl.
    destruct (em_status em) eqn:Hst; [|by destruct Hl..].
    destruct (em_cur em) as [t|] eqn:Hc; [|by eapply emit_moves].
    destruct (si_cur _ _ Hi e em t He Hc) as (_ & tk & Ht & _ & Hbusy).
    rewrite Forall_lookup in Ha. specialize (Ha t tk Ht). unfold ended in Ha.
    by destruct (tk_phase tk).
  - apply not_Forall_Exists, Exists_exists in Ha as (tk & Hin & Hl); [|intros ?; apply _].
    apply list_elem_of_lookup in Hin as [t Ht]. apply (Htask t tk Ht). simpl in Hl. by apply not_true_is_false.
Qed.
End progress.

(** ** Termination *)

(** What a task and an emit can still do, in actions. *)
Definition task_weight (tk : task) : nat :=
  match tk_phase tk with
  | Tracked => 10 | NoSlot => 9 | Waiting => 8 | Parked _ => 7 | Claimed _ => 6 | Cleared => 5
  | Slotted | Inline => 4 | Quitting _ => 3 | Leaving _ => 1 | Ended _ => 0
  end.
Definition emit_weight (em : emit) : nat :=
  match em_status em with EmRunning => 1 + 20 * em_rest em | _ => 0 end.
Definition work (s : sched) : nat :=
  total task_weight (sd_tasks s) + total emit_weight (sd_emits s).

Section termination.
Context (g : sched_cfg).

Lemma goes_work s t tk p :
  sd_tasks s !! t = Some tk -> task_weight (mkTask p (tk_emit tk)) < task_weight tk ->
  work (goes s t tk p) < work s.
Proof using Type.
  intros Ht Hw. pose proof (total_insert task_weight _ t tk (mkTask p (tk_emit tk)) Ht).
  unfold work. simpl. lia.
Qed.

Lemma frees_work s t tk : work (frees s t tk) = work s.
Proof using Type. unfold work. simpl. by rewrite free_emits_total. Qed.

Lemma task_action_work s a t tk s' :
  sd_tasks s !! t = Some tk -> task_action g s a t tk = Some s' -> work s' < work s.
Proof using Type.
  intros Ht Ha. assert (Hg : forall p, task_weight (mkTask p (tk_emit tk)) < task_weight tk ->
    work (goes s t tk p) < work s) by (intros p; by apply goes_work).
  unfold task_weight at 2 in Hg.
  destruct (tk_phase tk) eqn:Hph; unfold task_action in Ha; rewrite Hph in Ha;
    destruct a; try discriminate Ha; unfold mbind, option_bind in Ha;
    repeat (case_hyp Ha; try discriminate Ha); injection Ha as <-;
    try (unfold no_slot; destruct (em_nested _); [|destruct (sg_overflow g); try destruct (_ <? _)]);
    rewrite ?frees_work; apply Hg; unfold task_weight; simpl; lia.
Qed.

Lemma perform_work s a s' : internal a = true -> perform g s a = Some s' -> work s' < work s.
Proof using Type.
  intros Hi Ha. destruct a; try discriminate Hi; cbn [perform] in Ha;
    unfold mbind, option_bind in Ha;
    try (destruct (sd_tasks s !! t) as [tk|] eqn:Ht; [by eapply task_action_work|done]);
    destruct (sd_emits s !! e) as [em|] eqn:He; try done.
  - unfold dispatch in Ha. destruct (em_status em) eqn:Hst; [|done..].
    destruct (em_cur em); [done|]. destruct (em_rest em) as [|rest] eqn:Hr; [done|].
    destruct (Track (sd_life s)) as [l ok]. injection Ha as <-. unfold work. simpl.
    rewrite total_snoc. match goal with |- context [<[e := ?x]> _] => set (em' := x) end.
    pose proof (total_insert emit_weight _ e em em' He) as Ht.
    assert (emit_weight em = 21 + 20 * rest) by (unfold emit_weight; rewrite Hst, Hr; lia).
    assert (emit_weight em' = 1 + 20 * rest) by done.
    assert (task_weight (mkTask (if ok then Tracked else Ended Refused) e) <= 10) by
      (destruct ok; unfold task_weight; simpl; lia). lia.
  - unfold emit_return in Ha. destruct (em_status em) eqn:Hst; [|done..].
    destruct (em_cur em); [done|]. destruct (em_rest em) as [|rest] eqn:Hr; [|done].
    injection Ha as <-. unfold work. simpl.
    match goal with |- context [<[e := ?x]> _] => set (em' := x) end.
    pose proof (total_insert emit_weight _ e em em' He) as Ht.
    assert (emit_weight em = 1) by (unfold emit_weight; rewrite Hst, Hr; lia).
    assert (emit_weight em' = 0) by done. lia.
Qed.

Lemma schedule_work s l s' :
  Forall (fun a => internal a = true) l -> schedule g s l s' -> work s' + length l <= work s.
Proof using Type.
  intros Hl Hs. induction Hs as [|s l s1 a s2 _ IH Ha]; simpl; [lia|].
  apply Forall_app in Hl as [Hl Hla]. rewrite Forall_singleton in Hla.
  pose proof (perform_work _ _ _ Hla Ha). rewrite length_app. simpl. specialize (IH Hl). lia.
Qed.

Lemma schedule_app s l1 s1 l2 s2 :
  schedule g s l1 s1 -> schedule g s1 l2 s2 -> schedule g s (l1 ++ l2) s2.
Proof using Type.
  intros H1 H2. induction H2 as [|s1 l s2 a s3 _ IH Ha]; [by rewrite app_nil_r|].
  rewrite app_assoc. econstructor; eauto.
Qed.

Lemma reaches_schedule s l s' : reaches g s -> schedule g s l s' -> reaches g s'.
Proof using Type. intros [l0 H0] Hl. exists (l0 ++ l). by eapply schedule_app. Qed.

(** A state from which the bus finishes its work. *)
Lemma drains_to s : 0 < sg_max g -> 0 < sg_queue g -> reaches g s ->
  exists l s', Forall (fun a => internal a = true) l /\ schedule g s l s' /\ quiescent s'.
Proof using Type.
  intros Hm Hq. remember (work s) as n eqn:Hn. revert s Hn.
  induction (lt_wf n) as [n _ IH]. intros s Hn Hr.
  destruct (decide (Forall (fun tk => ended tk = true) (sd_tasks s) /\
    Forall (fun em => live em = false) (sd_emits s))) as [Hd|Hd].
  - exists [], s. split; [done|]. split; [constructor|done].
  - destruct (not_quiescent_moves g Hm Hq s (reaches_inv g s Hr) Hd) as (a & s1 & Hi & Ha).
    pose proof (perform_work _ _ _ Hi Ha) as Hw.
    assert (H1 : schedule g s [a] s1) by (eapply (schedule_snoc g s []); [constructor|done]).
    destruct (IH (work s1) ltac:(lia) s1 eq_refl) as (l & s2 & Hl & Hs & Hqs).
    { by eapply reaches_schedule. }
    exists (a :: l), s2. split; [by constructor|]. split; [|done].
    by apply (schedule_app s [a] s1 l s2).
Qed.
End termination.

(** ** Fates *)

(** The tasks of an emit. *)
Definition of_emit (e : nat) (tk : task) : nat := if tk_emit tk =? e then 1 else 0.

Definition phase_justified (g : sched_cfg) (s : sched) (tk : task) : Prop :=
  match tk_phase tk with
  | Waiting => sg_overflow g = OverflowBlock
  | Quitting _ => l_forced (sd_life s) = true
  | Leaving f | Ended f =>
      match f with
      | Ran => True
      | DroppedFull => sg_overflow g <> OverflowUnbounded
      | HandedBack | Refused => l_forced (sd_life s) = true
      end
  | _ => True
  end.

Record fates_ok (g : sched_cfg) (s : sched) : Prop := {
  fo_cancelled : l_cancelled (sd_life s) = true -> l_forced (sd_life s) = true;
  fo_done : l_done (sd_life s) = true -> l_inflight (sd_life s) = 0%Z;
  fo_task : Forall (phase_justified g s) (sd_tasks s);
  fo_count : forall e em, sd_emits s !! e = Some em ->
    match em_status em with
    | EmRejected => total (of_emit e) (sd_tasks s) = 0
        /\ (l_closed (sd_life s) || l_forced (sd_life s) || l_done (sd_life s) = true)
    | EmRunning => total (of_emit e) (sd_tasks s) + em_rest em = em_handlers em
    | EmReturned => total (of_emit e) (sd_tasks s) = em_handlers em
    end;
}.

(** What an action leaves in place. *)
Record grows (s s' : sched) : Prop := {
  gr_closed : l_closed (sd_life s) = true -> l_closed (sd_life s') = true;
  gr_forced : l_forced (sd_life s) = true -> l_forced (sd_life s') = true;
  gr_done : l_done (sd_life s) = true -> l_done (sd_life s') = true;
  gr_emits : forall e em, sd_emits s !! e = Some em -> exists em', sd_emits s' !! e = Some em'
    /\ em_nested em' = em_nested em /\ (em_ctx_done em = true -> em_ctx_done em' = true);
}.

Lemma phase_justified_grows g s s' tk :
  grows s s' -> phase_justified g s tk -> phase_justified g s' tk.
Proof.
  intros [_ Hf _ He]. unfold phase_justified.
  destruct (tk_phase tk) as [| | | | | | | | |f|f]; auto; destruct f; auto.
Qed.

Lemma of_emit_total_zero g s e :
  sched_inv g s -> length (sd_emits s) <= e -> total (of_emit e) (sd_tasks s) = 0.
Proof.
  intros Hi He. destruct (decide (total (of_emit e) (sd_tasks s) = 0)) as [|Hne]; [done|].
  destruct (total_pos (of_emit e) (sd_tasks s)) as (t & tk & Ht & Ho); [lia|].
  destruct (si_owner _ _ Hi t tk Ht) as (em & Hem & _). apply lookup_lt_Some in Hem.
  unfold of_emit in Ho. destruct (Nat.eqb_spec (tk_emit tk) e); lia.
Qed.

(** A task moves on, seen from the fates. *)
Lemma fates_move g s t tk p l n m emits :
  fates_ok g s -> sd_tasks s !! t = Some tk ->
  emits = sd_emits s \/ emits = free_emits t (tk_emit tk) (sd_emits s) ->
  l_closed l = l_closed (sd_life s) -> l_forced l = l_forced (sd_life s) ->
  l_cancelled l = l_cancelled (sd_life s) -> l_done l = l_done (sd_life s) ->
  (l_done (sd_life s) = true -> l_inflight l = 0%Z) ->
  phase_justified g s (mkTask p (tk_emit tk)) ->
  fates_ok g (mkSched l n m (sd_sync s) (<[t := mkTask p (tk_emit tk)]> (sd_tasks s)) emits).
Proof.
  intros [Hc Hd Ht Hcnt] Htk Hem Hlc Hlf Hlx Hld Hli Hj.
  assert (Hback : forall e em', emits !! e = Some em' -> exists em, sd_emits s !! e = Some em
    /\ (em' = em \/ em' = free_emit em)).
  { intros e em' He. destruct Hem as [->| ->]; [by exists em'; auto|].
    destruct (free_emits_lookup _ _ _ _ _ He) as (em & H1 & H2 & _). exists em. naive_solver. }
  assert (Hgr : grows s (mkSched l n m (sd_sync s) (<[t := mkTask p (tk_emit tk)]> (sd_tasks s)) emits)).
  { split; simpl; try congruence. intros e em He. destruct Hem as [->| ->]; [by exists em|].
    destruct (decide (em_cur em = Some t)) as [Hcur|Hcur];
      [|exists em; split; [by apply free_emits_keeps|done]].
    destruct (decide (e = tk_emit tk)) as [->|Hne].
    - exists (free_emit em). split; [|done]. unfold free_emits. rewrite He.
      rewrite bool_decide_eq_true_2 by done.
      apply list_lookup_insert_eq. by eapply lookup_lt_Some.
    - exists em. split; [|done]. unfold free_emits. destruct (_ !! tk_emit tk); [|done].
      case_bool_decide; [|done]. by rewrite list_lookup_insert_ne. }
  split; simpl.
  - by rewrite Hlx, Hlf.
  - rewrite Hld. done.
  - apply Forall_lookup. intros i x Hx. eapply phase_justified_grows; [exact Hgr|].
    apply list_lookup_insert_Some in Hx as [(_ & <- & _)|[_ Hx]]; [done|].
    rewrite Forall_lookup in Ht. eauto.
  - intros e em' He. destruct (Hback e em' He) as (em & Hem0 & Heq). specialize (Hcnt e em Hem0).
    pose proof (total_insert (of_emit e) _ t tk (mkTask p (tk_emit tk)) Htk) as Hto.
    change (of_emit e (mkTask p (tk_emit tk))) with (of_emit e tk) in Hto.
    rewrite Hlc, Hlf, Hld. destruct Heq as [->| ->]; simpl;
      destruct (em_status em); first [lia|destruct Hcnt; split; [lia|done]].
Qed.

Lemma releaser_flags l :
  l_closed (releaser l).1 = l_closed l /\ l_forced (releaser l).1 = l_forced l
  /\ l_cancelled (releaser l).1 = l_cancelled l /\ l_done (releaser l).1 = l_done l.
Proof. unfold releaser. simpl. destruct (l_idle l); [|done]. by destruct (_ && _). Qed.

Section fates.
Context (g : sched_cfg).

(** Work in flight excludes a drained bus. *)
Lemma not_done s k :
  sched_inv g s -> fates_ok g s -> 0 < k ->
  k <= total tracked (sd_tasks s) + total live_emit (sd_emits s) + sd_sync s ->
  l_done (sd_life s) = false.
Proof using Type.
  intros Hi Hf Hk Hle. destruct (l_done (sd_life s)) eqn:Hd; [|done].
  pose proof (fo_done _ _ Hf Hd). pose proof (si_inflight _ _ Hi). lia.
Qed.

Lemma no_slot_fates s t tk em :
  sched_inv g s -> fates_ok g s -> sd_tasks s !! t = Some tk ->
  sd_emits s !! tk_emit tk = Some em -> tk_phase tk = NoSlot -> fates_ok g (no_slot g s t tk em).
Proof using Type.
  intros Hi Hf Ht Hem Hph.
  assert (Hmv : forall p n fr, phase_justified g s (mkTask p (tk_emit tk)) ->
    fates_ok g (mkSched (sd_life s) (sd_exec s) n (sd_sync s)
      (<[t := mkTask p (tk_emit tk)]> (sd_tasks s))
      (if fr : bool then free_emits t (tk_emit tk) (sd_emits s) else sd_emits s))).
  { intros p n fr Hj. apply fates_move; try done; [by destruct fr; auto|]. apply (fo_done _ _ Hf). }
  unfold no_slot. destruct (em_nested em) eqn:Hn; [by apply (Hmv Inline _ false)|].
  destruct (sg_overflow g) eqn:Ho.
  - destruct (_ <? _); [by apply (Hmv (Parked true) _ true)|by apply (Hmv Waiting _ false)].
  - by apply (Hmv (Parked false) _ true).
  - destruct (_ <? _); [by apply (Hmv (Parked true) _ true)|].
    apply (Hmv (Leaving DroppedFull) _ false). unfold phase_justified. simpl. congruence.
Qed.

Lemma task_action_fates s a t tk s' :
  sched_inv g s -> fates_ok g s -> sd_tasks s !! t = Some tk ->
  task_action g s a t tk = Some s' -> fates_ok g s'.
Proof using Type.
  intros Hi Hf Ht Ha. destruct (releaser_flags (sd_life s)) as (R1 & R2 & R3 & R4).
  assert (Hmv : forall p l n m fr, phase_justified g s (mkTask p (tk_emit tk)) ->
    l = sd_life s \/ (l = (releaser (sd_life s)).1 /\ tracked tk = 1) ->
    fates_ok g (mkSched l n m (sd_sync s) (<[t := mkTask p (tk_emit tk)]> (sd_tasks s))
      (if fr : bool then free_emits t (tk_emit tk) (sd_emits s) else sd_emits s))).
  { intros p l n m fr Hj Hl.
    apply fates_move; try done; [by destruct fr; auto|destruct Hl as [->|[-> _]]; done..|].
    intros Hd. destruct Hl as [->|[-> Htr]]; [by apply (fo_done _ _ Hf)|].
    pose proof (total_elem tracked _ _ _ Ht).
    rewrite (not_done s 1 Hi Hf) in Hd; [done|lia|lia]. }
  pose proof (Forall_lookup_1 _ _ _ _ (fo_task _ _ Hf) Ht) as Hj. unfold phase_justified in Hj.
  destruct (tk_phase tk) eqn:Hph; unfold task_action in Ha; rewrite Hph in Ha;
    destruct a; try discriminate Ha; unfold mbind, option_bind in Ha;
    repeat (case_hyp Ha; try discriminate Ha); injection Ha as <-;
    try (by eapply no_slot_fates);
    first [ eapply (Hmv _ _ _ _ true) | eapply (Hmv _ _ _ _ false) ];
    try (left; reflexivity); try (right; split; [reflexivity|unfold tracked; by rewrite Hph]);
    try done; try (by apply (fo_cancelled _ _ Hf)).
  unfold phase_justified. simpl. by rewrite Hj.
Qed.

(** Changes that leave the tasks. *)
Lemma fates_grow s s' :
  fates_ok g s -> grows s s' -> sd_tasks s' = sd_tasks s ->
  (l_cancelled (sd_life s') = true -> l_forced (sd_life s') = true) ->
  (l_done (sd_life s') = true -> l_inflight (sd_life s') = 0%Z) ->
  (forall e em', sd_emits s' !! e = Some em' ->
     (exists em, sd_emits s !! e = Some em /\ em_status em' = em_status em
        /\ em_rest em' = em_rest em /\ em_handlers em' = em_handlers em)
     \/ match em_status em' with
        | EmRejected => total (of_emit e) (sd_tasks s) = 0
            /\ (l_closed (sd_life s) || l_forced (sd_life s) || l_done (sd_life s) = true)
        | EmRunning => total (of_emit e) (sd_tasks s) + em_rest em' = em_handlers em'
        | EmReturned => total (of_emit e) (sd_tasks s) = em_handlers em'
        end) -> fates_ok g s'.
Proof using Type.
  intros [Hc Hd Ht Hcnt] Hgr Hts Hc' Hd' He. split; try done.
  - rewrite Hts. eapply Forall_impl; [exact Ht|]. intros tk. by apply phase_justified_grows.
  - assert (Hcl : l_closed (sd_life s) || l_forced (sd_life s) || l_done (sd_life s) = true ->
      l_closed (sd_life s') || l_forced (sd_life s') || l_done (sd_life s') = true).
    { destruct Hgr as [G1 G2 G3 _]. rewrite !orb_true_iff. naive_solver. }
    rewrite Hts. intros e em' Hem'. destruct (He e em' Hem') as [(em & Hem & -> & -> & ->)|Hm].
    + specialize (Hcnt e em Hem). destruct (em_status em); naive_solver.
    + destruct (em_status em'); naive_solver.
Qed.

(** A change of the lifecycle. *)
Lemma fates_life s l n :
  fates_ok g s ->
  (l_closed (sd_life s) = true -> l_closed l = true) ->
  (l_forced (sd_life s) = true -> l_forced l = true) ->
  (l_done (sd_life s) = true -> l_done l = true) ->
  (l_cancelled l = true -> l_forced l = true) -> (l_done l = true -> l_inflight l = 0%Z) ->
  fates_ok g (with_sync (with_sd_life s l) n).
Proof using Type.
  intros Hf H1 H2 H3 H4 H5. apply (fates_grow s); simpl; try done.
  - split; simpl; eauto.
  - intros e em Hem. left. by exists em.
Qed.

Lemma emit_start_fates s parent nested n s' :
  sched_inv g s -> fates_ok g s -> emit_start s parent nested n = Some s' -> fates_ok g s'.
Proof using Type.
  intros Hi Hf. unfold emit_start. destruct (_ && _); [|done].
  destruct (Admit nested (sd_life s)) as [l err] eqn:Had. intros [= <-].
  assert (Hl : (err = None /\ l = with_inflight (sd_life s) (l_inflight (sd_life s) + 1)
                /\ l_done (sd_life s) = false)
    \/ (is_nil err = false /\ l = sd_life s
        /\ l_closed (sd_life s) || l_forced (sd_life s) || l_done (sd_life s) = true)).
  { unfold Admit in Had. destruct (l_forced (sd_life s)), (l_done (sd_life s)); simpl in Had;
      try (injection Had as <- <-; right; by rewrite ?orb_true_r).
    destruct (l_closed (sd_life s)); simpl in Had; [|injection Had as <- <-; by left].
    destruct (_ || _); injection Had as <- <-; [by right|by left]. }
  apply (fates_grow s); simpl; try done.
  - split; simpl; [destruct Hl as [(_ & -> & _)|(_ & -> & _)]; done..|].
    intros e em Hem. exists em. split; [by apply lookup_app_l_Some|done].
  - destruct Hl as [(_ & -> & _)|(_ & -> & _)]; apply (fo_cancelled _ _ Hf).
  - destruct Hl as [(_ & -> & Hd)|(_ & -> & _)]; simpl; [congruence|apply (fo_done _ _ Hf)].
  - intros e em Hem. apply lookup_app_Some in Hem as [Hem|[Hlen Hem]]; [left; by exists em|].
    apply list_lookup_singleton_Some in Hem as [Hz <-]. right. simpl.
    pose proof (of_emit_total_zero g s e Hi Hlen) as H0.
    destruct Hl as [(-> & _)|(-> & _ & Hc)]; simpl; [lia|done].
Qed.

Lemma dispatch_fates s e em s' :
  sched_inv g s -> fates_ok g s -> sd_emits s !! e = Some em -> dispatch s e em = Some s' ->
  fates_ok g s'.
Proof using Type.
  intros Hi Hf Hem. unfold dispatch. destruct (em_status em) eqn:Hst; [|done..].
  destruct (em_cur em) eqn:Hc; [done|]. destruct (em_rest em) as [|rest] eqn:Hr; [done|].
  destruct (Track (sd_life s)) as [l ok] eqn:Htr. intros [= <-].
  pose proof (total_elem live_emit _ _ _ Hem) as Hlv. unfold live_emit at 1 in Hlv. rewrite Hst in Hlv.
  pose proof (not_done s 1 Hi Hf ltac:(lia) ltac:(lia)) as Hnd.
  assert (Hl : (ok = true /\ l = with_inflight (sd_life s) (l_inflight (sd_life s) + 1))
    \/ (ok = false /\ l = sd_life s /\ l_forced (sd_life s) = true)).
  { unfold Track in Htr. rewrite Hnd, orb_false_r in Htr.
    destruct (l_forced (sd_life s)); injection Htr as <- <-; auto. }
  set (em' := mkEmit _ _ _ _ _ _ _).
  set (s1 := mkSched l _ _ _ _ _).
  assert (Hgr : grows s s1).
  { split; simpl; [destruct Hl as [(_ & ->)|(_ & -> & _)]; done..|].
    intros e1 em1 H1. destruct (decide (e1 = e)) as [->|Hne].
    - exists em'. split; [apply list_lookup_insert_eq; by eapply lookup_lt_Some|]. by simplify_eq.
    - exists em1. split; [by rewrite list_lookup_insert_ne|done]. }
  destruct Hf as [Hca Hd Ht Hcnt]. split; simpl.
  - destruct Hl as [(_ & ->)|(_ & -> & _)]; done.
  - destruct Hl as [(_ & ->)|(_ & -> & _)]; simpl; [congruence|done].
  - apply Forall_app. split.
    + eapply Forall_impl; [exact Ht|]. intros tk. by apply phase_justified_grows.
    + apply Forall_singleton. destruct Hl as [(-> & _)|(-> & -> & Hfo)]; [done|exact Hfo].
  - intros e1 em1 H1. rewrite total_snoc. unfold of_emit at 2 4 6. simpl.
    apply list_lookup_insert_Some in H1 as [(<- & <- & _)|[Hne H1]].
    + specialize (Hcnt e em Hem). rewrite Hst, Hr in Hcnt. simpl. rewrite Nat.eqb_refl. lia.
    + rewrite (proj2 (Nat.eqb_neq _ _) Hne), Nat.add_0_r.
      assert (l_closed l = l_closed (sd_life s) /\ l_forced l = l_forced (sd_life s)
              /\ l_done l = l_done (sd_life s)) as (-> & -> & ->)
        by (destruct Hl as [(_ & ->)|(_ & -> & _)]; done).
      apply (Hcnt e1 em1 H1).
Qed.

Lemma perform_fates s a s' :
  sched_inv g s -> fates_ok g s -> perform g s a = Some s' -> fates_ok g s'.
Proof using Type.
  intros Hi Hf Ha. destruct (releaser_flags (sd_life s)) as (R1 & R2 & R3 & R4).
  assert (Hlife : forall l, (l_closed (sd_life s) = true -> l_closed l = true) ->
    (l_forced (sd_life s) = true -> l_forced l = true) ->
    (l_done (sd_life s) = true -> l_done l = true) ->
    (l_cancelled l = true -> l_forced l = true) -> (l_done l = true -> l_inflight l = 0%Z) ->
    fates_ok g (with_sd_life s l)).
  { intros l. change (with_sd_life s l) with (with_sync (with_sd_life s l) (sd_sync s)).
    intros. by apply fates_life. }
  pose proof (fo_cancelled _ _ Hf) as Hca. pose proof (fo_done _ _ Hf) as Hd.
  destruct a; cbn [perform] in Ha; unfold mbind, option_bind in Ha;
    try (destruct (sd_tasks s !! t) as [tk|] eqn:Ht; [by eapply task_action_fates|done]);
    try (destruct (sd_emits s !! e) as [em|] eqn:Hem; [|done]).
  - by eapply emit_start_fates.
  - injection Ha as <-. apply (fates_grow s); simpl; try done.
    + split; simpl; try done. intros e1 em1 H1.
      destruct (decide (e1 = e)) as [->|Hne].
      * simplify_eq. eexists. split; [apply list_lookup_insert_eq; by eapply lookup_lt_Some|done].
      * exists em1. split; [by rewrite list_lookup_insert_ne|done].
    + intros e1 em1 H1. left.
      apply list_lookup_insert_Some in H1 as [(<- & <- & _)|[Hne H1]]; [by exists em|by exists em1].
  - destruct (Admit nested (sd_life s)) as [l err] eqn:Had. destruct (is_nil err) eqn:He; [|done].
    injection Ha as <-. unfold Admit in Had.
    destruct (l_forced (sd_life s)) eqn:Hfo, (l_done (sd_life s)) eqn:Hdo; simpl in Had;
      try (injection Had as <- <-; done).
    destruct (_ && _); injection Had as <- <-; [done|].
    apply fates_life; simpl; try done; intros Hx; [specialize (Hca Hx)|]; congruence.
  - destruct (sd_sync s) as [|n] eqn:Hn; [done|]. injection Ha as <-.
    pose proof (not_done s 1 Hi Hf ltac:(lia) ltac:(lia)) as Hnd.
    apply fates_life; rewrite ?R1, ?R2, ?R3, ?R4; try done. congruence.
  - injection Ha as <-. by apply Hlife.
  - injection Ha as <-. by apply Hlife.
  - destruct (_ && _) eqn:Hz; [|done]. injection Ha as <-. apply andb_prop in Hz as [_ Hz].
    apply Hlife; unfold Wait_check; rewrite Hz; try done. intros _. by apply Z.eqb_eq in Hz.
  - by eapply dispatch_fates.
  - unfold emit_return in Ha. destruct (em_status em) eqn:Hst; [|done..].
    destruct (em_cur em) eqn:Hc; [done|]. destruct (em_rest em) eqn:Hr; [|done]. injection Ha as <-.
    pose proof (total_elem live_emit _ _ _ Hem) as Hlv.
    unfold live_emit at 1 in Hlv. rewrite Hst in Hlv.
    pose proof (not_done s 1 Hi Hf ltac:(lia) ltac:(lia)) as Hnd.
    apply (fates_grow s); simpl; rewrite ?R1, ?R2, ?R3, ?R4; try done; [|congruence|].
    + split; simpl; rewrite ?R1, ?R2, ?R3, ?R4; try done. intros e1 em1 H1.
      destruct (decide (e1 = e)) as [->|Hne].
      * simplify_eq. eexists. split; [apply list_lookup_insert_eq; by eapply lookup_lt_Some|done].
      * exists em1. split; [by rewrite list_lookup_insert_ne|done].
    + intros e1 em1 H1.
      apply list_lookup_insert_Some in H1 as [(<- & <- & _)|[Hne H1]]; [right|left; by exists em1].
      simpl. pose proof (fo_count _ _ Hf e em Hem) as Hcnt. rewrite Hst, Hr in Hcnt. lia.
Qed.

Lemma reaches_fates s : reaches g s -> fates_ok g s.
Proof using Type.
  intros [l Hl]. remember idle_bus as s0 eqn:Hs0.
  assert (Hr : reaches g s) by (exists l; by rewrite <- Hs0). revert Hr.
  induction Hl as [s|s l s1 a s2 Hl IH Ha]; intros Hr.
  - subst. by split.
  - assert (Hr1 : reaches g s1) by (exists l; by rewrite <- Hs0).
    eapply perform_fates; eauto using reaches_inv.
Qed.

(** A task action changes its task only, and an ended task has none. *)
Lemma task_action_other s a t tk s' t1 :
  task_action g s a t tk = Some s' -> t1 <> t -> sd_tasks s' !! t1 = sd_tasks s !! t1.
Proof using Type.
  intros Ha Hne.
  destruct (tk_phase tk) eqn:Hph; unfold task_action in Ha; rewrite Hph in Ha;
    destruct a; try discriminate Ha; unfold mbind, option_bind in Ha;
    repeat (case_hyp Ha; try discriminate Ha); injection Ha as <-;
    try (unfold no_slot; destruct (em_nested _); [|destruct (sg_overflow g); try destruct (_ <? _)]);
    simpl; by rewrite list_lookup_insert_ne.
Qed.

Lemma task_action_ended s a t f e : task_action g s a t (mkTask (Ended f) e) = None.
Proof using Type. by destruct a. Qed.

(** An ended task stays as it is. *)
Lemma ended_stays s a s' t f e :
  perform g s a = Some s' -> sd_tasks s !! t = Some (mkTask (Ended f) e) ->
  sd_tasks s' !! t = Some (mkTask (Ended f) e).
Proof using Type.
  intros Ha Ht. destruct a as [pa ne n|e0|ne| | | | |e0|t0|t0|t0|t0|t0|t0|t0|t0|t0|t0|t0|e0];
    cbn [perform] in Ha; unfold mbind, option_bind in Ha;
    try (destruct (sd_tasks s !! t0) as [tk|] eqn:Ht0; [|done];
         destruct (decide (t = t0)) as [->|Hne];
         [simplify_eq; by rewrite task_action_ended in Ha
         |by rewrite (task_action_other _ _ _ _ _ _ Ha Hne)]);
    try (destruct (sd_emits s !! e0) as [em|]; [|done]).
  - unfold emit_start in Ha. destruct (_ && _); [|done]. destruct (Admit _ _). by injection Ha as <-.
  - by injection Ha as <-.
  - destruct (Admit _ _). destruct (is_nil _); [|done]. by injection Ha as <-.
  - destruct (sd_sync s); [done|]. by injection Ha as <-.
  - by injection Ha as <-.
  - by injection Ha as <-.
  - destruct (_ && _); [|done]. by injection Ha as <-.
  - unfold dispatch in Ha. destruct (em_status em); [|done..]. destruct (em_cur em); [done|].
    destruct (em_rest em); [done|]. destruct (Track _). injection Ha as <-.
    simpl. by apply lookup_app_l_Some.
  - unfold emit_return in Ha. destruct (em_status em); [|done..]. destruct (em_cur em); [done|].
    destruct (em_rest em); [|done]. by injection Ha as <-.
Qed.

Lemma ended_stays_schedule s l s' t f e :
  schedule g s l s' -> sd_tasks s !! t = Some (mkTask (Ended f) e) ->
  sd_tasks s' !! t = Some (mkTask (Ended f) e).
Proof using Type. induction 1; eauto using ended_stays. Qed.
End fates.

(** ** How a task comes to be dropped *)

Definition dropped (tk : task) : bool :=
  match tk_phase tk with Leaving DroppedFull | Ended DroppedFull => true | _ => false end.

(** The action [a] drops the task [t] of the emit [e]: no slot was free, and either
    the queue is full under [OverflowDrop], or the emit waits for room under
    [OverflowBlock] and its context is done. The emit is not nested. *)
Definition drop_step (g : sched_cfg) (t e : nat) (s : sched) (a : action) : Prop :=
  exists em, sd_emits s !! e = Some em /\ em_nested em = false
    /\ ((sg_overflow g = OverflowDrop /\ a = AOverflow t
           /\ sd_tasks s !! t = Some (mkTask NoSlot e) /\ sd_pending s = sg_queue g)
        \/ (sg_overflow g = OverflowBlock /\ a = AGiveUp t
           /\ sd_tasks s !! t = Some (mkTask Waiting e) /\ em_ctx_done em = true)).

Section drops.
Context (g : sched_cfg).

Lemma task_action_drops s a t tk s' tk' :
  sched_inv g s -> fates_ok g s -> sd_tasks s !! t = Some tk -> task_action g s a t tk = Some s' ->
  match a with
  | ASlot t0 | ANoSlot t0 | AOverflow t0 | ARoom t0 | AGiveUp t0 | ATake t0 | ACancelled t0
  | AReturnBudget t0 | ACheck t0 | AFinish t0 | ARelease t0 => t0 = t
  | _ => True
  end ->
  sd_tasks s' !! t = Some tk' -> dropped tk' = true ->
  tk_emit tk' = tk_emit tk /\ (dropped tk = true \/ drop_step g t (tk_emit tk) s a).
Proof using Type.
  intros Hi Hf Ht Ha Hat Ht' Hd. pose proof (si_pending_max _ _ Hi) as Hp.
  destruct (si_owner _ _ Hi t tk Ht) as (em & Hem & _ & Hw).
  pose proof (Forall_lookup_1 _ _ _ _ (fo_task _ _ Hf) Ht) as Hj. unfold phase_justified in Hj.
  assert (Hnew : forall p, <[t := mkTask p (tk_emit tk)]> (sd_tasks s) !! t = Some tk' ->
    tk' = mkTask p (tk_emit tk)).
  { intros p Hl. rewrite list_lookup_insert_eq in Hl; [congruence|by eapply lookup_lt_Some]. }
  destruct tk as [ph ow]. simpl in *.
  destruct ph; unfold task_action in Ha; simpl in Ha;
    destruct a; try discriminate Ha; subst; unfold mbind, option_bind in Ha; try rewrite Hem in Ha;
    try (progress unfold no_slot in Ha; destruct (em_nested em) eqn:Hn; [|destruct (sg_overflow g) eqn:Ho]);
    repeat (case_hyp Ha; try discriminate Ha); injection Ha as <-; simpl in Ht';
    apply Hnew in Ht' as ->; try discriminate Hd; (split; [done|]); try (by left); right;
    exists em; (split; [done|]).
  - split; [done|]. left. repeat split; try done.
    match goal with H : (_ <? _) = false |- _ => apply Nat.ltb_ge in H end. lia.
  - split; [by apply Hw|]. by right.
Qed.

(** The only steps that drop a task. *)
Lemma perform_drops s a s' t tk' :
  sched_inv g s -> fates_ok g s -> perform g s a = Some s' ->
  sd_tasks s' !! t = Some tk' -> dropped tk' = true ->
  (exists tk, sd_tasks s !! t = Some tk /\ tk_emit tk = tk_emit tk' /\ dropped tk = true)
  \/ drop_step g t (tk_emit tk') s a.
Proof using Type.
  intros Hi Hf Ha Ht' Hd.
  assert (Hsame : sd_tasks s' = sd_tasks s ->
    (exists tk, sd_tasks s !! t = Some tk /\ tk_emit tk = tk_emit tk' /\ dropped tk = true)
    \/ drop_step g t (tk_emit tk') s a) by (intros Hs; left; exists tk'; by rewrite <- Hs).
  assert (Htask : forall t0 tk, sd_tasks s !! t0 = Some tk -> task_action g s a t0 tk = Some s' ->
    match a with
    | ASlot t1 | ANoSlot t1 | AOverflow t1 | ARoom t1 | AGiveUp t1 | ATake t1 | ACancelled t1
    | AReturnBudget t1 | ACheck t1 | AFinish t1 | ARelease t1 => t1 = t0
    | _ => True
    end ->
    (exists tk, sd_tasks s !! t = Some tk /\ tk_emit tk = tk_emit tk' /\ dropped tk = true)
    \/ drop_step g t (tk_emit tk') s a).
  { intros t0 tk Ht0 Hta Hat. destruct (decide (t = t0)) as [->|Hne].
    - destruct (task_action_drops s a t0 tk s' tk' Hi Hf Ht0 Hta Hat Ht' Hd) as [He [Hdr|Hdr]];
        [left; by exists tk|right; by rewrite He].
    - left. exists tk'. by rewrite <- (task_action_other g _ _ _ _ _ _ Hta Hne). }
  destruct a as [pa ne n|e0|ne| | | | |e0|t0|t0|t0|t0|t0|t0|t0|t0|t0|t0|t0|e0];
    cbn [perform] in Ha; unfold mbind, option_bind in Ha;
    try (destruct (sd_tasks s !! t0) as [tk|] eqn:Ht0; [by eapply Htask|done]);
    try (destruct (sd_emits s !! e0) as [em|]; [|done]).
  - apply Hsame. unfold emit_start in Ha. destruct (_ && _); [|done]. destruct (Admit _ _). by injection Ha as <-.
  - apply Hsame. by injection Ha as <-.
  - apply Hsame. destruct (Admit _ _). destruct (is_nil _); [|done]. by injection Ha as <-.
  - apply Hsame. destruct (sd_sync s); [done|]. by injection Ha as <-.
  - apply Hsame. by injection Ha as <-.
  - apply Hsame. by injection Ha as <-.
  - apply Hsame. destruct (_ && _); [|done]. by injection Ha as <-.
  - left. unfold dispatch in Ha. destruct (em_status em); [|done..]. destruct (em_cur em); [done|].
    destruct (em_rest em); [done|]. destruct (Track _) as [l []]; injection Ha as <-;
      apply lookup_app_Some in Ht' as [Ht'|[_ Ht']]; try (by exists tk');
      apply list_lookup_singleton_Some in Ht' as [_ <-]; discriminate Hd.
  - apply Hsame. unfold emit_return in Ha. destruct (em_status em); [|done..]. destruct (em_cur em); [done|].
    destruct (em_rest em); [|done]. by injection Ha as <-.
Qed.

(** In the history of a state, every dropped task has its step. *)
Lemma schedule_drops l s t tk :
  schedule g idle_bus l s -> sd_tasks s !! t = Some tk -> dropped tk = true ->
  exists l1 a l2 s1 s2, l = l1 ++ a :: l2 /\ schedule g idle_bus l1 s1 /\ perform g s1 a = Some s2
    /\ schedule g s2 l2 s /\ drop_step g t (tk_emit tk) s1 a.
Proof using Type.
  intros Hl. remember idle_bus as s0 eqn:Hs0. revert tk.
  induction Hl as [s|s l s1 a s2 Hl IH Ha]; intros tk Ht Hd; [by subst|].
  assert (Hr : reaches g s1) by (exists l; by rewrite <- Hs0).
  destruct (perform_drops s1 a s2 t tk (reaches_inv g s1 Hr) (reaches_fates g s1 Hr) Ha Ht Hd)
    as [(tk0 & Ht0 & He & Hd0)|Hstep].
  - destruct (IH Hs0 tk0 Ht0 Hd0) as (l1 & a1 & l2 & r1 & r2 & -> & Hl1 & Ha1 & Hl2 & Hst).
    exists l1, a1, (l2 ++ [a]), r1, r2. rewrite <- app_assoc. split; [done|]. split; [done|]. split; [done|].
    split; [by econstructor|]. by rewrite <- He.
  - exists l, a, [], s1, s2. split; [done|]. split; [done|]. split; [done|]. split; [constructor|done].
Qed.
End drops.

(** ** A concrete run *)

(** The state after a list of actions. *)
Fixpoint run_actions (g : sched_cfg) (s : sched) (l : list action) : option sched :=
  match l with
  | [] => Some s
  | a :: rest => match perform g s a with Some s' => run_actions g s' rest | None => None end
  end.

Lemma run_actions_schedule g s l s' : run_actions g s l = Some s' -> schedule g s l s'.
Proof.
  revert s. induction l as [|a l IH]; intros s; simpl; [intros [= ->]; constructor|].
  destruct (perform g s a) as [s1|] eqn:Ha; [|done]. intros Hr.
  apply (schedule_app g s [a] s1 l s'); [|by apply IH].
  apply (schedule_snoc g s [] s a s1); [constructor|done].
Qed.

(** One slot and a queue of one, dropping: of three handlers the first runs, the
    second is parked and the third dropped; the first emits from its context, and
    that emit's handler runs inline. *)
Definition tiny : sched_cfg := mkSchedCfg 1 1 OverflowDrop.
Definition demo_actions : list action :=
  [AEmit None false 3; ADispatch 0; ASlot 0; ADispatch 0; ANoSlot 1; AOverflow 1; ADispatch 0;
   ANoSlot 2; AOverflow 2; ARelease 2; AEmit (Some 0) true 1; ADispatch 1; ANoSlot 3; AOverflow 3].
Definition demo_busy : sched := default idle_bus (run_actions tiny idle_bus demo_actions).

Lemma demo_busy_reached : reaches tiny demo_busy.
Proof. exists demo_actions. apply run_actions_schedule. vm_compute. reflexivity. Qed.

(** ** The properties *)

(** C9: bounds. In every interleaving of emits, handlers, shutdown and
    interruption, no more than [MaxConcurrent] handlers run on slots of their own
    and no more than [QueueSize] tasks hold room in the queue, both channels
    holding exactly one entry per such task; the in-flight counter of the
    lifecycle is the number of unfinished tasks, of emits that did not return and
    of [EmitSync] calls; and a task of a nested emit never waits for room. *)
Theorem bus_stays_bounded (g : sched_cfg) (s : sched) :
  reaches g s ->
  sd_exec s = total slots (sd_tasks s) /\ sd_exec s <= sg_max g
  /\ sd_pending s = total budgets (sd_tasks s) /\ sd_pending s <= sg_queue g
  /\ l_inflight (sd_life s) =
       Z.of_nat (total tracked (sd_tasks s) + total live_emit (sd_emits s) + sd_sync s)
  /\ (forall t tk, sd_tasks s !! t = Some tk -> tk_phase tk = Waiting ->
        exists em, sd_emits s !! tk_emit tk = Some em /\ em_nested em = false).
Proof.
  intros Hr. pose proof (reaches_inv g s Hr) as Hi. destruct Hi as [H1 H2 H3 H4 H5 H6 _ _].
  repeat split; try done. intros t tk Ht Hw. destruct (H6 t tk Ht) as (em & Hem & _ & Hn). eauto.
Qed.

Lemma bus_stays_bounded_witness :
  sd_exec demo_busy = 1 /\ sd_pending demo_busy = 1 /\ l_inflight (sd_life demo_busy) = 5%Z.
Proof.
  destruct (bus_stays_bounded tiny demo_busy demo_busy_reached) as (He & _ & Hp & _ & Hl & _).
  split; [exact He|]. split; [exact Hp|exact Hl].
Defined.

(** C7: no deadlock, and draining. As long as a task or an emit is unfinished,
    some action of the bus is enabled, even when every slot is taken by handlers
    that emit from their own context and even after an interruption; the bus
    performs at most [work s] actions without new emits; and so it reaches a
    state in which every task ended and every emit returned, where both channels
    are empty and nothing but calls of [EmitSync] is in flight. *)
Theorem bus_drains (g : sched_cfg) (s : sched) :
  0 < sg_max g -> 0 < sg_queue g -> reaches g s ->
  (~ quiescent s -> exists a s', internal a = true /\ perform g s a = Some s')
  /\ (forall l s', Forall (fun a => internal a = true) l -> schedule g s l s' ->
        length l <= work s)
  /\ exists l s', Forall (fun a => internal a = true) l /\ schedule g s l s' /\ quiescent s'
      /\ sd_exec s' = 0 /\ sd_pending s' = 0 /\ l_inflight (sd_life s') = Z.of_nat (sd_sync s').
Proof.
  intros Hm Hq Hr. split; [|split].
  - intros Hn. by apply (not_quiescent_moves g Hm Hq s (reaches_inv g s Hr)).
  - intros l s' Hl Hs. pose proof (schedule_work g s l s' Hl Hs). lia.
  - destruct (drains_to g s Hm Hq Hr) as (l & s' & Hl & Hs & Hqs). exists l, s'.
    split; [done|]. split; [done|]. split; [done|].
    pose proof (reaches_inv g s' (reaches_schedule g s l s' Hr Hs)) as Hi.
    destruct Hqs as [Ht He].
    assert (Hz : total slots (sd_tasks s') = 0 /\ total budgets (sd_tasks s') = 0
      /\ total tracked (sd_tasks s') = 0).
    { clear -Ht. induction Ht as [|tk l Htk _ (IH1 & IH2 & IH3)]; [done|]. simpl.
      unfold ended in Htk. unfold slots at 1, budgets at 1, tracked at 1.
      destruct (tk_phase tk); try done; auto. }
    assert (Hlv : total live_emit (sd_emits s') = 0).
    { clear -He. induction He as [|em l Hem _ IH]; [done|]. simpl. unfold live in Hem.
      unfold live_emit at 1. by destruct (em_status em). }
    destruct Hi as [H1 _ H3 _ H5 _ _ _]. repeat split; lia.
Qed.

Lemma bus_drains_witness :
  let l := [AFinish 3; ARelease 3; AReturn 1; AFinish 0; ARelease 0; AReturn 0; ATake 1;
            AReturnBudget 1; ACheck 1; AFinish 1; ARelease 1] in
  length l <= work demo_busy
  /\ exists l s', schedule tiny demo_busy l s' /\ quiescent s' /\ sd_exec s' = 0.
Proof.
  intros l.
  destruct (bus_drains tiny demo_busy ltac:(vm_compute; lia) ltac:(vm_compute; lia) demo_busy_reached)
    as (_ & Hlen & l2 & s2 & _ & Hs & Hq & He & _).
  split; [|exists l2, s2; split; [exact Hs|split; [exact Hq|exact He]]].
  apply (Hlen l (default idle_bus (run_actions tiny demo_busy l))).
  - repeat constructor.
  - apply run_actions_schedule. vm_compute. reflexivity.
Defined.

(** C8: no task is lost. Every handler of an emit that returned became exactly
    one task, an emit is refused only by a closing bus and then has none; a task
    ends without having run only when it found no slot and the queue was full, at
    the very step of the run that dropped it, under [OverflowDrop], or when it
    waited for room under [OverflowBlock] and the emitter's context was done at that
    step, in both cases for an emit that is not nested; or when the bus was
    interrupted. With [OverflowUnbounded] every task of a bus that was not
    interrupted ran. An ended task stays as it ended. *)
Theorem no_task_is_lost (g : sched_cfg) (l : list action) (s : sched) :
  schedule g idle_bus l s ->
  (forall e em, sd_emits s !! e = Some em ->
     match em_status em with
     | EmReturned => total (of_emit e) (sd_tasks s) = em_handlers em
     | EmRunning => total (of_emit e) (sd_tasks s) + em_rest em = em_handlers em
     | EmRejected => total (of_emit e) (sd_tasks s) = 0
         /\ (l_closed (sd_life s) || l_forced (sd_life s) || l_done (sd_life s) = true)
     end)
  /\ forall t f e, sd_tasks s !! t = Some (mkTask (Ended f) e) ->
       (f = DroppedFull -> exists l1 a l2 s1 s2, l = l1 ++ a :: l2
          /\ schedule g idle_bus l1 s1 /\ perform g s1 a = Some s2 /\ schedule g s2 l2 s
          /\ exists em, sd_emits s1 !! e = Some em /\ em_nested em = false
          /\ ((sg_overflow g = OverflowDrop /\ a = AOverflow t
                 /\ sd_tasks s1 !! t = Some (mkTask NoSlot e) /\ sd_pending s1 = sg_queue g)
              \/ (sg_overflow g = OverflowBlock /\ a = AGiveUp t
                 /\ sd_tasks s1 !! t = Some (mkTask Waiting e) /\ em_ctx_done em = true)))
       /\ (f = HandedBack \/ f = Refused -> l_forced (sd_life s) = true)
       /\ (sg_overflow g = OverflowUnbounded -> l_forced (sd_life s) = false -> f = Ran)
       /\ forall l' s', schedule g s l' s' -> sd_tasks s' !! t = Some (mkTask (Ended f) e).
Proof.
  intros Hl. assert (Hr : reaches g s) by (by exists l).
  pose proof (reaches_fates g s Hr) as [_ _ Ht Hc]. split.
  - intros e em Hem. specialize (Hc e em Hem). by destruct (em_status em).
  - intros t f e Htk. pose proof (Forall_lookup_1 _ _ _ _ Ht Htk) as Hj.
    unfold phase_justified in Hj. simpl in Hj.
    split; [intros ->; exact (schedule_drops g l s t _ Hl Htk eq_refl)|].
    split; [by intros [->| ->]|]. split; [|by intros; eapply ended_stays_schedule].
    intros Hu Hf. destruct f; [done|done|congruence..].
Qed.

(** The third handler was dropped when the queue of one was full. *)
Lemma no_task_is_lost_witness :
  (exists s1, sd_pending s1 = 1 /\ sd_tasks s1 !! 2 = Some (mkTask NoSlot 0)
     /\ reaches tiny s1) /\
  forall l s', schedule tiny demo_busy l s' -> sd_tasks s' !! 2 = Some (mkTask (Ended DroppedFull) 0).
Proof.
  destruct (no_task_is_lost tiny demo_actions demo_busy
    (run_actions_schedule tiny idle_bus demo_actions demo_busy ltac:(vm_compute; reflexivity))) as [_ H].
  destruct (H 2 DroppedFull 0 eq_refl) as (Hd & _ & _ & Hs).
  split; [|exact Hs].
  destruct (Hd eq_refl) as (l1 & a & l2 & s1 & s2 & _ & Hl1 & _ & _ & em & _ & _ & [(_ & _ & Ht & Hp)|(Ho & _)]).
  - exists s1. split; [exact Hp|]. split; [exact Ht|]. exists l1. exact Hl1.
  - discriminate Ho.
Defined.
