(* ===== verification/LocalBusSpec.v ===== *)
(** * The contract of the in-process bus

    What one execution, one report and one [EmitSync] of src/local-bus.go do:
    each execution reports its end once, a handler timeout is a failure and never
    a shutdown interruption, no panic of user code leaves a task or a report, a
    task handed back by the shutdown is never dead-lettered, and the error of
    [EmitSync] lists the failures of the handlers it ran. *)

From S2P Require Import Prelude GoErrors Types Failure Runtime Observer Scope Dlq Fixtures.
From S2P Require Import Settle Invoke CoreSpec Invokers Lifecycle LifeOps Emit LocalBus.
Local Open Scope string_scope.
Local Open Scope list_scope.
Local Open Scope Z_scope.

(** ** The outcome of a final delivery *)

(** A local delivery is final, so a settlement without an outcome is the one of
    a duplicate. *)
Lemma Settle_final_outcome {U : Type} `{Env U} (c : Ctx) (i : SettleInput U) (e : error)
    (w w' : World U) (res : Settlement) :
  in_err i = Some e -> Final (delivery_or_single c) = true -> Settle c i w = (Ret res, w') ->
  s_outcome res = None -> s_err res = None /\ Is (Some e) ErrDuplicate = true.
Proof.
  intros He Hf Hrun Ho. unfold Settle in Hrun. rewrite He in Hrun.
  apply deferring_ret_inv in Hrun as (w1 & Hrun & _). unfold settle_body in Hrun.
  apply bind_ret_inv in Hrun as ([] & w2 & _ & Hrun).
  apply bind_ret_inv in Hrun as (t & w3 & _ & Hrun).
  assert (Hrep : forall o reason err res' w0,
    (_ ← reportTerminal c i (delivery_or_single c) o reason err; mret res') w0 = (Ret res, w1) ->
    res = res').
  { intros o reason err res' w0 Hr. apply bind_ret_inv in Hr as ([] & w4 & _ & Hr). by ret_inv. }
  rewrite Hf in Hrun. destruct (IsInterrupted _ _ _).
  { apply Hrep in Hrun as ->. done. }
  unfold settle_disposed in Hrun. rewrite He, Hf in Hrun.
  destruct (Dispose_range (Some e) (delivery_or_single c)) as [HD|[HD|HD]]; rewrite HD in Hrun.
  - pose proof (proj1 (Dispose_ack _ _) HD) as Hack.
    destruct (Is (Some e) ErrDuplicate) eqn:Hd; simpl in Hrun; [by ret_inv|].
    destruct Hack as [|[|Hdl]]; [done..|]. rewrite Hdl in Hrun. simpl in Hrun.
    apply Hrep in Hrun as ->. done.
  - assert (Hdlf : Is (Some e) ErrDeadLetterFailed = true).
    { revert HD. unfold Dispose, retryUnlessFinal. rewrite Hf.
      destruct (Is (Some e) ErrDeadLetterFailed); [done|]. by repeat case_match. }
    rewrite Hdlf in Hrun. apply Hrep in Hrun as ->. done.
  - destruct (in_publisher i) as [p|]; [|by apply Hrep in Hrun as ->].
    apply bind_ret_inv in Hrun as (r & w4 & _ & Hrun).
    apply bind_ret_inv in Hrun as (perr & w5 & _ & Hrun).
    destruct perr; by apply Hrep in Hrun as ->.
Qed.

Section execute.
Context {U : Type} `{Env U} (b : LocalBus U).

(** What [handler_ctx] builds. *)
Lemma handler_ctx_run c subject h async w hctx sub w' :
  handler_ctx b c subject h async w = (Ret (hctx, sub), w') ->
  exists s, (s ∉ dom (w_scopes w)) /\ cx_scope hctx = Some s /\ scope_at w' s (fresh_scope true)
    /\ cx_delivery hctx = Some (local_delivery subject)
    /\ sub = HandlerContext (lb_life b) (lb_interrupt b) c async
    /\ cx_done hctx = cx_done (if async && (0 <? lb_handler_timeout b)
         then WithTimeoutCause (w_now w) (lb_handler_timeout b) (Sentinel ErrHandlerTimeout) sub
         else sub)
    /\ w_log w' = w_log w /\ isolated (ObserverFromContext hctx) /\ w_now w' = w_now w
    /\ w_user w' = w_user w.
Proof using Type.
  intros Hr. unfold handler_ctx in Hr.
  apply bind_ret_inv in Hr as (t & w1 & Ht & Hr). apply now_inv in Ht as [-> ->].
  apply bind_ret_inv in Hr as (t & w1 & Ht & Hr). apply now_inv in Ht as [-> ->].
  set (hc := WithExecution _ _) in Hr.
  apply bind_ret_inv in Hr as (hc1 & w1 & Hw & Hr).
  destruct (WithObserver_isolated hc (Some (lb_observer b)) w) as (c1 & w2 & Hw2 & Hiso).
  rewrite Hw2 in Hw. injection Hw as -> ->.
  assert (Hsame : cx_delivery hc1 = cx_delivery hc /\ cx_done hc1 = cx_done hc
    /\ w_log w1 = w_log w /\ w_scopes w1 = w_scopes w /\ w_now w1 = w_now w
    /\ w_user w1 = w_user w).
  { destruct (lb_observer b) as [| |id|gg inner|[chs|]]; injection Hw2 as <- <-; done. }
  destruct Hsame as (Hd & Hdone & Hlog & Hscopes & Hnow & Huser).
  apply bind_ret_inv in Hr as ([hc2 s] & w2 & Hs & Hr). ret_inv.
  unfold WithFailureScope in Hs. apply bind_ret_inv in Hs as (s1 & w3 & Hn & Hs). ret_inv.
  injection Hn as <- <-. rewrite Hscopes. exists (fresh (dom (w_scopes w))).
  split; [apply is_fresh|]. split; [done|]. split; [apply lookup_insert_eq|].
  split; [by rewrite Hd|]. split; [done|]. split; [|by rewrite Hlog].
  rewrite Hdone. unfold hc. by destruct (_ && _).
Qed.
End execute.

(** C13: every execution is accounted for. An execution that returns installs a
    scope of its own, reports exactly one handler result for it, and reports
    exactly one terminal failure unless the handler succeeded or found a
    duplicate, whatever the handler, the invokers, the publisher, the observers
    and the [OnErr] method do in between. *)
Theorem execute_reports_once {U : Type} `{Env U} (b : LocalBus U) (c : Ctx) (subject : string)
    (e : Event) (h : namedHandle U) (async : bool) (w w' : World U) (r : goerr) :
  (forall s, observers_keep (same_view (U := U) s)) ->
  (forall s b c e h, quiet s (env_onerr (U := U) b c e h)) ->
  (forall s p c r, lb_dlq b = Some p -> quiet s (p c r)) ->
  (forall s c, cx_scope c = Some s -> quiet s (nh_fn h c e)) ->
  (forall s c evt n f, cx_scope c = Some s ->
     (forall c, cx_scope c = Some s -> quiet s (f c)) -> quiet s (lb_invoker b c evt n f)) ->
  execute b c subject e h async w = (Ret r, w') ->
  exists s, (s ∉ dom (w_scopes w))
    /\ dones s (w_log w') = S (dones s (w_log w))
    /\ ((failures s (w_log w') = failures s (w_log w) /\ (r = None \/ Is r ErrDuplicate = true))
        \/ (failures s (w_log w') = S (failures s (w_log w)) /\ r <> None)).
Proof.
  intros Hk Honerr Hdlq Hfn Hinv Hrun. unfold execute in Hrun.
  apply bind_ret_inv in Hrun as ([hctx sub] & w1 & Hctx & Hrun).
  destruct (handler_ctx_run b c subject h async w hctx sub w1 Hctx)
    as (s & Hfresh & Hsc & Hat & Hdel & _ & _ & Hlog & _).
  apply bind_ret_inv in Hrun as (err & w2 & Hcall & Hrun).
  pose proof (InvokeHandler_view s hctx Hsc (Some (lb_invoker b)) (Some e) (nh_name h)
    (fun c => nh_fn h c e) w1 (fresh_scope true) (Hfn s)) as Hd.
  specialize (Hd ltac:(intros i f [= <-] Hf evt n; by apply Hinv) Hat). cbv zeta in Hd.
  rewrite Hcall in Hd. cbn [fst snd] in Hd.
  destruct (done_view_fresh _ s w1 w2 _ Hat eq_refl Hd) as (sc1 & Hsc1 & Hf1 & Hd1).
  rewrite Hlog in Hf1, Hd1. exists s. split; [done|].
  destruct err as [err|]; [|ret_inv; destruct Hd1 as [[_ ->]|([? [=]] & _)]; auto].
  unfold settle_failure in Hrun. apply bind_ret_inv in Hrun as (t & w3 & Ht & Hrun).
  apply now_inv in Ht as [-> ->]. apply bind_ret_inv in Hrun as (res & w3 & Hset & Hrun).
  ret_inv. set (sctx := HandlerContext _ _ hctx true) in *.
  destruct (adjust_error (w_now w2) hctx sub err) as [ae|] eqn:Hae; cycle 1.
  { exfalso. unfold adjust_error, WrapInterrupted in Hae. by repeat case_match. }
  set (i := mkSettleInput _ _ _ _ _) in Hset.
  pose proof (Settle_settled s (Honerr s) sctx Hsc i (fun q c r => Hdlq s q c r) ae w2 eq_refl
    (mk_is_Some _ _ Hsc1)) as Hs.
  assert (Hv1 : view s w2 = (Some (guard_state sc1), failures s (w_log w2),
    dones s (w_log w2))) by (unfold view; by rewrite Hsc1).
  rewrite Hset, Hv1, Hf1 in Hs. cbn [settled fst snd] in Hs.
  assert (Hfinal : Final (delivery_or_single sctx) = true).
  { unfold delivery_or_single, DeliveryFromContext, sctx. simpl. by rewrite Hdel. }
  assert (Hgoal : dones s (w_log w3) = S (dones s (w_log w))
    /\ failures s (w_log w3) = (failures s (w_log w) + if is_nil (s_outcome res) then 0 else 1)%nat).
  { destruct Hd1 as [[Hg Hd1]|(_ & Hg & Hd1)]; rewrite Hg, Hd1 in Hs;
      unfold flush_view, report_view, view in Hs; destruct (s_outcome res);
      injection Hs as _ -> ->; simpl; split; lia. }
  destruct Hgoal as [Hg1 Hg2]. split; [done|]. rewrite Hg2.
  destruct (s_outcome res) as [o|] eqn:Ho; simpl.
  - right. split; [lia|]. by destruct (s_err res).
  - left. split; [lia|]. right.
    destruct (Settle_final_outcome sctx i ae w2 w3 res eq_refl Hfinal Hset Ho) as [-> Hdup]. done.
Qed.

(** A bus without observers and dead-letter queue, and a handler that fails. *)
Definition demo_bus (dlq : option (DLQPublisher nat)) (timeout : Z)
    (interrupt : option done_info) : LocalBus nat :=
  mkLocalBus ∅ (Multi (Some [])) false dlq passthroughInvoker 16 1024 OverflowBlock 0 timeout
    None [] 0 interrupt.
Definition failing_handle (err : goerr) : namedHandle nat := mkHandle "h" (fun _ _ => mret err).

Lemma execute_reports_once_witness :
  exists r w', execute (demo_bus (Some (flaky 1)) 0 None) background "orders" (plain_event "e")
      (failing_handle (Some (Sentinel (External "boom")))) true (demo_world 5 ∅) = (Ret r, w')
    /\ exists s, dones s (w_log w') = 1%nat.
Proof.
  assert (Hr : exists r w', execute (demo_bus (Some (flaky 1)) 0 None) background "orders"
    (plain_event "e") (failing_handle (Some (Sentinel (External "boom")))) true
    (demo_world 5 ∅) = (Ret r, w')) by (do 2 eexists; vm_compute; reflexivity).
  destruct Hr as (r & w' & Hr). exists r, w'. split; [exact Hr|].
  destruct (execute_reports_once (demo_bus (Some (flaky 1)) 0 None) background "orders"
    (plain_event "e") (failing_handle (Some (Sentinel (External "boom")))) true (demo_world 5 ∅)
    w' r) as (s & _ & Hd & _).
  - intros s. apply _.
  - intros s b c e h. apply demo_onerr_view.
  - intros s p c q [= <-]. apply flaky_view.
  - intros s c _. apply respects_ret, _.
  - intros s c evt n f Hc Hf. apply Hf, Hc.
  - exact Hr.
  - exists s. exact Hd.
Defined.

(** ** Timeouts and interruptions *)

Lemma ctx_error_wrap2 a e :
  is_ctx_error (Some e) = true -> is_ctx_error (Some (wrap2 a e)) = true.
Proof.
  unfold is_ctx_error. rewrite !is_wrap2. change (errors_is e ?x) with (Is (Some e) x).
  destruct (Is (Some e) Canceled), (Is (Some e) DeadlineExceeded); try done;
    by rewrite ?orb_true_r.
Qed.

Lemma WrapInterrupted_cases now c e :
  Is (Some e) ErrShutdownInterrupted = false -> is_ctx_error (Some e) = true ->
  WrapInterrupted now c (Some e) =
  if Is (ctx_cause now c) ErrShutdownInterrupted
  then Some (wrap2 (Sentinel ErrShutdownInterrupted) e) else Some e.
Proof.
  intros Hs Hc. unfold WrapInterrupted, is_ctx_error in *. rewrite Hs.
  destruct (Is (Some e) Canceled), (Is (Some e) DeadlineExceeded); try done; simpl;
    by destruct (Is (ctx_cause now c) ErrShutdownInterrupted).
Qed.

(** A timeout is a failure, a shutdown is not. When the handler of an
    asynchronous run comes back with a context error after its [HandlerTimeout],
    the error matches [ErrHandlerTimeout] and still everything it matched, and
    unless the bus was interrupted by then the settlement of a plain context error
    is terminal, so that it is dead-lettered; when the bus was interrupted by
    then, it counts as an interruption and nothing is published. *)
Theorem handler_timeout_is_failure {U : Type} `{Env U} (b : LocalBus U) (c : Ctx)
    (subject : string) (h : namedHandle U) (w w1 : World U) (hctx sub : Ctx) (ti : option Z)
    (t : Z) (e : error) :
  0 < lb_handler_timeout b -> lb_interrupt b = interrupted_at <$> ti ->
  handler_ctx b c subject h true w = (Ret (hctx, sub), w1) ->
  w_now w + lb_handler_timeout b <= t ->
  is_ctx_error (Some e) = true -> Is (Some e) ErrShutdownInterrupted = false ->
  let interrupted := match ti with Some x => x <=? t | None => false end in
  exists e', adjust_error t hctx sub e = Some e'
    /\ (forall target, errors_is e target = true -> errors_is e' target = true)
    /\ IsInterrupted t (Some sub) (Some e') = interrupted
    /\ (interrupted = false -> errors_is e' ErrHandlerTimeout = true
        /\ (e = Sentinel DeadlineExceeded \/ e = Sentinel Canceled ->
            publish_needed (Some e') (local_delivery subject)
              (IsInterrupted t (Some sub) (Some e')) = true))
    /\ (interrupted = true -> errors_is e' ErrShutdownInterrupted = true
        /\ publish_needed (Some e') (local_delivery subject)
             (IsInterrupted t (Some sub) (Some e')) = false).
Proof.
  intros Ht0 Hti Hctx Ht He Hns interrupted.
  destruct (handler_ctx_run b c subject h true w hctx sub w1 Hctx)
    as (s & _ & _ & _ & _ & Hsub & Hdone & _).
  rewrite (proj2 (Z.ltb_lt _ _) Ht0) in Hdone. simpl in Hdone.
  assert (Hsd : cx_done sub = interrupted_at <$> ti) by (subst sub; simpl; by rewrite Hti; destruct ti).
  assert (Hdl : cx_deadline sub = None) by by subst sub.
  assert (Hcause : ctx_cause t sub = if interrupted then Some (Sentinel ErrShutdownInterrupted) else None).
  { unfold ctx_cause, interrupted. rewrite Hsd. by destruct ti. }
  assert (Herr : ctx_err t sub = if interrupted then Some (Sentinel Canceled) else None).
  { unfold ctx_err, interrupted. rewrite Hsd. by destruct ti. }
  assert (Hdone' : cx_done hctx = earlier (interrupted_at <$> ti)
    (Some (mkDone (w_now w + lb_handler_timeout b) DeadlineExceeded (Sentinel ErrHandlerTimeout)))).
  { rewrite Hdone. unfold WithTimeoutCause. by rewrite Hdl, Hsd. }
  assert (Hhc : Is (ctx_cause t hctx) ErrHandlerTimeout = false -> interrupted = true).
  { unfold ctx_cause, interrupted. rewrite Hdone'. destruct ti as [x|]; simpl.
    - destruct (Z.ltb_spec (w_now w + lb_handler_timeout b) x); simpl.
      + by rewrite (proj2 (Z.leb_le _ _) Ht).
      + intros _. apply Z.leb_le. lia.
    - by rewrite (proj2 (Z.leb_le _ _) Ht). }
  set (x := if Is (ctx_cause t hctx) ErrHandlerTimeout then wrap2 (Sentinel ErrHandlerTimeout) e else e).
  assert (Hx : adjust_error t hctx sub e = WrapInterrupted t sub (Some x)).
  { unfold adjust_error. unfold is_ctx_error in He. rewrite orb_comm in He.
    rewrite He. simpl. unfold x. by destruct (Is (ctx_cause t hctx) ErrHandlerTimeout). }
  assert (Hxs : Is (Some x) ErrShutdownInterrupted = false).
  { unfold x. destruct (Is (ctx_cause _ _) _); [|done]. by rewrite is_wrap2, errors_is_sentinel. }
  assert (Hxc : is_ctx_error (Some x) = true).
  { unfold x. destruct (Is (ctx_cause _ _) _); [by apply ctx_error_wrap2|done]. }
  assert (Hxe : forall target, errors_is e target = true -> errors_is x target = true).
  { intros target Hm. unfold x. destruct (Is (ctx_cause _ _) _); [|done].
    change (Is (Some (wrap2 (Sentinel ErrHandlerTimeout) e)) target = true).
    by rewrite is_wrap2, Hm, orb_true_r. }
  rewrite Hx, WrapInterrupted_cases, Hcause by done.
  destruct interrupted eqn:Hi; simpl.
  - assert (Hint : IsInterrupted t (Some sub)
      (Some (wrap2 (Sentinel ErrShutdownInterrupted) x)) = true)
      by (unfold IsInterrupted; rewrite Herr; by apply ctx_error_wrap2).
    eexists. split; [done|]. split; [|split; [exact Hint|split; [done|]]].
    + intros target Hm. change (Is (Some (wrap2 (Sentinel ErrShutdownInterrupted) x)) target = true).
      by rewrite is_wrap2, (Hxe _ Hm), orb_true_r.
    + intros _. split; [|unfold publish_needed; by rewrite Hint]. change (Is (Some (wrap2 (Sentinel ErrShutdownInterrupted) x)) ErrShutdownInterrupted = true).
      by rewrite is_wrap2.
  - assert (Hint : IsInterrupted t (Some sub) (Some x) = false)
      by (unfold IsInterrupted; by rewrite Herr).
    exists x. split; [done|]. split; [done|]. split; [exact Hint|split; [|done]]. rewrite Hint.
    + intros _. unfold x. destruct (Is (ctx_cause t hctx) ErrHandlerTimeout) eqn:Ehc;
        [|by specialize (Hhc eq_refl)].
      split; [change (Is (Some (wrap2 (Sentinel ErrHandlerTimeout) e)) ErrHandlerTimeout = true);
              by rewrite is_wrap2|].
      intros [-> | ->]; reflexivity.
Qed.

Lemma handler_timeout_is_failure_witness :
  exists hctx sub, forall t, 15 <= t ->
    exists e', adjust_error t hctx sub (Sentinel DeadlineExceeded) = Some e'
      /\ errors_is e' ErrHandlerTimeout = true.
Proof.
  assert (Hr : exists hctx sub w1, handler_ctx (demo_bus None 10 None) background "orders"
    (failing_handle None) true (demo_world 5 ∅) = (Ret (hctx, sub), w1))
    by (do 3 eexists; vm_compute; reflexivity).
  destruct Hr as (hctx & sub & w1 & Hr). exists hctx, sub. intros t Ht.
  destruct (handler_timeout_is_failure (demo_bus None 10 None) background "orders"
    (failing_handle None) (demo_world 5 ∅) w1 hctx sub None t (Sentinel DeadlineExceeded)
    eq_refl eq_refl Hr Ht eq_refl eq_refl) as (e' & He & _ & _ & Hf & _).
  exists e'. split; [exact He|]. exact (proj1 (Hf eq_refl)).
Defined.

(** ** Containment *)

Section contained.
Context {U : Type} `{Env U} (b : LocalBus U) (Hiso : isolated (lb_observer b)).

Lemma reportPanic_no_panic c subject h v : no_panic (reportPanic b c subject h v).
Proof using Type*.
  intros w x E. unfold reportPanic, raise_to, mbind, M_bind, log_entry in E. cbn in E.
  match type of E with (observe ?o ?c ?s ?w0).1 = _ =>
    destruct (observe o c s w0) as [r w1] eqn:Eo end. simpl in E. subst r.
  by apply (isolated_no_panic _ _ _ _ _ _ Hiso) in Eo.
Qed.

Lemma guardReport_no_panic c subject h report : no_panic (guardReport b c subject h report).
Proof using Type*. apply no_panic_recovering. intros v. by apply reportPanic_no_panic. Qed.

Lemma runTask_no_panic c subject e h : no_panic (runTask b c subject e h).
Proof using Type*. apply no_panic_recovering. intros v. by apply reportPanic_no_panic. Qed.
End contained.

Section handed_back.
Context {U : Type} `{Env U} `{!observers_keep (@same_publishes U)}.
Context (Honerr : forall b c e h, respects same_publishes (env_onerr (U := U) b c e h)).
Context (b : LocalBus U).

(** The context of a report: nothing moves but the scopes and the children. *)
Lemma reportCtx_run c subject w :
  exists rc w1, reportCtx b c subject w = (Ret rc, w1)
    /\ w_log w1 = w_log w /\ w_now w1 = w_now w
    /\ delivery_or_single rc = local_delivery subject.
Proof using Type.
  unfold reportCtx. set (c0 := WithDelivery c (local_delivery subject)).
  assert (Hw : exists c1 w1, WithObserver c0 (Some (lb_observer b)) w = (Ret c1, w1)
    /\ w_log w1 = w_log w /\ w_now w1 = w_now w /\ cx_delivery c1 = cx_delivery c0).
  { destruct (lb_observer b) as [| |id|gg inner|[chs|]]; do 2 eexists; split; try reflexivity; done. }
  destruct Hw as (c1 & w1 & Hw & Hl & Hn & Hd). rewrite (bind_run _ _ _ _ _ Hw).
  do 2 eexists. split; [reflexivity|]. split; [exact Hl|]. split; [exact Hn|].
  unfold delivery_or_single, DeliveryFromContext. simpl. by rewrite Hd.
Qed.

Lemma reject_keeps c subject e err : respects same_publishes (reject b c subject e err).
Proof using Type*.
  intros w. unfold reject. destruct (reportCtx_run c subject w) as (rc & w1 & Hr & Hl & _).
  rewrite (bind_run _ _ _ _ _ Hr). unfold same_publishes. rewrite <- Hl.
  by apply same_publishes_reportTerminal.
Qed.

Lemma dropQueueFull_keeps c subject e h : respects same_publishes (dropQueueFull b c subject e h).
Proof using Type*.
  intros w. unfold dropQueueFull. destruct (reportCtx_run c subject w) as (rc & w1 & Hr & Hl & _).
  rewrite (bind_run _ _ _ _ _ Hr). unfold same_publishes. rewrite <- Hl.
  by apply same_publishes_reportTerminal.
Qed.

(** A settlement of an interruption publishes nothing. *)
Lemma Settle_interrupted_keeps rc (i : SettleInput U) e w :
  in_err i = Some e -> in_evt i <> None -> IsInterrupted (w_now w) (in_sub i) (in_err i) = true ->
  same_publishes w (Settle rc i w).2.
Proof using Type*.
  intros He Hev Hint. unfold Settle. rewrite He.
  rewrite (deferring_ext _ _ (
    if Final (delivery_or_single rc) then
      _ ← reportTerminal rc i (delivery_or_single rc) OutcomeInterrupted ReasonInterrupted
            (Some (interrupted_error e));
      mret (mkSettlement DispositionRetry ReasonInterrupted (Some OutcomeInterrupted)
              (Some (interrupted_error e)))
    else mret (mkSettlement DispositionRetry ReasonInterrupted None None) : M U Settlement) _
    (fun res => flushHandlerDone (FailureScopeFromContext rc) rc (handlerDoneOutcome res)) w); [|
    unfold settle_body; destruct (in_evt i); [|done]; simpl;
    unfold mbind at 1 2, M_bind at 1 2, mret at 1, M_ret at 1, now at 1; by rewrite Hint|done].
  apply respects_deferring; [apply _| |intros; by apply same_publishes_flush].
  apply respects_if; [|by apply respects_ret, _].
  apply respects_bind; [apply _|by apply same_publishes_reportTerminal|].
  intros _. by apply respects_ret, _.
Qed.

Lemma interrupted_keeps c subject e h ti :
  lb_interrupt b = interrupted_at <$> ti -> respects same_publishes (interrupted b c subject e h).
Proof using Type*.
  intros Hti w. unfold interrupted, mbind at 1, M_bind at 1, now at 1.
  destruct (ctx_err (w_now w) (bus_context b)) as [ce|] eqn:Hce; [|by apply reject_keeps].
  destruct (reportCtx_run c subject w) as (rc & w1 & Hr & Hl & Hn & Hd).
  rewrite (bind_run _ _ _ _ _ Hr). unfold mbind at 1, M_bind at 1, now at 1.
  assert (Hbus : exists ce', WrapInterrupted (w_now w1) (bus_context b) (Some (Sentinel Canceled)) = Some ce'
    /\ is_ctx_error (Some ce') = true).
  { rewrite WrapInterrupted_cases by done. destruct (Is _ _); eexists; (split; [done|]); done. }
  destruct Hbus as (ce' & -> & Hctx).
  set (i := mkSettleInput _ _ _ _ _).
  assert (Hint : IsInterrupted (w_now w1) (in_sub i) (in_err i) = true).
  { unfold IsInterrupted, i. simpl. by rewrite Hn, Hce. }
  pose proof (Settle_interrupted_keeps rc i ce' w1 eq_refl ltac:(done) Hint) as Hset.
  unfold same_publishes in *. rewrite <- Hl. rewrite <- Hset.
  unfold mbind, M_bind. by destruct (Settle rc i w1) as [[res|v|] w2].
Qed.
End handed_back.

(** Containment. Whatever a handler, an invoker, the dead-letter publisher,
    an event's methods or an observer do, no panic leaves a task or a report made
    on the goroutine of an emit, so that it can neither skip the remaining
    handlers nor crash the process; and the reports of work that never ran - an
    emit refused, a task dropped for lack of room, a task handed back by the
    shutdown - publish nothing to the dead-letter queue, panicking or not. *)
Theorem reports_are_contained {U : Type} `{Env U} (b : LocalBus U) (ti : option Z)
    (c : Ctx) (subject handler : string) (e : Event) (h : namedHandle U) (w : World U) :
  observers_keep (@same_publishes U) ->
  (forall b c e h, respects same_publishes (env_onerr (U := U) b c e h)) ->
  isolated (lb_observer b) -> lb_interrupt b = interrupted_at <$> ti ->
  (forall v, (runTask b c subject e h w).1 <> Panicking v)
  /\ (forall report v, (guardReport b c subject handler report w).1 <> Panicking v)
  /\ forall report, report = reject b c subject e (Some (Sentinel ErrBusClosed))
       \/ report = dropQueueFull b c subject e handler
       \/ report = interrupted b c subject e handler ->
     publishes (w_log (guardReport b c subject handler report w).2) = publishes (w_log w).
Proof.
  intros Hk Honerr Hiso Hti. split; [by apply runTask_no_panic|].
  split; [intros report; by apply guardReport_no_panic|]. intros report Hr.
  assert (Hq : respects same_publishes report).
  { destruct Hr as [->|[->| ->]]; [by apply reject_keeps|by apply dropQueueFull_keeps|].
    by eapply interrupted_keeps. }
  assert (Hg : respects same_publishes (guardReport b c subject handler report)); [|exact (Hg w)].
  apply respects_recovering; [apply _|done|]. intros v.
  apply raise_to_keeps; [apply _|done|by apply same_publishes_log].
Qed.

(** The bus was interrupted at time 5, and the event's [OnErr] is called. *)
Lemma reports_are_contained_witness :
  publishes (w_log (guardReport (demo_bus (Some (flaky 0)) 0 (Some (interrupted_at 5))) background
    "orders" "h" (interrupted (demo_bus (Some (flaky 0)) 0 (Some (interrupted_at 5))) background
      "orders" (plain_event "e") "h") (demo_world 9 ∅)).2) = [].
Proof.
  destruct (reports_are_contained (demo_bus (Some (flaky 0)) 0 (Some (interrupted_at 5))) (Some 5)
    background "orders" "h" (plain_event "e") (failing_handle None) (demo_world 9 ∅)
    demo_keeps_publishes demo_onerr_publishes I eq_refl) as (_ & _ & H).
  apply H. right. right. reflexivity.
Defined.

(** ** [EmitSync] *)

Section sync.
Context {U : Type} `{Env U} (b : LocalBus U) (c : Ctx) (subject : string) (e : Event).

(** Handlers run one after the other, the context still live before each. *)
Inductive ran_all : list (namedHandle U) -> list goerr -> World U -> World U -> Prop :=
| ran_nil w : ran_all [] [] w w
| ran_cons h hs r rs w w1 w2 :
    ctx_err (w_now w) c = None -> execute b c subject e h false w = (Ret r, w1) ->
    ran_all hs rs w1 w2 -> ran_all (h :: hs) (r :: rs) w w2.

(** The errors of the handlers that failed, in order. *)
Definition failures_of (hs : list (namedHandle U)) (rs : list goerr) : list error :=
  omap (fun hr => if handled hr.2 then None else Some (HandlerError (nh_name hr.1) hr.2)) (zip hs rs).

Lemma sync_loop_run hs errs w res w' :
  sync_loop b c subject e hs errs w = (Ret res, w') ->
  exists run rest rs, hs = run ++ rest /\ ran_all run rs w w'
    /\ ((rest = [] /\ res = errs ++ failures_of run rs)
        \/ (rest <> [] /\ exists ce, ctx_err (w_now w') c = Some ce
              /\ res = errs ++ failures_of run rs ++ [ce])).
Proof using Type.
  revert errs w. induction hs as [|h hs IH]; intros errs w Hr; cbn [sync_loop] in Hr.
  - ret_inv. exists [], [], []. split; [done|]. split; [constructor|]. left. by rewrite app_nil_r.
  - apply bind_ret_inv in Hr as (cerr & w1 & Hc & Hr). unfold Err in Hc.
    apply bind_ret_inv in Hc as (t & w2 & Ht & Hc). apply now_inv in Ht as [-> ->].
    apply mret_inv in Hc as [-> ->].
    destruct (ctx_err (w_now w) c) as [ce|] eqn:Hce.
    + ret_inv. exists [], (h :: hs), []. split; [done|]. split; [constructor|]. right.
      split; [done|]. by exists ce.
    + apply bind_ret_inv in Hr as (r & w1 & Hx & Hr).
      destruct (IH _ _ Hr) as (run & rest & rs & -> & Hran & Hend).
      exists (h :: run), rest, (r :: rs). split; [done|]. split; [by econstructor|].
      unfold failures_of in *. simpl. destruct (handled r); simpl; [done|].
      destruct Hend as [[? ->]|[? (ce & ? & ->)]]; [left|right]; rewrite <- !app_assoc; eauto.
Qed.

Lemma failures_of_nil hs rs :
  length hs = length rs -> failures_of hs rs = [] <-> Forall (fun r => handled r = true) rs.
Proof using Type.
  revert rs. induction hs as [|h hs IH]; intros [|r rs] Hl; try done.
  unfold failures_of in *. simpl. rewrite Forall_cons, <- (IH rs) by (simpl in Hl; lia).
  destruct (handled r); naive_solver.
Qed.

Lemma ran_all_length hs rs w w' : ran_all hs rs w w' -> length hs = length rs.
Proof using Type. induction 1; simpl; congruence. Qed.
End sync.

Lemma omap_id_some (l : list error) : omap id (map Some l) = l.
Proof. induction l as [|x l IH]; [done|]. simpl. f_equal. exact IH. Qed.

Lemma join_nil (l : list error) : join (map Some l) = None <-> l = [].
Proof. unfold join. rewrite omap_id_some. by destruct l. Qed.

Lemma join_is (l : list error) target :
  Is (join (map Some l)) target = existsb (fun x => errors_is x target) l.
Proof.
  unfold join. rewrite omap_id_some. destruct l as [|x l]; [done|].
  unfold Is. rewrite errors_is_unwrap. done.
Qed.

(** C32: [EmitSync]. The event goes to every handler of its subject in the order
    of subscription, each after the one before it returned and whatever it
    returned, until the caller's context is done. The error is nil exactly when
    every handler ran and succeeded, found a duplicate or was dead-lettered;
    otherwise it joins one [HandlerError] per failed handler and the context's
    error. A closing bus runs none of them and answers [ErrBusClosed]. *)
Theorem EmitSync_contract {U : Type} `{Env U} `{Lens Lifecycle U} (b : LocalBus U)
    (newid : M U string) (c : Ctx) (e : Event) (opts : list (EmitOption U)) (w w' : World U)
    (err : goerr) :
  EmitSync b newid c e opts w = (Ret err, w') ->
  exists c1 subject w1, emit_ctx b newid c e opts w = (Ret (c1, subject), w1) /\
  let hs := snapshot b subject in
  let admitted := Admit (Nested (lb_life b) c1) (lget (w_user w1)) in
  (hs = [] /\ err = None /\ w' = w1)
  \/ (hs <> [] /\ admitted.2 = Some (Sentinel ErrBusClosed) /\ err = Some (Sentinel ErrBusClosed)
      /\ lget (w_user w') = lget (w_user w1))
  \/ (hs <> [] /\ admitted.2 = None
      /\ exists run rest rs w2 w3 ces, hs = run ++ rest /\ ran_all b c1 subject e run rs w2 w3
          /\ lget (w_user w2) = admitted.1 /\ lget (w_user w') = (releaser (lget (w_user w3))).1
          /\ err = join (map Some (failures_of run rs ++ ces))
          /\ ((rest = [] /\ ces = [])
              \/ (rest <> [] /\ exists ce, ctx_err (w_now w3) c1 = Some ce /\ ces = [ce]))
          /\ (err = None <-> rest = [] /\ Forall (fun r => handled r = true) rs)
          /\ forall target, Is err target =
               existsb (fun x => errors_is x target) (failures_of run rs ++ ces)).
Proof.
  intros Hrun. unfold EmitSync in Hrun.
  apply bind_ret_inv in Hrun as ([c1 subject] & w1 & Hctx & Hrun).
  exists c1, subject, w1. split; [done|]. cbv zeta.
  destruct (snapshot b subject) as [|h hs] eqn:Hsn; [left; by ret_inv|right].
  apply bind_ret_inv in Hrun as (aerr & w2 & Ha & Hrun).
  destruct (atomically_run (fun l : Lifecycle =>
    let '(l, err) := Admit (Nested (lb_life b) c1) l in (err, l)) w1) as (w2' & Ha' & Hl & _).
  unfold admit_life in Ha. rewrite Ha' in Ha. injection Ha as <- <-.
  destruct (Admit (Nested (lb_life b) c1) (lget (w_user w1))) as [l aerr] eqn:Had.
  simpl in Hrun, Hl. destruct aerr as [ae|].
  - left. assert (ae = Sentinel ErrBusClosed /\ l = lget (w_user w1)) as [-> ->].
    { unfold Admit in Had. by repeat case_hyp Had; simplify_eq. }
    apply mret_inv in Hrun as [-> ->]. done.
  - right. split; [done|]. split; [done|].
    apply deferring_ret_inv in Hrun as (w3 & Hrun & Hrel).
    apply bind_ret_inv in Hrun as (errs & w4 & Hloop & Hrun). ret_inv.
    destruct (sync_loop_run b c1 subject e (h :: hs) [] w2' errs w4 Hloop) as (run & rest & rs & Heq & Hran & Hend).
    destruct (atomically_run (fun l : Lifecycle => (tt, (releaser l).1)) w4) as (w5 & Hr5 & Hl5 & _).
    unfold release_life in Hrel. rewrite Hr5 in Hrel. injection Hrel as <-.
    exists run, rest, rs, w2', w4, (match rest with [] => [] | _ => match ctx_err (w_now w4) c1 with
      Some ce => [ce] | None => [] end end).
    pose proof (ran_all_length _ _ _ _ _ _ _ _ Hran) as Hlen.
    assert (Herrs : errs = failures_of run rs ++ (match rest with [] => [] | _ =>
      match ctx_err (w_now w4) c1 with Some ce => [ce] | None => [] end end)).
    { destruct Hend as [[-> ->]|(Hne & ce & Hce & ->)]; [by rewrite app_nil_r|].
      destruct rest; [done|]. by rewrite Hce. }
    rewrite <- Herrs. split; [done|]. split; [done|]. split; [done|]. split; [done|].
    split; [done|]. split; [|split; [|apply join_is]].
    + destruct Hend as [[-> _]|(Hne & ce & Hce & _)]; [by left|right]. split; [done|].
      exists ce. split; [done|]. destruct rest; [done|]. by rewrite Hce.
    + rewrite join_nil. destruct Hend as [[-> ->]|(Hne & ce & Hce & ->)].
      * simpl. rewrite (failures_of_nil run rs Hlen). naive_solver.
      * split; [intros Hx; by destruct (failures_of run rs)|]. by intros [-> _].
Qed.

(** Three handlers on a fresh bus: one succeeds, one fails, one succeeds. *)
#[export] Instance sync_env : Env Lifecycle := silent_env Lifecycle.
Definition sync_handle (err : goerr) : namedHandle Lifecycle := mkHandle "h" (fun _ _ => mret err).
Definition sync_bus : LocalBus Lifecycle :=
  mkLocalBus {[ "e" := [sync_handle None; sync_handle (Some (Sentinel (External "boom")));
                        sync_handle None] ]}
    (Multi (Some [])) false None passthroughInvoker 16 1024 OverflowBlock 0 0 None [] 0 None.
Definition sync_world : World Lifecycle := mkWorld 3 [] ∅ 0 ∅ ∅ zero_lifecycle.

Lemma EmitSync_contract_witness :
  exists err w', EmitSync sync_bus (mret "id") background (plain_event "e") [] sync_world
      = (Ret err, w')
    /\ exists run rs w2 w3, ran_all sync_bus (with_observer (WithMetadata background
           (mkMetadata "id" "id" "" "e" 1 3 None)) (Multi (Some []))) "e" (plain_event "e")
         run rs w2 w3 /\ err = join (map Some (failures_of run rs)) /\ length run = 3%nat.
Proof.
  assert (Hr : exists err w', EmitSync sync_bus (mret "id") background (plain_event "e") []
    sync_world = (Ret err, w')) by (do 2 eexists; vm_compute; reflexivity).
  destruct Hr as (err & w' & Hr). exists err, w'. split; [exact Hr|].
  destruct (EmitSync_contract sync_bus (mret "id") background (plain_event "e") [] sync_world w' err
    Hr) as (c1 & subject & w1 & Hc & Hcase).
  injection Hc as <- <- <-. cbv zeta in Hcase.
  destruct Hcase as [(Hn & _)|[(_ & Hn & _)|(_ & _ & run & rest & rs & w2 & w3 & ces & Heq & Hran
    & _ & _ & Herr & Hrest & _)]]; [discriminate Hn|discriminate Hn|].
  exists run, rs, w2, w3. split; [exact Hran|].
  destruct Hrest as [[-> ->]|(_ & ce & Hce & _)]; [|discriminate Hce].
  rewrite app_nil_r in Herr, Heq. split; [exact Herr|]. rewrite <- Heq. reflexivity.
Defined.
