(* ===== verification/Nats.v ===== *)
(** * The client of the message broker

    The packages nats and jetstream of the NATS client are not part of the
    repository. The transports use of them the header map of a message
    ([NatsLib], with the documented behaviour of [Set] and [Get]), the error
    values they compare with, and the publish call of a stream ([Stream]). The
    trace records every publish with the moment it started and its result, so that
    the theorems can speak of what was sent, how often and when. *)

From S2P Require Import Prelude GoErrors Types Runtime.
Local Open Scope string_scope.
Local Open Scope list_scope.
Local Open Scope Z_scope.

Class NatsLib := {
  (** [nats.ErrTimeout], [nats.ErrNoResponders], [nats.ErrMaxPayload],
      [jetstream.ErrNoStreamResponse] and [jetstream.ErrNoMessages]. *)
  ErrTimeout : sentinel;
  ErrNoResponders : sentinel;
  ErrMaxPayload : sentinel;
  ErrNoStreamResponse : sentinel;
  ErrNoMessages : sentinel;
  (** [jetstream.MsgIDHeader]. *)
  MsgIDHeader : string;
  MsgIDHeader_spec : MsgIDHeader = "Nats-Msg-Id";
  (** [nats.Header.Set] replaces the values of a key, whose case matters, and
      [nats.Header.Get] is the first one, or empty. *)
  header_Set : string -> string -> Header -> Header;
  header_Get : string -> Header -> string;
  header_Set_spec k v h : header_Set k v h = <[k := [v]]> h;
  header_Get_spec k h : header_Get k h = default "" (h !! k ≫= hd_error);
}.

(** [jetstream.PubAck], as far as it is read. *)
Record PubAck := mkPubAck { pa_duplicate : bool }.

(** [JetStream.PublishMsg]. *)
Class Stream (U : Type) := { stream_publish : Ctx -> NatsMsg -> M U (option PubAck * goerr) }.

Definition PublishMsg {U} `{Stream U} (c : Ctx) (m : NatsMsg) : M U (option PubAck * goerr) :=
  t ← now;
  r ← stream_publish c m;
  _ ← log_entry (EMessage t m r.2);
  mret r.

(** [rand.Int64N]: it panics unless its argument is positive. *)
Class Random (U : Type) := { random_below : Z -> M U Z }.

Definition Int64N {U} `{Random U} (n : Z) : M U Z :=
  if n <=? 0 then panic (mkAny "invalid argument to Int64N" None) else random_below n.

(** ** Facts *)

Lemma Get_Set `{NatsLib} k k' v h :
  header_Get k (header_Set k' v h) = if decide (k = k') then v else header_Get k h.
Proof.
  rewrite header_Set_spec, !header_Get_spec. destruct (decide (k = k')) as [->|Hne].
  - by rewrite lookup_insert_eq.
  - by rewrite lookup_insert_ne.
Qed.

(** What was sent: moment, message and result of every publish. *)
Definition sent_of (e : entry) : option (Z * NatsMsg * goerr) :=
  match e with EMessage t m r => Some (t, m, r) | _ => None end.
Definition messages (l : list entry) : list (Z * NatsMsg * goerr) := omap sent_of l.

Lemma messages_app l1 l2 : messages (l1 ++ l2) = messages l1 ++ messages l2.
Proof. apply omap_app. Qed.

(** Nothing is sent and the clock does not move backwards. *)
Definition quiet {U} : relation (World U) := fun w w' =>
  messages (w_log w') = messages (w_log w) /\ w_now w <= w_now w'.

#[export] Instance quiet_preorder U : PreOrder (@quiet U).
Proof.
  split; [done|]. intros w1 w2 w3 [H1 Ht1] [H2 Ht2]. split; [congruence|lia].
Qed.

(** A broker that answers every publish, and a random source in range. *)
Record calm_stream {U} `{Stream U} `{Random U} : Prop := {
  cs_publish c m : returns (stream_publish (U := U) c m);
  cs_quiet c m : respects quiet (stream_publish (U := U) c m);
  cs_random n : returns (random_below (U := U) n);
  cs_random_quiet n : respects quiet (random_below (U := U) n);
  cs_random_range n : 0 < n -> yields (fun r => 0 <= r < n) (random_below (U := U) n);
}.
Arguments calm_stream U {_ _}.

(** One publish: it is answered, and recorded with its result. *)
Lemma PublishMsg_run {U} `{Stream U} `{Random U} (Hs : calm_stream U) c m (w : World U) :
  exists r w', PublishMsg c m w = (Ret r, w') /\ w_now w <= w_now w'
    /\ messages (w_log w') = messages (w_log w) ++ [(w_now w, m, r.2)].
Proof.
  unfold PublishMsg. destruct (cs_publish Hs c m w) as [r Hr]. apply ran in Hr.
  pose proof (cs_quiet Hs c m w) as [Hq Ht]. rewrite Hr in Hq, Ht.
  exists r. eexists. split; [|split].
  - erewrite bind_run by reflexivity. erewrite bind_run by exact Hr. reflexivity.
  - exact Ht.
  - simpl. rewrite messages_app, <- Hq. by rewrite Hr.
Qed.

(** ** A concrete client *)

Definition demo_nats : NatsLib.
Proof.
  refine {|
    ErrTimeout := External "nats: timeout";
    ErrNoResponders := External "nats: no responders";
    ErrMaxPayload := External "nats: maximum payload exceeded";
    ErrNoStreamResponse := External "nats: no response from stream";
    ErrNoMessages := External "nats: no messages";
    MsgIDHeader := "Nats-Msg-Id";
    header_Set k v h := <[k := [v]]> h;
    header_Get k h := default "" (h !! k ≫= hd_error);
  |}; done.
Defined.
