(* ===== verification/Jetstream.v ===== *)
(** * The JetStream consumer

    The consuming half of src/jetstream/bus.go: from a message the server
    delivered to the one acknowledgement the bus answers with. The client of the
    server is the interface [Broker]; [act] is a call of one of the acknowledgement
    methods of a message, recorded in the trace before it runs.

    The local variable [acted] of the handler is the boolean that tells its
    recover in which half of the callback the panic was: it is false while the
    message is being processed and true from the moment before the broker action. *)

From S2P Require Import Prelude GoErrors Types Failure Runtime Observer Scope Dlq.
From S2P Require Import Settle Invoke Invokers Lifecycle LifeOps Emit.
Local Open Scope string_scope.
Local Open Scope list_scope.
Local Open Scope Z_scope.

(** ** Messages *)

(** [jetstream.MsgMetadata], as far as it is read. *)
Record MsgMetadata := mkMsgMetadata {
  mm_num_delivered : Z;
  mm_stream : string;
  mm_consumer : string;
  mm_stream_seq : Z;
  mm_timestamp : Z;
}.

(** [jetstream.Msg]: what its accessors return. *)
Record JsMsg := mkJsMsg {
  jm_subject : string;
  jm_data : option string;
  jm_headers : option (gmap string (list string));
  jm_metadata : MsgMetadata + error;
}.

(** The acknowledgement methods of a message. *)
Class Broker (U : Type) := { broker_act : JsMsg -> BrokerAction -> M U goerr }.

Definition act {U} `{Broker U} (m : JsMsg) (a : BrokerAction) : M U goerr :=
  _ ← log_entry (EBroker a); broker_act m a.

(** ** Configuration *)

(** [PublishRetryPolicy]. *)
Record PublishRetryPolicy := mkPublishRetryPolicy {
  pr_max_attempts : Z;
  pr_base_delay : Z;
  pr_max_delay : Z;
  pr_attempt_timeout : Z;
}.

Definition defaultPublishAttempts : Z := 3.
Definition defaultPublishBaseDelay : Z := 100 * 10 ^ 6.
Definition defaultPublishMaxDelay : Z := 10 ^ 9.
Definition defaultPublishAttemptTimeout : Z := 2 * 10 ^ 9.

(** [PublishRetryPolicy.normalized]. *)
Definition normalized (p : PublishRetryPolicy) : PublishRetryPolicy :=
  mkPublishRetryPolicy
    (if pr_max_attempts p <=? 0 then defaultPublishAttempts else pr_max_attempts p)
    (if pr_base_delay p <=? 0 then defaultPublishBaseDelay else pr_base_delay p)
    (if pr_max_delay p <=? 0 then defaultPublishMaxDelay else pr_max_delay p)
    (if pr_attempt_timeout p =? 0 then defaultPublishAttemptTimeout else pr_attempt_timeout p).

Record BusOptions (U : Type) := mkBusOptions {
  bo_invoker : option (Invoker U);
  bo_observer : option observer;
  bo_circuit_open_delay : Z;
  bo_rate_limit_delay : Z;
  bo_id_generator : option (M U string);
  bo_inherit_headers : list string;
  bo_dlq : option (DLQPublisher U);
  bo_publish_retry : PublishRetryPolicy;
  bo_shutdown_timeout : Z;
}.
Arguments mkBusOptions {U}.
Arguments bo_invoker {U}.
Arguments bo_observer {U}.
Arguments bo_circuit_open_delay {U}.
Arguments bo_rate_limit_delay {U}.
Arguments bo_id_generator {U}.
Arguments bo_inherit_headers {U}.
Arguments bo_dlq {U}.
Arguments bo_publish_retry {U}.
Arguments bo_shutdown_timeout {U}.

(** [Bus]; [jb_life] is the identity of its lifecycle and [jb_interrupt] the
    moment, if any, at which [Interrupt] cancels its context. *)
Record Bus (U : Type) := mkBus {
  jb_registry : @Registry U;
  jb_decode : Decoder U;
  jb_invoker : option (Invoker U);
  jb_id_gen : option (M U string);
  jb_inherit : list string;
  jb_dlq : option (DLQPublisher U);
  jb_pub_retry : PublishRetryPolicy;
  jb_observer : option observer;
  jb_default_log : bool;
  jb_shutdown_timeout : Z;
  jb_circuit_open_delay : Z;
  jb_rate_limit_delay : Z;
  jb_life : nat;
  jb_interrupt : option done_info;
}.
Arguments mkBus {U}.
Arguments jb_registry {U}.
Arguments jb_decode {U}.
Arguments jb_invoker {U}.
Arguments jb_id_gen {U}.
Arguments jb_inherit {U}.
Arguments jb_dlq {U}.
Arguments jb_pub_retry {U}.
Arguments jb_observer {U}.
Arguments jb_default_log {U}.
Arguments jb_shutdown_timeout {U}.
Arguments jb_circuit_open_delay {U}.
Arguments jb_rate_limit_delay {U}.
Arguments jb_life {U}.
Arguments jb_interrupt {U}.

(** [event.DefaultShutdownTimeout]. *)
Definition js_default_shutdown : Z := 30 * 10 ^ 9.

(** [NewBus]; [default_observer] is what [NewSlogObserver(nil)] gives. *)
Definition NewBus {U} (default_observer : observer) (life : nat) (interrupt : option done_info)
    (registry : @Registry U) (decode : Decoder U) (o : BusOptions U) : M U (Bus U) :=
  let circuit := if bo_circuit_open_delay o =? 0 then 30 * 10 ^ 9 else bo_circuit_open_delay o in
  let rate := if bo_rate_limit_delay o =? 0 then 5 * 10 ^ 9 else bo_rate_limit_delay o in
  let inv := match bo_invoker o with Some i => i | None => Chain [] end in
  let shutdown := if bo_shutdown_timeout o <=? 0 then js_default_shutdown
                  else bo_shutdown_timeout o in
  obs ← MultiObserver [Some (default default_observer (bo_observer o))];
  mret (mkBus registry decode (Some inv) (bo_id_generator o) (bo_inherit_headers o) (bo_dlq o)
          (normalized (bo_publish_retry o)) (Some obs) (is_nil (bo_observer o)) shutdown
          circuit rate life interrupt).

(** [deliveryPolicy]. *)
Record deliveryPolicy := mkDeliveryPolicy { dp_max_deliver : Z; dp_backoff : list Z }.

Definition defaultBackOff : list Z := [10 ^ 9; 5 * 10 ^ 9; 30 * 10 ^ 9; 60 * 10 ^ 9].

Definition termReasonPanicAfterSettle : string := "panic: recovered after settlement".
Definition termReasonPanicOnFinal : string :=
  "panic: recovered on the final delivery before settlement".

Section consumer.
Context {U : Type} `{Env U} `{Broker U} (b : Bus U).

(** [Bus.obs]. *)
Definition obs : observer := match jb_observer b with Some o => o | None => NopObserver end.

(** [Bus.internalError]. *)
Definition internalError (c : Ctx) (op handler subject : string) (err : goerr) : M U unit :=
  raise_to obs c (SInternalError (mkInternalErrorInfo ComponentTransport op handler subject err)).

(** [Bus.msgScope]: [g] is the identity of the [settleGuard], [None] for nil. *)
Definition msgScope (c : Ctx) (g : option nat) : M U Ctx :=
  let o := match g with Some g => Guard g obs | None => obs end in
  c ← WithObserver c (Some o);
  cs ← WithFailureScope c;
  mret cs.1.

(** [settleGuard.publisher], with [guardedPublisher.Publish]. *)
Definition guardedPublisher (g : nat) (p : DLQPublisher U) : DLQPublisher U := fun c r =>
  err ← p c r;
  _ ← (match err with None => set_ended g | Some _ => mret tt end);
  mret err.
Definition guard_publisher (g : nat) (p : option (DLQPublisher U)) : option (DLQPublisher U) :=
  match p with None => None | Some p => Some (guardedPublisher g p) end.

(** The error of a message without metadata. *)
Definition metadata_unavailable (e : error) : error :=
  Wrapped ("jetstream: message metadata unavailable, treating as first delivery: " +:+ error_text e)
    [e].

(** [Bus.delivery]. *)
Definition delivery (c : Ctx) (m : JsMsg) (p : deliveryPolicy) : M U Delivery :=
  match jm_metadata m with
  | inr e =>
      _ ← internalError c OpConsume "" (jm_subject m) (Some (metadata_unavailable e));
      mret (mkDelivery 1 (dp_max_deliver p) (jm_subject m) (jm_data m) (jm_headers m) "" "" 0
              zero_time "nats")
  | inl md =>
      let count := if 0 <? mm_num_delivered md then wrap64 (mm_num_delivered md) else 1 in
      mret (mkDelivery count (dp_max_deliver p) (jm_subject m) (jm_data m) (jm_headers m)
              (mm_stream md) (mm_consumer md) (mm_stream_seq md) (mm_timestamp md) "nats")
  end.

(** [Bus.delayFor]. *)
Definition delayFor (err : goerr) (d : Delivery) (backoff : list Z) : Z :=
  let backoff := match backoff with [] => defaultBackOff | _ => backoff end in
  let scheduled :=
    nth (Z.to_nat (Z.min (Z.max (wrap64 (d_count d - 1)) 0) (Z.of_nat (length backoff) - 1)))
      backoff 0 in
  if Is err ErrDeadLetterFailed then scheduled
  else if Is err ErrCircuitOpen then jb_circuit_open_delay b
  else if Is err ErrRateLimited then jb_rate_limit_delay b
  else scheduled.

(** A failed acknowledgement is reported. *)
Definition report_act (c : Ctx) (op handler subject : string) (aerr : goerr) : M U unit :=
  match aerr with
  | Some _ => internalError c op handler subject aerr
  | None => mret tt
  end.

(** The operation and the action of [Bus.apply]. *)
Definition settlement_action (s : Settlement) (err : goerr) (d : Delivery) (p : deliveryPolicy)
    : option (string * BrokerAction) :=
  match s_disposition s with
  | DispositionAck => Some (OpAck, MsgAck)
  | DispositionRetry => Some (OpNak, MsgNak)
  | DispositionRetryDelayed =>
      let errForDelay := match s_err s with Some _ => s_err s | None => err end in
      Some (OpNak, MsgNakWithDelay (delayFor errForDelay d (dp_backoff p)))
  | DispositionTerminal =>
      Some (OpTerm, MsgTermWithReason
        (match s_outcome s with Some o => outcome_string o | None => "" end
           +:+ ": " +:+ s_reason s))
  | DispositionInvalid => None
  end.

(** [Bus.apply]. *)
Definition apply_settlement (c : Ctx) (m : JsMsg) (handler : string) (s : Settlement) (err : goerr)
    (d : Delivery) (p : deliveryPolicy) : M U unit :=
  match settlement_action s err d p with
  | Some (op, a) => aerr ← act m a; report_act c op handler (d_subject d) aerr
  | None => mret tt
  end.

(** [Bus.handBack]. *)
Definition handBack (c : Ctx) (m : JsMsg) (handler : string) (p : deliveryPolicy) : M U unit :=
  hctx ← msgScope c None;
  d ← delivery hctx m p;
  aerr ← act m MsgNak;
  _ ← report_act hctx OpNak handler (d_subject d) aerr;
  if negb (Final d) then mret tt
  else
    t ← now;
    let cctx := cancelled_by (Some (mkDone t Canceled (Sentinel ErrShutdownInterrupted))) hctx in
    _ ← Settle (WithDelivery hctx d) (mkSettleInput (Some cctx) None handler
           (Some (wrap2 (Sentinel ErrShutdownInterrupted) (Sentinel Canceled))) (jb_dlq b));
    mret tt.

(** [Bus.reportPanicOnFinal]. *)
Definition reportPanicOnFinal (c : Ctx) (handler : string) (d : Delivery) (pe : error) : M U unit :=
  recovering
    (let d := redactDelivery d in
     t ← now;
     raise_to obs (WithDelivery c d)
       (SFailure (mkFailureContext handler None zero_metadata OutcomeDropped ReasonPanic (Some pe)
          (FailingInvokerOf (Some pe)) 0 d BreakerNone [] t)))
    (fun v => recovering
       (internalError c OpPanic handler (d_subject d) (Some (recoveredPanic v)))
       (fun _ => mret tt)).

(** What the callback knows when it is about to answer. *)
Record verdict := mkVerdict {
  v_ctx : Ctx;
  v_settlement : Settlement;
  v_err : goerr;
  v_delivery : Delivery;
}.

(** The callback of [msgHandler] once the message was decoded, until [apply]. *)
Definition handle_event (g : nat) (hctx : Ctx) (handler : string)
    (fn : Ctx -> option Event -> M U goerr) (d : Delivery) (msgCtx : Ctx) (evt : option Event)
    : M U verdict :=
  t ← now;
  let msgCtx := WithExecution (WithDelivery msgCtx d) (mkExecution handler t) in
  err ← InvokeHandler msgCtx (jb_invoker b) evt handler (fun c => fn c evt);
  t ← now;
  let err := WrapInterrupted t hctx err in
  s ← Settle msgCtx
        (mkSettleInput (Some hctx) evt handler err (guard_publisher g (jb_dlq b)));
  mret (mkVerdict msgCtx s err d).

(** The callback of [msgHandler] between its closing check and [apply]. *)
Definition process (g : nat) (c : Ctx) (handler : string) (fn : Ctx -> option Event -> M U goerr)
    (p : deliveryPolicy) (m : JsMsg) : M U verdict :=
  hctx ← msgScope (HandlerContext (jb_life b) (jb_interrupt b) c false) (Some g);
  d ← delivery hctx m p;
  '(msgCtx, evt, err) ← jb_decode b hctx (jm_data m);
  match err with
  | Some _ =>
      let msgCtx := default hctx msgCtx in
      let err := WrapDecodeError err in
      s ← Settle (WithDelivery msgCtx d)
            (mkSettleInput (Some hctx) None handler err (guard_publisher g (jb_dlq b)));
      mret (mkVerdict msgCtx s err d)
  | None =>
      match msgCtx with
      | None => panic (mkAny "cannot create context from nil parent" None)
      | Some msgCtx => handle_event g hctx handler fn d msgCtx evt
      end
  end.

(** The recover of [msgHandler]; [acted] is its local variable. *)
Definition recover_message (g : nat) (c : Ctx) (handler : string) (p : deliveryPolicy) (m : JsMsg)
    (acted : bool) (r : any error) : M U unit :=
  let pe := recoveredPanic r in
  _ ← internalError c OpPanic handler (jm_subject m) (Some pe);
  if acted then mret tt
  else
    d ← delivery c m p;
    ended ← get_ended g;
    '(op, aerr) ←
      (if Final d && negb ended
       then _ ← reportPanicOnFinal c handler d pe;
            aerr ← act m (MsgTermWithReason termReasonPanicOnFinal); mret (OpTerm, aerr)
       else if ended && negb (Final d)
       then aerr ← act m (MsgTermWithReason termReasonPanicAfterSettle); mret (OpTerm, aerr)
       else aerr ← act m (MsgNakWithDelay (delayFor (Some pe) d (dp_backoff p)));
            mret (OpNak, aerr));
    report_act c op handler (d_subject d) aerr.

(** A call in two halves under one recover, which is told in which half it was
    when the panic struck. *)
Definition recovering_halves {A} (before : M U A) (after : A -> M U unit)
    (h : bool -> any error -> M U unit) : M U unit := fun w =>
  match before w with
  | (Ret a, w1) => recovering (after a) (h true) w1
  | (Panicking v, w1) => h false v w1
  | (Goexit, w1) => (Goexit, w1)
  end.

Context `{Lens Lifecycle U}.

(** The first half of the callback: hand back ([None]) or answer with a verdict. *)
Definition decide_message (g : nat) (ok : bool) (c : Ctx) (handler : string)
    (fn : Ctx -> option Event -> M U goerr) (p : deliveryPolicy) (m : JsMsg)
    : M U (option verdict) :=
  closing ← (if ok then closing_life else mret true);
  if closing : bool then mret None
  else v ← process g c handler fn p m; mret (Some v).

(** The second half. *)
Definition answer (c : Ctx) (handler : string) (p : deliveryPolicy) (m : JsMsg)
    (v : option verdict) : M U unit :=
  match v with
  | None => handBack c m handler p
  | Some v => apply_settlement (v_ctx v) m handler (v_settlement v) (v_err v) (v_delivery v) p
  end.

(** The callback of [msgHandler]; [g] is the identity of its [settleGuard]. *)
Definition msgHandler (g : nat) (c : Ctx) (handler : string)
    (fn : Ctx -> option Event -> M U goerr) (p : deliveryPolicy) (m : JsMsg) : M U unit :=
  ok ← track_life;
  let body := recovering_halves (decide_message g ok c handler fn p m) (answer c handler p m)
                (recover_message g c handler p m) in
  if ok : bool then deferring tt body (fun _ => release_life) else body.
End consumer.
