(* ===== verification/JetstreamFacts.v ===== *)
(** * How a JetStream message is answered

    The broker actions of a run and the computations that perform exactly one; what
    the user's code may change; what is on record when a message is ended. The
    properties are in JetstreamSpec.v. *)

From S2P Require Import Prelude GoErrors Types Failure Runtime Observer Scope Dlq.
From S2P Require Import Settle Records Invoke Frames Lifecycle LifeOps Emit Jetstream.
Local Open Scope string_scope.
Local Open Scope list_scope.
Local Open Scope Z_scope.

(** ** The broker actions of a trace *)

Definition broker_action_of (e : entry) : option BrokerAction :=
  match e with EBroker a => Some a | _ => None end.
Definition actions (l : list entry) : list BrokerAction := omap broker_action_of l.

Lemma actions_app l1 l2 : actions (l1 ++ l2) = actions l1 ++ actions l2.
Proof. apply omap_app. Qed.

(** No broker action happens. *)
Definition same_actions {U} : relation (World U) :=
  fun w w' => actions (w_log w') = actions (w_log w).

#[export] Instance same_actions_preorder U : PreOrder (@same_actions U).
Proof. split; [done|]. intros w1 w2 w3 H1 H2. unfold same_actions in *. congruence. Qed.

Lemma same_actions_log {U} (e : entry) :
  broker_action_of e = None -> respects (@same_actions U) (log_entry e).
Proof. intros He w. unfold same_actions. cbn. rewrite actions_app. simpl. by rewrite He, app_nil_r. Qed.

(** A call that answers the message: one action, which satisfies [P], unless it
    left its goroutine before. *)
Definition acting {U A} (P : BrokerAction -> Prop) (m : M U A) : Prop := forall w,
  match m w with
  | (Goexit, w') => exists l, actions (w_log w') = actions (w_log w) ++ l /\ (length l <= 1)%nat
  | (_, w') => exists a, actions (w_log w') = actions (w_log w) ++ [a] /\ P a
  end.

Abbreviation silent := (respects same_actions).

Section acting.
Context {U : Type} (P : BrokerAction -> Prop).

Lemma acting_after {A B} (m : M U A) (k : A -> M U B) :
  silent m -> no_panic m -> (forall a, acting P (k a)) -> acting P (mbind k m).
Proof.
  intros Hs Hn Hk w. specialize (Hs w). specialize (Hn w). unfold mbind, M_bind.
  destruct (m w) as [[a|v|] w1]; cbn in Hs, Hn.
  - specialize (Hk a w1). unfold same_actions in Hs. rewrite Hs in Hk. exact Hk.
  - by destruct (Hn v).
  - exists []. rewrite app_nil_r. split; [exact Hs|simpl; lia].
Qed.

Lemma acting_before {A B} (m : M U A) (k : A -> M U B) :
  acting P m -> (forall a, silent (k a)) -> acting P (mbind k m).
Proof.
  intros Hm Hk w. specialize (Hm w). unfold mbind, M_bind.
  destruct (m w) as [[a|v|] w1]; [|exact Hm..].
  specialize (Hk a w1). unfold same_actions in Hk. destruct Hm as (x & Hx & HP).
  destruct (k a w1) as [[b|v|] w2]; cbn in Hk; rewrite Hk, Hx; eauto.
Qed.

Lemma acting_if {A} (b : bool) (m n : M U A) :
  acting P m -> acting P n -> acting P (if b then m else n).
Proof. by destruct b. Qed.

Lemma acting_recovering {A} (m : M U A) h :
  acting P m -> (forall v, silent (h v)) -> acting P (recovering m h).
Proof.
  intros Hm Hh w. specialize (Hm w). unfold recovering.
  destruct (m w) as [[a|v|] w1]; [exact Hm| |exact Hm].
  specialize (Hh v w1). unfold same_actions in Hh. destruct Hm as (x & Hx & HP).
  destruct (h v w1) as [[b|v'|] w2]; cbn in Hh; rewrite Hh, Hx; eauto.
Qed.

Lemma acting_deferring (m : M U unit) (f : unit -> M U unit) :
  acting P m -> (forall a, silent (f a)) -> (forall a, returns (f a)) ->
  acting P (deferring tt m f).
Proof.
  intros Hm Hf Hr w. specialize (Hm w). unfold deferring.
  destruct (m w) as [[[]|v|] w1]; specialize (Hf tt w1); destruct (Hr tt w1) as [[] Ho];
    unfold mbind, M_bind; destruct (f tt w1) as [o w2]; cbn in Ho, Hf; subst o;
    unfold same_actions in Hf; cbn; rewrite Hf; exact Hm.
Qed.

(** Two halves that answer, whatever the first one does. *)
Lemma acting_halves {A} (before : M U A) (after : A -> M U unit) hd (Q : A -> Prop) :
  silent before -> yields Q before -> (forall a, Q a -> acting P (after a)) ->
  (forall v, silent (hd true v)) -> (forall v, acting P (hd false v)) ->
  acting P (recovering_halves before after hd).
Proof.
  intros Hb HQ Ha Ht Hf w. specialize (Hb w). specialize (HQ w). unfold recovering_halves.
  destruct (before w) as [[a|v|] w1]; unfold same_actions in Hb; cbn in Hb.
  - pose proof (acting_recovering (after a) (hd true) (Ha a (HQ a w1 eq_refl)) Ht w1) as Hw.
    rewrite Hb in Hw. exact Hw.
  - pose proof (Hf v w1) as Hw. rewrite Hb in Hw. exact Hw.
  - exists []. rewrite app_nil_r. split; [exact Hb|simpl; lia].
Qed.

Context `{Broker U} (Hact : forall m a, silent (broker_act (U := U) m a)).

Lemma acting_act m a : P a -> acting P (act (U := U) m a).
Proof using Hact.
  intros HP w. unfold act, mbind, M_bind. cbn.
  match goal with |- context [broker_act m a ?w0] => pose proof (Hact m a w0) as Hs;
    destruct (broker_act m a w0) as [[e|v|] w1] end;
    unfold same_actions in Hs; cbn in Hs; rewrite actions_app in Hs.
  - by exists a.
  - by exists a.
  - exists [a]. split; [exact Hs|simpl; lia].
Qed.
End acting.

Lemma acting_mono {U A} (P Q : BrokerAction -> Prop) (m : M U A) :
  (forall a, P a -> Q a) -> acting P m -> acting Q m.
Proof. intros HPQ Hm w. specialize (Hm w). destruct (m w) as [[a|v|] w1]; naive_solver. Qed.

(** ** What the callback can change *)

Section consumer.
Context {U : Type} `{Env U} `{Broker U} (b : Bus U) (fn : Ctx -> option Event -> M U goerr).
Implicit Types (w : World U) (c : Ctx) (m : JsMsg) (p : deliveryPolicy).

(** A publish, with its entry in the trace. *)
Definition published (q : DLQPublisher U) (c : Ctx) (r : DLQRecord) : M U goerr :=
  err ← q c r; _ ← log_entry (EPublish r err); mret err.

(** The user's code behind the bus, and the library's own effects, keep [R]. *)
Class consumer_keeps (g : nat) (R : relation (World U)) := {
  uk_core :: core_keeps R;
  uk_raise_to c s : respects R (raise_to (obs b) c s);
  uk_decode c d : respects R (jb_decode b c d);
  uk_handler c e : respects R (fn c e);
  uk_invoker i e : jb_invoker b = Some i ->
    forall c evt h, respects R (i c evt h (call (fun c => fn c e)));
  uk_guarded q c r : jb_dlq b = Some q -> respects R (published (guardedPublisher g q) c r);
  uk_plain q c r : jb_dlq b = Some q -> respects R (published q c r);
}.

Section keeps.
Context (g : nat) (R : relation (World U)) `{!PreOrder R} `{!consumer_keeps g R}.

Lemma keeps_internalError c op h subj err : respects R (internalError b c op h subj err).
Proof using consumer_keeps0. apply uk_raise_to. Qed.

Lemma keeps_report_act c op h subj err : respects R (report_act b c op h subj err).
Proof using Type*. destruct err; [apply keeps_internalError|by apply respects_ret]. Qed.

Lemma keeps_delivery c m p : respects R (delivery b c m p).
Proof using Type*.
  unfold delivery. destruct (jm_metadata m); [by apply respects_ret|].
  apply respects_bind; [done|apply keeps_internalError|intros _; by apply respects_ret].
Qed.

Lemma keeps_msgScope c o : respects R (msgScope b c o).
Proof using Type*.
  unfold msgScope. apply respects_bind; [done|apply keeps_WithObserver; apply _|intros c'].
  apply respects_bind; [done|apply keeps_WithFailureScope; apply _|intros; by apply respects_ret].
Qed.

Lemma keeps_guarded_Settle c i :
  in_publisher i = guard_publisher g (jb_dlq b) -> respects R (Settle c i).
Proof using Type*.
  intros Hp. apply keeps_Settle; [done|apply _|]. intros q c' r Hq. rewrite Hp in Hq.
  destruct (jb_dlq b) as [q'|] eqn:Ed; [|done]. injection Hq as <-. by apply uk_guarded.
Qed.

Lemma keeps_process c h p m : respects R (process b g c h fn p m).
Proof using Type*.
  unfold process, handle_event. apply respects_bind; [done|apply keeps_msgScope|intros hctx].
  apply respects_bind; [done|apply keeps_delivery|intros d].
  apply respects_bind; [done|apply uk_decode|intros [[mctx evt] [e|]]].
  - apply respects_bind; [done|by apply keeps_guarded_Settle|intros; by apply respects_ret].
  - destruct mctx as [mctx|]; [|by apply respects_panic].
    apply respects_bind; [done|apply keeps_now; apply _|intros t].
    apply respects_bind; [done| |intros err].
    { apply keeps_InvokeHandler; [done|apply _|intros; apply uk_handler|].
      intros i Hi. by apply uk_invoker. }
    apply respects_bind; [done|apply keeps_now; apply _|intros t'].
    apply respects_bind; [done|by apply keeps_guarded_Settle|intros; by apply respects_ret].
Qed.

Lemma keeps_after_handBack c i :
  in_publisher i = jb_dlq b -> respects R (_ ← Settle c i; mret tt).
Proof using Type*.
  intros Hp. apply respects_bind; [done| |intros; by apply respects_ret].
  apply keeps_Settle; [done|apply _|]. intros q c' r Hq. rewrite Hp in Hq.
  by apply (uk_plain q).
Qed.
End keeps.

(** ** Calls that neither panic nor answer *)

Lemma returns_msgScope c o : returns (msgScope b c o).
Proof. apply returns_bind; [apply returns_WithObserver|intros c'; apply returns_new_failure_scope]. Qed.

Lemma no_panic_reportPanicOnFinal c h d pe : no_panic (reportPanicOnFinal b c h d pe).
Proof.
  apply no_panic_recovering. intros v. apply no_panic_recovering. by intros v' w x.
Qed.
Section contained.
Context (Hiso : isolated (obs b)).

Lemma no_panic_internalError c op h subj err : no_panic (internalError b c op h subj err).
Proof using Hiso. by apply no_panic_raise_to. Qed.

Lemma no_panic_report_act c op h subj err : no_panic (report_act b c op h subj err).
Proof using Hiso. destruct err; [apply no_panic_internalError|by intros w v]. Qed.

Lemma no_panic_delivery c m p : no_panic (delivery b c m p).
Proof using Hiso.
  unfold delivery. destruct (jm_metadata m); [by intros w v|].
  apply no_panic_bind; [apply no_panic_internalError|by intros _ w v].
Qed.

End contained.

(** A settlement that returned names a disposition, and acknowledges only success,
    duplicates and what the chain dead-lettered. *)
Definition sound_answer (err : goerr) (s : Settlement) : Prop :=
  match s_disposition s with
  | DispositionInvalid => False
  | DispositionAck => err = None \/ Is err ErrDuplicate = true \/ Is err ErrDeadLettered = true
  | _ => True
  end.

Lemma Settle_sound c i : yields (sound_answer (in_err i)) (Settle c i).
Proof.
  assert (Hret : forall s, sound_answer (in_err i) s ->
    yields (U := U) (sound_answer (in_err i)) (mret s)) by (intros; by apply yields_ret).
  unfold Settle. destruct (in_err i) as [e|] eqn:He; [|by apply Hret; left].
  apply yields_deferring. unfold settle_body.
  apply yields_bind. intros _. apply yields_bind. intros t.
  apply yields_if; [apply yields_if; [apply yields_bind; intros _|]; by apply Hret|].
  unfold settle_disposed. rewrite He. destruct (Dispose _ _) eqn:HD;
    try (apply Dispose_ack in HD as HA;
         apply yields_if; [|apply yields_bind; intros _]; by apply Hret);
    try (apply yields_if; [|by apply Hret]; apply yields_if; [apply yields_bind; intros _|];
         by apply Hret);
    (destruct (in_publisher i); [|apply yields_bind; intros _; by apply Hret]);
    apply yields_bind; intros r; apply yields_bind; intros [pe|];
    try (apply yields_if; [apply yields_bind; intros _|]; by apply Hret);
    apply yields_bind; intros _; by apply Hret.
Qed.

Lemma process_sound g c h p m :
  yields (fun v => sound_answer (v_err v) (v_settlement v)) (process b g c h fn p m).
Proof.
  unfold process, handle_event. apply yields_bind; intros hctx. apply yields_bind; intros d.
  apply yields_bind; intros [[mctx evt] [e|]].
  - eapply yields_cut; [apply Settle_sound|]. intros s Hs. by apply yields_ret.
  - destruct mctx as [mctx|]; [|done].
    apply yields_bind; intros t. apply yields_bind; intros err. apply yields_bind; intros t'.
    eapply yields_cut; [apply Settle_sound|]. intros s Hs. by apply yields_ret.
Qed.

(** ** One answer *)

Section one_answer.
Context (g : nat) `{!consumer_keeps g same_actions} (Hiso : isolated (obs b)).
Context (Hact : forall m a, silent (broker_act (U := U) m a)).
Context (c : Ctx) (h : string) (p : deliveryPolicy) (m : JsMsg).

(** What answers a verdict, and a message handed back. *)
Definition answer_of (v : option verdict) (a : BrokerAction) : Prop :=
  match v with
  | None => a = MsgNak
  | Some v => exists op, settlement_action b (v_settlement v) (v_err v) (v_delivery v) p = Some (op, a)
  end.

Definition valid_verdict (v : option verdict) : Prop :=
  forall v', v = Some v' -> sound_answer (v_err v') (v_settlement v').

Lemma acting_handBack : acting (fun a => a = MsgNak) (handBack b c m h p).
Proof using consumer_keeps0 Hiso Hact.
  unfold handBack. apply acting_after;
    [apply (keeps_msgScope g); apply _|apply returns_no_panic, returns_msgScope|intros hctx].
  apply acting_after;
    [apply (keeps_delivery g); apply _|by apply no_panic_delivery|intros d].
  apply acting_before; [by apply acting_act|intros aerr].
  apply respects_bind; [apply _|apply (keeps_report_act g); apply _|intros _].
  apply respects_if; [by apply respects_ret, _|].
  apply respects_bind; [apply _|apply (keeps_now _)|intros t].
  by apply (keeps_after_handBack g _).
Qed.

Lemma acting_answer v : valid_verdict v -> acting (answer_of v) (answer b c h p m v).
Proof using consumer_keeps0 Hiso Hact.
  intros Hv. destruct v as [v|]; [|apply acting_handBack]. specialize (Hv v eq_refl).
  unfold answer, apply_settlement, answer_of. unfold settlement_action.
  unfold sound_answer in Hv. destruct (s_disposition (v_settlement v)); try done;
    (apply acting_before; [apply acting_act; eauto|intros e; apply (keeps_report_act g); apply _]).
Qed.

Lemma silent_panic_report v : silent (recover_message b g c h p m true v).
Proof using consumer_keeps0.
  unfold recover_message.
  apply respects_bind; [apply _|apply (keeps_internalError g _)|intros _; by apply respects_ret, _].
Qed.

Lemma acting_recover v : acting (fun a => a <> MsgAck) (recover_message b g c h p m false v).
Proof using consumer_keeps0 Hiso Hact.
  unfold recover_message.
  apply acting_after; [apply (keeps_internalError g _)|by apply no_panic_internalError|intros _].
  apply acting_after; [apply (keeps_delivery g _)|by apply no_panic_delivery|intros d].
  apply acting_after; [by intros w|by intros w x|intros ended].
  apply acting_before; [|intros [op aerr]; apply (keeps_report_act g _)].
  assert (Hend : forall a o, a <> MsgAck ->
    acting (fun a => a <> MsgAck) (aerr ← act m a; mret (o, aerr)) (A := string * goerr))
    by (intros; apply acting_before; [by apply acting_act|intros; by apply respects_ret, _]).
  repeat apply acting_if; try (by apply Hend).
  apply acting_after; [|apply no_panic_reportPanicOnFinal|intros _; by apply Hend].
  apply respects_recovering; [apply _| |intros x].
  - apply respects_bind; [apply _|apply (keeps_now _)|intros t; apply uk_raise_to].
  - apply respects_recovering; [apply _|apply (keeps_internalError g _)|intros; by apply respects_ret, _].
Qed.

Context `{Lens Lifecycle U}.

Lemma silent_life {A} (f : Lifecycle -> A * Lifecycle) : silent (atomically (U := U) f).
Proof using Type. apply respects_atomically. by intros u w. Qed.

Lemma silent_decide ok : silent (decide_message b g ok c h fn p m).
Proof using H0 consumer_keeps0.
  unfold decide_message. apply respects_bind; [apply _| |intros cl].
  { apply respects_if; [apply silent_life|by apply respects_ret, _]. }
  apply respects_if; [by apply respects_ret, _|].
  apply respects_bind; [apply _|apply (keeps_process g); apply _|intros; by apply respects_ret, _].
Qed.

Lemma decide_valid ok : yields valid_verdict (decide_message b g ok c h fn p m).
Proof using Type.
  unfold decide_message. apply yields_bind. intros cl. apply yields_if; [by apply yields_ret|].
  eapply yields_cut; [apply process_sound|]. intros v Hv. apply yields_ret. by intros v' [= <-].
Qed.

Lemma acting_body ok :
  acting (fun _ => True) (recovering_halves (decide_message b g ok c h fn p m) (answer b c h p m)
    (recover_message b g c h p m)).
Proof using consumer_keeps0 Hiso Hact.
  apply (acting_halves _ _ _ _ valid_verdict).
  - apply silent_decide.
  - apply decide_valid.
  - intros v Hv. eapply acting_mono; [|by apply acting_answer]. done.
  - apply silent_panic_report.
  - intros v. eapply acting_mono; [|by apply acting_recover]. done.
Qed.

Lemma acting_msgHandler : acting (fun _ => True) (msgHandler b g c h fn p m).
Proof using consumer_keeps0 Hiso Hact.
  unfold msgHandler. apply acting_after; [apply silent_life| |intros ok].
  { apply returns_no_panic, returns_atomically. }
  apply acting_if; [|apply acting_body].
  apply acting_deferring; [apply acting_body|intros; apply silent_life|intros; apply returns_atomically].
Qed.

(** No panic leaves the callback. *)
Context (Hcalm : forall m a, no_panic (broker_act (U := U) m a)).

Lemma no_panic_recover acted v : no_panic (recover_message b g c h p m acted v).
Proof using Hiso Hcalm.
  unfold recover_message. apply no_panic_bind; [by apply no_panic_internalError|intros _].
  destruct acted; [by intros w x|].
  apply no_panic_bind; [by apply no_panic_delivery|intros d].
  apply no_panic_bind; [by intros w x|intros ended].
  assert (Ha : forall a, no_panic (act (U := U) m a))
    by (intros a; apply no_panic_bind; [by intros w x|intros; apply Hcalm]).
  apply no_panic_bind; [|intros [op aerr]; by apply no_panic_report_act].
  destruct (_ && _); [|destruct (_ && _)];
    repeat (apply no_panic_bind; [first [apply no_panic_reportPanicOnFinal|apply Ha]|intros]);
    by intros w x.
Qed.

Lemma no_panic_msgHandler : no_panic (msgHandler b g c h fn p m).
Proof using Hiso Hcalm.
  unfold msgHandler. apply no_panic_bind; [apply returns_no_panic, returns_atomically|intros ok].
  assert (Hb : no_panic (recovering_halves (decide_message b g ok c h fn p m) (answer b c h p m)
    (recover_message b g c h p m))).
  { intros w x. unfold recovering_halves.
    destruct (decide_message b g ok c h fn p m w) as [[v|v|] w1]; [|apply no_panic_recover|done].
    apply (no_panic_recovering (U := U)). intros v'. apply no_panic_recover. }
  destruct ok; [|exact Hb].
  apply no_panic_deferring; [exact Hb|intros; apply returns_no_panic, returns_atomically].
Qed.
End one_answer.

(** ** The user's code *)

(** Everything the callback calls that is not part of the library, and a relation
    it keeps. *)
Record user_keeps (R : relation (World U)) : Prop := {
  us_observe id c s : respects R (env_observe (U := U) id c s);
  us_onerr x c e h : respects R (env_onerr (U := U) x c e h);
  us_decode c d : respects R (jb_decode b c d);
  us_handler c e : respects R (fn c e);
  us_invoker i e : jb_invoker b = Some i ->
    forall c evt h, respects R (i c evt h (call (fun c => fn c e)));
  us_dlq q c r : jb_dlq b = Some q -> respects R (q c r);
  us_broker m a : respects R (broker_act (U := U) m a);
}.

Lemma actions_raise_to o c s :
  user_keeps same_actions -> silent (raise_to (U := U) o c s).
Proof.
  intros Hu. assert (Ho : observers_keep (@same_actions U)).
  { split; intros; try (by apply same_actions_log); try (by intros w). by apply us_observe. }
  apply raise_to_keeps; [apply _|done|by apply same_actions_log].
Qed.

Lemma user_silent g : user_keeps same_actions -> consumer_keeps g same_actions.
Proof.
  intros Hu. assert (Hq : forall q c r, jb_dlq b = Some q -> silent (q c r)) by apply (us_dlq _ Hu).
  split; [split| | | | | |]; intros.
  - by apply actions_raise_to.
  - by intros w.
  - by intros w.
  - by intros w.
  - by intros w.
  - apply respects_bind; [apply _|by apply same_actions_log|intros _; by apply us_onerr].
  - by apply actions_raise_to.
  - by apply us_decode.
  - by apply us_handler.
  - by apply us_invoker.
  - unfold published, guardedPublisher. apply respects_bind; [apply _| |intros err].
    + apply respects_bind; [apply _|by apply Hq|intros err].
      apply respects_bind; [apply _|by destruct err; intros w|intros; by apply respects_ret, _].
    + apply respects_bind; [apply _|by apply same_actions_log|intros; by apply respects_ret, _].
  - unfold published. apply respects_bind; [apply _|by apply Hq|intros err].
    apply respects_bind; [apply _|by apply same_actions_log|intros; by apply respects_ret, _].
Qed.

(** ** What is on record when a message is ended *)

(** The trace grows, and the guard [g] is set only with a record. *)
Definition recorded (g : nat) : relation (World U) := fun w w' =>
  exists new, w_log w' = w_log w ++ new
    /\ (g ∈ w_ended w' -> g ∈ w_ended w \/ existsb on_record new = true).

(** The trace grows, and the guard [g] is left alone. *)
Definition untouched (g : nat) : relation (World U) := fun w w' =>
  exists new, w_log w' = w_log w ++ new /\ (g ∈ w_ended w' -> g ∈ w_ended w).

#[export] Instance recorded_preorder g : PreOrder (recorded g).
Proof.
  split.
  - intros w. exists []. rewrite app_nil_r. auto.
  - intros w1 w2 w3 (n1 & H1 & G1) (n2 & H2 & G2). exists (n1 ++ n2).
    rewrite H2, H1, app_assoc. split; [done|]. rewrite existsb_app.
    intros Hg. destruct (G2 Hg) as [Hg'| ->]; [|right; by rewrite orb_true_r].
    destruct (G1 Hg') as [|Hn]; [by left|]. right. by rewrite Hn.
Qed.

#[export] Instance untouched_preorder g : PreOrder (untouched g).
Proof.
  split.
  - intros w. exists []. rewrite app_nil_r. auto.
  - intros w1 w2 w3 (n1 & H1 & G1) (n2 & H2 & G2). exists (n1 ++ n2).
    rewrite H2, H1, app_assoc. auto.
Qed.

Lemma untouched_recorded {A} g (m : M U A) : respects (untouched g) m -> respects (recorded g) m.
Proof. intros Hm w. destruct (Hm w) as (n & Hl & Hg). exists n. auto. Qed.

Lemma untouched_log g e : respects (untouched g) (log_entry (U := U) e).
Proof. intros w. by exists [e]. Qed.

Lemma untouched_same {A} g (m : M U A) :
  (forall w, w_log (m w).2 = w_log w /\ w_ended (m w).2 = w_ended w) -> respects (untouched g) m.
Proof. intros Hm w. destruct (Hm w) as [Hl He]. exists []. by rewrite Hl, He, app_nil_r. Qed.

Lemma untouched_grows {A} g (m : M U A) : respects (untouched g) m -> respects grows m.
Proof. intros Hm w. destruct (Hm w) as (n & Hl & _). by exists n. Qed.

(** Once something is on record, a growing trace keeps [recorded]. *)
Lemma recorded_after g e w w1 w2 :
  on_record e = true -> w_log w1 = w_log w ++ [e] -> grows w1 w2 -> recorded g w w2.
Proof.
  intros He H1 [n H2]. exists (e :: n). rewrite H2, H1, <- app_assoc. split; [done|].
  intros _. right. simpl. by rewrite He.
Qed.

Section recorded.
Context (g : nat) (Hu : user_keeps (untouched g)).

Lemma observe_grows o c s : respects grows (observe (U := U) o c s).
Proof using Hu.
  assert (Ho : observers_keep grows).
  { split; intros; try (by intros w; exists []; rewrite app_nil_r); try (by intros w; eexists).
    apply (untouched_grows g). by apply us_observe. }
  apply observe_keeps; apply _.
Qed.

(** A signal other than a failure never reaches the flag of a guard. *)
Fixpoint observe_untouched (o : observer) (c : Ctx) (s : signal) {struct o} :
  on_record (ESignal None s) = false -> respects (untouched g) (observe (U := U) o c s).
Proof using Hu.
  intros Hs. destruct o as [| |id|g' inner|[cs|]]; simpl.
  - by apply respects_ret, _.
  - by apply respects_ret, _.
  - apply respects_bind; [apply _|apply untouched_log|intros _; by apply us_observe].
  - apply respects_bind; [apply _|by destruct s; try done; apply respects_ret, _|intros _].
    by apply observe_untouched.
  - induction cs as [|[child o] cs IH]; [by apply respects_ret, _|].
    apply respects_bind; [apply _| |intros _; exact IH].
    apply respects_recovering; [apply _|by apply observe_untouched|intros v].
    apply respects_bind; [apply _|by apply untouched_same|intros []];
      [apply untouched_log|by apply respects_ret, _].
  - by apply respects_panic, _.
Qed.

Lemma recorded_raise_to o c s : respects (recorded g) (raise_to (U := U) o c s).
Proof using Hu.
  destruct (on_record (ESignal None s)) eqn:Hs.
  - intros w. unfold raise_to, mbind, M_bind. cbn.
    apply (recorded_after g (ESignal (cx_scope c) s) w (log_entry (ESignal (cx_scope c) s) w).2);
      [by destruct s|reflexivity|apply observe_grows].
  - apply respects_bind; [apply _|apply untouched_recorded, untouched_log|intros _].
    by apply untouched_recorded, observe_untouched.
Qed.

Lemma user_recorded : consumer_keeps g (recorded g).
Proof using Hu.
  assert (Hsame : forall A (m : M U A),
    (forall w, w_log (m w).2 = w_log w /\ w_ended (m w).2 = w_ended w) -> respects (recorded g) m)
    by (intros; by apply untouched_recorded, untouched_same).
  split; [split| | | | | |]; intros.
  - apply recorded_raise_to.
  - by apply Hsame.
  - by apply Hsame.
  - by apply Hsame.
  - by apply Hsame.
  - apply respects_bind; [apply _|apply untouched_recorded, untouched_log|intros _].
    by apply untouched_recorded, us_onerr.
  - apply recorded_raise_to.
  - by apply untouched_recorded, us_decode.
  - by apply untouched_recorded, us_handler.
  - by apply untouched_recorded, us_invoker.
  - intros w. match goal with Hq : jb_dlq b = Some q |- _ =>
      pose proof (us_dlq _ Hu q c r Hq w) as (n & Hl & Hg) end.
    unfold published, guardedPublisher, mbind, M_bind.
    destruct (q c r w) as [[[e|]|v|] w1]; cbn in Hl, Hg |- *.
    + exists (n ++ [EPublish r (Some e)]). rewrite Hl, <- app_assoc. split; [done|]. auto.
    + exists (n ++ [EPublish r None]). rewrite Hl, <- app_assoc. split; [done|]. intros _. right.
      rewrite existsb_app. by rewrite orb_true_r.
    + exists n. auto.
    + exists n. auto.
  - apply untouched_recorded, respects_bind; [apply _|by apply us_dlq|intros err].
    apply respects_bind; [apply _|apply untouched_log|intros; by apply respects_ret, _].
Qed.

Lemma recorded_grows w w' : recorded g w w' -> grows w w'.
Proof using Type. intros (n & Hl & _). by exists n. Qed.

(** A call that keeps [recorded], as a step of a run. *)
Lemma run_grows {A} (k : M U A) w o w' : respects (recorded g) k -> k w = (o, w') -> grows w w'.
Proof using Type. intros Hk Hr. apply recorded_grows. by apply (respects_run _ _ _ _ _ Hk Hr). Qed.

Existing Instance user_recorded.
Context (Hm : forall l, user_keeps (marked l)).
(** The context a decoder returns is derived from the one it is given. *)
Context (Hderived : forall hctx d w c' evt err w',
  jb_decode b hctx d w = (Ret (Some c', evt, err), w') -> cx_scope c' = cx_scope hctx).

Lemma publish_loop_record q c r n delay w w' :
  (forall c r, respects grows (q c r)) -> n <> 0%nat ->
  publish_loop q c r n delay w = (Ret None, w') -> has_record w w'.
Proof using Type.
  intros Hq. revert delay w. induction n as [|n IH]; intros delay w Hn Hr; [done|].
  cbn [publish_loop] in Hr. apply bind_ret_inv in Hr as (err & w1 & Hc & Hr).
  apply (respects_run _ _ _ _ _ (Hq c r)) in Hc.
  apply bind_ret_inv in Hr as ([] & w2 & Hl & Hr). injection Hl as <-.
  apply (has_record_after _ w1); [done|]. destruct err as [e|].
  - destruct n as [|n]; [by apply mret_inv in Hr as [? _]|].
    apply bind_ret_inv in Hr as (fired & w3 & Hs & Hr).
    destruct fired; [|by apply mret_inv in Hr as [? _]].
    apply (has_record_after _ w3); [|by eapply IH].
    pose proof (select_timer_spec c delay
      (log_entry (U := U) (EPublish r (Some e)) w1).2) as (b' & t' & Hs' & _).
    cbn in Hs'. rewrite Hs' in Hs. injection Hs as _ <-. by exists [EPublish r (Some e)].
  - apply mret_inv in Hr as [_ ->]. by exists [EPublish r None].
Qed.

Lemma guarded_grows q c r : jb_dlq b = Some q -> respects grows (guardedPublisher g q c r).
Proof using Hu.
  intros Hq. apply respects_bind; [apply _|by apply (untouched_grows g), us_dlq|intros err].
  apply respects_bind; [apply _| |intros _; by apply respects_ret, _].
  destruct err; [by apply respects_ret, _|]. intros w. exists []. by rewrite app_nil_r.
Qed.

Lemma report_then_ret_inv {A} c i d o reason err (a r : A) w w' :
  (_ ← reportTerminal (U := U) c i d o reason err; mret a) w = (Ret r, w') -> r = a.
Proof using Type.
  intros Hr. apply bind_ret_inv in Hr as ([] & w1 & _ & Hr). by apply mret_inv in Hr as [-> _].
Qed.

(** A dead-letter publish that succeeded is on record. *)
Lemma PublishDeadLetter_record c q r w w' :
  jb_dlq b = Some q -> PublishDeadLetter c (guardedPublisher g q) r w = (Ret None, w') ->
  has_record w w'.
Proof using Hu.
  intros Hq Hr. unfold PublishDeadLetter in Hr.
  apply bind_ret_inv in Hr as (err & w1 & Hp & Hr). destruct err as [e|].
  { apply bind_ret_inv in Hr as ([] & w2 & _ & Hr). by apply mret_inv in Hr as [? _]. }
  apply (has_record_before _ w1).
  - unfold publishDeadLetter in Hp. refine (publish_loop_record _ _ _ _ _ _ _ _ _ Hp); [|by destruct (Final _)].
    intros. by apply guarded_grows.
  - apply bind_ret_inv in Hr as (t & w2 & Ht & Hr). apply now_inv in Ht as [-> ->].
    apply bind_ret_inv in Hr as ([] & w3 & Hs & Hr). apply mret_inv in Hr as [_ ->].
    eapply run_grows; [|exact Hs]. apply (ck_raise (recorded g)).
Qed.

Lemma marked_observe l : observers_keep (marked (U := U) l).
Proof using Hm. apply marked_observers. intros. apply (us_observe _ (Hm l)). Qed.

Lemma observe_keeps_grows : observers_keep (grows (U := U)).
Proof using Hu.
  split; intros; try (by intros w; exists []; rewrite app_nil_r); try (by intros w; eexists).
  apply (untouched_grows g). by apply us_observe.
Qed.

(** A settlement that ends the message has a record of it: the dead letter that was
    stored, or the report of the drop. The record is not older than [w0], where the
    scope was not reported yet. *)
Lemma Settle_terminal_record c i w0 w res w' :
  grows w0 w -> (scope_reported (cx_scope c) w = true -> has_record w0 w) ->
  in_publisher i = guard_publisher g (jb_dlq b) -> Settle c i w = (Ret res, w') ->
  s_disposition res = DispositionTerminal -> has_record w0 w'.
Proof using Hu Hm.
  intros Hw0 Hscope Hp Hr Hd. unfold Settle in Hr. destruct (in_err i) as [e|] eqn:He.
  2:{ by apply mret_inv in Hr as [-> _]. }
  apply deferring_ret_inv in Hr as (w1 & Hr & Hf).
  apply (run_grows _ _ _ _ (keeps_flush (recorded g) _ _ _)) in Hf.
  unfold settle_body in Hr. apply bind_ret_inv in Hr as ([] & w2 & Hdec & Hr).
  assert (Hg : marked (cx_scope c) w w2).
  { eapply respects_run; [|exact Hdec]. apply respects_if; [|by apply respects_ret, _].
    pose proof (marked_observe (cx_scope c)). apply raise_keeps; [apply _|done|apply marked_log]. }
  apply bind_ret_inv in Hr as (t & w3 & Ht & Hr). apply now_inv in Ht as [-> ->].
  destruct (IsInterrupted _ _ _).
  { destruct (Final _); [apply report_then_ret_inv in Hr|apply mret_inv in Hr as [Hr _]]; by subst. }
  apply (has_record_before _ w1); [|done]. unfold settle_disposed in Hr. rewrite Hp in Hr.
  pose proof (marked_grows _ _ _ Hg) as Hg2. pose proof PublishDeadLetter_record as Hstored.
  destruct (jb_dlq b) as [q|] eqn:Eq.
  2:{ cbn [guard_publisher] in Hr.
    assert (Hdrop : forall o reason err, has_record w0
      (reportTerminal c i (delivery_or_single c) o reason err w2).2).
    { intros o reason err. destruct (scope_reported (cx_scope c) w2) eqn:Es.
      - apply (has_record_before _ w2); [|by apply recorded_grows, (keeps_reportTerminal (recorded g))].
        destruct Hg as (n & Hl & Hn). destruct (Hn Es) as [Hw|Hw].
        + apply (has_record_before _ w); [auto|by exists n].
        + apply (has_record_after _ w); [done|by exists n].
      - apply (has_record_after _ w2); [by etransitivity|]. eapply failure_raised_record.
        apply reportTerminal_raises; [apply observe_keeps_grows|..|done].
        intros. apply (untouched_grows g). by apply us_onerr. }
    destruct (Dispose_range (in_err i) (delivery_or_single c)) as [HD|[HD|HD]]; rewrite HD in Hr.
    - destruct (_ || _); [apply mret_inv in Hr as [Hr _]|apply report_then_ret_inv in Hr]; by subst.
    - destruct (Is _ _); [destruct (Final _)|];
      [apply report_then_ret_inv in Hr|apply mret_inv in Hr as [Hr _]..]; by subst.
    - apply bind_ret_inv in Hr as ([] & w3 & Hrep & Hr). apply mret_inv in Hr as [_ ->].
      pose proof (Hdrop OutcomeDropped (ReasonOf (in_err i)) (in_err i)) as Hx. by rewrite Hrep in Hx. }
  apply (has_record_after _ w2); [by etransitivity|].
  assert (Hpub : (r ← NewDLQRecord c (in_evt i) (in_handler i) (in_err i);
    perr ← PublishDeadLetter c (guardedPublisher g q) r;
    match perr with
    | Some _ =>
        let failed := Some (DeadLetterFailedError (in_err i) (ReasonOf (in_err i)) perr) in
        if Final (delivery_or_single c)
        then _ ← reportTerminal c i (delivery_or_single c) OutcomeDLQPublishFailed (ReasonOf (in_err i)) failed;
             mret (mkSettlement DispositionRetryDelayed (ReasonOf (in_err i)) (Some OutcomeDLQPublishFailed) failed)
        else mret (mkSettlement DispositionRetryDelayed (ReasonOf (in_err i)) None failed)
    | None =>
        let done := Some (DeadLetteredError (in_err i) (ReasonOf (in_err i))) in
        _ ← reportTerminal c i (delivery_or_single c) OutcomeDeadLettered (ReasonOf (in_err i)) done;
        mret (mkSettlement DispositionTerminal (ReasonOf (in_err i)) (Some OutcomeDeadLettered) done)
    end) w2 = (Ret res, w1) -> has_record w2 w1).
  { clear Hr. intros Hr. apply bind_ret_inv in Hr as (r & w4 & Hn & Hr).
    apply (run_grows _ _ _ _ (keeps_NewDLQRecord (recorded g) _ _ _ _)) in Hn.
    apply (has_record_after _ w4); [done|].
    apply bind_ret_inv in Hr as (perr & w5 & Hpd & Hr). destruct perr as [pe|].
    - destruct (Final _); [apply report_then_ret_inv in Hr|apply mret_inv in Hr as [Hr _]]; by subst.
    - apply (has_record_before _ w5); [by eapply Hstored|].
      apply bind_ret_inv in Hr as ([] & w6 & Hrep & Hr). apply mret_inv in Hr as [_ ->].
      apply (run_grows _ _ _ _ (keeps_reportTerminal (recorded g) _ _ _ _ _ _)) in Hrep. done. }
  destruct (Dispose _ _); try (by apply Hpub).
  - destruct (_ || _); [apply mret_inv in Hr as [Hr _]|apply report_then_ret_inv in Hr]; by subst.
  - destruct (Is _ _); [destruct (Final _)|];
      [apply report_then_ret_inv in Hr|apply mret_inv in Hr as [Hr _]..]; by subst.
Qed.

(** The context of a message carries a fresh scope. *)
Lemma msgScope_fresh c o w hctx w' :
  msgScope b c o w = (Ret hctx, w') -> scope_reported (cx_scope hctx) w' = false.
Proof using Type.
  unfold msgScope. intros Hr. apply bind_ret_inv in Hr as (c1 & w1 & _ & Hr).
  apply bind_ret_inv in Hr as ([c2 s] & w2 & Hs & Hr). apply mret_inv in Hr as [-> ->].
  unfold WithFailureScope in Hs. apply bind_ret_inv in Hs as (s' & w3 & [= <- <-] & Hs).
  apply mret_inv in Hs as [[= -> ->] ->]. cbn. by rewrite lookup_insert_eq.
Qed.

Lemma marked_InvokeHandler l c evt h :
  respects (marked l) (InvokeHandler c (jb_invoker b) evt h (fun c => fn c evt)).
Proof using Hm.
  pose proof (marked_observe l) as Hob.
  assert (Hraise : forall c s, respects (marked l) (raise (U := U) c s))
    by (intros; apply raise_keeps; [apply _|done|apply marked_log]).
  assert (Hread : forall A (m : M U A), (forall w, (m w).2 = w) -> respects (marked l) m)
    by (intros A m Hw w; by rewrite Hw).
  unfold InvokeHandler. apply respects_bind; [apply _|by apply Hread|intros start].
  apply respects_bind; [apply _| |intros [c' s]].
  { destruct (FailureScopeFromContext c); [by apply Hread|].
    apply respects_bind; [apply _| |intros; by apply Hread]. intros w. exists [].
    rewrite app_nil_r. split; [done|]. unfold scope_reported. destruct l as [l|]; [|done].
    cbn. destruct (decide (l = fresh (dom (w_scopes w)))) as [->|Hne];
      [by rewrite lookup_insert_eq|rewrite lookup_insert_ne by done; by left]. }
  apply respects_deferring; [apply _| |intros err].
  - apply respects_recovering; [apply _| |intros; by apply Hread].
    destruct (jb_invoker b) as [i|] eqn:Ei; [by apply (us_invoker _ (Hm l))|].
    apply respects_recovering; [apply _|apply (us_handler _ (Hm l))|intros; by apply Hread].
  - unfold report_done. apply respects_bind; [apply _| |intros name].
    { apply Hread. intros w. destruct evt as [e|]; [|done]. unfold safeEventName, recovering, Name.
      by destruct (ev_name_panics e). }
    apply respects_bind; [apply _|by apply Hread|intros t].
    apply respects_if; [|apply Hraise].
    apply respects_bind; [apply _| |intros []; [by apply Hread|apply Hraise]].
    apply marked_same. intros w. unfold deferHandlerDone, mbind, M_bind, get_scope, scope_reported.
    destruct (w_scopes w !! s) as [sc|] eqn:Es; [|done].
    destruct (_ || _); [done|]. split; [done|]. destruct l as [l|]; [|done]. cbn.
    destruct (decide (l = s)) as [->|Hne];
      [by rewrite lookup_insert_eq, Es|by rewrite lookup_insert_ne by done].
Qed.

Lemma process_terminal c h p m w v w' :
  process b g c h fn p m w = (Ret v, w') ->
  s_disposition (v_settlement v) = DispositionTerminal -> has_record w w'.
Proof using Hu Hm Hderived.
  intros Hr Hd. unfold process, handle_event in Hr. apply bind_ret_inv in Hr as (hctx & w1 & H1 & Hr).
  pose proof (msgScope_fresh _ _ _ _ _ H1) as Hfresh.
  apply (run_grows _ _ _ _ (keeps_msgScope g (recorded g) _ _)) in H1.
  apply bind_ret_inv in Hr as (d & w2 & H2 & Hr).
  assert (M2 : marked (cx_scope hctx) w1 w2).
  { eapply respects_run; [|exact H2]. unfold delivery. destruct (jm_metadata m); [by apply respects_ret, _|].
    apply respects_bind; [apply _| |intros; by apply respects_ret, _].
    pose proof (marked_observe (cx_scope hctx)). apply raise_to_keeps; [apply _|done|apply marked_log]. }
  apply bind_ret_inv in Hr as ([[mctx evt] err] & w3 & H3 & Hr).
  assert (M3 : marked (cx_scope hctx) w1 w3).
  { etransitivity; [exact M2|]. eapply respects_run; [|exact H3]. apply (us_decode _ (Hm _)). }
  assert (Hend : forall c' i w4 res, in_publisher i = guard_publisher g (jb_dlq b) ->
    cx_scope c' = cx_scope hctx -> marked (cx_scope hctx) w1 w4 ->
    Settle c' i w4 = (Ret res, w') -> s_disposition res = DispositionTerminal -> has_record w w').
  { intros c' i w4 res Hp Hc Hw Hs Hdr. apply (has_record_after _ w1); [done|].
    refine (Settle_terminal_record c' i w1 w4 res w' _ _ Hp Hs Hdr).
    - by eapply marked_grows.
    - rewrite Hc. by apply marked_unreported. }
  assert (Hscope : cx_scope (default hctx mctx) = cx_scope hctx).
  { destruct mctx as [mctx|]; [|done]. by eapply Hderived. }
  destruct err as [e|].
  - apply bind_ret_inv in Hr as (s & w4 & Hs & Hr). apply mret_inv in Hr as [-> ->].
    by eapply Hend; [| | |exact Hs|].
  - destruct mctx as [mctx|]; [|done].
    apply bind_ret_inv in Hr as (t & w4 & Ht & Hr). apply now_inv in Ht as [-> ->].
    apply bind_ret_inv in Hr as (err & w5 & Hi & Hr).
    apply bind_ret_inv in Hr as (t & w6 & Ht & Hr). apply now_inv in Ht as [-> ->].
    apply bind_ret_inv in Hr as (s & w7 & Hs & Hr). apply mret_inv in Hr as [-> ->].
    eapply Hend; [| | |exact Hs|exact Hd]; [done|done|]. etransitivity; [exact M3|].
    eapply respects_run; [|exact Hi]. apply marked_InvokeHandler.
Qed.

Lemma raise_failure_record o c f w : has_record w (raise_to (U := U) o c (SFailure f) w).2.
Proof using Hu.
  unfold raise_to. erewrite bind_run by reflexivity.
  destruct (observe_grows o c (SFailure f) (log_entry (ESignal (cx_scope c) (SFailure f)) w).2)
    as [n Hn].
  exists (ESignal (cx_scope c) (SFailure f) :: n). split; [|done].
  etransitivity; [exact Hn|]. cbn. by rewrite <- app_assoc.
Qed.

(** The failure of a panic on the final delivery is on record. *)
Lemma reportPanicOnFinal_record c h d pe w w' :
  reportPanicOnFinal b c h d pe w = (Ret tt, w') -> has_record w w'.
Proof using Hu.
  unfold reportPanicOnFinal. set (inner := mbind _ now). intros Hr.
  assert (Hi : has_record w (inner w).2).
  { unfold inner. erewrite bind_run by reflexivity. apply raise_failure_record. }
  unfold recovering at 1 in Hr. destruct (inner w) as [[[]|v|] w1]; cbn in Hi.
  - by injection Hr as <-.
  - apply (has_record_before _ w1); [done|]. eapply run_grows; [|exact Hr].
    apply respects_recovering; [apply _|apply (keeps_internalError g _)|intros; by apply respects_ret, _].
  - done.
Qed.

(** The recover of a message nobody answered: it delays the message, or something
    is on record. *)
Lemma recover_record (Ha : user_keeps same_actions) c h p m v w0 w w' :
  g ∉ w_ended w0 -> recorded g w0 w ->
  recover_message b g c h p m false v w = (Ret tt, w') ->
  has_record w0 w' \/ exists d, actions (w_log w') = actions (w_log w) ++ [MsgNakWithDelay d].
Proof using Hu.
  intros Hfresh Hrec Hr. pose proof (user_silent g Ha) as Hk. unfold recover_message in Hr.
  apply bind_ret_inv in Hr as ([] & w1 & H1 & Hr).
  pose proof (respects_run _ _ _ _ _ (keeps_internalError g (recorded g) _ _ _ _ _) H1) as R1.
  apply (respects_run _ _ _ _ _ (keeps_internalError g same_actions _ _ _ _ _)) in H1.
  apply bind_ret_inv in Hr as (d & w2 & H2 & Hr).
  pose proof (respects_run _ _ _ _ _ (keeps_delivery g (recorded g) _ _ _) H2) as R2.
  apply (respects_run _ _ _ _ _ (keeps_delivery g same_actions _ _ _)) in H2.
  apply bind_ret_inv in Hr as (ended & w3 & H3 & Hr). injection H3 as <- <-.
  assert (R : recorded g w0 w2) by (etransitivity; [exact Hrec|]; etransitivity; [exact R1|exact R2]).
  apply bind_ret_inv in Hr as ([op aerr] & w4 & H4 & Hr).
  assert (Hact : forall m a, respects (recorded g) (act (U := U) m a)).
  { intros. apply respects_bind; [apply _|apply untouched_recorded, untouched_log|intros _].
    by apply untouched_recorded, us_broker. }
  assert (Hend : grows w4 w')
    by (eapply run_grows; [|exact Hr]; apply (keeps_report_act g); apply _).
  destruct (Final d && negb (bool_decide (g ∈ w_ended w2))) eqn:E1;
    [left|destruct (bool_decide (g ∈ w_ended w2) && negb (Final d)) eqn:E2; [left|right]].
  - apply bind_ret_inv in H4 as ([] & w5 & H5 & H4). apply reportPanicOnFinal_record in H5.
    apply bind_ret_inv in H4 as (e & w6 & H6 & H4). apply mret_inv in H4 as [_ ->].
    apply (run_grows _ _ _ _ (Hact _ _)) in H6.
    apply (has_record_after _ w2); [by apply recorded_grows|].
    apply (has_record_before _ w6); [|done]. by apply (has_record_before _ w5).
  - apply bind_ret_inv in H4 as (e & w6 & H6 & H4). apply mret_inv in H4 as [_ ->].
    apply (run_grows _ _ _ _ (Hact _ _)) in H6.
    apply andb_prop in E2 as [E2 _]. apply bool_decide_eq_true in E2.
    destruct R as (new & Hl & Hg). destruct (Hg E2) as [|Hn]; [done|].
    apply (has_record_before _ w2); [by exists new|]. by etransitivity.
  - eexists. apply bind_ret_inv in H4 as (e & w6 & H6 & H4). apply mret_inv in H4 as [_ ->].
    pose proof (acting_act (fun a => a = MsgNakWithDelay (delayFor b (Some (recoveredPanic v)) d (dp_backoff p)))
      (us_broker _ Ha) m _ eq_refl w2) as Hx. rewrite H6 in Hx. destruct Hx as (a & Hx & ->).
    apply (respects_run _ _ _ _ _ (keeps_report_act g same_actions _ _ _ _ _)) in Hr.
    unfold same_actions in *. by rewrite Hr, Hx, H2, H1.
Qed.
End recorded.
End consumer.

(** ** Runs of the whole callback *)

Section callback.
Context {U : Type} `{Env U} `{Broker U} `{Lens Lifecycle U}.
Context (b : Bus U) (fn : Ctx -> option Event -> M U goerr) (g : nat).
Implicit Types (w : World U) (c : Ctx) (m : JsMsg) (p : deliveryPolicy).

(** The two ways a callback returns. *)
Lemma msgHandler_inv c handler p m w w' :
  msgHandler b g c handler fn p m w = (Ret tt, w') ->
  exists ok w1 w2, track_life w = (Ret ok, w1) /\
    w_log w1 = w_log w /\ w_ended w1 = w_ended w /\ w_log w' = w_log w2
    /\ ((exists v w3, decide_message b g ok c handler fn p m w1 = (Ret v, w3)
          /\ recovering (answer b c handler p m v) (recover_message b g c handler p m true) w3
             = (Ret tt, w2))
        \/ (exists x w3, decide_message b g ok c handler fn p m w1 = (Panicking x, w3)
              /\ recover_message b g c handler p m false x w3 = (Ret tt, w2))).
Proof.
  unfold msgHandler. intros Hr. apply bind_ret_inv in Hr as (ok & w1 & Ht & Hr).
  assert (Hw1 : w_log w1 = w_log w /\ w_ended w1 = w_ended w)
    by (unfold track_life, atomically in Ht; destruct (let '(l, ok) := Track _ in _);
        injection Ht as _ <-; done).
  destruct Hw1 as [Hl1 He1].
  assert (Hhalves : exists w2, recovering_halves (decide_message b g ok c handler fn p m)
      (answer b c handler p m) (recover_message b g c handler p m) w1 = (Ret tt, w2)
    /\ w_log w' = w_log w2).
  { destruct ok; [|by exists w'].
    apply deferring_ret_inv in Hr as (w2 & Hr & Hrel). exists w2. split; [done|].
    unfold release_life, atomically in Hrel. by injection Hrel as <-. }
  destruct Hhalves as (w2 & Hh & Hl2). exists ok, w1, w2. do 4 (split; [done|]).
  unfold recovering_halves in Hh.
  destruct (decide_message b g ok c handler fn p m w1) as [[v|x|] w3]; [left|right|done]; eauto.
Qed.

Lemma decide_inv ok c handler p m w v w' :
  decide_message b g ok c handler fn p m w = (Ret (Some v), w') ->
  process b g c handler fn p m w = (Ret v, w').
Proof.
  unfold decide_message. intros Hd. apply bind_ret_inv in Hd as (cl & w0 & Hc & Hd).
  assert (w0 = w) as ->.
  { destruct ok; [rewrite closing_life_run in Hc|]; by injection Hc as _ <-. }
  destruct cl; [by apply mret_inv in Hd as [? _]|].
  apply bind_ret_inv in Hd as (v' & w1 & Hp & Hd). by apply mret_inv in Hd as [[= <-] ->].
Qed.

Section recorded.
Context (Hu : user_keeps b fn (untouched g)).

Lemma recorded_decide ok c handler p m :
  respects (recorded g) (decide_message b g ok c handler fn p m).
Proof using Hu.
  pose proof (user_recorded b fn g Hu) as Hk. unfold decide_message.
  apply respects_bind; [apply _| |intros cl].
  - apply respects_if; [|by apply respects_ret, _]. apply respects_atomically.
    intros u. by apply untouched_recorded, untouched_same.
  - apply respects_if; [by apply respects_ret, _|].
    apply respects_bind; [apply _|apply keeps_process; apply _|intros; by apply respects_ret, _].
Qed.

Lemma recorded_act m a : respects (recorded g) (act (U := U) m a).
Proof using Hu.
  apply respects_bind; [apply _|apply untouched_recorded, untouched_log|intros _].
  by apply untouched_recorded, (us_broker b fn).
Qed.

Lemma recorded_answer c handler p m v : respects (recorded g) (answer b c handler p m v).
Proof using Hu.
  pose proof (user_recorded b fn g Hu) as Hk. destruct v as [v|]; cbn [answer].
  - unfold apply_settlement. destruct (settlement_action _ _ _ _) as [[op a]|];
      [|by apply respects_ret, _].
    apply respects_bind; [apply _|apply recorded_act|intros e; by apply (keeps_report_act b fn g _)].
  - unfold handBack. apply respects_bind; [apply _|apply (keeps_msgScope b fn g _)|intros hctx].
    apply respects_bind; [apply _|apply (keeps_delivery b fn g _)|intros d].
    apply respects_bind; [apply _|apply recorded_act|intros e].
    apply respects_bind; [apply _|apply (keeps_report_act b fn g _)|intros _].
    apply respects_if; [by apply respects_ret, _|].
    apply respects_bind; [apply _|apply (keeps_now _)|intros t].
    by apply (keeps_after_handBack b fn g _).
Qed.

Lemma recorded_second_half c handler p m v :
  respects (recorded g) (recovering (answer b c handler p m v) (recover_message b g c handler p m true)).
Proof using Hu.
  pose proof (user_recorded b fn g Hu) as Hk.
  apply respects_recovering; [apply _|apply recorded_answer|intros x].
  apply respects_bind; [apply _|apply (keeps_internalError b fn g _)|intros _; by apply respects_ret, _].
Qed.
End recorded.
End callback.

(** ** Handing back *)

Section hand_back.
Context {U : Type} `{Env U} `{Broker U} `{Lens Lifecycle U}.
Implicit Types (b : Bus U) (w : World U) (c : Ctx).

(** The bus with another decoder, chain and dead-letter queue. *)
Definition with_consumer b (decode : Decoder U) (inv : option (Invoker U))
    (q : option (DLQPublisher U)) : Bus U :=
  mkBus (jb_registry b) decode inv (jb_id_gen b) (jb_inherit b) q (jb_pub_retry b) (jb_observer b)
    (jb_default_log b) (jb_shutdown_timeout b) (jb_circuit_open_delay b) (jb_rate_limit_delay b)
    (jb_life b) (jb_interrupt b).

Lemma cancelled_err c t now : t <= now ->
  exists e, ctx_err now (cancelled_by (Some (mkDone t Canceled (Sentinel ErrShutdownInterrupted))) c)
            = Some e.
Proof.
  intros Ht. unfold ctx_err, cancelled_by, earlier. cbn. destruct (cx_done c) as [x|]; cbn.
  - destruct (Z.ltb_spec t (done_at x)); cbn;
      [rewrite (proj2 (Z.leb_le t now)) by done|rewrite (proj2 (Z.leb_le (done_at x) now)) by lia];
      by eexists.
  - rewrite (proj2 (Z.leb_le t now)) by done. by eexists.
Qed.

(** The settlement of an interrupted message without an event uses no publisher. *)
Lemma Settle_interrupted c sub handler e q q' w :
  isDecodeError (Some e) = false -> IsInterrupted (w_now w) sub (Some e) = true ->
  Settle c (mkSettleInput sub None handler (Some e) q) w
  = Settle c (mkSettleInput sub None handler (Some e) q') w.
Proof.
  intros Hd Hi. assert (Hb : settle_body c (mkSettleInput sub None handler (Some e) q) e w
    = settle_body c (mkSettleInput sub None handler (Some e) q') e w).
  { unfold settle_body. cbn [in_evt in_err in_sub in_handler is_nil andb]. rewrite Hd.
    unfold mbind, M_bind, mret, M_ret, now. rewrite Hi. by destruct (Final _). }
  unfold Settle. cbn [in_err]. unfold deferring. by rewrite Hb.
Qed.

Lemma handBack_same b decode inv q c m handler p w :
  handBack (with_consumer b decode inv q) c m handler p w = handBack b c m handler p w.
Proof.
  unfold handBack. apply bind_ext_on. intros hctx w1 _. apply bind_ext_on. intros d w2 _.
  apply bind_ext_on. intros aerr w3 _. apply bind_ext_on. intros _ w4 _.
  destruct (negb (Final d)); [done|]. apply bind_ext_on. intros t w5 Ht. apply now_inv in Ht as [-> ->].
  unfold mbind, M_bind. erewrite Settle_interrupted; [reflexivity|done|].
  unfold IsInterrupted. destruct (cancelled_err hctx (w_now w4) (w_now w4) ltac:(lia)) as [e ->].
  done.
Qed.
End hand_back.
