(* ===== verification/JetstreamSpec.v ===== *)
(** * Properties of the JetStream consumer

    Every message is answered exactly once and no panic reaches the client's
    goroutine; a message is ended for good only with a record of it; a message
    that arrives while the bus closes is handed back; the delays are the
    configured ones. *)

From S2P Require Import Prelude GoErrors Types Failure Runtime Observer Scope Dlq Fixtures.
From S2P Require Import Settle Records Invoke Frames Lifecycle LifeOps Emit Jetstream JetstreamFacts.
Local Open Scope string_scope.
Local Open Scope list_scope.
Local Open Scope Z_scope.

(** * Properties *)

Section properties.
Context {U : Type} `{Env U} `{Broker U} `{Lens Lifecycle U}.
Implicit Types (b : Bus U) (w : World U) (c : Ctx) (m : JsMsg) (p : deliveryPolicy).

(** C4: one answer per message. Whatever the decoder, the handler, the invokers,
    the dead-letter publisher, the event and the user's observers do, panics
    included, the callback of a message answers it exactly once and never panics
    into the client's goroutine; only user code that leaves its goroutine can keep
    it from answering, and even then it never answers twice. *)
Theorem one_answer_per_message b (fn : Ctx -> option Event -> M U goerr) (g : nat) c
    (handler : string) p m w w' (o : outcome (any error) unit) :
  user_keeps b fn same_actions -> isolated (obs b) ->
  (forall m a, no_panic (broker_act (U := U) m a)) ->
  msgHandler b g c handler fn p m w = (o, w') ->
  match o with
  | Ret _ => exists a, actions (w_log w') = actions (w_log w) ++ [a]
  | Panicking _ => False
  | Goexit => exists l, actions (w_log w') = actions (w_log w) ++ l /\ (length l <= 1)%nat
  end.
Proof.
  intros Hu Hiso Hcalm Hrun. pose proof (user_silent b fn g Hu) as Hk.
  pose proof (acting_msgHandler b fn g Hiso (us_broker _ _ _ Hu) c handler p m w) as Hact.
  pose proof (no_panic_msgHandler b fn g Hiso c handler p m Hcalm w) as Hn.
  rewrite Hrun in Hact, Hn. destruct o as [[]|v|]; cbn in *.
  - destruct Hact as (a & Ha & _). by exists a.
  - by destruct (Hn v).
  - exact Hact.
Qed.

(** C5: no message is ended without a record. With a dead-letter queue or without
    one, a message is taken from the stream for good by TermWithReason only after its
    dead letter was stored or a terminal failure was reported for it during this
    very callback, also when the answer follows a panic; an Ack means that in this
    callback, once the message was tracked, the chain returned no error, or a failure
    that is a duplicate or was dead-lettered by the chain. Every other answer keeps
    the message in the stream. The user's code may do anything but answer the
    message itself, shorten the trace, set the guard, or mark a failure scope as reported
    without the report; the decoder returns a context derived from its own. *)
Theorem no_message_ended_unrecorded b (fn : Ctx -> option Event -> M U goerr) (g : nat) c
    (handler : string) p m w w' :
  user_keeps b fn same_actions -> user_keeps b fn (untouched g) ->
  (forall l, user_keeps b fn (marked l)) ->
  (forall hctx d w c' evt err w', jb_decode b hctx d w = (Ret (Some c', evt, err), w') ->
     cx_scope c' = cx_scope hctx) ->
  isolated (obs b) -> g ∉ w_ended w -> msgHandler b g c handler fn p m w = (Ret tt, w') ->
  exists a, actions (w_log w') = actions (w_log w) ++ [a] /\
    match a with
    | MsgTermWithReason _ => has_record w w'
    | MsgAck => exists ok w1 v w2, track_life w = (Ret ok, w1)
        /\ decide_message b g ok c handler fn p m w1 = (Ret (Some v), w2)
        /\ (v_err v = None \/ Is (v_err v) ErrDuplicate = true \/ Is (v_err v) ErrDeadLettered = true)
    | MsgNak | MsgNakWithDelay _ => True
    end.
Proof.
  intros Hu Hun Hum Hder Hiso Hg Hrun. pose proof (user_silent b fn g Hu) as Hk.
  pose proof (user_recorded b fn g Hun) as Hkr.
  apply msgHandler_inv in Hrun as (ok & w1 & w2 & Ht & Hl1 & He1 & Hl2 & Hcase).
  assert (Hback : has_record w1 w2 -> has_record w w')
    by (intros (n & Hn & Hon); exists n; by rewrite Hl2, Hn, Hl1).
  rewrite <- Hl1, Hl2. rewrite <- He1 in Hg.
  destruct Hcase as [(v & w3 & Hd & Ha)|(x & w3 & Hd & Ha)];
    pose proof (respects_run _ _ _ _ _ (silent_decide b fn g c handler p m ok) Hd) as Hs;
    unfold same_actions in Hs.
  - pose proof (decide_valid b fn g c handler p m ok w1 v w3 Hd) as Hv.
    pose proof (acting_recovering _ (answer b c handler p m v) (recover_message b g c handler p m true)
      (acting_answer b fn g Hiso (us_broker _ _ _ Hu) c handler p m v Hv)
      (silent_panic_report b fn g c handler p m) w3) as Hact.
    rewrite Ha in Hact. destruct Hact as (a & Hact & Hof).
    exists a. split; [by rewrite Hact, Hs|]. destruct v as [v|]; [|by rewrite Hof].
    destruct Hof as [op Hof]. specialize (Hv v eq_refl). unfold settlement_action in Hof.
    unfold sound_answer in Hv. destruct (s_disposition (v_settlement v)) eqn:Hdisp; try done;
      injection Hof as <- <-; try done; [by exists ok, w1, v, w3|].
    pose proof (decide_inv b fn g ok c handler p m w1 v w3 Hd) as Hp.
    pose proof (process_terminal b fn g Hun Hum Hder c handler p m w1 v w3 Hp Hdisp) as Hr.
    apply Hback, (has_record_before _ w3); [done|].
    exact (run_grows g _ _ _ _ (recorded_second_half b fn g Hun c handler p m (Some v)) Ha).
  - pose proof (acting_recover b fn g Hiso (us_broker _ _ _ Hu) c handler p m x w3) as Hact.
    rewrite Ha in Hact. destruct Hact as (a & Hact & Hack).
    exists a. split; [by rewrite Hact, Hs|].
    pose proof (respects_run _ _ _ _ _ (recorded_decide b fn g Hun ok c handler p m) Hd) as Hrec.
    destruct (recover_record b fn g Hun Hu c handler p m x w1 w3 w2 Hg Hrec Ha) as [Hr|(d & Hx)].
    + destruct a; try done. by apply Hback.
    + rewrite Hx in Hact. apply app_inv_head in Hact. by injection Hact as <-.
Qed.

(** Messages that arrive while the bus closes are handed back. Once shutdown
    began, the callback answers with one immediate Nak, so that another consumer
    gets the message, and runs neither the decoder nor the invokers nor the handler
    nor the dead-letter queue: with any others it is the same computation. *)
Theorem closing_hands_back b (fn fn' : Ctx -> option Event -> M U goerr) (decode : Decoder U)
    (inv : option (Invoker U)) (q : option (DLQPublisher U)) (g : nat) c (handler : string) p m w :
  user_keeps b fn same_actions -> isolated (obs b) -> Closing (lget (w_user w)) = true ->
  msgHandler (with_consumer b decode inv q) g c handler fn' p m w
  = msgHandler b g c handler fn p m w
  /\ forall w', msgHandler b g c handler fn p m w = (Ret tt, w') ->
       actions (w_log w') = actions (w_log w) ++ [MsgNak].
Proof.
  intros Hu Hiso Hclose. pose proof (user_silent b fn g Hu) as Hk.
  set (body := recovering (handBack b c m handler p) (recover_message b g c handler p m true)).
  assert (Hbody : forall b' f ok w1, (forall w, handBack b' c m handler p w = handBack b c m handler p w) ->
    obs b' = obs b -> Closing (lget (w_user w1)) = true ->
    recovering_halves (decide_message b' g ok c handler f p m) (answer b' c handler p m)
      (recover_message b' g c handler p m) w1 = body w1).
  { intros b' f ok w1 Hback Hobs Hcl. unfold recovering_halves, decide_message.
    destruct ok; [erewrite bind_run by apply closing_life_run; rewrite Hcl|];
      change (recovering (handBack b' c m handler p) (recover_message b' g c handler p m true) w1
              = body w1);
      unfold body, recovering; rewrite Hback; unfold recover_message, internalError; by rewrite Hobs. }
  destruct (atomically_run (fun l => let '(l, ok) := Track l in (ok, l)) w) as (w1 & Ht & Hl1 & Hlog1 & _).
  set (ok := (let '(l, ok) := Track (lget (w_user w)) in (ok, l)).1) in *.
  assert (Hcl1 : Closing (lget (w_user w1)) = true).
  { rewrite Hl1. unfold Track. destruct (_ || _); exact Hclose. }
  assert (Hrun : forall b' f, (forall w, handBack b' c m handler p w = handBack b c m handler p w) ->
    obs b' = obs b -> msgHandler b' g c handler f p m w
    = (if ok then deferring tt body (fun _ => release_life) else body) w1).
  { intros b' f Hback Hobs. unfold msgHandler, track_life. erewrite bind_run by exact Ht.
    destruct ok; [unfold deferring|]; by rewrite Hbody. }
  split; [rewrite !Hrun; try done; apply handBack_same|].
  intros w' Hr. rewrite Hrun in Hr by done.
  assert (Hact : acting (fun a => a = MsgNak) body).
  { apply acting_recovering; [by apply (acting_handBack b fn g Hiso (us_broker _ _ _ Hu))|].
    apply (silent_panic_report b fn g). }
  assert (Hall : acting (fun a => a = MsgNak) (if ok then deferring tt body (fun _ => release_life) else body)).
  { apply acting_if; [|done]. apply acting_deferring; [done|intros; apply silent_life|].
    intros; apply returns_atomically. }
  specialize (Hall w1). rewrite Hr in Hall. destruct Hall as (a & Ha & ->). by rewrite Ha, Hlog1.
Qed.

(** The redelivery delay. It is the circuit breaker's or the rate limiter's
    configured delay for a failure of theirs, unless its dead-letter publish
    failed, and otherwise the entry of the schedule for the delivery count, the
    last one from there on; on a schedule that does not decrease, later deliveries
    wait at least as long. *)
Theorem delayFor_contract b (err : goerr) (d d' : Delivery) (backoff : list Z) :
  1 <= d_count d -> d_count d <= d_count d' < 2 ^ 63 ->
  let schedule := match backoff with [] => defaultBackOff | _ => backoff end in
  let flow := negb (Is err ErrDeadLetterFailed) && (Is err ErrCircuitOpen || Is err ErrRateLimited) in
  (if flow
   then delayFor b err d backoff =
        if Is err ErrCircuitOpen then jb_circuit_open_delay b else jb_rate_limit_delay b
   else delayFor b err d backoff ∈ schedule
        /\ (forall x, (Z.to_nat (d_count d - 1) < length schedule)%nat ->
              schedule !! Z.to_nat (d_count d - 1) = Some x -> delayFor b err d backoff = x)
        /\ (Z.of_nat (length schedule) <= d_count d -> last schedule = Some (delayFor b err d backoff)))
  /\ ((forall i j x y, (i <= j)%nat -> schedule !! i = Some x -> schedule !! j = Some y -> x <= y) ->
        delayFor b err d backoff <= delayFor b err d' backoff).
Proof.
  intros Hd Hd'. cbv zeta. unfold delayFor.
  set (schedule := match backoff with [] => defaultBackOff | _ => backoff end).
  assert (Hlen : (0 < length schedule)%nat) by (unfold schedule; destruct backoff; simpl; lia).
  set (entry k := nth (Z.to_nat (Z.min (Z.max (wrap64 (k - 1)) 0) (Z.of_nat (length schedule) - 1)))
                    schedule 0).
  assert (Hentry : forall k, 1 <= k < 2 ^ 63 ->
    schedule !! Nat.min (Z.to_nat (k - 1)) (length schedule - 1) = Some (entry k)).
  { intros k Hk. unfold entry. rewrite wrap64_id by lia.
    replace (Z.to_nat (Z.min _ _)) with (Nat.min (Z.to_nat (k - 1)) (length schedule - 1)) by lia.
    set (i := Nat.min _ _).
    destruct (nth_lookup_or_length schedule i 0) as [Hl|]; [done|]. unfold i in *. lia. }
  fold (entry (d_count d)) (entry (d_count d')).
  pose proof (Hentry (d_count d) ltac:(lia)) as He. pose proof (Hentry (d_count d') ltac:(lia)) as He'.
  split.
  - assert (Hs : entry (d_count d) ∈ schedule
      /\ (forall x, (Z.to_nat (d_count d - 1) < length schedule)%nat ->
            schedule !! Z.to_nat (d_count d - 1) = Some x -> entry (d_count d) = x)
      /\ (Z.of_nat (length schedule) <= d_count d -> last schedule = Some (entry (d_count d)))).
    { split; [by eapply list_elem_of_lookup_2|]. split.
      - intros x Hx Hl. rewrite Nat.min_l, Hl in He by lia. by injection He.
      - intros Hc. rewrite last_lookup, <- He. f_equal. lia. }
    destruct (Is err ErrDeadLetterFailed); [exact Hs|].
    destruct (Is err ErrCircuitOpen); [done|]. destruct (Is err ErrRateLimited); [done|exact Hs].
  - intros Hsort. destruct (Is err ErrDeadLetterFailed); [eapply Hsort; [|exact He|exact He']; lia|].
    destruct (Is err ErrCircuitOpen); [lia|]. destruct (Is err ErrRateLimited); [lia|].
    eapply Hsort; [|exact He|exact He']. lia.
Qed.
End properties.

(** ** A concrete bus

    A decoder that accepts "E1", panics on "P" and rejects the rest, a handler that
    panics, and a dead-letter queue that stores. *)

#[local] Instance js_env : Env Lifecycle := silent_env Lifecycle.
#[local] Instance js_broker : Broker Lifecycle := {| broker_act _ _ := mret None |}.

Definition js_decode : Decoder Lifecycle := fun c data =>
  match data with
  | Some d =>
      if String.eqb d "E1" then mret (Some c, Some (plain_event "order"), None)
      else if String.eqb d "P" then panic (mkAny "decode" None)
      else mret (None, None, Some (DecodeError "" 0 (Some (Sentinel ErrMalformedEnvelope))))
  | None => mret (None, None, Some (DecodeError "" 0 (Some (Sentinel ErrMalformedEnvelope))))
  end.

Definition js_bus (q : option (DLQPublisher Lifecycle)) : Bus Lifecycle :=
  mkBus (mkRegistry None (fun _ _ => mret ("", None))) js_decode None None [] q
    (normalized (mkPublishRetryPolicy 0 0 0 0)) (Some NopObserver) true js_default_shutdown
    (30 * 10 ^ 9) (5 * 10 ^ 9) 0 None.
Definition js_store : DLQPublisher Lifecycle := fun _ _ => mret None.
Definition js_handler : Ctx -> option Event -> M Lifecycle goerr := fun _ _ =>
  panic (mkAny "handler" None).
Definition js_policy : deliveryPolicy := mkDeliveryPolicy 5 [10 ^ 9; 5 * 10 ^ 9].
Definition js_msg (data : string) (n : Z) : JsMsg :=
  mkJsMsg "orders" (Some data) None (inl (mkMsgMetadata n "ORDERS" "c" 42 7)).
Definition js_world (l : Lifecycle) : World Lifecycle := mkWorld 100 [] ∅ 0 ∅ ∅ l.

Definition js_run (data : string) (n : Z) : list BrokerAction :=
  actions (w_log (msgHandler (js_bus (Some js_store)) 0 background "h" js_handler js_policy
    (js_msg data n) (js_world zero_lifecycle)).2).

(** A handler panic and undecodable bytes are dead-lettered; a decoder panic is
    delayed, and ended on the final delivery. *)
Example js_runs :
  js_run "E1" 1 = [MsgTermWithReason "dead_lettered: panic"]
  /\ js_run "junk" 1 = [MsgTermWithReason "dead_lettered: decode_malformed"]
  /\ js_run "P" 2 = [MsgNakWithDelay (5 * 10 ^ 9)]
  /\ js_run "P" 5 = [MsgTermWithReason termReasonPanicOnFinal].
Proof. vm_compute. repeat split; reflexivity. Qed.

Lemma js_user_keeps q (R : relation (World Lifecycle)) `{!PreOrder R} :
  (forall e, broker_action_of e = None -> respects R (log_entry (U := Lifecycle) e)) ->
  (forall q' c r, q = Some q' -> respects R (q' c r)) ->
  user_keeps (js_bus q) js_handler R.
Proof.
  intros Hlog Hq. assert (Hret : forall A (a : A), respects R (mret (M := M Lifecycle) a))
    by (intros; by apply respects_ret).
  split; intros; try apply Hret; try done; try (by apply respects_panic).
  - unfold js_bus, jb_decode, js_decode. destruct d as [d|]; [|apply Hret].
    destruct (String.eqb d "E1"); [apply Hret|]. destruct (String.eqb d "P"); [by apply respects_panic|].
    apply Hret.
  - by apply Hq.
Qed.

(** A bus with the storing queue or without one. *)
Definition js_queue (dlq : bool) : option (DLQPublisher Lifecycle) := if dlq then Some js_store else None.

Lemma js_queue_keeps (dlq : bool) (R : relation (World Lifecycle)) `{!PreOrder R} :
  (forall e, broker_action_of e = None -> respects R (log_entry (U := Lifecycle) e)) ->
  user_keeps (js_bus (js_queue dlq)) js_handler R.
Proof.
  intros Hlog. apply js_user_keeps; [done..|]. intros q c r Hq. destruct dlq; [|done].
  injection Hq as <-. by apply respects_ret.
Qed.

Lemma js_silent dlq : user_keeps (js_bus (js_queue dlq)) js_handler same_actions.
Proof. apply js_queue_keeps; [apply _|intros; by apply same_actions_log]. Qed.

Lemma js_untouched dlq : user_keeps (js_bus (js_queue dlq)) js_handler (untouched 0).
Proof. apply js_queue_keeps; [apply _|intros; apply untouched_log]. Qed.

Lemma js_marked dlq l : user_keeps (js_bus (js_queue dlq)) js_handler (marked l).
Proof. apply js_queue_keeps; [apply _|intros; apply marked_log]. Qed.

Lemma js_derived dlq hctx d w c' evt err w' :
  jb_decode (js_bus (js_queue dlq)) hctx d w = (Ret (Some c', evt, err), w') ->
  cx_scope c' = cx_scope hctx.
Proof.
  unfold js_bus, jb_decode, js_decode. destruct d as [d|]; [|done].
  destruct (String.eqb d "E1"); [by intros [= <-]|]. by destruct (String.eqb d "P").
Qed.

Lemma js_isolated : isolated (obs (js_bus (Some js_store))).
Proof. exact I. Qed.

Lemma js_calm m a : no_panic (broker_act (U := Lifecycle) m a).
Proof. by intros w v. Qed.

Lemma one_answer_per_message_witness :
  exists a, js_run "P" 5 = [a].
Proof.
  set (r := msgHandler (js_bus (Some js_store)) 0 background "h" js_handler js_policy
    (js_msg "P" 5) (js_world zero_lifecycle)).
  assert (Ho : r = (Ret tt, r.2)) by (apply ran; vm_compute; reflexivity).
  pose proof (one_answer_per_message (js_bus (Some js_store)) js_handler 0 background "h" js_policy
    (js_msg "P" 5) (js_world zero_lifecycle) r.2 (Ret tt) (js_silent true) js_isolated js_calm Ho) as Hr.
  destruct Hr as [a Ha].
  exists a. exact Ha.
Defined.

(** Undecodable bytes end the message, dead-lettered or dropped, with a record. *)
Lemma no_message_ended_unrecorded_witness :
  let run q := (msgHandler (js_bus q) 0 background "h" js_handler js_policy (js_msg "junk" 1)
                  (js_world zero_lifecycle)).2 in
  has_record (js_world zero_lifecycle) (run (Some js_store))
  /\ has_record (js_world zero_lifecycle) (run None).
Proof.
  assert (Hall : forall dlq reason,
    let r := msgHandler (js_bus (js_queue dlq)) 0 background "h" js_handler js_policy (js_msg "junk" 1)
               (js_world zero_lifecycle) in
    r.1 = Ret tt -> actions (w_log r.2) = [MsgTermWithReason reason] ->
    has_record (js_world zero_lifecycle) r.2).
  { intros dlq reason. cbv zeta. intros Hr Hl.
    assert (Hi : isolated (obs (js_bus (js_queue dlq)))) by (destruct dlq; exact I).
    destruct (no_message_ended_unrecorded (js_bus (js_queue dlq)) js_handler 0 background "h" js_policy
      (js_msg "junk" 1) (js_world zero_lifecycle) _ (js_silent dlq) (js_untouched dlq) (js_marked dlq)
      (js_derived dlq) Hi (not_elem_of_empty 0%nat) (ran _ _ _ Hr)) as (a & Ha & Hend).
    rewrite Hl in Ha. injection Ha as <-. exact Hend. }
  split; [apply (Hall true "dead_lettered: decode_malformed")|apply (Hall false "dropped: decode_malformed")];
    vm_compute; reflexivity.
Defined.

Lemma closing_hands_back_witness :
  actions (w_log (msgHandler (js_bus (Some js_store)) 0 background "h" js_handler js_policy
    (js_msg "E1" 1) (js_world (BeginShutdown zero_lifecycle))).2) = [MsgNak].
Proof.
  set (r := msgHandler _ _ _ _ _ _ _ _).
  assert (Ho : r = (Ret tt, r.2)) by (apply ran; vm_compute; reflexivity).
  pose proof (closing_hands_back (js_bus (Some js_store)) js_handler js_handler js_decode None None 0
    background "h" js_policy (js_msg "E1" 1) (js_world (BeginShutdown zero_lifecycle)) (js_silent true) js_isolated
    eq_refl) as Hr.
  destruct Hr as [_ Hn].
  exact (Hn r.2 Ho).
Defined.

Lemma delayFor_contract_witness :
  delayFor (js_bus None) (Some (Sentinel (External "x")))
    (mkDelivery 2 5 "" None None "" "" 0 0 "") [10 ^ 9; 5 * 10 ^ 9] = 5 * 10 ^ 9.
Proof.
  destruct (delayFor_contract (js_bus None) (Some (Sentinel (External "x")))
    (mkDelivery 2 5 "" None None "" "" 0 0 "") (mkDelivery 2 5 "" None None "" "" 0 0 "")
    [10 ^ 9; 5 * 10 ^ 9] ltac:(simpl; lia) ltac:(simpl; lia)) as [(_ & Hx & _) _].
  apply Hx; [simpl; lia|reflexivity].
Defined.
