(* ===== verification/JetPublish.v ===== *)
(** * Publishing to JetStream

    The emitting half of src/jetstream/bus.go: [Emit], the publish loop with its
    retries, and the wait between two attempts. The loop is structural in the
    attempts left, so it ends by construction; its bound is the policy's. The
    provider of the producer spans, a field of the bus, is the argument [tp]. *)

From S2P Require Import Prelude GoErrors Types Failure Runtime Trace Lifecycle LifeOps Emit.
From S2P Require Import Nats Jetstream.
Local Open Scope string_scope.
Local Open Scope list_scope.
Local Open Scope Z_scope.

(** The delay of [PublishRetryPolicy.backoff] before its jitter. *)
Definition publish_delay (p : PublishRetryPolicy) (attempt : Z) : Z :=
  let shift := attempt - 1 in
  if (shift <? 32) && (pr_base_delay p <=? Z.shiftr (pr_max_delay p) shift)
  then wrap64 (Z.shiftl (pr_base_delay p) shift)
  else pr_max_delay p.

Section publish.
Context {U : Type} `{NatsLib} `{Stream U} `{Random U}.

(** [PublishRetryPolicy.backoff]. *)
Definition publish_backoff (p : PublishRetryPolicy) (attempt : Z) : M U Z :=
  let delay := publish_delay p attempt in
  let half := delay ÷ 2 in
  r ← Int64N (wrap64 (delay - half + 1));
  mret (wrap64 (half + r)).

(** [retryablePublish]. *)
Definition transient (err : goerr) : bool :=
  Is err DeadlineExceeded || Is err ErrTimeout || Is err ErrNoResponders
  || Is err ErrNoStreamResponse.
Definition retryablePublish (c : Ctx) (err : goerr) : M U bool :=
  e ← Err c;
  match e with Some _ => mret false | None => mret (transient err) end.

(** [ctx.Deadline()], and whether it passes within [delay]. *)
Definition deadline_first (c : Ctx) (now delay : Z) : bool :=
  match cx_deadline c with Some dl => dl - now <=? delay | None => false end.

(** The context of one attempt. *)
Definition attempt_ctx (p : PublishRetryPolicy) (c : Ctx) (now : Z) : Ctx :=
  if 0 <? pr_attempt_timeout p
  then WithTimeoutCause now (pr_attempt_timeout p) (Sentinel DeadlineExceeded) c
  else c.

(** The loop of [Bus.publish] with [more] attempts after this one. *)
Fixpoint publish_attempts (p : PublishRetryPolicy) (c : Ctx) (m : NatsMsg) (more : nat)
    (attempt : Z) (lastErr : goerr) : M U (option PubAck * Z * goerr) :=
  err ← Err c;
  match err with
  | Some _ => mret (None, attempt - 1, match lastErr with None => err | Some _ => lastErr end)
  | None =>
      t ← now;
      '(ack, err) ← PublishMsg (attempt_ctx p c t) m;
      match err with
      | None => mret (ack, attempt, None)
      | Some _ =>
          retry ← retryablePublish c err;
          match more with
          | O => mret (None, attempt, err)
          | S more =>
              if negb retry then mret (None, attempt, err)
              else
                delay ← publish_backoff p attempt;
                t ← now;
                if deadline_first c t delay then mret (None, attempt, err)
                else
                  fired ← select_timer c delay;
                  if fired : bool then publish_attempts p c m more (attempt + 1) err
                  else mret (None, attempt, err)
          end
      end
  end.

(** [Bus.publish]. *)
Definition publish (b : Bus U) (c : Ctx) (m : NatsMsg) : M U (option PubAck * Z * goerr) :=
  publish_attempts (jb_pub_retry b) c m
    (Z.to_nat (Z.max (pr_max_attempts (jb_pub_retry b)) 1 - 1)) 1 None.

(** [Bus.resolve]. *)
Definition resolve (b : Bus U) (newid : M U string) (c : Ctx) (evt : Event) (cfg : EmitOptions U)
    : M U Metadata :=
  ResolveOutbound newid c evt (bus_options (jb_id_gen b) (jb_inherit b) cfg).

(** The message of an emit. *)
Definition outgoing (subject id data : string) : NatsMsg :=
  mkNatsMsg subject (header_Set MsgIDHeader id ∅) (Some data).

Context `{TraceSDK U} `{Lens Lifecycle U}.

(** [Bus.tracer]. *)
Definition tracer (tp : option TracerProvider) : M U Tracer :=
  tracer_of tp "github.com/isaquesb/go-event-bus/jetstream".

(** [Bus.startPublish]. *)
Definition startPublish (tp : option TracerProvider) : Ctx -> string -> string -> M U (Ctx * Span) :=
  start_publish (tracer tp).

(** [Emit] once it was let in. *)
Definition emit_body (b : Bus U) (tp : option TracerProvider) (newid : M U string) (c : Ctx) (evt : Event)
    (opts : list (EmitOption U)) : M U goerr :=
  cfg ← ApplyEmitOptions evt opts;
  md ← resolve b newid c evt cfg;
  '(c, span) ← startPublish tp c (eo_subject cfg) (md_id md);
  deferring None
    ('(data, err) ← EncodeEvent c (jb_registry b) evt md;
     match err with
     | Some _ => _ ← fail_span span err; mret err
     | None =>
         '(ack, attempts, err) ← publish b c (outgoing (eo_subject cfg) (md_id md) data);
         _ ← span_SetAttributes span [("eventbus.publish.attempts", AInt attempts)];
         _ ← fail_span span err;
         mret err
     end)
    (fun _ => span_End span).

(** [Bus.Emit]. *)
Definition Emit (b : Bus U) (tp : option TracerProvider) (newid : M U string) (c : Ctx) (evt : Event)
    (opts : list (EmitOption U)) : M U goerr :=
  err ← admit_life (jb_life b) c;
  match err with
  | Some _ => mret err
  | None => deferring None (emit_body b tp newid c evt opts) (fun _ => release_life)
  end.
End publish.
