(* ===== verification/JetPublishSpec.v ===== *)
(** * Properties of publishing to JetStream

    The wait between two attempts, the attempts themselves, and the emit of an
    event: how often a message is sent, when, and what the caller learns. *)

From S2P Require Import Prelude GoErrors Types Failure Runtime Trace Lifecycle LifeOps Emit.
From S2P Require Import Nats Jetstream JetPublish.
Local Open Scope string_scope.
Local Open Scope list_scope.
Local Open Scope Z_scope.

(** ** The delay *)

(** Positive delays that fit in an [int64], as [normalized] leaves them. *)
Definition policy_ok (p : PublishRetryPolicy) : Prop :=
  0 < pr_base_delay p < 2 ^ 63 /\ 0 < pr_max_delay p < 2 ^ 63 /\ 1 <= pr_max_attempts p.

Lemma normalized_ok p :
  pr_base_delay p < 2 ^ 63 -> pr_max_delay p < 2 ^ 63 -> policy_ok (normalized p).
Proof.
  intros Hb Hm. unfold policy_ok, normalized, defaultPublishBaseDelay, defaultPublishMaxDelay,
    defaultPublishAttempts. simpl.
  repeat case_match; b2p; lia.
Qed.

Lemma publish_delay_bounds p attempt :
  policy_ok p -> 1 <= attempt ->
  0 < publish_delay p attempt <= pr_max_delay p
  /\ (attempt <= 32 ->
      publish_delay p attempt = Z.min (pr_base_delay p * 2 ^ (attempt - 1)) (pr_max_delay p)).
Proof.
  intros (Hb & Hm & _) Ha. unfold publish_delay.
  destruct (Z.ltb_spec (attempt - 1) 32) as [Hs|Hs]; simpl; [|lia].
  rewrite Z.shiftr_div_pow2, Z.shiftl_mul_pow2 by lia.
  assert (Hpow : 0 < 2 ^ (attempt - 1)) by (apply Z.pow_pos_nonneg; lia).
  destruct (Z.leb_spec (pr_base_delay p) (pr_max_delay p / 2 ^ (attempt - 1))) as [Hc|Hc].
  - assert (Hle : pr_base_delay p * 2 ^ (attempt - 1) <= pr_max_delay p).
    { pose proof (Z.mul_div_le (pr_max_delay p) (2 ^ (attempt - 1)) Hpow). nia. }
    rewrite wrap64_id by nia. split; [nia|]. intros _. lia.
  - assert (Hlt : pr_max_delay p < pr_base_delay p * 2 ^ (attempt - 1)).
    { pose proof (Z.mul_succ_div_gt (pr_max_delay p) (2 ^ (attempt - 1)) Hpow). nia. }
    split; [lia|]. intros _. lia.
Qed.

Section publish.
Context {U : Type} `{NatsLib} `{Stream U} `{Random U} (Hs : calm_stream U).
Implicit Types (w : World U) (c : Ctx) (m : NatsMsg) (p : PublishRetryPolicy).

Lemma publish_backoff_run p attempt w : policy_ok p -> 1 <= attempt ->
  exists r w', publish_backoff p attempt w = (Ret r, w') /\ quiet w w'
    /\ publish_delay p attempt ÷ 2 <= r <= publish_delay p attempt.
Proof using Hs.
  intros Hp Ha. pose proof (publish_delay_bounds p attempt Hp Ha) as [Hd _].
  destruct Hp as (_ & Hmax & _). unfold publish_backoff.
  set (d := publish_delay p attempt) in *. rewrite Z.quot_div_nonneg by lia.
  assert (Hhalf : 0 <= d / 2 <= d /\ d - d / 2 <= d / 2 + 1)
    by (pose proof (Z.div_mod d 2); pose proof (Z.mod_pos_bound d 2); lia).
  assert (Hq : d - d / 2 + 1 < 2 ^ 63) by lia.
  rewrite (wrap64_id (d - d / 2 + 1)) by lia.
  unfold Int64N. destruct (Z.leb_spec (d - d / 2 + 1) 0) as [|Hpos]; [lia|].
  destruct (cs_random Hs (d - d / 2 + 1) w) as [r Hr]. apply ran in Hr.
  pose proof (cs_random_quiet Hs (d - d / 2 + 1) w) as Hw.
  pose proof (cs_random_range Hs _ Hpos _ _ _ Hr) as Hrange.
  cbn beta in Hrange.
  exists (d / 2 + r). eexists. split; [|split; [exact Hw|lia]].
  erewrite bind_run by exact Hr. rewrite wrap64_id by lia. reflexivity.
Qed.

(** ** The attempts *)

(** Consecutive attempts leave at least half the delay between them. *)
Fixpoint spaced p (attempt : Z) (l : list (Z * NatsMsg * goerr)) : Prop :=
  match l with
  | (t1, _, _) :: (((t2, _, _) :: _) as r) =>
      t1 + publish_delay p attempt ÷ 2 <= t2 /\ spaced p (attempt + 1) r
  | _ => True
  end.

(** What a run of the loop has sent and returned. *)
Record attempted p c m (more : nat) (attempt : Z) (lastErr : goerr) w
    (ack : option PubAck) (n : Z) (err : goerr) (sent : list (Z * NatsMsg * goerr)) : Prop := {
  at_count : n = attempt - 1 + Z.of_nat (length sent);
  at_bound : (length sent <= S more)%nat;
  at_sent : Forall (fun s => s.1.2 = m /\ ctx_err s.1.1 c = None /\ w_now w <= s.1.1) sent;
  at_retried : Forall (fun s => transient s.2 = true) (removelast sent);
  at_spaced : spaced p attempt sent;
  at_result : match last sent with
              | Some s => err = s.2
              | None => ctx_err (w_now w) c <> None /\ ack = None
                  /\ err = match lastErr with None => ctx_err (w_now w) c | Some _ => lastErr end
              end;
}.

Lemma select_quiet c d w : 0 <= d ->
  exists b w', select_timer c d w = (Ret b, w') /\ quiet w w'
    /\ (b = true -> w_now w + d <= w_now w').
Proof.
  intros Hd. unfold select_timer. erewrite bind_run by reflexivity.
  destruct (cx_done c) as [di|]; [destruct (_ <=? _)|]; (do 2 eexists; split; [reflexivity|]);
    (split; [split; [done|simpl; lia]|simpl; try done; lia]).
Qed.

Lemma retryable_run c err w :
  retryablePublish c err w
  = (Ret (bool_decide (ctx_err (w_now w) c = None) && transient err), w).
Proof.
  unfold retryablePublish. erewrite bind_run by reflexivity.
  destruct (ctx_err (w_now w) c) as [e|]; reflexivity.
Qed.

(** One attempt that ends the loop. *)
Lemma attempted_once p c m more attempt lastErr w ack r :
  ctx_err (w_now w) c = None ->
  attempted p c m more attempt lastErr w ack attempt r [(w_now w, m, r)].
Proof.
  intros Hc. split; simpl; [lia|lia| |constructor|done|done].
  repeat constructor; simpl; [done|lia].
Qed.

(** One attempt before the others. *)
Lemma attempted_more p c m more attempt lastErr w w2 r ack n err sent :
  policy_ok p -> 1 <= attempt ->
  ctx_err (w_now w) c = None -> transient r = true ->
  w_now w + publish_delay p attempt ÷ 2 <= w_now w2 ->
  attempted p c m more (attempt + 1) r w2 ack n err sent ->
  attempted p c m (S more) attempt lastErr w (if sent is [] then None else ack) n err
    ((w_now w, m, r) :: sent).
Proof.
  intros Hp Ha Hc Hr Hgap [Hn Hlen Hall Hret Hsp Hres].
  pose proof (publish_delay_bounds p attempt Hp Ha) as [[Hd _] _].
  assert (Hq : 0 <= publish_delay p attempt ÷ 2) by (apply Z.quot_pos; lia).
  split; cbn [length]; [lia|lia| | | |].
  - constructor; [repeat split; simpl; [done|lia]|].
    eapply Forall_impl; [exact Hall|]. intros s (-> & ? & ?). repeat split; [done|lia].
  - destruct sent; [constructor|]. by constructor.
  - destruct sent as [|[[t2 m2] r2] sent]; [done|]. split; [|done].
    apply Forall_cons in Hall as [(_ & _ & Ht) _]. simpl in Ht. lia.
  - destruct sent as [|s sent].
    + destruct Hres as (_ & _ & ->). simpl. destruct r; [done|]. discriminate Hr.
    + change (last ((w_now w, m, r) :: s :: sent)) with (last (s :: sent)).
      destruct (last (s :: sent)) eqn:He; [exact Hres|]. by apply last_None in He.
Qed.

Lemma publish_attempts_run p c m more : policy_ok p ->
  forall attempt lastErr w, 1 <= attempt ->
  exists ack n err w' sent,
    publish_attempts p c m more attempt lastErr w = (Ret (ack, n, err), w')
    /\ messages (w_log w') = messages (w_log w) ++ sent /\ w_now w <= w_now w'
    /\ attempted p c m more attempt lastErr w ack n err sent.
Proof using Hs.
  intros Hp. induction more as [|more IH]; intros attempt lastErr w Ha; cbn [publish_attempts];
    (erewrite bind_run by reflexivity); destruct (ctx_err (w_now w) c) as [e|] eqn:Hc.
  1, 3: do 4 eexists; exists []; (split; [reflexivity|]); rewrite app_nil_r; do 2 (split; [done|]);
    split; simpl; try done; try lia; by rewrite Hc.
  all: erewrite bind_run by reflexivity;
    destruct (PublishMsg_run Hs (attempt_ctx p c (w_now w)) m w) as ([ack r] & w1 & Hrun & Ht & Hm);
    erewrite bind_run by exact Hrun; simpl in Hm; destruct r as [x|].
  2, 4: do 4 eexists; eexists; (split; [reflexivity|]); split; [exact Hm|]; split; [done|];
    by apply attempted_once.
  all: erewrite bind_run by apply retryable_run.
  { do 4 eexists; eexists; (split; [reflexivity|]); split; [exact Hm|]; split; [done|].
    by apply attempted_once. }
  assert (Hstop : exists ack n err w' sent,
    (Ret (@None PubAck, attempt, Some x), w1) = (@Ret (any error) _ (ack, n, err), w')
    /\ messages (w_log w') = messages (w_log w) ++ sent /\ w_now w <= w_now w'
    /\ attempted p c m (S more) attempt lastErr w ack n err sent).
  { do 4 eexists; eexists; (split; [reflexivity|]); split; [exact Hm|]; split; [done|].
    by apply attempted_once. }
  destruct (bool_decide _ && _) eqn:Hretry; [|exact Hstop]. apply andb_prop in Hretry as [_ Hretry].
  cbn [negb].
  destruct (publish_backoff_run p attempt w1 Hp Ha) as (delay & w2 & Hb & [Hm2 Ht2] & Hdelay).
  erewrite bind_run by exact Hb. erewrite bind_run by reflexivity.
  assert (Hpos : 0 <= delay).
  { pose proof (publish_delay_bounds p attempt Hp Ha) as [[Hd _] _].
    assert (0 <= publish_delay p attempt ÷ 2) by (apply Z.quot_pos; lia). lia. }
  destruct (deadline_first c (w_now w2) delay).
  { do 4 eexists; eexists; (split; [reflexivity|]); rewrite Hm2; split; [exact Hm|]; split; [lia|].
    by apply attempted_once. }
  destruct (select_quiet c delay w2 Hpos) as (fired & w3 & Hsel & [Hm3 Ht3] & Hf).
  erewrite bind_run by exact Hsel. destruct fired.
  - destruct (IH (attempt + 1) (Some x) w3 ltac:(lia)) as (ack' & n & err & w' & sent & Hl & Hml & Htl & Hat).
    exists ack', n, err, w'. eexists. split; [exact Hl|]. split; [|split; [lia|]].
    + rewrite Hml, Hm3, Hm2, Hm, <- app_assoc. reflexivity.
    + assert (Hack : ack' = if sent is [] then None else ack').
      { destruct sent; [|done]. by destruct (at_result _ _ _ _ _ _ _ _ _ _ _ Hat) as (_ & -> & _). }
      rewrite Hack. eapply attempted_more; [done|done|done|done| |exact Hat].
      specialize (Hf eq_refl). lia.
  - do 4 eexists; eexists; (split; [reflexivity|]); rewrite Hm3, Hm2; split; [exact Hm|]; split; [lia|].
    by apply attempted_once.
Qed.

(** ** Emits *)

Context `{TraceSDK U} `{Hk : !spans_keep quiet} `{Lens Lifecycle U}.

(** The parts of an emit that send nothing: the identifier sources and the encoder. *)
Record emit_quiet (b : Bus U) (newid : M U string) : Prop := {
  eq_newid : respects quiet newid;
  eq_gen gen : jb_id_gen b = Some gen -> respects quiet gen;
  eq_encode c evt md : respects quiet (EncodeEvent c (jb_registry b) evt md);
}.

Lemma quiet_resolve b newid c evt cfg : emit_quiet b newid -> respects quiet (resolve b newid c evt cfg).
Proof. intros [Hid Hgen _]. apply keeps_ResolveOutbound; [apply _|done|exact Hgen]. Qed.

Lemma quiet_life {A} (f : Lifecycle -> A * Lifecycle) : respects quiet (atomically (U := U) f).
Proof. apply respects_atomically. by intros u w. Qed.

(** What [Admit] answers. *)
Lemma Admit_refuses nested l :
  match (Admit nested l).2 with
  | Some x => x = Sentinel ErrBusClosed
  | None => Closing l = true -> nested = true
  end.
Proof.
  unfold Admit, Closing. destruct (l_forced l), (l_done l), (l_closed l), nested; simpl; try done.
  by destruct (_ <=? _).
Qed.

(** The bytes [data] are the encoding of the event with the metadata the emit resolved,
    whose identifier is [id]. *)
Definition encoded_as (b : Bus U) newid c evt (opts : list (EmitOption U)) (id data : string) : Prop :=
  exists sctx md w0 w1 w2 w3,
    resolve b newid c evt (emit_cfg evt opts) w0 = (Ret md, w1) /\ id = md_id md
    /\ EncodeEvent sctx (jb_registry b) evt md w2 = (Ret (data, None), w3).

(** What an emit that was let in has sent. *)
Definition emitted (b : Bus U) newid c evt (opts : list (EmitOption U)) w w' (err : goerr) : Prop := exists sent id data,
  messages (w_log w') = messages (w_log w) ++ sent
  /\ (Z.of_nat (length sent) <= pr_max_attempts (jb_pub_retry b))
  /\ Forall (fun s => s.1.2 = outgoing (eo_subject (emit_cfg evt opts)) id data) sent
  /\ Forall (fun s => transient s.2 = true) (removelast sent)
  /\ (forall s, last sent = Some s -> err = s.2) /\ (sent = [] -> err <> None)
  /\ (sent <> [] -> id <> "" /\ (eo_id (emit_cfg evt opts) <> "" -> id = eo_id (emit_cfg evt opts))
        /\ (eo_id (emit_cfg evt opts) = "" -> forall i, ev_id evt = Some i -> i <> "" -> id = i)
        /\ encoded_as b newid c evt opts id data).

Lemma emitted_nothing (b : Bus U) newid c evt opts w w' err :
  1 <= pr_max_attempts (jb_pub_retry b) -> messages (w_log w') = messages (w_log w) ->
  err <> None -> emitted b newid c evt opts w w' err.
Proof.
  intros Hp Hm He. exists [], "", "". rewrite app_nil_r. repeat split; try done; simpl; try lia;
    constructor.
Qed.

Lemma emit_body_run b tp newid c evt opts w w' err :
  policy_ok (jb_pub_retry b) -> emit_quiet b newid ->
  (forall w id w', newid w = (Ret id, w') -> id <> "") ->
  emit_body b tp newid c evt opts w = (Ret err, w') -> emitted b newid c evt opts w w' err.
Proof using Hs Hk.
  intros Hp Hq Hnew Hrun. unfold emit_body in Hrun.
  apply bind_ret_inv in Hrun as (cfg & w1 & Hr1 & Hrun).
  apply ApplyEmitOptions_inv in Hr1 as [-> ->].
  apply bind_ret_inv in Hrun as (md & w2 & Hr2 & Hrun). pose proof Hr2 as Hmd.
  pose proof (respects_run _ _ _ _ _ (quiet_resolve b newid c evt _ Hq) Hr2) as [Hm2 Ht2].
  apply ResolveOutbound_run in Hr2; [|done]. destruct (MetadataFromContext c) as [parent hp].
  destruct Hr2 as (Hid & Hid1 & Hid2 & _).
  apply bind_ret_inv in Hrun as ([sctx span] & w3 & Hr3 & Hrun).
  assert (Hsp : respects quiet (startPublish tp c (eo_subject (emit_cfg evt opts)) (md_id md)))
    by (apply keeps_start_publish; [apply _..|apply keeps_tracer_of; apply _]).
  apply (respects_run _ _ _ _ _ Hsp) in Hr3 as [Hm3 _].
  apply deferring_ret_inv in Hrun as (wd & Hrun & Hend).
  apply (respects_run _ _ _ _ _ (sk_end _)) in Hend as [Hme _].
  apply bind_ret_inv in Hrun as ([data e] & w4 & Hr4 & Hrun). pose proof Hr4 as Henc.
  apply (respects_run _ _ _ _ _ (eq_encode _ _ Hq sctx evt md)) in Hr4 as [Hm4 _].
  assert (Hfail : forall er x v v', (_ ← fail_span span er; mret er) v = (Ret x, v') ->
    x = er /\ messages (w_log v') = messages (w_log v)).
  { intros er x v v' Hf. apply bind_ret_inv in Hf as ([] & v1 & Hf & Hx).
    apply (respects_run _ _ _ _ _ (keeps_fail_span _ _ _)) in Hf as [Hf _].
    by apply mret_inv in Hx as [-> ->]. }
  destruct e as [e|].
  { apply Hfail in Hrun as [-> Hmf]. apply emitted_nothing; [by destruct Hp as (_ & _ & ?)|congruence|done]. }
  apply bind_ret_inv in Hrun as ([[ack n] e] & w5 & Hr5 & Hrun).
  apply bind_ret_inv in Hrun as ([] & w6 & Hr6 & Hrun).
  apply (respects_run _ _ _ _ _ (sk_attributes _ _)) in Hr6 as [Hm6 _].
  apply Hfail in Hrun as [-> Hmf]. unfold publish in Hr5.
  destruct (publish_attempts_run (jb_pub_retry b) sctx (outgoing (eo_subject (emit_cfg evt opts)) (md_id md) data)
    (Z.to_nat (Z.max (pr_max_attempts (jb_pub_retry b)) 1 - 1)) Hp 1 None w4 ltac:(lia))
    as (ack' & n' & err' & w5' & sent & Hl & Hm5 & _ & [_ Hbound Hall Hret _ Hres]).
  rewrite Hl in Hr5. injection Hr5 as -> -> -> ->.
  exists sent, (md_id md), data. split; [by rewrite Hme, Hmf, Hm6, Hm5, Hm4, Hm3, Hm2|]. split; [destruct Hp; lia|].
  split; [by eapply Forall_impl; [exact Hall|]; intros s (? & _)|]. split; [exact Hret|].
  split; [|split; [|intros _; split; [done|split; [done|split; [done|]]]; by do 6 eexists]].
  - intros s Hlast. by rewrite Hlast in Hres.
  - intros ->. simpl in Hres. destruct Hres as (Hne & _ & ->). exact Hne.
Qed.
End publish.

(** * Properties *)

Section properties.
Context {U : Type} `{NatsLib} `{Stream U} `{Random U}.
Implicit Types (b : Bus U) (w : World U) (c : Ctx) (m : NatsMsg) (p : PublishRetryPolicy).

(** The wait between two publishes. After the n-th failure it lies between
    half and all of the base delay doubled n - 1 times and capped at the maximum;
    the arithmetic of durations never overflows and the random source is never
    asked for an empty range, for every policy the bus can hold. *)
Theorem publish_backoff_bounds p (attempt : Z) w :
  calm_stream U -> pr_base_delay p < 2 ^ 63 -> pr_max_delay p < 2 ^ 63 -> 1 <= attempt ->
  let p := normalized p in
  exists r w', publish_backoff p attempt w = (Ret r, w')
    /\ publish_delay p attempt ÷ 2 <= r <= publish_delay p attempt
    /\ 0 < publish_delay p attempt <= pr_max_delay p
    /\ (attempt <= 32 ->
        publish_delay p attempt = Z.min (pr_base_delay p * 2 ^ (attempt - 1)) (pr_max_delay p)).
Proof.
  intros Hs Hb Hm Ha. cbv zeta. pose proof (normalized_ok p Hb Hm) as Hp.
  destruct (publish_backoff_run Hs (normalized p) attempt w Hp Ha) as (r & w' & Hrun & _ & Hr).
  exists r, w'. split; [exact Hrun|]. split; [exact Hr|]. by apply publish_delay_bounds.
Qed.

(** C19: the publish loop. Over any broker that answers, a publish returns after at
    most MaxAttempts attempts; every attempt sends the same message, so that the
    stream can recognise it, and starts while the context is alive; it is
    repeated only after a transient failure and no sooner than half the backoff;
    the caller gets the number of attempts and the result of the last one, or the
    context's error when none was made. *)
Theorem publish_contract b c m w :
  calm_stream U -> policy_ok (jb_pub_retry b) ->
  exists ack n err w' sent,
    publish b c m w = (Ret (ack, n, err), w')
    /\ messages (w_log w') = messages (w_log w) ++ sent
    /\ n = Z.of_nat (length sent) /\ n <= pr_max_attempts (jb_pub_retry b)
    /\ Forall (fun s => s.1.2 = m /\ ctx_err s.1.1 c = None) sent
    /\ Forall (fun s => transient s.2 = true) (removelast sent)
    /\ spaced (jb_pub_retry b) 1 sent
    /\ match last sent with
       | Some s => err = s.2
       | None => err = ctx_err (w_now w) c /\ err <> None
       end.
Proof.
  intros Hs Hp.
  destruct (publish_attempts_run Hs (jb_pub_retry b) c m
    (Z.to_nat (Z.max (pr_max_attempts (jb_pub_retry b)) 1 - 1)) Hp 1 None w ltac:(lia))
    as (ack & n & err & w' & sent & Hl & Hm & _ & [Hn Hbound Hall Hret Hsp Hres]).
  exists ack, n, err, w', sent. split; [exact Hl|]. split; [exact Hm|]. destruct Hp as (_ & _ & Hmax).
  split; [lia|]. split; [lia|].
  split; [by eapply Forall_impl; [exact Hall|]; intros s (? & ? & _)|]. split; [exact Hret|].
  split; [exact Hsp|]. destruct (last sent); [exact Hres|]. by destruct Hres as (? & _ & ->).
Qed.

Context `{TraceSDK U} `{!spans_keep quiet} `{Lens Lifecycle U}.

(** The contract of an emit, for the theorems that build on it. *)
Lemma Emit_run b (tp : option TracerProvider) (newid : M U string) c (evt : Event) (opts : list (EmitOption U)) w w'
    (err : goerr) :
  calm_stream U -> policy_ok (jb_pub_retry b) -> emit_quiet b newid ->
  (forall w id w', newid w = (Ret id, w') -> id <> "") ->
  Emit b tp newid c evt opts w = (Ret err, w') ->
  match (Admit (Nested (jb_life b) c) (lget (w_user w))).2 with
  | Some _ => err = Some (Sentinel ErrBusClosed) /\ messages (w_log w') = messages (w_log w)
  | None => (Closing (lget (w_user w)) = true -> Nested (jb_life b) c = true)
      /\ emitted b newid c evt opts w w' err
  end.
Proof.
  intros Hs Hp Hq Hnew Hrun. unfold Emit in Hrun.
  apply bind_ret_inv in Hrun as (e & w1 & Hr1 & Hrun).
  destruct (atomically_run (fun l => let '(l, err) := Admit (Nested (jb_life b) c) l in (err, l)) w)
    as (w1' & Ha & _ & Hlog & _).
  unfold admit_life in Hr1. rewrite Ha in Hr1. injection Hr1 as <- ->.
  pose proof (Admit_refuses (Nested (jb_life b) c) (lget (w_user w))) as Href.
  destruct (Admit (Nested (jb_life b) c) (lget (w_user w))) as [l [x|]]; cbn [fst snd] in *.
  - apply mret_inv in Hrun as [-> ->]. by rewrite Href, Hlog.
  - split; [exact Href|]. apply deferring_ret_inv in Hrun as (w2 & Hbody & Hrel).
    pose proof (respects_run _ _ _ _ _ (quiet_life _) Hrel) as [Hrm _].
    apply (emit_body_run Hs) in Hbody; [|done..]. unfold emitted in Hbody |- *.
    by rewrite Hrm, <- Hlog.
Qed.
(** C18: an emit. A bus that refuses it answers ErrBusClosed and sends nothing, as
    a closing bus does unless the context is that of a handler in flight; an
    emit that was let in sends one message, at most MaxAttempts times, under one
    identifier: the one given with WithID, then the event's own, then a
    generated one; its bytes are the encoding of the event with the metadata
    resolved for it. Nil means that the stream acknowledged it, and nothing is sent
    after that or after a failure that is not transient. *)
Theorem Emit_contract b (tp : option TracerProvider) (newid : M U string) c (evt : Event) (opts : list (EmitOption U)) w w'
    (err : goerr) :
  calm_stream U -> policy_ok (jb_pub_retry b) -> emit_quiet b newid ->
  (forall w id w', newid w = (Ret id, w') -> id <> "") ->
  Emit b tp newid c evt opts w = (Ret err, w') ->
  match (Admit (Nested (jb_life b) c) (lget (w_user w))).2 with
  | Some _ => err = Some (Sentinel ErrBusClosed) /\ messages (w_log w') = messages (w_log w)
  | None => (Closing (lget (w_user w)) = true -> Nested (jb_life b) c = true)
      /\ emitted b newid c evt opts w w' err
  end.
Proof. apply Emit_run. Qed.
End properties.

(** ** A concrete bus

    A stream that times out during the first 50 ms and acknowledges afterwards. *)

#[local] Instance pub_nats : NatsLib := demo_nats.
#[local] Instance pub_random : Random Lifecycle := {| random_below n := mret 0 |}.
#[local] Instance pub_stream : Stream Lifecycle := {|
  stream_publish _ _ :=
    t ← now;
    mret (if t <? 50 * 10 ^ 6 then (None, Some (Sentinel ErrTimeout))
          else (Some (mkPubAck false), None))
|}.

#[local] Instance pub_trace : TraceSDK Lifecycle := silent_trace _.
#[local] Instance pub_spans : spans_keep (U := Lifecycle) quiet := silent_spans_keep quiet.

Lemma pub_calm : calm_stream Lifecycle.
Proof.
  split; try (by intros; intros w; eexists); try by intros; intros w.
  intros n Hn w r w' [= <- <-]. lia.
Qed.

Definition pub_registry : Registry (U := Lifecycle) :=
  mkRegistry None (fun _ _ => mret ("{}", None)).
Definition pub_bus : Bus Lifecycle :=
  mkBus pub_registry (fun _ _ => mret (None, None, None)) None None [] None
    (normalized (mkPublishRetryPolicy 0 0 0 0)) None true js_default_shutdown 0 0 0 None.
Definition pub_world (l : Lifecycle) : World Lifecycle := mkWorld 0 [] ∅ 0 ∅ ∅ l.
Definition pub_newid : M Lifecycle string := mret "id-1".

Definition pub_run (l : Lifecycle) : outcome (any error) goerr * World Lifecycle :=
  Emit pub_bus None pub_newid background (plain_event "order") [WithSubject "orders"] (pub_world l).

Lemma pub_policy : policy_ok (jb_pub_retry pub_bus).
Proof. by apply normalized_ok. Qed.

Lemma pub_quiet : emit_quiet pub_bus pub_newid.
Proof. by split; intros; (intros w || idtac). Qed.

Lemma publish_backoff_bounds_witness :
  exists r w', publish_backoff (normalized (mkPublishRetryPolicy 0 0 0 0)) 2
    (pub_world zero_lifecycle) = (Ret r, w') /\ 10 ^ 8 <= r <= 2 * 10 ^ 8.
Proof.
  pose proof (publish_backoff_bounds (mkPublishRetryPolicy 0 0 0 0) 2 (pub_world zero_lifecycle) pub_calm
    eq_refl eq_refl ltac:(lia)) as Hr.
  destruct Hr as (r & w' & Hrun & Hb & _). exists r, w'. split; [exact Hrun|exact Hb].
Defined.

Lemma publish_contract_witness :
  exists sent, messages (w_log (publish pub_bus background (outgoing "s" "1" "{}")
                           (pub_world zero_lifecycle)).2) = sent /\ (length sent <= 3)%nat.
Proof.
  pose proof (publish_contract pub_bus background (outgoing "s" "1" "{}") (pub_world zero_lifecycle)
    pub_calm pub_policy) as Hr.
  destruct Hr as (ack & n & err & w' & sent & Hrun & Hm & Hn & Hmax & _).
  exists sent. rewrite Hrun. split; [exact Hm|].
  change (pr_max_attempts (jb_pub_retry pub_bus)) with 3 in Hmax. lia.
Defined.

Lemma Emit_contract_witness :
  emitted pub_bus pub_newid background (plain_event "order") [WithSubject "orders"] (pub_world zero_lifecycle)
    (pub_run zero_lifecycle).2 None
  /\ messages (w_log (pub_run zero_lifecycle).2)
     = [(0, outgoing "orders" "id-1" "{}", Some (Sentinel ErrTimeout));
        (50 * 10 ^ 6, outgoing "orders" "id-1" "{}", None)].
Proof.
  split; [|vm_compute; reflexivity].
  assert (Ho : pub_run zero_lifecycle = (Ret None, (pub_run zero_lifecycle).2))
    by (apply injective_projections; [vm_compute|]; reflexivity).
  pose proof (Emit_contract pub_bus None pub_newid background (plain_event "order") [WithSubject "orders"]
    (pub_world zero_lifecycle) (pub_run zero_lifecycle).2 None pub_calm pub_policy pub_quiet
    ltac:(intros w id w' [= <- <-]; discriminate) Ho) as Hr.
  destruct Hr as [_ He]. exact He.
Defined.
