(* ===== verification/History.v ===== *)
(** * The failure on the wire

    src/history.go and the header part of src/dlq.go: the JSON encoding of a
    retry history within a byte budget, and the [Eventbus-Dlq-*] headers that
    describe a failure. Of the standard library it models what they use:
    the string escaping and the field order of encoding/json without HTML
    escaping, [strconv.Itoa], and [time.RFC3339Nano] in UTC. *)

From Stdlib Require Import ZifyBool.
From S2P Require Import Prelude GoErrors Types Text.
Local Open Scope string_scope.
Local Open Scope list_scope.
Local Open Scope Z_scope.

(** ** Numbers and times *)

(** [strconv.Itoa] and [strconv.FormatUint]. *)
Definition Itoa (z : Z) : list Z := to_bytes (pretty z).

(** [appendInt] of package time: zero-padded to [width]. *)
Definition appendInt (z : Z) (width : nat) : list Z :=
  let d := Itoa (Z.abs z) in
  (if z <? 0 then [45] else []) ++ repeat 48 (width - length d) ++ d.

(** The year, month and day of a day counted from 1 January 1970, in the
    proleptic Gregorian calendar. *)
Definition civil (day : Z) : Z * Z * Z :=
  let z := day + 719468 in
  let era := z / 146097 in
  let doe := z mod 146097 in
  let yoe := (doe - doe / 1460 + doe / 36524 - doe / 146096) / 365 in
  let doy := doe - (365 * yoe + yoe / 4 - yoe / 100) in
  let mp := (5 * doy + 2) / 153 in
  let d := doy - (153 * mp + 2) / 5 + 1 in
  let m := if mp <? 10 then mp + 3 else mp - 9 in
  (yoe + era * 400 + (if m <=? 2 then 1 else 0), m, d).

Fixpoint skip_zeros (l : list Z) : list Z :=
  match l with 48 :: r => skip_zeros r | _ => l end.

(** The fraction of a second without its trailing zeros. *)
Definition appendNano (ns : Z) : list Z :=
  if ns =? 0 then [] else 46 :: rev (skip_zeros (rev (appendInt ns 9))).

(** [t.UTC().Format(time.RFC3339Nano)] of a time in nanoseconds. *)
Definition RFC3339Nano (t : Z) : list Z :=
  let secs := t / 10 ^ 9 in
  let '(y, m, d) := civil (secs / 86400) in
  let s := secs mod 86400 in
  appendInt y 4 ++ [45] ++ appendInt m 2 ++ [45] ++ appendInt d 2 ++ [84]
  ++ appendInt (s / 3600) 2 ++ [58] ++ appendInt (s / 60 mod 60) 2 ++ [58]
  ++ appendInt (s mod 60) 2 ++ appendNano (t mod 10 ^ 9) ++ [90].

Example history_time : of_bytes (RFC3339Nano (1792220400 * 10 ^ 9 + 120000000))
  = "2026-10-17T07:00:00.12Z".
Proof. vm_compute. reflexivity. Qed.
Example zero_time_text : of_bytes (RFC3339Nano zero_time) = "0001-01-01T00:00:00Z".
Proof. vm_compute. reflexivity. Qed.

(** ** JSON strings *)

Definition hex_code (n : Z) : Z := if n <? 10 then 48 + n else 87 + n.

(** The escape of a single byte below 128. *)
Definition json_byte (b : Z) : list Z :=
  if (b =? 34) || (b =? 92) then [92; b]
  else if b =? 8 then [92; 98]
  else if b =? 12 then [92; 102]
  else if b =? 10 then [92; 110]
  else if b =? 13 then [92; 114]
  else if b =? 9 then [92; 116]
  else if b <? 32 then [92; 117; 48; 48; hex_code (b / 16); hex_code (b mod 16)]
  else [b].

(** The escape of one segment of the text; U+2028 and U+2029 are escaped too. *)
Definition json_seg (s : seg) : list Z :=
  match s with
  | Bad _ => to_bytes "\ufffd"
  | Rune [b] => json_byte b
  | Rune bs =>
      if bool_decide (bs = [226; 128; 168]) then to_bytes "\u2028"
      else if bool_decide (bs = [226; 128; 169]) then to_bytes "\u2029" else bs
  end.

Definition json_string (l : list Z) : list Z := 34 :: flat_map json_seg (runes l) ++ [34].

(** ** src/history.go *)

Definition HistoryHeaderLimit : Z := 2048.

(** A key of the object, with its colon. *)
Definition json_key (k : string) : list Z := 34 :: to_bytes k ++ [34; 58].

(** [marshalHistoryEntry], with [historyEntry]. *)
Definition marshalHistoryEntry (a : Attempt) (errText : list Z) : list Z :=
  [123] ++ json_key "n" ++ Itoa (att_n a)
  ++ [44] ++ json_key "err" ++ json_string errText
  ++ [44] ++ json_key "class" ++ json_string (to_bytes (attempt_class_string (att_class a)))
  ++ [44] ++ json_key "at" ++ json_string (RFC3339Nano (att_started a))
  ++ [44] ++ json_key "dur_ms" ++ Itoa (Z.quot (att_duration a) (10 ^ 6)) ++ [125].

(** [sanitizeHistoryErr]: [TruncateHeader] at [math.MaxInt]. *)
Definition sanitizeHistoryErr (s : string) : list Z := truncate_bytes (to_bytes s) (2 ^ 63 - 1).

(** The loop of [shrinkHistoryEntry]; [fuel] is at least [room], which every
    turn makes smaller. *)
Fixpoint shrink_loop (a : Attempt) (errText : list Z) (budget : Z) (fuel : nat) (room : Z)
    : list Z :=
  match fuel with
  | O => marshalHistoryEntry a []
  | S fuel =>
      if room <=? 0 then marshalHistoryEntry a []
      else
        let e := marshalHistoryEntry a (truncate_bytes errText room) in
        let n := Z.of_nat (length e) in
        if n <=? budget then e else shrink_loop a errText budget fuel (room - (n - budget))
  end.

(** [shrinkHistoryEntry]. *)
Definition shrinkHistoryEntry (a : Attempt) (budget : Z) : option (list Z) :=
  let empty := Z.of_nat (length (marshalHistoryEntry a [])) in
  if budget <? empty then None
  else
    let errText := sanitizeHistoryErr (att_err a) in
    let room := Z.min (budget - empty) (Z.of_nat (length errText)) in
    Some (shrink_loop a errText budget (Z.to_nat room) room).

(** The walk of [EncodeHistoryHeader] from the newest entry back: the entries
    that fit, oldest first. *)
Fixpoint walk_back (cap total : Z) (newest_first kept : list (list Z)) : list (list Z) :=
  match newest_first with
  | [] => kept
  | p :: older =>
      let need := Z.of_nat (length p) + match kept with [] => 0 | _ => 1 end in
      if cap <? total + need then kept else walk_back cap (total + need) older (p :: kept)
  end.

(** [bytes.Join] with a comma. *)
Fixpoint join_commas (parts : list (list Z)) : list Z :=
  match parts with
  | [] => []
  | [p] => p
  | p :: rest => p ++ 44 :: join_commas rest
  end.

Definition history_entry (a : Attempt) : list Z :=
  marshalHistoryEntry a (sanitizeHistoryErr (att_err a)).

(** [EncodeHistoryHeader]. *)
Definition EncodeHistoryHeader (history : list Attempt) (capBytes : Z) : list Z * bool :=
  match last history with
  | None => ([], false)
  | Some newest =>
      let cap := Z.max capBytes 2 in
      let parts := map history_entry history in
      match walk_back cap 2 (rev parts) [] with
      | [] => match shrinkHistoryEntry newest (cap - 2) with
              | Some e => ([91] ++ e ++ [93], true)
              | None => ([91; 93], true)
              end
      | kept => ([91] ++ join_commas kept ++ [93], bool_decide (length kept < length parts)%nat)
      end
  end.

(** ** src/dlq.go: the headers *)

Definition DLQHeaderValueLimit : Z := 1024.

Definition HeaderDLQCause := "Eventbus-Dlq-Cause".
Definition HeaderDLQReason := "Eventbus-Dlq-Reason".
Definition HeaderDLQAttempts := "Eventbus-Dlq-Attempts".
Definition HeaderDLQDeliveryCount := "Eventbus-Dlq-Delivery-Count".
Definition HeaderDLQHandler := "Eventbus-Dlq-Handler".
Definition HeaderDLQOriginalSubject := "Eventbus-Dlq-Original-Subject".
Definition HeaderDLQFailedAt := "Eventbus-Dlq-Failed-At".
Definition HeaderDLQFirstAttemptAt := "Eventbus-Dlq-First-Attempt-At".
Definition HeaderDLQEventID := "Eventbus-Dlq-Event-Id".
Definition HeaderDLQEventName := "Eventbus-Dlq-Event-Name".
Definition HeaderDLQOriginalStream := "Eventbus-Dlq-Original-Stream".
Definition HeaderDLQOriginalSequence := "Eventbus-Dlq-Original-Sequence".
Definition HeaderDLQPublishedAt := "Eventbus-Dlq-Published-At".
Definition HeaderDLQPanicStack := "Eventbus-Dlq-Panic-Stack".
Definition HeaderDLQHistory := "Eventbus-Dlq-History".
Definition HeaderDLQHistoryTruncated := "Eventbus-Dlq-History-Truncated".

(** The closures [set] and [setTime] of [FailureHeaders]. *)
Definition set_header (key value : string) (h : gmap string string) : gmap string string :=
  if String.eqb value "" then h else <[key := TruncateHeader value DLQHeaderValueLimit]> h.
Definition set_time (key : string) (t : Z) (h : gmap string string) : gmap string string :=
  if IsZero t then h else set_header key (of_bytes (RFC3339Nano t)) h.

(** [setHistoryHeaders]. *)
Definition setHistoryHeaders (h : gmap string string) (r : DLQRecord) : gmap string string :=
  match rec_history r with
  | [] => h
  | history =>
      match EncodeHistoryHeader history HistoryHeaderLimit with
      | ([], _) => h
      | (v, truncated) =>
          let h := <[HeaderDLQHistory := of_bytes v]> h in
          if truncated : bool then <[HeaderDLQHistoryTruncated := "true"]> h else h
      end
  end.

(** [DLQRecord.FailureHeaders]. *)
Definition FailureHeaders (r : DLQRecord) : gmap string string :=
  let d := rec_delivery r in
  let h : gmap string string := ∅ in
  let h := match rec_cause r with
           | Some e => set_header HeaderDLQCause (error_text e) h
           | None => h
           end in
  let h := set_header HeaderDLQReason (rec_reason r) h in
  let h := <[HeaderDLQAttempts := of_bytes (Itoa (rec_attempts r))]> h in
  let h := if 0 <? d_count d
           then set_header HeaderDLQDeliveryCount (of_bytes (Itoa (d_count d))) h else h in
  let h := set_header HeaderDLQHandler (rec_handler r) h in
  let h := set_header HeaderDLQOriginalSubject (rec_subject r) h in
  let h := set_time HeaderDLQFailedAt (rec_failed_at r) h in
  let h := set_time HeaderDLQFirstAttemptAt (x_started_at (rec_execution r)) h in
  let h := set_header HeaderDLQEventID (rec_event_id r) h in
  let h := set_header HeaderDLQEventName (rec_event_name r) h in
  let h := set_header HeaderDLQOriginalStream (d_stream d) h in
  let h := if 0 <? d_stream_seq d
           then set_header HeaderDLQOriginalSequence (of_bytes (Itoa (d_stream_seq d))) h else h in
  let h := set_time HeaderDLQPublishedAt (d_published_at d) h in
  let h := match As as_panic (rec_cause r) with
           | Some (_, stack) => set_header HeaderDLQPanicStack stack h
           | None => h
           end in
  setHistoryHeaders h r.

Definition demo_attempt (n : Z) (err : string) : Attempt :=
  mkAttempt n err AttemptTransient (1792220400 * 10 ^ 9) 120999999 0.

(** The entry of the comment of [EncodeHistoryHeader]; the quotes are 34. *)
Example history_example :
  (EncodeHistoryHeader [demo_attempt 1 "db"] 2048).1 =
  [91; 123] ++ json_key "n" ++ to_bytes "1," ++ json_key "err" ++ [34] ++ to_bytes "db" ++ [34; 44]
  ++ json_key "class" ++ [34] ++ to_bytes "transient" ++ [34; 44] ++ json_key "at"
  ++ [34] ++ to_bytes "2026-10-17T07:00:00Z" ++ [34; 44] ++ json_key "dur_ms" ++ to_bytes "120}]".
Proof. vm_compute. reflexivity. Qed.
