(* ===== verification/HistorySpec.v ===== *)
(** * Properties of the wire form of a failure

    The history header is valid JSON within its budget, holds the newest attempts
    that fit and can be read back; every failure header is bounded and safe. *)

From Stdlib Require Import ZifyBool.
From S2P Require Import Prelude GoErrors Types Text History.
Local Open Scope string_scope.
Local Open Scope list_scope.
Local Open Scope Z_scope.

(** ** Reading JSON back *)

(** The UTF-8 bytes of a code point of the basic plane. *)
Definition utf8_encode (c : Z) : list Z :=
  if c <? 128 then [c]
  else if c <? 2048 then [192 + c / 64; 128 + c mod 64]
  else [224 + c / 4096; 128 + c / 64 mod 64; 128 + c mod 64].

Definition hex_value (b : Z) : option Z :=
  if in_range 48 57 b then Some (b - 48)
  else if in_range 97 102 b then Some (b - 87) else None.

Definition hex4 (a b c d : Z) : option Z :=
  match hex_value a, hex_value b, hex_value c, hex_value d with
  | Some a, Some b, Some c, Some d => Some (((a * 16 + b) * 16 + c) * 16 + d)
  | _, _, _, _ => None
  end.

(** The byte a two-character escape stands for. *)
Definition short_escape (c : Z) : option Z :=
  if (c =? 34) || (c =? 92) then Some c
  else if c =? 98 then Some 8
  else if c =? 102 then Some 12
  else if c =? 110 then Some 10
  else if c =? 114 then Some 13
  else if c =? 116 then Some 9
  else None.

Definition push (bs : list Z) (o : option (list Z * list Z)) : option (list Z * list Z) :=
  match o with Some (t, r) => Some (bs ++ t, r) | None => None end.

(** The text up to the closing quote, and what follows it. *)
Fixpoint json_unquote (l : list Z) : option (list Z * list Z) :=
  match l with
  | [] => None
  | b :: r =>
      if b =? 34 then Some ([], r)
      else if b =? 92 then
        match r with
        | [] => None
        | c :: r1 =>
            if c =? 117 then
              match r1 with
              | h1 :: h2 :: h3 :: h4 :: r2 =>
                  match hex4 h1 h2 h3 h4 with
                  | Some v => push (utf8_encode v) (json_unquote r2)
                  | None => None
                  end
              | _ => None
              end
            else match short_escape c with
                 | Some x => push [x] (json_unquote r1)
                 | None => None
                 end
        end
      else if b <? 32 then None else push [b] (json_unquote r)
  end.

(** What a segment of the text reads back as. *)
Definition seg_text (s : seg) : list Z :=
  match s with Rune bs => bs | Bad _ => [239; 191; 189] end.

(** A segment of a text of bytes. *)
Definition seg_ok (s : seg) : Prop :=
  match s with Rune bs => rune_ok bs = true /\ Forall is_byte bs | Bad _ => True end.

Lemma push_app a b o : push (a ++ b) o = push a (push b o).
Proof. destruct o as [[t r]|]; simpl; [by rewrite app_assoc|done]. Qed.

Lemma unquote_plain b r :
  32 <= b -> b <> 34 -> b <> 92 -> json_unquote (b :: r) = push [b] (json_unquote r).
Proof.
  intros H1 H2 H3. cbn [json_unquote].
  rewrite (proj2 (Z.eqb_neq b 34)), (proj2 (Z.eqb_neq b 92)), (proj2 (Z.ltb_ge b 32)) by done. done.
Qed.

Lemma unquote_high bs r :
  Forall (fun b => 128 <= b) bs -> json_unquote (bs ++ r) = push bs (json_unquote r).
Proof.
  induction 1 as [|b bs Hb _ IH]; simpl app; [by destruct (json_unquote r) as [[]|]|].
  rewrite unquote_plain by lia. by rewrite IH, <- push_app.
Qed.

Lemma unquote_byte b r :
  0 <= b < 128 -> json_unquote (json_byte b ++ r) = push [b] (json_unquote r).
Proof.
  intros Hb. destruct (Z.ltb_spec b 32) as [Hlt|Hge].
  - assert (exists n, (n < 32)%nat /\ b = Z.of_nat n) as (n & Hn & ->)
      by (exists (Z.to_nat b); lia).
    do 32 (destruct n as [|n]; [reflexivity|]). lia.
  - unfold json_byte. destruct (Z.eqb_spec b 34) as [->|H1]; [reflexivity|].
    destruct (Z.eqb_spec b 92) as [->|H2]; [reflexivity|]. simpl orb.
    destruct (Z.eqb_spec b 8), (Z.eqb_spec b 12), (Z.eqb_spec b 10), (Z.eqb_spec b 13),
      (Z.eqb_spec b 9), (Z.ltb_spec b 32); try lia. by apply unquote_plain.
Qed.

Lemma multi_high bs : rune_ok bs = true -> length bs <> 1%nat -> Forall (fun b => 128 <= b) bs.
Proof.
  intros Hok Hl.
  destruct bs as [|b0 [|b1 [|b2 [|b3 [|]]]]]; try done; cbn in Hok; repeat constructor; rune_lead.
Qed.

Lemma unquote_seg s r : seg_ok s -> json_unquote (json_seg s ++ r) = push (seg_text s) (json_unquote r).
Proof.
  destruct s as [bs|b]; [|reflexivity]. intros [Hok Hb].
  destruct (decide (length bs = 1%nat)) as [Hl|Hl].
  - destruct bs as [|b [|]]; try done. apply Z.ltb_lt in Hok.
    rewrite Forall_singleton in Hb. unfold is_byte in Hb. apply unquote_byte. lia.
  - assert (Hm : json_seg (Rune bs) = if bool_decide (bs = [226; 128; 168]) then to_bytes "\u2028"
      else if bool_decide (bs = [226; 128; 169]) then to_bytes "\u2029" else bs)
      by (by destruct bs as [|? [|]]).
    rewrite Hm. case_bool_decide as H1; [subst; reflexivity|].
    case_bool_decide as H2; [subst; reflexivity|]. by apply unquote_high, multi_high.
Qed.

(** Decoding loses no byte. *)
Definition seg_raw (s : seg) : list Z := match s with Rune bs => bs | Bad b => [b] end.

Lemma runes_raw l : flat_map seg_raw (runes l) = l.
Proof.
  remember (length l) as n eqn:Hn. revert l Hn.
  induction n as [n IH] using lt_wf_ind. intros l ->.
  assert (IH' : forall l', (length l' < length l)%nat -> flat_map seg_raw (runes l') = l')
    by (intros; by eapply IH).
  clear IH. destruct l as [|b0 r0]; cbn [runes]; [done|].
  repeat case_match; simplify_eq; cbn [flat_map seg_raw app]; try done;
    (rewrite IH'; [done|simpl; lia]).
Qed.

Lemma runes_seg_ok l : Forall is_byte l -> Forall seg_ok (runes l).
Proof.
  intros Hl. pose proof (runes_ok l) as Hr. rewrite <- (runes_raw l) in Hl.
  induction (runes l) as [|s ss IH]; [constructor|].
  apply Forall_cons in Hr as [Hs Hr]. simpl in Hl. apply Forall_app in Hl as [Hb Hl].
  constructor; [by destruct s|by apply IH].
Qed.

(** Reading back an encoded text, whatever follows it. *)
Lemma unquote_string l r :
  Forall is_byte l ->
  json_unquote (flat_map json_seg (runes l) ++ 34 :: r) = Some (flat_map seg_text (runes l), r).
Proof.
  intros Hl. pose proof (runes_seg_ok l Hl) as Hs. induction Hs as [|s ss Hs _ IH]; [done|].
  simpl. rewrite <- app_assoc, unquote_seg, IH by done. done.
Qed.

Lemma seg_text_valid l : valid l -> flat_map seg_text (runes l) = l.
Proof.
  intros (rs & Hrs & ->). rewrite runes_concat by done. clear Hrs.
  induction rs as [|bs rs IH]; simpl; [done|]. by rewrite IH.
Qed.

(** ** Numbers and times are plain text *)

Definition num_byte (b : Z) : Prop := b = 45 \/ 48 <= b <= 57.
Definition plain_byte (b : Z) : Prop := 32 <= b < 127.

Lemma pretty_go_num x s :
  Forall num_byte (to_bytes s) -> Forall num_byte (to_bytes (pretty_N_go x s)).
Proof.
  revert s. induction (N.lt_wf_0 x) as [x _ IH]. intros s Hs.
  destruct (decide (x = 0)%N) as [->|Hx]; [done|].
  rewrite pretty_N_go_step by lia. apply IH; [apply N.div_lt; lia|].
  simpl. constructor; [|done]. right.
  unfold pretty_N_char. by repeat case_match.
Qed.

Lemma Itoa_num z : Forall num_byte (Itoa z).
Proof.
  assert (HN : forall n : N, Forall num_byte (to_bytes (pretty n))).
  { intros n. unfold pretty, pretty_N. case_decide; [|by apply pretty_go_num].
    constructor; [|constructor]. right. done. }
  unfold Itoa. destruct z as [|p|p].
  - constructor; [|constructor]. right. done.
  - apply (HN (Npos p)).
  - change (Forall num_byte (45 :: to_bytes (pretty (Npos p)))). constructor; [by left|apply HN].
Qed.

Lemma num_plain b : num_byte b -> plain_byte b.
Proof. unfold num_byte, plain_byte. lia. Qed.

Lemma Itoa_plain z : Forall plain_byte (Itoa z).
Proof. eapply Forall_impl; [apply Itoa_num|apply num_plain]. Qed.

(** Literal text. *)
Ltac plain_lit := repeat (apply Forall_cons_2; [unfold plain_byte; lia|]); apply Forall_nil_2.

Lemma repeat_plain n : Forall plain_byte (repeat 48 n).
Proof. induction n; simpl; constructor; [done|assumption]. Qed.

Lemma appendInt_plain z n : Forall plain_byte (appendInt z n).
Proof.
  unfold appendInt. apply Forall_app_2; [by destruct (z <? 0); plain_lit|].
  apply Forall_app_2; [apply repeat_plain|apply Itoa_plain].
Qed.

Lemma skip_zeros_plain l : Forall plain_byte l -> Forall plain_byte (skip_zeros l).
Proof.
  induction 1 as [|b l Hb Hl IH]; [constructor|]. simpl.
  repeat case_match; try done; by constructor.
Qed.

Lemma RFC3339Nano_plain t : Forall plain_byte (RFC3339Nano t).
Proof.
  unfold RFC3339Nano. destruct (civil _) as [[y m] d].
  assert (Hn : forall ns, Forall plain_byte (appendNano ns)).
  { intros ns. unfold appendNano. destruct (_ =? 0); [constructor|]. constructor; [done|].
    apply Forall_rev, skip_zeros_plain, Forall_rev, appendInt_plain. }
  rewrite !Forall_app. repeat split; try apply appendInt_plain; try apply Hn; plain_lit.
Qed.

(** Plain text is a header value, and so is its JSON form. *)
Lemma plain_clean l : Forall plain_byte l -> clean l.
Proof.
  intros Hl. exists (map (fun b => [b]) l). split.
  - apply Forall_map. eapply Forall_impl; [exact Hl|]. unfold plain_byte. intros b Hb. simpl. split; lia.
  - clear Hl. induction l as [|b l IH]; simpl; congruence.
Qed.

Lemma lit_plain l : forallb (in_range 32 126) l = true -> Forall plain_byte l.
Proof.
  intros Hl. rewrite Forall_forall. intros b Hb.
  rewrite forallb_forall in Hl. specialize (Hl b). rewrite <- list_elem_of_In in Hl.
  specialize (Hl Hb). unfold in_range in Hl. unfold plain_byte. lia.
Qed.

Lemma lit_clean l : forallb (in_range 32 126) l = true -> clean l.
Proof. intros Hl. by apply plain_clean, lit_plain. Qed.

Lemma json_seg_clean bs : rune_ok bs = true -> IsControl bs = false -> clean (json_seg (Rune bs)).
Proof.
  intros Hok Hc. pose proof (rune_clean_bytes bs Hok Hc) as Hb.
  destruct bs as [|b0 [|b1 r]]; [done| |].
  - rewrite Forall_singleton in Hb. unfold is_byte in Hb. cbn in Hok, Hc. apply plain_clean. simpl.
    assert (32 <= b0 < 127) by lia. unfold json_byte.
    repeat (case_match; try (by plain_lit)); b2p; plain_lit.
  - cbn [json_seg]. case_bool_decide; [by apply lit_clean|].
    case_bool_decide; [by apply lit_clean|].
    exists [b0 :: b1 :: r]. simpl. rewrite app_nil_r. by repeat constructor.
Qed.

Lemma json_string_clean l : clean l -> clean (json_string l).
Proof.
  intros (rs & Hrs & ->). unfold json_string. rewrite runes_concat.
  2:{ eapply Forall_impl; [exact Hrs|]. by intros ? []. }
  apply (clean_app [34]); [by apply lit_clean|].
  apply clean_app; [|by apply lit_clean].
  induction Hrs as [|bs rs [Ho Hc] _ IH]; simpl; [by exists []|].
  apply clean_app; [by apply json_seg_clean|done].
Qed.

Lemma marshal_clean a err : clean err -> clean (marshalHistoryEntry a err).
Proof.
  intros He. unfold marshalHistoryEntry.
  assert (Hi : forall z, clean (Itoa z)) by (intros; apply plain_clean, Itoa_plain).
  assert (Ht : clean (RFC3339Nano (att_started a))) by apply plain_clean, RFC3339Nano_plain.
  assert (Hc : clean (to_bytes (attempt_class_string (att_class a))))
    by (apply lit_clean; by destruct (att_class a)).
  repeat (apply clean_app; [first [by apply lit_clean|apply Hi|by apply json_string_clean]|]).
  by apply lit_clean.
Qed.

Lemma sanitize_clean s : clean (sanitizeHistoryErr s).
Proof. apply truncate_bytes_clean. Qed.

Lemma shrink_loop_form a errText budget fuel room :
  Z.of_nat (length (marshalHistoryEntry a [])) <= budget ->
  exists err, shrink_loop a errText budget fuel room = marshalHistoryEntry a err /\ clean err
    /\ Z.of_nat (length (marshalHistoryEntry a err)) <= budget.
Proof.
  intros Hb. assert (Hn : clean []) by by exists [].
  revert room. induction fuel as [|fuel IH]; intros room; cbn [shrink_loop]; [by exists []|].
  destruct (room <=? 0); [by exists []|].
  destruct (Z.leb_spec (Z.of_nat (length (marshalHistoryEntry a (truncate_bytes errText room)))) budget);
    [|apply IH].
  eexists. split; [done|]. split; [apply truncate_bytes_clean|done].
Qed.

(** ** The walk keeps the newest entries that fit *)

Definition blen (l : list Z) : Z := Z.of_nat (length l).

Lemma join_commas_cons p kept :
  blen (join_commas (p :: kept)) = blen p + match kept with [] => 0 | _ => 1 end + blen (join_commas kept).
Proof.
  destruct kept as [|q kept]; unfold blen; [simpl; lia|].
  change (join_commas (p :: q :: kept)) with (p ++ 44 :: join_commas (q :: kept)).
  rewrite length_app, length_cons. lia.
Qed.

Lemma walk_back_spec cap newest_first kept :
  2 + blen (join_commas kept) <= cap ->
  let r := walk_back cap (2 + blen (join_commas kept)) newest_first kept in
  exists more older, newest_first = more ++ older /\ r = rev more ++ kept
    /\ 2 + blen (join_commas r) <= cap
    /\ forall p l, older = p :: l -> cap < 2 + blen (join_commas (p :: r)).
Proof.
  revert kept. induction newest_first as [|p older IH]; intros kept Hk; cbn [walk_back].
  - by exists [], [].
  - pose proof (join_commas_cons p kept) as Hj. fold (blen p).
    destruct (Z.ltb_spec cap (2 + blen (join_commas kept) + (blen p + match kept with [] => 0 | _ => 1 end)))
      as [Hc|Hc].
    + exists [], (p :: older). split; [done|]. split; [done|]. split; [done|].
      intros q l [= <- <-]. lia.
    + replace (2 + blen (join_commas kept) + (blen p + match kept with [] => 0 | _ => 1 end))
        with (2 + blen (join_commas (p :: kept))) in * by lia.
      destruct (IH (p :: kept) ltac:(lia)) as (more & rest & -> & Hr & Hl & Hn).
      exists (p :: more), rest. split; [done|]. split; [|done].
      rewrite Hr. simpl. by rewrite <- app_assoc.
Qed.

Lemma join_commas_clean l : Forall clean l -> clean (join_commas l).
Proof.
  induction 1 as [|p l Hp Hl IH]; [by exists []|].
  destruct l as [|q l]; [done|].
  change (join_commas (p :: q :: l)) with (p ++ [44] ++ join_commas (q :: l)).
  apply clean_app; [done|]. apply clean_app; [by apply lit_clean|done].
Qed.

Lemma blen_brackets l : blen ([91] ++ l ++ [93]) = 2 + blen l.
Proof. unfold blen. rewrite !length_app. cbn [length]. lia. Qed.

(** What [EncodeHistoryHeader] returns for a history that is not empty. *)
Lemma EncodeHistoryHeader_form older newest cap :
  let history := older ++ [newest] in
  let cap := Z.max cap 2 in
  let r := EncodeHistoryHeader history cap in
  blen r.1 <= cap /\
  ((exists dropped kept, history = dropped ++ kept /\ kept <> []
      /\ r = ([91] ++ join_commas (map history_entry kept) ++ [93], bool_decide (dropped <> []))
      /\ forall d a, dropped = d ++ [a] ->
           cap < 2 + blen (join_commas (map history_entry (a :: kept))))
   \/ (r.2 = true /\ cap < 2 + blen (history_entry newest)
       /\ (r.1 = [91; 93]
           \/ exists err, clean err /\ r.1 = [91] ++ marshalHistoryEntry newest err ++ [93]))).
Proof.
  cbv zeta. unfold EncodeHistoryHeader. rewrite last_snoc.
  rewrite (Z.max_l (Z.max cap 2) 2) by lia. set (cp := Z.max cap 2).
  set (history := older ++ [newest]).
  destruct (walk_back_spec cp (rev (map history_entry history)) [] ltac:(unfold blen; simpl; lia))
    as (more & rest & Hsplit & Hr & Hlen & Hmax).
  change (2 + blen (join_commas [])) with 2 in Hr, Hlen, Hmax. rewrite app_nil_r in Hr.
  rewrite Hr in *. assert (Hh : map history_entry history = rev rest ++ rev more).
  { rewrite <- rev_app_distr, <- Hsplit. by rewrite rev_involutive. }
  apply map_eq_app in Hh as (dropped & kept & Hhist & Hd & Hk).
  destruct (rev more) as [|k0 ks] eqn:Hmore.
  - apply map_eq_nil in Hk as ->. rewrite app_nil_r in Hhist.
    assert (Hover : cp < 2 + blen (history_entry newest)).
    { apply (f_equal (@rev _)) in Hd. rewrite rev_involutive, <- Hhist in Hd.
      unfold history in Hd. rewrite map_app, rev_app_distr in Hd. simpl in Hd.
      by apply (Hmax (history_entry newest) (rev (map history_entry older))). }
    unfold shrinkHistoryEntry.
    destruct (Z.ltb_spec (cp - 2) (Z.of_nat (length (marshalHistoryEntry newest [])))) as [Hs|Hs].
    + split; [unfold blen; simpl; lia|]. right. split; [done|]. split; [done|]. by left.
    + match goal with |- context [shrink_loop ?a ?b ?c ?d ?e] =>
        destruct (shrink_loop_form a b c d e Hs) as (err & -> & Hc & Hl) end.
      split; [cbn [fst]; rewrite blen_brackets; unfold blen; lia|]. right.
      split; [done|]. split; [done|]. right. by exists err.
  - rewrite <- Hk in *. split.
    + cbn [fst]. rewrite blen_brackets. lia.
    + left. exists dropped, kept. split; [done|]. split; [by intros ->|]. split.
      * f_equal. apply bool_decide_ext. rewrite Hhist. rewrite !length_map, length_app.
        destruct dropped; simpl; split; intros; (done || lia).
      * intros d a ->. rewrite map_app, <- (rev_involutive rest) in Hd.
        apply (f_equal (@rev _)) in Hd. rewrite !rev_involutive, rev_app_distr in Hd.
        by apply (Hmax (history_entry a) (rev (map history_entry d))).
Qed.

(** What the value consists of is a safe header text. *)
Lemma EncodeHistoryHeader_safe older newest cap :
  let r := EncodeHistoryHeader (older ++ [newest]) (Z.max cap 2) in
  blen r.1 <= Z.max cap 2 /\ clean r.1.
Proof.
  cbv zeta. destruct (EncodeHistoryHeader_form older newest cap) as [Hlen Hform].
  split; [done|]. assert (Hin : forall l, clean l -> clean ([91] ++ l ++ [93])).
  { intros l Hl. apply (clean_app [91]); [by apply lit_clean|].
    apply clean_app; [done|by apply lit_clean]. }
  destruct Hform as [(dropped & kept & _ & _ & Hr & _)|(_ & _ & [Hr|(err & Hc & Hr)])]; rewrite Hr.
  - apply Hin, join_commas_clean, Forall_map, Forall_true. intros a.
    apply marshal_clean, sanitize_clean.
  - by apply lit_clean.
  - by apply Hin, marshal_clean.
Qed.

Lemma EncodeHistoryHeader_budget history cap :
  EncodeHistoryHeader history (Z.max cap 2) = EncodeHistoryHeader history cap.
Proof. unfold EncodeHistoryHeader. by rewrite (Z.max_l (Z.max cap 2) 2) by lia. Qed.

(** ** Reading a history back *)

(** One entry, its numbers as text. *)
Record wire := mkWire {
  wi_n : list Z;
  wi_err : list Z;
  wi_class : list Z;
  wi_at : list Z;
  wi_dur : list Z;
}.

Definition wire_of (a : Attempt) (err : list Z) : wire :=
  mkWire (Itoa (att_n a)) err (to_bytes (attempt_class_string (att_class a)))
    (RFC3339Nano (att_started a)) (Itoa (Z.quot (att_duration a) (10 ^ 6))).

Fixpoint strip (p l : list Z) : option (list Z) :=
  match p, l with
  | [], _ => Some l
  | a :: p, b :: l => if a =? b then strip p l else None
  | _, [] => None
  end.

Fixpoint num_span (l : list Z) : list Z * list Z :=
  match l with
  | b :: r => if (b =? 45) || in_range 48 57 b
              then let '(d, r) := num_span r in (b :: d, r) else ([], l)
  | [] => ([], [])
  end.

Definition parse_entry (l : list Z) : option (wire * list Z) :=
  l ← strip ([123] ++ json_key "n") l;
  let '(n, l) := num_span l in
  l ← strip ([44] ++ json_key "err" ++ [34]) l;
  '(err, l) ← json_unquote l;
  l ← strip ([44] ++ json_key "class" ++ [34]) l;
  '(class, l) ← json_unquote l;
  l ← strip ([44] ++ json_key "at" ++ [34]) l;
  '(at_, l) ← json_unquote l;
  l ← strip ([44] ++ json_key "dur_ms") l;
  let '(dur, l) := num_span l in
  l ← strip [125] l;
  Some (mkWire n err class at_ dur, l).

(** The entries of an array after its bracket; [fuel] bounds their number. *)
Fixpoint parse_entries (fuel : nat) (l : list Z) : option (list wire) :=
  match fuel with
  | O => None
  | S fuel =>
      match parse_entry l with
      | Some (w, [93]) => Some [w]
      | Some (w, 44 :: r) => (cons w) <$> parse_entries fuel r
      | _ => None
      end
  end.

Definition parse_history (l : list Z) : option (list wire) :=
  match l with
  | [91; 93] => Some []
  | 91 :: r => parse_entries (length r) r
  | _ => None
  end.

Lemma strip_app p l : strip p (p ++ l) = Some l.
Proof. induction p as [|a p IH]; simpl; [done|]. by rewrite Z.eqb_refl. Qed.

Lemma num_span_app d b r :
  Forall num_byte d -> ~ num_byte b -> num_span (d ++ b :: r) = (d, b :: r).
Proof.
  unfold num_byte. induction 1 as [|x d Hx _ IH]; intros Hb; simpl.
  - rewrite (proj2 (Z.eqb_neq b 45)) by lia. unfold in_range. by replace (_ && _) with false by lia.
  - rewrite IH by done. unfold in_range. by replace (_ || _) with true by lia.
Qed.

(** An encoded text, as [parse_entry] meets it. *)
Lemma unquote_valid l r : valid l -> Forall is_byte l ->
  json_unquote (flat_map json_seg (runes l) ++ [34] ++ r) = Some (l, r).
Proof. intros Hv Hb. simpl. rewrite unquote_string by done. by rewrite seg_text_valid. Qed.

Lemma unquote_plain_text l r : Forall plain_byte l ->
  json_unquote (flat_map json_seg (runes l) ++ [34] ++ r) = Some (l, r).
Proof.
  intros Hp. apply unquote_valid; [by apply clean_valid, plain_clean|].
  eapply Forall_impl; [exact Hp|]. unfold plain_byte, is_byte. lia.
Qed.

Lemma class_plain a : Forall plain_byte (to_bytes (attempt_class_string a)).
Proof. apply lit_plain. by destruct a. Qed.

(** An entry, in the pieces its reader expects. *)
Lemma marshal_pieces a err r :
  marshalHistoryEntry a err ++ r =
  ([123] ++ json_key "n") ++ Itoa (att_n a)
  ++ ([44] ++ json_key "err" ++ [34]) ++ flat_map json_seg (runes err) ++ [34]
  ++ ([44] ++ json_key "class" ++ [34])
  ++ flat_map json_seg (runes (to_bytes (attempt_class_string (att_class a)))) ++ [34]
  ++ ([44] ++ json_key "at" ++ [34]) ++ flat_map json_seg (runes (RFC3339Nano (att_started a))) ++ [34]
  ++ ([44] ++ json_key "dur_ms") ++ Itoa (Z.quot (att_duration a) (10 ^ 6)) ++ [125] ++ r.
Proof.
  unfold marshalHistoryEntry, json_string.
  repeat (rewrite <- app_assoc || rewrite <- app_comm_cons); reflexivity.
Qed.

Lemma num_span_lit d b p r :
  Forall num_byte d -> ~ num_byte b -> num_span (d ++ ([b] ++ p) ++ r) = (d, ([b] ++ p) ++ r).
Proof. intros Hd Hb. simpl app. by apply num_span_app. Qed.

Lemma parse_marshal a err r :
  clean err -> parse_entry (marshalHistoryEntry a err ++ r) = Some (wire_of a err, r).
Proof.
  intros Hc. assert (Hcomma : ~ num_byte 44) by (unfold num_byte; lia).
  assert (Hbrace : ~ num_byte 125) by (unfold num_byte; lia).
  rewrite marshal_pieces. unfold parse_entry. rewrite strip_app. cbn [mbind option_bind].
  rewrite (num_span_lit _ 44 _ _ (Itoa_num _) Hcomma), strip_app. cbn [mbind option_bind].
  rewrite unquote_valid by (by apply clean_valid || by apply clean_bytes). cbn [mbind option_bind].
  rewrite strip_app. cbn [mbind option_bind].
  rewrite unquote_plain_text by apply class_plain. cbn [mbind option_bind].
  rewrite strip_app. cbn [mbind option_bind].
  rewrite unquote_plain_text by apply RFC3339Nano_plain. cbn [mbind option_bind].
  rewrite strip_app. cbn [mbind option_bind].
  change ([125] ++ r) with (125 :: r). by rewrite (num_span_app _ 125 r (Itoa_num _) Hbrace).
Qed.

Lemma parse_entries_join fuel l :
  l <> [] -> (length l <= fuel)%nat -> Forall (fun x => clean x.2) l ->
  parse_entries fuel (join_commas (map (fun x => marshalHistoryEntry x.1 x.2) l) ++ [93])
  = Some (map (fun x => wire_of x.1 x.2) l).
Proof.
  revert l. induction fuel as [|fuel IH]; intros [|[a err] l] Hne Hf Hc; try done;
    [simpl in Hf; lia|].
  apply Forall_cons in Hc as [He Hc]. cbn [parse_entries].
  destruct l as [|x l].
  - cbn [map join_commas fst snd]. by rewrite parse_marshal.
  - change (join_commas (map (fun x => marshalHistoryEntry x.1 x.2) ((a, err) :: x :: l)))
      with (marshalHistoryEntry a err ++ 44 ::
        join_commas (map (fun x => marshalHistoryEntry x.1 x.2) (x :: l))).
    rewrite <- app_assoc, parse_marshal by done. cbn [app].
    rewrite (IH (x :: l)) by (done || simpl in *; lia). done.
Qed.

Lemma join_head (l : list (Attempt * list Z)) :
  l <> [] -> exists t, join_commas (map (fun x => marshalHistoryEntry x.1 x.2) l) = 123 :: t.
Proof.
  destruct l as [|[a e] [|y l]]; [done| |]; intros _; eexists; reflexivity.
Qed.

Lemma join_count (l : list (Attempt * list Z)) :
  (length l <= length (join_commas (map (fun x => marshalHistoryEntry x.1 x.2) l)))%nat.
Proof.
  induction l as [|x l IH]; [done|]. cbn [map].
  pose proof (join_commas_cons (marshalHistoryEntry x.1 x.2)
    (map (fun x => marshalHistoryEntry x.1 x.2) l)) as Hj. unfold blen in Hj.
  assert (1 <= length (marshalHistoryEntry x.1 x.2))%nat by (unfold marshalHistoryEntry; simpl; lia).
  cbn [length]. destruct (map _ l); lia.
Qed.

Lemma parse_array (l : list (Attempt * list Z)) :
  l <> [] -> Forall (fun x => clean x.2) l ->
  parse_history ([91] ++ join_commas (map (fun x => marshalHistoryEntry x.1 x.2) l) ++ [93])
  = Some (map (fun x => wire_of x.1 x.2) l).
Proof.
  intros Hne Hc. pose proof (join_count l) as Hn.
  pose proof (parse_entries_join (length (join_commas (map (fun x => marshalHistoryEntry x.1 x.2) l)
    ++ [93])) l Hne ltac:(rewrite length_app; lia) Hc) as Hp.
  destruct (join_head l Hne) as [t Ht]. rewrite Ht in *. exact Hp.
Qed.

(** ** The failure headers as a table *)

(** A header that is left out when its text is empty. *)
Definition text_header (v : string) : option string :=
  if String.eqb v "" then None else Some (TruncateHeader v DLQHeaderValueLimit).
Definition time_header (t : Z) : option string :=
  if IsZero t then None else text_header (of_bytes (RFC3339Nano t)).
Definition count_header (n : Z) : option string :=
  if 0 <? n then text_header (of_bytes (Itoa n)) else None.

(** Every header a record can have, with the value it has, if any. *)
Definition failure_fields (r : DLQRecord) : list (string * option string) :=
  [ (HeaderDLQCause, e ← rec_cause r; text_header (error_text e));
    (HeaderDLQReason, text_header (rec_reason r));
    (HeaderDLQAttempts, Some (of_bytes (Itoa (rec_attempts r))));
    (HeaderDLQDeliveryCount, count_header (d_count (rec_delivery r)));
    (HeaderDLQHandler, text_header (rec_handler r));
    (HeaderDLQOriginalSubject, text_header (rec_subject r));
    (HeaderDLQFailedAt, time_header (rec_failed_at r));
    (HeaderDLQFirstAttemptAt, time_header (x_started_at (rec_execution r)));
    (HeaderDLQEventID, text_header (rec_event_id r));
    (HeaderDLQEventName, text_header (rec_event_name r));
    (HeaderDLQOriginalStream, text_header (d_stream (rec_delivery r)));
    (HeaderDLQOriginalSequence, count_header (d_stream_seq (rec_delivery r)));
    (HeaderDLQPublishedAt, time_header (d_published_at (rec_delivery r)));
    (HeaderDLQPanicStack, p ← As as_panic (rec_cause r); text_header p.2);
    (HeaderDLQHistory,
      match rec_history r with
      | [] => None
      | hist => Some (of_bytes (EncodeHistoryHeader hist HistoryHeaderLimit).1)
      end);
    (HeaderDLQHistoryTruncated,
      if (EncodeHistoryHeader (rec_history r) HistoryHeaderLimit).2 then Some "true" else None) ].

Definition set_opt (h : gmap string string) (kv : string * option string) : gmap string string :=
  match kv.2 with Some v => <[kv.1 := v]> h | None => h end.

Lemma set_header_opt k v h : set_header k v h = set_opt h (k, text_header v).
Proof. unfold set_header, set_opt, text_header. simpl. by destruct (String.eqb v ""). Qed.

Lemma set_time_opt k t h : set_time k t h = set_opt h (k, time_header t).
Proof. unfold set_time, time_header. destruct (IsZero t); [done|]. apply set_header_opt. Qed.

Lemma set_count_opt k n h :
  (if 0 <? n then set_header k (of_bytes (Itoa n)) h else h) = set_opt h (k, count_header n).
Proof. unfold count_header. destruct (0 <? n); [|done]. apply set_header_opt. Qed.

Lemma EncodeHistoryHeader_nonempty older newest :
  (EncodeHistoryHeader (older ++ [newest]) HistoryHeaderLimit).1 <> [].
Proof.
  destruct (EncodeHistoryHeader_form older newest HistoryHeaderLimit) as [_ Hform].
  rewrite EncodeHistoryHeader_budget in Hform.
  destruct Hform as [(d & k & _ & _ & -> & _)|(_ & _ & [->|(err & _ & ->)])]; done.
Qed.

Lemma set_history_opt h r :
  setHistoryHeaders h r = foldl set_opt h (drop 14 (failure_fields r)).
Proof.
  unfold setHistoryHeaders, failure_fields. cbn [drop foldl set_opt fst snd].
  destruct (rec_history r) as [|a hist] eqn:Hr; [done|].
  destruct (EncodeHistoryHeader (a :: hist) HistoryHeaderLimit) as [[|b v] t] eqn:He.
  - destruct (exists_last (l := a :: hist)) as (older & newest & Hl); [done|].
    rewrite Hl in He. pose proof (EncodeHistoryHeader_nonempty older newest) as Hn.
    by rewrite He in Hn.
  - cbn [fst snd]. by destruct t.
Qed.

(** [FailureHeaders] writes the fields of the table, in its order. *)
Lemma FailureHeaders_fields r : FailureHeaders r = foldl set_opt ∅ (failure_fields r).
Proof.
  unfold FailureHeaders. cbv zeta. rewrite set_history_opt.
  rewrite !set_time_opt, !set_count_opt, !set_header_opt.
  rewrite <- (take_drop 14 (failure_fields r)) at 2. rewrite foldl_app. f_equal.
  unfold failure_fields. cbn [take foldl].
  destruct (rec_cause r) as [e|], (As as_panic _) as [[pv stack]|];
    rewrite ?set_header_opt; reflexivity.
Qed.

Lemma foldl_set_opt_other l h k : k ∉ l.*1 -> foldl set_opt h l !! k = h !! k.
Proof.
  revert h. induction l as [|[k' o] l IH]; intros h Hk; [done|].
  cbn in Hk. apply not_elem_of_cons in Hk as [Hne Hk]. cbn [foldl]. rewrite IH by done.
  destruct o; cbn [set_opt fst snd]; [by rewrite lookup_insert_ne|done].
Qed.

(** Each field of a table without duplicate keys is what a lookup finds. *)
Lemma foldl_set_opt_lookup l h :
  NoDup l.*1 -> Forall (fun k => h !! k = None) l.*1 ->
  Forall (fun kv => foldl set_opt h l !! kv.1 = kv.2) l.
Proof.
  revert h. induction l as [|[k o] l IH]; intros h Hnd Hh; [constructor|].
  cbn in Hnd, Hh. apply NoDup_cons in Hnd as [Hk Hnd]. apply Forall_cons in Hh as [Hh0 Hh].
  constructor; cbn [foldl].
  - rewrite foldl_set_opt_other by done. destruct o; cbn [set_opt fst snd]; [by rewrite lookup_insert_eq|done].
  - apply IH; [done|]. rewrite Forall_forall in Hh |- *. intros k' Hk'.
    destruct o; cbn [set_opt fst snd]; [|by apply Hh]. rewrite lookup_insert_ne; [by apply Hh|by intros ->].
Qed.

Lemma failure_keys_NoDup r : NoDup (failure_fields r).*1.
Proof.
  cbn [failure_fields fmap list_fmap fst]. by apply (bool_decide_unpack _); vm_compute.
Qed.

(** ** Every value is a safe header text *)

Definition header_limit (k : string) : Z :=
  if bool_decide (k = HeaderDLQHistory) then HistoryHeaderLimit else DLQHeaderValueLimit.

Definition header_safe (k v : string) : Prop :=
  clean (to_bytes v) /\ (k <> HeaderDLQAttempts -> len v <= header_limit k).

Lemma truncated_safe k v : header_safe k (TruncateHeader v DLQHeaderValueLimit).
Proof.
  assert (Hc : clean (truncate_bytes (to_bytes v) DLQHeaderValueLimit)) by apply truncate_bytes_clean.
  split.
  - unfold TruncateHeader. by rewrite to_of_bytes by by apply clean_bytes.
  - intros _. pose proof (TruncateHeader_len v DLQHeaderValueLimit) as Hl.
    unfold header_limit, HistoryHeaderLimit, DLQHeaderValueLimit in *. case_bool_decide; lia.
Qed.

Lemma history_safe hist :
  hist <> [] -> header_safe HeaderDLQHistory (of_bytes (EncodeHistoryHeader hist HistoryHeaderLimit).1).
Proof.
  intros Hne. destruct (exists_last Hne) as (older & newest & ->).
  destruct (EncodeHistoryHeader_safe older newest HistoryHeaderLimit) as [Hl Hc].
  rewrite EncodeHistoryHeader_budget in *. split.
  - by rewrite to_of_bytes by by apply clean_bytes.
  - intros _. unfold len. rewrite length_of_bytes. exact Hl.
Qed.

Lemma text_field_safe k v : Forall (header_safe k) (option_list (text_header v)).
Proof. unfold text_header. destruct (String.eqb v ""); constructor; [apply truncated_safe|constructor]. Qed.

Lemma time_field_safe k t : Forall (header_safe k) (option_list (time_header t)).
Proof. unfold time_header. destruct (IsZero t); [constructor|apply text_field_safe]. Qed.

Lemma count_field_safe k n : Forall (header_safe k) (option_list (count_header n)).
Proof. unfold count_header. destruct (0 <? n); [apply text_field_safe|constructor]. Qed.

Lemma attempts_safe n : header_safe HeaderDLQAttempts (of_bytes (Itoa n)).
Proof.
  split; [|done]. assert (Hc : clean (Itoa n)) by apply plain_clean, Itoa_plain.
  by rewrite to_of_bytes by by apply clean_bytes.
Qed.

Lemma fields_safe r : Forall (fun kv => Forall (header_safe kv.1) (option_list kv.2)) (failure_fields r).
Proof.
  assert (Hnone : forall k, Forall (header_safe k) (option_list None)) by constructor.
  unfold failure_fields.
  repeat first [apply Forall_nil_2 | apply Forall_cons_2]; cbn [fst snd];
    try apply time_field_safe; try apply count_field_safe; try apply text_field_safe.
  - destruct (rec_cause r); [apply text_field_safe|apply Hnone].
  - apply attempts_safe.
  - destruct (As _ _) as [[]|]; [apply text_field_safe|apply Hnone].
  - destruct (rec_history r); [apply Hnone|]. apply Forall_cons_2; [by apply history_safe|apply Forall_nil_2].
  - destruct (EncodeHistoryHeader _ _).2; [|apply Hnone].
    apply Forall_cons_2; [|apply Forall_nil_2]. split; [by apply lit_clean|done].
Qed.

(** * Properties *)

(** C38: the history header. Its value is at most the budget long (and never less
    than the two brackets), valid UTF-8 without control characters, and JSON that
    a reader of the entry's five keys gives back: the newest attempts, all that
    fit, in order, each with its sanitized error text, so that no error text can
    break out of its string; the flag says whether older attempts were dropped.
    Only when the newest attempt alone does not fit is its text shortened further,
    or the array empty. *)
Theorem history_header_contract (older : list Attempt) (newest : Attempt) (capBytes : Z) :
  let history := older ++ [newest] in
  let budget := Z.max capBytes 2 in
  let r := EncodeHistoryHeader history capBytes in
  blen r.1 <= budget /\ clean r.1
  /\ ((exists dropped kept, history = dropped ++ kept /\ kept <> []
        /\ parse_history r.1 = Some (map (fun a => wire_of a (sanitizeHistoryErr (att_err a))) kept)
        /\ (r.2 = true <-> dropped <> [])
        /\ forall d a, dropped = d ++ [a] ->
             budget < 2 + blen (join_commas (map history_entry (a :: kept))))
      \/ (r.2 = true /\ budget < 2 + blen (history_entry newest)
          /\ (parse_history r.1 = Some []
              \/ exists err, clean err /\ parse_history r.1 = Some [wire_of newest err]))).
Proof.
  cbv zeta. destruct (EncodeHistoryHeader_form older newest capBytes) as [Hlen Hform].
  destruct (EncodeHistoryHeader_safe older newest capBytes) as [_ Hsafe].
  rewrite EncodeHistoryHeader_budget in *. split; [done|]. split; [done|].
  destruct Hform as [(dropped & kept & Hh & Hne & Hr & Hmax)|(Ht & Hover & Hshape)]; [left|right].
  - assert (Hk : map history_entry kept = map (fun x => marshalHistoryEntry x.1 x.2)
      (map (fun a => (a, sanitizeHistoryErr (att_err a))) kept)) by (by rewrite map_map).
    rewrite Hr. cbn [fst snd]. exists dropped, kept. split; [done|]. split; [done|].
    split; [|split; [by rewrite bool_decide_eq_true|done]].
    rewrite Hk, parse_array, map_map; [done|by destruct kept|].
    apply Forall_map, Forall_true. intros a. apply sanitize_clean.
  - split; [done|]. split; [done|].
    destruct Hshape as [Hr|(err & Hc & Hr)]; rewrite Hr; [by left|right].
    exists err. split; [done|].
    apply (parse_array [(newest, err)]); [done|]. by repeat constructor.
Qed.

(** The headers of a record, as a table: every field has its value, and there is
    nothing else. *)
Lemma FailureHeaders_table (r : DLQRecord) :
  Forall (fun kv => FailureHeaders r !! kv.1 = kv.2) (failure_fields r)
  /\ dom (FailureHeaders r) ⊆ list_to_set (failure_fields r).*1.
Proof.
  rewrite FailureHeaders_fields.
  pose proof (foldl_set_opt_lookup (failure_fields r) ∅ (failure_keys_NoDup r)
    ltac:(apply Forall_true; intros; apply lookup_empty)) as Hl.
  split; [done|]. intros k Hk. apply elem_of_list_to_set.
  destruct (decide (k ∈ (failure_fields r).*1)); [done|].
  by rewrite elem_of_dom, foldl_set_opt_other, lookup_empty in Hk by done; destruct Hk.
Qed.

(** The failure headers of a dead letter. A record has exactly the headers of
    the table, each with the value the table names: the texts cut at 1024 bytes
    and left out when empty, the times and counts left out when zero, the attempts
    always, the stack only of a panic, the history exactly when the record has one
    and the truncation flag exactly when attempts were dropped. Whatever the cause,
    the stack or the subject hold, every value is valid UTF-8 without control
    characters and within its limit. *)
Theorem FailureHeaders_contract (r : DLQRecord) :
  let h := FailureHeaders r in
  Forall (fun kv => h !! kv.1 = kv.2) (failure_fields r)
  /\ dom h ⊆ list_to_set (failure_fields r).*1
  /\ map_Forall header_safe h.
Proof.
  cbv zeta. destruct (FailureHeaders_table r) as [Hl Hdom].
  split; [done|]. split; [done|]. intros k v Hk.
  assert (Hin : k ∈ (failure_fields r).*1)
    by (apply (elem_of_list_to_set (C := gset string)), Hdom, elem_of_dom; by exists v).
  apply list_elem_of_fmap in Hin as ([k' o] & -> & Hin). cbn [fst] in *.
  pose proof (fields_safe r) as Hs. rewrite Forall_forall in Hl, Hs.
  specialize (Hl _ Hin). specialize (Hs _ Hin). cbn [fst snd] in *. rewrite Hk in Hl. subst o.
  by apply Forall_cons in Hs as [Hs _].
Qed.
