(* ===== verification/JetDlq.v ===== *)
(** * The JetStream dead-letter stream

    src/jetstream/dlq.go: the publisher of dead letters. A record keeps the bytes
    of the message it is about; its failure travels in headers next to the
    original ones, or in fewer of them when the broker finds the message too
    large. *)

From S2P Require Import Prelude GoErrors Types Failure Text Runtime Trace History Emit Nats.
Local Open Scope string_scope.
Local Open Scope list_scope.
Local Open Scope Z_scope.

(** The order in which [range] visits a header map. [fmt_q] is the verb %q, on which
    only texts depend. *)
Class RangeOrder := {
  range_map : Header -> list (string * list string);
  range_perm h : range_map h ≡ₚ map_to_list h;
}.
Class Fmt := { fmt_q : string -> string }.

(** src/dlq.go, src/trace_headers.go and the constants of this file. *)
Definition HeaderDLQPrefix := "Eventbus-Dlq-".
Definition HeaderDLQOriginalMsgID := "Eventbus-Dlq-Original-Msg-Id".
Definition HeaderDLQTraceparent := "Eventbus-Dlq-Traceparent".
Definition HeaderReplayTraceparent := "Eventbus-Replay-Traceparent".
Definition HeaderReplayFailedTraceparent := "Eventbus-Replay-Failed-Traceparent".
Definition HeaderReplayDLQSequence := "Eventbus-Replay-Dlq-Sequence".
Definition DefaultDLQPrefix := "dlq.".
Definition natsHeaderPrefix := "Nats-".
Definition dlqMinimalCauseLimit : Z := 128.

(** [strings.HasPrefix(strings.ToLower(k), strings.ToLower(prefix))]. *)
Definition has_prefix (prefix k : string) : bool := String.prefix (ToLower prefix) (ToLower k).

(** The loop of [dlqCopyHeaders]. *)
Fixpoint copy_headers (src : list (string * list string)) (h : Header) (orig : string)
    : Header * string :=
  match src with
  | [] => (h, orig)
  | (k, vs) :: rest =>
      if has_prefix natsHeaderPrefix k then
        copy_headers rest h
          (if String.eqb (ToLower k) "nats-msg-id" && String.eqb orig ""
           then match vs with v :: _ => v | [] => orig end
           else orig)
      else if has_prefix HeaderDLQPrefix k then copy_headers rest h orig
      else copy_headers rest (<[k := vs]> h) orig
  end.

(** [dlqSubject]. *)
Definition dlqSubject (r : DLQRecord) : string :=
  if negb (String.eqb (rec_subject r) "") then rec_subject r
  else if negb (String.eqb (rec_event_name r) "") then rec_event_name r
  else "unknown".

Record DLQ (U : Type) := mkDLQ { dq_prefix : string; dq_registry : option (Registry (U := U)) }.
Arguments mkDLQ {U}.
Arguments dq_prefix {U}.
Arguments dq_registry {U}.

(** [DLQOption], [WithDLQRegistry] and [NewDLQ]. *)
Definition DLQOption (U : Type) : Type := DLQ U -> DLQ U.
Definition WithDLQRegistry {U} (reg : option (Registry (U := U))) : DLQOption U := fun d =>
  mkDLQ (dq_prefix d) reg.
Definition NewDLQ {U} (prefix : string) (opts : list (DLQOption U)) : DLQ U :=
  let prefix := if String.eqb prefix "" then DefaultDLQPrefix else prefix in
  fold_left (fun d opt => opt d) opts (mkDLQ prefix None).

Section dlq.
Context {U : Type} `{NatsLib} `{RangeOrder} `{Stream U} `{TraceSDK U} `{Fmt}.

(** [dlqCopyHeaders]. *)
Definition dlqCopyHeaders (src : option Header) : Header * string :=
  copy_headers (range_map (default ∅ src)) ∅ "".

(** The loop that sets the failure headers; they are distinct, so that the order
    of the map's iteration plays no part. *)
Definition set_headers (f : gmap string string) (h : Header) : Header :=
  map_fold (fun k v h => header_Set k v h) h f.

Definition set_nonempty (k v : string) (h : Header) : Header :=
  if String.eqb v "" then h else header_Set k v h.

(** The headers of a dead letter. *)
Definition dlq_headers (r : DLQRecord) (tp : string) : Header :=
  let '(h, origMsgID) := dlqCopyHeaders (rec_headers r) in
  let h := set_headers (FailureHeaders r) h in
  let h := if negb (String.eqb origMsgID "")
           then header_Set HeaderDLQOriginalMsgID (TruncateHeader origMsgID DLQHeaderValueLimit) h
           else h in
  set_nonempty HeaderDLQTraceparent tp h.

(** [dlqMinimalHeaders]. *)
Definition dlqMinimalHeaders (r : DLQRecord) (tp : string) : Header :=
  let h := (dlqCopyHeaders (rec_headers r)).1 in
  let h := set_nonempty HeaderDLQTraceparent tp h in
  let full := FailureHeaders r in
  let h := fold_left (fun h k => match full !! k with Some v => header_Set k v h | None => h end)
             [HeaderDLQReason; HeaderDLQOriginalSubject; HeaderDLQEventID; HeaderDLQHandler] h in
  match full !! HeaderDLQCause with
  | Some v => header_Set HeaderDLQCause (TruncateHeader v dlqMinimalCauseLimit) h
  | None => h
  end.

(** [DLQ.send]. *)
Definition send (c : Ctx) (subject : string) (h : Header) (data : option string) : M U goerr :=
  r ← PublishMsg c (mkNatsMsg subject h data);
  mret r.2.

(** [len(data) == 0]. *)
Definition no_bytes (data : option string) : bool := String.eqb (default "" data) "".

(** The bytes of a dead letter: those of the message, or the encoded event of a
    record that has none. *)
Definition dlq_data (d : DLQ U) (newid : M U string) (c : Ctx) (r : DLQRecord)
    : M U (option string + error) :=
  match rec_evt r with
  | Some evt =>
      if no_bytes (rec_raw r) then
        match dq_registry d with
        | None => mret (inr (Sentinel ErrNoEnvelope))
        | Some reg =>
            let '(md, ok) := MetadataFromContext c in
            md ← (if ok : bool then mret md
                  else cfg ← ApplyEmitOptions evt []; ResolveOutbound newid c evt cfg);
            '(enc, err) ← EncodeEvent c reg evt md;
            match err with
            | Some e =>
                name ← Name evt;
                mret (inr (Wrapped ("jetstream: DLQ encode " +:+ fmt_q name +:+ ": " +:+ error_text e)
                             [e]))
            | None => mret (inl (Some enc))
            end
        end
      else mret (inl (rec_raw r))
  | None => mret (inl (rec_raw r))
  end.

(** [DLQ.Publish]; [newid] is [NewID]. *)
Definition DLQ_Publish (d : DLQ U) (newid : M U string) (c : Ctx) (r : DLQRecord) : M U goerr :=
  data ← dlq_data d newid c r;
  match data with
  | inr e => mret (Some e)
  | inl data =>
      tp ← oxTraceparent c;
      let subject := dq_prefix d +:+ dlqSubject r in
      err ← send c subject (dlq_headers r tp) data;
      if Is err ErrMaxPayload
      then send c subject (dlqMinimalHeaders r tp) data
      else mret err
  end.
End dlq.
