(* ===== verification/Tracer.v ===== *)
(** * The tracing invoker

    src/telemetry/tracer.go: the invoker that wraps a handler in a consumer span,
    with links to the spans of the dead letter and of the replay when the message
    is a replayed one. *)

From S2P Require Import Prelude GoErrors Types Text Runtime Trace Invoke JetDlq Telemetry.
Local Open Scope string_scope.
Local Open Scope list_scope.
Local Open Scope Z_scope.

Definition defaultMessagingSystem := "eventbus".
Definition AttrCorrelationID := "eventbus.correlation_id".
Definition AttrReplayed := "eventbus.replayed".
Definition AttrDLQSequence := "eventbus.dlq.sequence".
Definition AttrLinkType := "eventbus.link.type".
Definition linkTypeDeadLetter := "dead_letter".
Definition linkTypeReplay := "replay".

Section tracer.
Context {U : Type} `{TraceSDK U} `{RangeOrder}.

(** [trace.Link]. *)
Definition Link : Type := SpanContext * list KeyValue.

(** [tracerConfig], [TracerOption] and the two options. *)
Record tracerConfig := mkTracerConfig {
  tc_provider : option TracerProvider;
  tc_dest : option (Ctx -> option Event -> M U string);
}.
Definition TracerOption : Type := tracerConfig -> tracerConfig.
Definition WithTracerProvider (tp : TracerProvider) : TracerOption := fun c =>
  mkTracerConfig (Some tp) (tc_dest c).
Definition WithSpanDestination (fn : Ctx -> option Event -> M U string) : TracerOption := fun c =>
  mkTracerConfig (tc_provider c) (Some fn).

Record TracerInvoker := mkTracerInvoker {
  ti_tracer : Tracer;
  ti_dest : option (Ctx -> option Event -> M U string);
}.

(** [NewTracerInvoker]. *)
Definition NewTracerInvoker (tracer : option Tracer) (opts : list TracerOption) : M U TracerInvoker :=
  let cfg := fold_left (fun c opt => opt c) opts (mkTracerConfig None None) in
  t ← (match tracer with
       | Some t => mret t
       | None => tracer_of (tc_provider cfg) ScopeName
       end);
  mret (mkTracerInvoker t (tc_dest cfg)).

(** [headerValue]: the first value of the first key that matches, in the order of
    the iteration. *)
Fixpoint header_value (l : list (string * list string)) (name : string) : string * bool :=
  match l with
  | [] => ("", false)
  | (k, vs) :: rest =>
      match vs with
      | v :: _ => if EqualFold k name then (v, true) else header_value rest name
      | [] => header_value rest name
      end
  end.
Definition headerValue (h : Header) (name : string) : string * bool :=
  header_value (range_map h) name.

(** [parseTraceparent]. *)
Definition parseTraceparent (value : string) : option SpanContext :=
  if String.eqb value "" then None
  else let sc := tc_Extract value in if sc_IsValid sc then Some sc else None.

(** The link a traceparent stands for. *)
Definition link_to (tp kind : string) : list Link :=
  match parseTraceparent tp with
  | Some sc => [(sc, [(AttrLinkType, AString kind)])]
  | None => []
  end.

(** [replayLinks]. *)
Definition replayLinks (d : Delivery) : list Link * list KeyValue :=
  let h := default ∅ (d_headers d) in
  if decide (h = ∅) then ([], [])
  else
    let '(failed, hasFailed) := headerValue h HeaderReplayFailedTraceparent in
    let '(replay, hasReplay) := headerValue h HeaderReplayTraceparent in
    let '(seq, hasSeq) := headerValue h HeaderReplayDLQSequence in
    if negb hasFailed && negb hasReplay && negb hasSeq then ([], [])
    else
      (link_to failed linkTypeDeadLetter ++ link_to replay linkTypeReplay,
       (AttrReplayed, ABool true) ::
         match ParseUint (TrimSpace seq) with
         | Some n => [(AttrDLQSequence, AInt (wrap64 n))]
         | None => []
         end).

(** The destination of the span. *)
Definition span_destination (i : TracerInvoker) (c : Ctx) (evt : option Event) (d : Delivery)
    : M U string :=
  dest ← (match ti_dest i with Some f => f c evt | None => mret (d_subject d) end);
  if String.eqb dest "" then match evt with Some e => Name e | None => panic nil_deref end
  else mret dest.

(** The attributes of the span, those of a replay last. *)
Definition span_attributes (d : Delivery) (md : Metadata) (dest handler : string)
    (replayAttrs : list KeyValue) : list KeyValue :=
  [MessagingSystem (if String.eqb (d_system d) "" then defaultMessagingSystem else d_system d);
   MessagingOperationName "process"; MessagingOperationTypeProcess;
   MessagingDestinationName dest; (AttrHandler, AString handler);
   (AttrDeliveryCount, AInt (d_count d))]
  ++ (if String.eqb (md_id md) "" then [] else [MessagingMessageID (md_id md)])
  ++ (if String.eqb (md_correlation_id md) "" then []
      else [(AttrCorrelationID, AString (md_correlation_id md))])
  ++ replayAttrs.

(** What the span says of the error. *)
Definition span_error (span : Span) (err : goerr) : M U unit :=
  match err with
  | Some e =>
      if Is err ErrDuplicate then mret tt
      else
        _ ← span_RecordError span e;
        _ ← span_SetAttributes span [span_ErrorType err];
        span_SetErrorStatus span (error_text e)
  | None => mret tt
  end.

(** [TracerInvoker.Invoke]. *)
Definition Tracer_Invoke (i : TracerInvoker) : Invoker U := fun c evt handler fn =>
  let '(md, _) := MetadataFromContext c in
  let '(d, _) := DeliveryFromContext c in
  dest ← span_destination i c evt d;
  let '(links, replayAttrs) := replayLinks d in
  r ← tracer_Start (ti_tracer i) c ("process " +:+ dest) SpanKindConsumer
        (span_attributes d md dest handler replayAttrs) links;
  let '(c', span) := r in
  deferring None
    (err ← fn c'; _ ← span_error span err; mret err)
    (fun _ => span_End span).
End tracer.
