(* ===== verification/Replayer.v ===== *)
(** * Replaying dead letters

    src/jetstream/replayer.go: the records of a dead-letter stream are published
    again, byte for byte, to the subject they came from. The durable consumer is a
    parameter, the function [FetchNoWait] gives it; a batch is the list of messages
    its channel yields and the error it ends with.

    [Replay] goes on while the stream has records, which its own publishes can make
    more of: the loop has fuel, and a run out of it is [None]. *)

From S2P Require Import Prelude GoErrors Types Failure Text Runtime Trace History Emit Nats.
From S2P Require Import Jetstream JetDlq.
Local Open Scope string_scope.
Local Open Scope list_scope.
Local Open Scope Z_scope.

Definition replayBatchSize : Z := 64.
Definition replayHeaderPrefix := "Eventbus-Replay-".

(** [ReplayOptions] and [ReplayResult]. *)
Record ReplayOptions := mkReplayOptions {
  ro_from_stream : string;
  ro_to_subject : string;
  ro_limit : Z;
  ro_consumer : string;
  ro_filter_subject : string;
}.
Record ReplayResult := mkReplayResult { rr_replayed : Z; rr_failed : Z }.

(** [jetstream.ConsumerConfig], the fields that are set: explicit acknowledgements
    and delivery of all messages are the two policies of every replay. *)
Record ReplayConsumerConfig := mkReplayConsumerConfig {
  rc_name : string;
  rc_durable : string;
  rc_ack_explicit : bool;
  rc_deliver_all : bool;
  rc_filter_subject : string;
}.

Record batch := mkBatch { bt_messages : list JsMsg; bt_error : goerr }.
Definition Consumer (U : Type) : Type := Z -> M U (batch + error).

Class ReplayBackend (U : Type) := {
  CreateOrUpdateConsumer : Ctx -> string -> ReplayConsumerConfig -> M U (Consumer U + error);
}.

(** [replayHeaders]; the order of the iteration plays no part. *)
Definition replay_dropped (k : string) : bool :=
  has_prefix HeaderDLQPrefix k || has_prefix replayHeaderPrefix k || has_prefix "nats-" k.
Definition replayHeaders (src : Header) : Header :=
  filter (fun kv => replay_dropped kv.1 = false) src.

(** [validReplaySubject]. *)
Definition bad_rune (s : seg) : bool :=
  match s with Rune bs => IsSpace bs || IsControl bs | Bad _ => false end.
Definition bad_token (t : list Z) : bool := bool_decide (t = [] \/ t = [42] \/ t = [62]).
Definition validReplaySubject (s : string) : bool :=
  if String.eqb s "" then false
  else negb (existsb bad_rune (runes (to_bytes s)))
       && negb (existsb bad_token (split_at 46 (to_bytes s))).

(** The error of a record. *)
Definition replay_error (stream : string) (seq : Z) (e : error) : error :=
  Wrapped ("jetstream: replay stream " +:+ stream +:+ " seq " +:+ pretty seq +:+ ": " +:+ error_text e)
    [e].

Section replayer.
Context {U : Type} `{NatsLib} `{Stream U} `{TraceSDK U} `{Broker U}.

(** [Replayer], [ReplayerOption], [WithReplayTracerProvider] and [NewReplayer]; the
    backend is the classes of this section. *)
Record Replayer := mkReplayer { rp_provider : option TracerProvider }.
Definition ReplayerOption : Type := Replayer -> Replayer.
Definition WithReplayTracerProvider (tp : TracerProvider) : ReplayerOption := fun _ =>
  mkReplayer (Some tp).
Definition NewReplayer (opts : list ReplayerOption) : Replayer :=
  fold_left (fun r opt => opt r) opts (mkReplayer None).

(** [Replayer.tracer]. *)
Definition replay_tracer (r : Replayer) : M U Tracer :=
  tracer_of (rp_provider r) "github.com/isaquesb/go-event-bus/jetstream".

(** [oxParseTraceparent], [None] for the zero span context: the propagator returns
    the context it was given when the value is invalid. *)
Definition oxParseTraceparent (c : Ctx) (tp : string) : M U (option SpanContext) :=
  if String.eqb tp "" then mret None
  else let sc := tc_Extract tp in
       if sc_IsValid sc then mret (Some sc)
       else sc ← SpanContextFromContext c; mret (Some sc).

(** Whether it is valid. *)
Definition valid_context (sc : option SpanContext) : bool :=
  match sc with Some sc => sc_IsValid sc | None => false end.

(** The subject a record is replayed to. *)
Definition replay_target (opts : ReplayOptions) (src : Header) : string :=
  if String.eqb (ro_to_subject opts) "" then header_Get HeaderDLQOriginalSubject src
  else ro_to_subject opts.

(** The identifier of a replayed record. *)
Definition replay_id (opts : ReplayOptions) (src : Header) (seq : Z) : string :=
  let eid := header_Get HeaderDLQEventID src in
  if negb (String.eqb eid "") then eid +:+ ":replay:" +:+ pretty seq
  else "replay:" +:+ ro_from_stream opts +:+ ":" +:+ pretty seq.

(** The headers of a replayed record; [seq] is its place in the stream, if known,
    [linked] whether the span links to that of the failure. *)
Definition replay_headers (opts : ReplayOptions) (src : Header) (seq : option Z) (linked : bool)
    (tp : string) : Header :=
  let failedTP := header_Get HeaderDLQTraceparent src in
  let h := set_nonempty HeaderReplayTraceparent tp (replayHeaders src) in
  let h := if linked then header_Set HeaderReplayFailedTraceparent failedTP h else h in
  match seq with
  | Some seq =>
      header_Set HeaderReplayDLQSequence (pretty seq)
        (header_Set MsgIDHeader (replay_id opts src seq) h)
  | None => h
  end.

(** The attributes and the links of the span of a replay. *)
Definition replay_attributes (target : string) (seq : option Z) : list KeyValue :=
  [("messaging.system", AString "nats"); ("messaging.operation.name", AString "replay");
   ("messaging.destination.name", AString target)]
  ++ match seq with Some n => [("eventbus.dlq.sequence", AInt (wrap64 n))] | None => [] end.
Definition failed_link (failedSC : option SpanContext) : list (SpanContext * list KeyValue) :=
  match failedSC with
  | Some sc => if sc_IsValid sc then [(sc, [("eventbus.link.type", AString "dead_letter")])] else []
  | None => []
  end.

(** [Replayer.replayOne]: the counts and the error. *)
Definition replayOne (r : Replayer) (c : Ctx) (m : JsMsg) (opts : ReplayOptions) (res : ReplayResult)
    : M U (ReplayResult * goerr) :=
  let seq := match jm_metadata m with inl md => Some (mm_stream_seq md) | inr _ => None end in
  let src := default ∅ (jm_headers m) in
  let target := replay_target opts src in
  let failed := mkReplayResult (rr_replayed res) (rr_failed res + 1) in
  if negb (validReplaySubject target) then
    _ ← act m MsgNak;
    mret (failed, Some (replay_error (ro_from_stream opts) (default 0 seq) (Sentinel ErrReplaySubject)))
  else
    failedSC ← oxParseTraceparent c (header_Get HeaderDLQTraceparent src);
    tracer ← replay_tracer r;
    '(sctx, span) ← tracer_Start tracer c ("replay " +:+ target) SpanKindProducer
                      (replay_attributes target seq) (failed_link failedSC);
    tp ← oxTraceparent sctx;
    let h := replay_headers opts src seq (valid_context failedSC) tp in
    p ← PublishMsg sctx (mkNatsMsg target h (jm_data m));
    _ ← fail_span span p.2;
    _ ← span_End span;
    match p.2 with
    | Some e =>
        _ ← act m MsgNak;
        mret (failed, Some (replay_error (ro_from_stream opts) (default 0 seq) e))
    | None =>
        _ ← act m MsgAck;
        mret (mkReplayResult (rr_replayed res + 1) (rr_failed res), None)
    end.

(** The loop over the messages of a batch. *)
Fixpoint replay_batch (r : Replayer) (c : Ctx) (opts : ReplayOptions) (ms : list JsMsg) (res : ReplayResult)
    (recErr : goerr) : M U (ReplayResult * goerr) :=
  match ms with
  | [] => mret (res, recErr)
  | m :: ms =>
      match recErr with
      | Some _ => _ ← act m MsgNak; replay_batch r c opts ms res recErr
      | None => '(res, recErr) ← replayOne r c m opts res; replay_batch r c opts ms res recErr
      end
  end.

(** How many records the next fetch asks for; [None] when the limit is reached. *)
Definition fetch_size (opts : ReplayOptions) (res : ReplayResult) : option Z :=
  if 0 <? ro_limit opts then
    let remaining := ro_limit opts - rr_replayed res in
    if remaining <=? 0 then None else Some (Z.min replayBatchSize remaining)
  else Some replayBatchSize.

(** The loop of [Replayer.Replay]. *)
Fixpoint replay_loop (r : Replayer) (fuel : nat) (fetch : Consumer U) (c : Ctx) (opts : ReplayOptions)
    (res : ReplayResult) : M U (option (ReplayResult * goerr)) :=
  match fuel with
  | O => mret None
  | S fuel =>
      err ← Err c;
      match err with
      | Some _ => mret (Some (res, err))
      | None =>
          match fetch_size opts res with
          | None => mret (Some (res, None))
          | Some n =>
              f ← fetch n;
              match f with
              | inr e => mret (Some (res, if errors_is e ErrNoMessages then None else Some e))
              | inl b =>
                  '(res, recErr) ← replay_batch r c opts (bt_messages b) res None;
                  match recErr with
                  | Some _ => mret (Some (res, recErr))
                  | None =>
                      match bt_error b with
                      | Some e =>
                          if errors_is e ErrNoMessages
                          then if is_nil (head (bt_messages b)) then mret (Some (res, None))
                               else replay_loop r fuel fetch c opts res
                          else mret (Some (res, Some e))
                      | None => if is_nil (head (bt_messages b)) then mret (Some (res, None))
                                else replay_loop r fuel fetch c opts res
                      end
                  end
              end
          end
      end
  end.

Context `{ReplayBackend U}.

(** [Replayer.Replay]. *)
Definition Replay (r : Replayer) (fuel : nat) (c : Ctx) (opts : ReplayOptions)
    : M U (option (ReplayResult * goerr)) :=
  let res := mkReplayResult 0 0 in
  if String.eqb (ro_from_stream opts) "" then mret (Some (res, Some (Sentinel ErrStreamRequired)))
  else
    let name := if String.eqb (ro_consumer opts) "" then "replay_" +:+ ro_from_stream opts
                else ro_consumer opts in
    fetch ← CreateOrUpdateConsumer c (ro_from_stream opts)
             (mkReplayConsumerConfig name name true true (ro_filter_subject opts));
    match fetch with
    | inr e => mret (Some (res, Some e))
    | inl fetch => replay_loop r fuel fetch c opts res
    end.
End replayer.
