(* ===== verification/ReplayerFacts.v ===== *)
(** * Facts about dead letters and their replay

    What the header maps of a dead letter and of a replayed record hold, key by
    key, what the calls of the replayer add to the trace, and the ledger in which a
    consumer enters the records it hands out. *)

From S2P Require Import Prelude GoErrors Types Failure Text Runtime Trace History HistorySpec Emit Nats.
From S2P Require Import Jetstream JetstreamFacts JetDlq Replayer.
Local Open Scope string_scope.
Local Open Scope list_scope.
Local Open Scope Z_scope.

(** ** Headers *)

(** A header of the user: not of the broker, of a dead letter or of a replay. *)
Definition user_key (k : string) : bool := negb (replay_dropped k).
(** A header [dlqCopyHeaders] leaves out. *)
Definition dlq_dropped (k : string) : bool :=
  has_prefix natsHeaderPrefix k || has_prefix HeaderDLQPrefix k.

Lemma nats_prefix k : has_prefix natsHeaderPrefix k = has_prefix "nats-" k.
Proof. unfold has_prefix. by replace (ToLower natsHeaderPrefix) with (ToLower "nats-"). Qed.

Lemma user_key_kept k : user_key k = true -> dlq_dropped k = false.
Proof.
  unfold user_key, replay_dropped, dlq_dropped. rewrite nats_prefix.
  by destruct (has_prefix HeaderDLQPrefix k), (has_prefix _ k), (has_prefix "nats-" k).
Qed.

Lemma copy_headers_lookup l h orig k : NoDup l.*1 ->
  (copy_headers l h orig).1 !! k
  = if dlq_dropped k then h !! k
    else match (list_to_map l : Header) !! k with Some vs => Some vs | None => h !! k end.
Proof.
  revert h orig. induction l as [|[x vs] l IH]; intros h orig Hnd; cbn [copy_headers].
  { rewrite list_to_map_nil, lookup_empty. by destruct (dlq_dropped k). }
  apply NoDup_cons in Hnd as [Hx Hnd]. cbn [fst fmap list_fmap] in Hx.
  assert (Hk : forall h o, h = h -> (copy_headers l h o).1 !! k
    = if dlq_dropped k then h !! k
      else match (list_to_map l : Header) !! k with Some vs => Some vs | None => h !! k end)
    by (intros; by apply IH).
  rewrite list_to_map_cons.
  destruct (has_prefix natsHeaderPrefix x) eqn:Hn.
  { rewrite Hk by done. destruct (dlq_dropped k) eqn:Hd; [done|].
    rewrite lookup_insert_ne; [done|]. intros ->. unfold dlq_dropped in Hd. by rewrite Hn in Hd. }
  destruct (has_prefix HeaderDLQPrefix x) eqn:Hp.
  { rewrite Hk by done. destruct (dlq_dropped k) eqn:Hd; [done|].
    rewrite lookup_insert_ne; [done|]. intros ->. unfold dlq_dropped in Hd.
    by rewrite Hn, Hp in Hd. }
  rewrite Hk by done. destruct (decide (x = k)) as [->|Hne].
  - unfold dlq_dropped. rewrite Hn, Hp. simpl. rewrite !lookup_insert_eq.
    by rewrite (not_elem_of_list_to_map_1 _ _ Hx).
  - by rewrite !lookup_insert_ne.
Qed.

Section headers.
Context `{NatsLib} `{RangeOrder}.

Lemma dlqCopyHeaders_lookup src k :
  (dlqCopyHeaders src).1 !! k = if dlq_dropped k then None else default ∅ src !! k.
Proof.
  unfold dlqCopyHeaders. set (m := default ∅ src).
  assert (Hnd : NoDup (range_map m).*1).
  { rewrite (Permutation_map fst (range_perm m)). apply NoDup_fst_map_to_list. }
  rewrite copy_headers_lookup by done.
  assert (Hm : (list_to_map (range_map m) : Header) = m).
  { rewrite <- (list_to_map_to_list m) at 2. by apply list_to_map_proper, range_perm. }
  rewrite Hm, lookup_empty. by destruct (m !! k).
Qed.

Lemma set_headers_lookup f h k :
  set_headers f h !! k = match f !! k with Some v => Some [v] | None => h !! k end.
Proof.
  unfold set_headers. revert f.
  apply (map_fold_weak_ind (fun (g : Header) (f : gmap string string) =>
    g !! k = match f !! k with Some v => Some [v] | None => h !! k end)).
  { by rewrite lookup_empty. }
  intros x v f g _ IH. rewrite header_Set_spec. destruct (decide (x = k)) as [->|Hne].
  - by rewrite !lookup_insert_eq.
  - by rewrite !lookup_insert_ne.
Qed.

Lemma set_nonempty_lookup k v h x :
  set_nonempty k v h !! x = if String.eqb v "" then h !! x else if decide (x = k) then Some [v] else h !! x.
Proof.
  unfold set_nonempty. destruct (String.eqb v ""); [done|]. rewrite header_Set_spec.
  destruct (decide (x = k)) as [->|]; [by rewrite lookup_insert_eq|by rewrite lookup_insert_ne].
Qed.

(** Every failure header is one of a dead letter. *)
Lemma failure_keys r k v : FailureHeaders r !! k = Some v -> has_prefix HeaderDLQPrefix k = true.
Proof.
  intros Hk. destruct (FailureHeaders_table r) as [_ Hdom].
  assert (Hin : k ∈ (failure_fields r).*1)
    by (apply (elem_of_list_to_set (C := gset string)), Hdom, elem_of_dom; by exists v).
  assert (Hall : Forall (fun k => has_prefix HeaderDLQPrefix k = true) (failure_fields r).*1)
    by (unfold failure_fields; cbn [fmap list_fmap fst]; repeat constructor).
  rewrite Forall_forall in Hall. by apply Hall.
Qed.

Lemma failure_not_user r k : user_key k = true -> FailureHeaders r !! k = None.
Proof.
  intros Hu. destruct (FailureHeaders r !! k) eqn:Hk; [|done]. apply failure_keys in Hk.
  unfold user_key, replay_dropped in Hu. by rewrite Hk in Hu.
Qed.

Lemma user_key_ne k x : user_key k = true -> user_key x = false -> k <> x.
Proof. intros Hk Hx ->. congruence. Qed.

(** The headers of a dead letter, in full or the minimal ones. *)
Lemma dlq_headers_user r tp k : user_key k = true ->
  dlq_headers r tp !! k = default ∅ (rec_headers r) !! k
  /\ dlqMinimalHeaders r tp !! k = default ∅ (rec_headers r) !! k.
Proof.
  intros Hu. pose proof (user_key_kept k Hu) as Hd.
  pose proof (fun x => user_key_ne k x Hu) as Hne.
  pose proof (dlqCopyHeaders_lookup (rec_headers r) k) as Hc. rewrite Hd in Hc.
  split.
  - unfold dlq_headers. destruct (dlqCopyHeaders (rec_headers r)) as [h orig]. cbn [fst] in Hc.
    rewrite set_nonempty_lookup, decide_False by (by apply Hne).
    assert (Hs : set_headers (FailureHeaders r) h !! k = default ∅ (rec_headers r) !! k)
      by (by rewrite set_headers_lookup, failure_not_user).
    destruct (String.eqb tp ""); destruct (negb _); rewrite ?header_Set_spec, ?lookup_insert_ne; try done;
      by apply not_eq_sym, Hne.
  - unfold dlqMinimalHeaders. cbn [fold_left].
    assert (Hs : forall h o y, y <> k ->
      (match o with Some v => header_Set y v h | None => h end) !! k = h !! k).
    { intros h [v|] y Hy; [|done]. by rewrite header_Set_spec, lookup_insert_ne. }
    assert (Hs' : forall h (o : option string) y, y <> k ->
      (match o with Some v => header_Set y (TruncateHeader v dlqMinimalCauseLimit) h | None => h end) !! k
      = h !! k).
    { intros h [v|] y Hy; [|done]. by rewrite header_Set_spec, lookup_insert_ne. }
    rewrite Hs', !Hs by (by apply not_eq_sym, Hne).
    rewrite set_nonempty_lookup, decide_False by (by apply Hne). by destruct (String.eqb tp "").
Qed.

(** The subject a dead letter came from. *)
Lemma dlq_headers_subject r tp : rec_subject r <> "" ->
  let v := TruncateHeader (rec_subject r) DLQHeaderValueLimit in
  header_Get HeaderDLQOriginalSubject (dlq_headers r tp) = v
  /\ header_Get HeaderDLQOriginalSubject (dlqMinimalHeaders r tp) = v.
Proof.
  intros Hne v. destruct (FailureHeaders_table r) as [Hall _].
  assert (Hf : FailureHeaders r !! HeaderDLQOriginalSubject = Some v).
  { rewrite Forall_forall in Hall.
    specialize (Hall (HeaderDLQOriginalSubject, text_header (rec_subject r))). cbn [fst snd] in Hall.
    rewrite Hall by (unfold failure_fields; do 5 right; left).
    unfold text_header. by rewrite (proj2 (String.eqb_neq _ _) Hne). }
  rewrite !header_Get_spec. split.
  - unfold dlq_headers. destruct (dlqCopyHeaders (rec_headers r)) as [h orig].
    rewrite set_nonempty_lookup, decide_False by done.
    assert (Hs : set_headers (FailureHeaders r) h !! HeaderDLQOriginalSubject = Some [v])
      by (by rewrite set_headers_lookup, Hf).
    destruct (String.eqb tp ""); destruct (negb _); rewrite ?header_Set_spec, ?lookup_insert_ne by done;
      by rewrite Hs.
  - unfold dlqMinimalHeaders. cbn [fold_left]. rewrite Hf.
    assert (Hs' : forall h (o : option string) y f, y <> HeaderDLQOriginalSubject ->
      (match o with Some v => header_Set y (f v) h | None => h end) !! HeaderDLQOriginalSubject
      = h !! HeaderDLQOriginalSubject).
    { intros h [x|] y f Hy; [|done]. by rewrite header_Set_spec, lookup_insert_ne. }
    rewrite (Hs' _ _ _ (fun v => TruncateHeader v _)) by done.
    rewrite !(Hs' _ _ _ (fun v => v)) by done. by rewrite header_Set_spec, lookup_insert_eq.
Qed.
End headers.

(** ** Calls *)

(** Neither a message nor an acknowledgement. *)
Definition still {U} : relation (World U) := fun w w' =>
  messages (w_log w') = messages (w_log w) /\ actions (w_log w') = actions (w_log w).

#[export] Instance still_preorder U : PreOrder (@still U).
Proof.
  split; [done|]. intros w1 w2 w3 [H1 Ha1] [H2 Ha2]. split; congruence.
Qed.

(** What one call adds to the trace: messages and acknowledgements. *)
Definition adds {U} (sent : list (Z * NatsMsg * goerr)) (acts : list BrokerAction)
    (w w' : World U) : Prop :=
  messages (w_log w') = messages (w_log w) ++ sent /\ actions (w_log w') = actions (w_log w) ++ acts.

Lemma adds_still {U} (w w' : World U) : still w w' -> adds [] [] w w'.
Proof. unfold adds. rewrite !app_nil_r. by intros [? ?]. Qed.

Lemma adds_trans {U} s1 a1 s2 a2 (w w1 w2 : World U) :
  adds s1 a1 w w1 -> adds s2 a2 w1 w2 -> adds (s1 ++ s2) (a1 ++ a2) w w2.
Proof. intros [Hs Ha] [Hs' Ha']. split; by rewrite ?Hs', ?Ha', ?Hs, ?Ha, app_assoc. Qed.

(** The parts of a replay that are not of the program leave no trace of their own. *)
Record still_client {U} `{Stream U} `{Broker U} : Prop := {
  sc_publish c m : respects still (stream_publish (U := U) c m);
  sc_act m a : respects still (broker_act (U := U) m a);
}.
Arguments still_client U {_ _}.

Section calls.
Context {U : Type} `{NatsLib} `{Stream U} `{TraceSDK U} `{Broker U} (Hs : still_client U).
Implicit Types (w : World U) (c : Ctx) (m : JsMsg) (opts : ReplayOptions) (res : ReplayResult).

Lemma PublishMsg_adds c nm w r w' : PublishMsg c nm w = (Ret r, w') ->
  adds [(w_now w, nm, r.2)] [] w w'.
Proof using Hs.
  unfold PublishMsg. intros Hrun.
  apply bind_ret_inv in Hrun as (t & w1 & Ht & Hrun). apply now_inv in Ht as [-> ->].
  apply bind_ret_inv in Hrun as (r0 & w2 & Hp & Hrun).
  pose proof (respects_run _ _ _ _ _ (sc_publish Hs c nm) Hp) as [Hm Ha].
  apply bind_ret_inv in Hrun as ([] & w3 & Hl & Hrun). apply mret_inv in Hrun as [-> ->].
  unfold log_entry in Hl. injection Hl as <-. split; cbn [w_log].
  - by rewrite messages_app, Hm.
  - by rewrite actions_app, Ha.
Qed.

Lemma act_adds m a w e w' : act m a w = (Ret e, w') -> adds [] [a] w w'.
Proof using Hs.
  unfold act. intros Hrun. apply bind_ret_inv in Hrun as ([] & w1 & Hl & Hrun).
  pose proof (respects_run _ _ _ _ _ (sc_act Hs m a) Hrun) as [Hm Ha].
  unfold log_entry in Hl. injection Hl as <-. cbn [w_log] in Hm, Ha. split.
  - by rewrite Hm, messages_app.
  - by rewrite Ha, actions_app.
Qed.

(** The place of a record in its stream, and the message of its replay. *)
Definition record_seq m : option Z :=
  match jm_metadata m with inl md => Some (mm_stream_seq md) | inr _ => None end.
Definition replay_msg opts m (linked : bool) (tp : string) : NatsMsg :=
  let src := default ∅ (jm_headers m) in
  mkNatsMsg (replay_target opts src) (replay_headers opts src (record_seq m) linked tp) (jm_data m).
Definition record_valid opts m : bool :=
  validReplaySubject (replay_target opts (default ∅ (jm_headers m))).
Definition replayed_of opts m (s : Z * NatsMsg * goerr) : Prop :=
  record_valid opts m = true /\ exists linked tp, s.1.2 = replay_msg opts m linked tp.

Context `{Hk : !spans_keep still}.

Lemma still_oxParseTraceparent c tp : respects still (oxParseTraceparent c tp).
Proof.
  unfold oxParseTraceparent. apply respects_if; [by apply respects_ret, _|].
  apply respects_if; [by apply respects_ret, _|].
  apply respects_bind; [apply _|apply sk_context|]. intros sc. by apply respects_ret, _.
Qed.

(** One record: what it adds, how it counts and the error. *)
Lemma replayOne_inv r c m opts res w res' err w' :
  replayOne r c m opts res w = (Ret (res', err), w') ->
  let fails e := res' = mkReplayResult (rr_replayed res) (rr_failed res + 1)
    /\ err = Some (replay_error (ro_from_stream opts) (default 0 (record_seq m)) e) in
  if record_valid opts m
  then exists s, replayed_of opts m s /\
    match s.2 with
    | None => adds [s] [MsgAck] w w' /\ err = None
        /\ res' = mkReplayResult (rr_replayed res + 1) (rr_failed res)
    | Some e => adds [s] [MsgNak] w w' /\ fails e
    end
  else adds [] [MsgNak] w w' /\ fails (Sentinel ErrReplaySubject).
Proof using Hs Hk.
  intros Hrun. unfold replayOne in Hrun. cbv zeta. fold (record_seq m) in Hrun.
  unfold record_valid. destruct (validReplaySubject _) eqn:Hv; cbn [negb] in Hrun.
  2: { apply bind_ret_inv in Hrun as (e & w1 & Ha & Hrun). apply mret_inv in Hrun as [[= -> ->] ->].
       split; [by eapply act_adds|done]. }
  apply bind_ret_inv in Hrun as (failedSC & w1 & Hst1 & Hrun).
  apply (respects_run _ _ _ _ _ (still_oxParseTraceparent _ _)) in Hst1.
  apply bind_ret_inv in Hrun as (tracer & w2 & Hst2 & Hrun).
  apply (respects_run _ _ _ _ _ (keeps_tracer_of _ _ _)) in Hst2.
  apply bind_ret_inv in Hrun as ([sctx span] & w3 & Hst3 & Hrun).
  apply (respects_run _ _ _ _ _ (sk_start _ _ _ _ _ _)) in Hst3.
  apply bind_ret_inv in Hrun as (tp & w4 & Hst4 & Hrun).
  apply (respects_run _ _ _ _ _ (keeps_oxTraceparent _ _)) in Hst4.
  apply bind_ret_inv in Hrun as (p & w5 & Hp & Hrun). apply PublishMsg_adds in Hp.
  apply bind_ret_inv in Hrun as ([] & w6 & Hst6 & Hrun).
  apply (respects_run _ _ _ _ _ (keeps_fail_span _ _ _)) in Hst6.
  apply bind_ret_inv in Hrun as ([] & w7 & Hst7 & Hrun).
  apply (respects_run _ _ _ _ _ (sk_end _)) in Hst7.
  set (nm := replay_msg opts m (valid_context failedSC) tp) in *.
  assert (Hall : adds [(w_now w4, nm, p.2)] [] w w7).
  { apply (adds_trans [] [] _ [] w w4); [apply adds_still; by repeat (etransitivity; [eassumption|])|].
    rewrite <- (app_nil_r [_]). apply (adds_trans _ [] _ [] _ w5); [exact Hp|].
    apply adds_still. by etransitivity. }
  exists (w_now w4, nm, p.2). split; [split; [done|by do 2 eexists]|].
  cbn [snd]. destruct p.2 as [e|]; apply bind_ret_inv in Hrun as (e' & w8 & Ha & Hrun);
    apply mret_inv in Hrun as [[= -> ->] ->]; apply act_adds in Ha;
    (split; [by eapply (adds_trans [_] [] [] [_])|done]).
Qed.

(** The records after a failure. *)
Lemma replay_batch_rest r c opts ms res e w x w' :
  replay_batch r c opts ms res (Some e) w = (Ret x, w') ->
  x = (res, Some e) /\ adds [] (repeat MsgNak (length ms)) w w'.
Proof using Hs Hk.
  revert w. induction ms as [|m ms IH]; intros w Hrun; cbn [replay_batch] in Hrun.
  - apply mret_inv in Hrun as [-> ->]. split; [done|]. by apply adds_still.
  - apply bind_ret_inv in Hrun as (e' & w1 & Ha & Hrun). apply act_adds in Ha.
    apply IH in Hrun as [-> Hrun]. split; [done|]. by eapply (adds_trans [] [_] []).
Qed.

(** ** A run

    [k] records republished and acknowledged, then [n] handed back. *)
Record replay_run opts (ms : list JsMsg) (k n : nat) res res' (err : goerr) w w'
    (sent : list (Z * NatsMsg * goerr)) : Prop := {
  pr_all : length ms = (k + n)%nat;
  pr_adds : adds sent (repeat MsgAck k ++ repeat MsgNak n) w w';
  pr_replayed : rr_replayed res' = rr_replayed res + Z.of_nat k;
  pr_failed : rr_failed res' = rr_failed res + (if (0 <? n)%nat then 1 else 0);
  pr_err : (n = 0%nat -> err = None) /\ ((0 < n)%nat -> err <> None);
  pr_sent : (k <= length sent <= Nat.min (k + 1) (k + n))%nat;
  pr_ok : Forall (fun s => s.2 = None) (take k sent);
  pr_bad : Forall (fun s => s.2 <> None) (drop k sent);
  pr_msgs : Forall2 (replayed_of opts) (take (length sent) ms) sent;
}.

Lemma replay_run_nil opts res w w' : still w w' -> replay_run opts [] 0 0 res res None w w' [].
Proof.
  intros Hst. split; simpl; try done; try lia; [by apply adds_still|split; [done|lia]].
Qed.

Lemma replay_run_app opts ms1 ms2 k1 k2 n res res1 res2 err w w1 w2 s1 s2 :
  replay_run opts ms1 k1 0 res res1 None w w1 s1 ->
  replay_run opts ms2 k2 n res1 res2 err w1 w2 s2 ->
  replay_run opts (ms1 ++ ms2) (k1 + k2) n res res2 err w w2 (s1 ++ s2).
Proof.
  intros [Hl1 Ha1 Hr1 Hf1 _ Hs1 Ho1 _ Hm1] [Hl2 Ha2 Hr2 Hf2 He2 Hs2 Ho2 Hb2 Hm2].
  assert (Hlen : length s1 = k1) by lia.
  split; rewrite ?length_app; try lia.
  - replace (repeat MsgAck (k1 + k2) ++ repeat MsgNak n)
      with ((repeat MsgAck k1 ++ repeat MsgNak 0) ++ (repeat MsgAck k2 ++ repeat MsgNak n))
      by (by rewrite repeat_app, app_nil_r, app_assoc).
    by eapply adds_trans.
  - simpl in Hf1. lia.
  - exact He2.
  - rewrite take_app, Hlen. replace (k1 + k2 - k1)%nat with k2 by lia. apply Forall_app. split; [|done].
    rewrite take_ge by lia. by rewrite take_ge in Ho1 by lia.
  - rewrite drop_app, Hlen. replace (k1 + k2 - k1)%nat with k2 by lia.
    by rewrite drop_ge by lia.
  - rewrite take_app, (take_ge ms1) by lia.
    replace (length s1 + length s2 - length ms1)%nat with (length s2) by lia.
    apply Forall2_app; [|done]. by rewrite take_ge in Hm1 by lia.
Qed.

Lemma replay_batch_run r c opts ms res w res' err w' :
  replay_batch r c opts ms res None w = (Ret (res', err), w') ->
  exists k n sent, replay_run opts ms k n res res' err w w' sent.
Proof using Hs Hk.
  revert res w. induction ms as [|m ms IH]; intros res w Hrun; cbn [replay_batch] in Hrun.
  { apply mret_inv in Hrun as [[= -> ->] ->]. exists 0%nat, 0%nat, []. by apply replay_run_nil. }
  apply bind_ret_inv in Hrun as ([res1 err1] & w1 & Hone & Hrun).
  apply replayOne_inv in Hone. cbv zeta in Hone.
  assert (Hfail : forall sent e, (length sent <= 1)%nat -> Forall (fun s => s.2 <> None) sent ->
    Forall2 (replayed_of opts) (take (length sent) (m :: ms)) sent ->
    adds sent [MsgNak] w w1 -> res1 = mkReplayResult (rr_replayed res) (rr_failed res + 1) ->
    err1 = Some e ->
    exists k n sent, replay_run opts (m :: ms) k n res res' err w w' sent).
  { intros sent e Hlen Hbad Hof Hadd -> ->. apply replay_batch_rest in Hrun as [[= -> ->] Hrest].
    exists 0%nat, (S (length ms)), sent. split; simpl; try done; try lia.
    rewrite <- (app_nil_r sent). by apply (adds_trans sent [MsgNak] [] (repeat MsgNak (length ms)) w w1). }
  destruct (record_valid opts m).
  - destruct Hone as (s & Hof & Hs2). destruct s.2 as [e|] eqn:He.
    + destruct Hs2 as (Hadd & Hres & Herr). eapply (Hfail [s]); try done; [by constructor; [congruence|]|].
      simpl. constructor; [done|]. rewrite take_0. constructor.
    + destruct Hs2 as (Hadd & -> & ->). destruct (IH _ _ Hrun) as (k & n & sent & Hrest).
      exists (S k), n, (s :: sent).
      change (replay_run opts ([m] ++ ms) (1 + k) n res res' err w w' ([s] ++ sent)).
      eapply replay_run_app; [|exact Hrest].
      split; simpl; try done; try lia; try (split; [done|lia]);
        rewrite ?take_0; (constructor; [done|constructor]).
  - destruct Hone as (Hadd & Hres & Herr).
    eapply (Hfail []); [simpl; lia|constructor|simpl; constructor|exact Hadd|exact Hres|exact Herr].
Qed.
End calls.

(** ** Computations that keep a relation *)

Section keeps.
Context {U : Type} `{NatsLib} `{Stream U} `{TraceSDK U} `{Broker U}.
Context (R : relation (World U)) `{!PreOrder R} `{!spans_keep R}.
Context (Hlog : forall e, respects R (log_entry (U := U) e)).
Context (Hpublish : forall c m, respects R (stream_publish (U := U) c m)).
Context (Hact : forall m a, respects R (broker_act (U := U) m a)).

Lemma keeps_act m a : respects R (act (U := U) m a).
Proof using Type*. apply respects_bind; [done|apply Hlog|intros _; apply Hact]. Qed.

Lemma keeps_replayOne r c m opts res : respects R (replayOne (U := U) r c m opts res).
Proof using Type*.
  assert (Hret : forall A (a : A), respects R (mret (M := M U) a)) by (intros; by apply respects_ret).
  unfold replayOne. apply respects_if.
  { apply respects_bind; [done|apply keeps_act|intros; apply Hret]. }
  apply respects_bind; [done| |intros failedSC].
  { unfold oxParseTraceparent. repeat (apply respects_if; [apply Hret|]).
    apply respects_bind; [done|apply sk_context|intros; apply Hret]. }
  apply respects_bind; [done|by apply keeps_tracer_of|intros tracer].
  apply respects_bind; [done|apply sk_start|intros [sctx span]].
  apply respects_bind; [done|by apply keeps_oxTraceparent|intros tp].
  apply respects_bind; [done| |intros p].
  { apply respects_bind; [done|by intros w|intros t].
    apply respects_bind; [done|apply Hpublish|intros x].
    apply respects_bind; [done|apply Hlog|intros; apply Hret]. }
  apply respects_bind; [done|by apply keeps_fail_span|intros _].
  apply respects_bind; [done|apply sk_end|intros _].
  destruct p.2; (apply respects_bind; [done|apply keeps_act|intros; apply Hret]).
Qed.

Lemma keeps_replay_batch r c opts ms res err : respects R (replay_batch (U := U) r c opts ms res err).
Proof using Type*.
  revert res err. induction ms as [|m ms IH]; intros res err; cbn [replay_batch]; [by apply respects_ret|].
  destruct err; [apply respects_bind; [done|apply keeps_act|intros; apply IH]|].
  apply respects_bind; [done|apply keeps_replayOne|]. intros [res' err]. apply IH.
Qed.
End keeps.

(** ** The ledger of a consumer

    A ghost of the user state: the records the consumer has handed out so far. The
    theorems use it to speak of every record fetched. *)
Class FetchLedger (U : Type) := { fetched : U -> list JsMsg }.

Definition same_ledger {U} `{FetchLedger U} : relation (World U) := fun w w' =>
  fetched (w_user w') = fetched (w_user w).

#[export] Instance same_ledger_preorder U `{FetchLedger U} : PreOrder (@same_ledger U _).
Proof. split; [done|]. intros w1 w2 w3 H1 H2. unfold same_ledger in *. congruence. Qed.

(** Only fetches write the ledger. *)
Record ledger_kept {U} `{FetchLedger U} `{Stream U} `{Broker U} `{TraceSDK U} : Prop := {
  lk_publish c m : respects same_ledger (stream_publish (U := U) c m);
  lk_act m a : respects same_ledger (broker_act (U := U) m a);
  lk_spans : spans_keep (U := U) same_ledger;
}.
Arguments ledger_kept U {_ _ _ _}.

Lemma batch_ledger {U} `{NatsLib} `{FetchLedger U} `{Stream U} `{Broker U} `{TraceSDK U}
    r c opts ms res err : ledger_kept U -> respects same_ledger (replay_batch (U := U) r c opts ms res err).
Proof.
  intros [Hp Ha Hsp]. apply keeps_replay_batch; auto using same_ledger_preorder. by intros e w.
Qed.
