(* ===== verification/TracerSpec.v ===== *)
(** * Properties of the tracing invoker

    The consumer span starts before the handler, says what the handler returned,
    and ends however the handler leaves; the headers the replayer writes are the
    ones the links of a replayed message are read from. *)

From S2P Require Import Prelude GoErrors Types Failure Text Runtime Trace Invoke Invokers History HistorySpec.
From S2P Require Import Nats JetDlq Replayer ReplayerFacts Telemetry Tracer.
Local Open Scope string_scope.
Local Open Scope list_scope.
Local Open Scope Z_scope.

(** ** The documented trace API

    The calls a span received, in order: a span keeps them, and changes nothing
    else the program can see. [Start] returns its context with the new span in it,
    which [span_id] names. *)
Inductive span_op {U : Type} `{TraceSDK U} :=
| OpStart (sp : Span) (name : string) (kind : SpanKind) (attrs : list KeyValue) (links : list (SpanContext * list KeyValue))
| OpError (sp : Span) (e : error)
| OpAttributes (sp : Span) (attrs : list KeyValue)
| OpErrorStatus (sp : Span) (text : string)
| OpEnd (sp : Span).
Arguments span_op U {_}.

Class TraceLaws (U : Type) `{TraceSDK U} := {
  span_log : U -> list (span_op U);
  span_id : Span -> nat;
  law_start t c name kind attrs links w : exists sp u',
    tracer_Start t c name kind attrs links w = (Ret (with_span c (span_id sp), sp), (put_user u' w).2)
    /\ span_log u' = span_log (w_user w) ++ [OpStart sp name kind attrs links];
  law_error sp e w : exists u', span_RecordError sp e w = put_user u' w
    /\ span_log u' = span_log (w_user w) ++ [OpError sp e];
  law_attributes sp kvs w : exists u', span_SetAttributes sp kvs w = put_user u' w
    /\ span_log u' = span_log (w_user w) ++ [OpAttributes sp kvs];
  law_status sp text w : exists u', span_SetErrorStatus sp text w = put_user u' w
    /\ span_log u' = span_log (w_user w) ++ [OpErrorStatus sp text];
  law_end sp w : exists u', span_End sp w = put_user u' w
    /\ span_log u' = span_log (w_user w) ++ [OpEnd sp];
}.

Section contract.
Context {U : Type} `{TL : TraceLaws U} `{RangeOrder}.
Implicit Types (w : World U) (sp : Span).

(** What a span says of a result. *)
Definition error_ops sp (err : goerr) : list (span_op U) :=
  match err with
  | Some e => if Is err ErrDuplicate then []
              else [OpError sp e; OpAttributes sp [span_ErrorType err]; OpErrorStatus sp (error_text e)]
  | None => []
  end.

Lemma span_error_run sp err w :
  exists u', span_error sp err w = put_user u' w
    /\ span_log u' = span_log (w_user w) ++ error_ops sp err.
Proof using Type.
  assert (Hnone : exists u', (Ret tt, w) = put_user u' w
    /\ span_log u' = span_log (w_user w) ++ []) by (exists (w_user w); rewrite app_nil_r; by destruct w).
  unfold span_error, error_ops. destruct err as [e|]; [|exact Hnone].
  destruct (Is (Some e) ErrDuplicate); [exact Hnone|].
  destruct (law_error sp e w) as (u1 & H1 & L1).
  destruct (law_attributes sp [span_ErrorType (Some e)] (put_user u1 w).2) as (u2 & H2 & L2).
  destruct (law_status sp (error_text e) (put_user u2 w).2) as (u3 & H3 & L3).
  exists u3. split.
  - rewrite (bind_run _ _ _ _ _ H1). by rewrite (bind_run _ _ _ _ _ H2).
  - rewrite L3. simpl in *. rewrite L2, L1. by rewrite <- !app_assoc.
Qed.

#[export] Instance Tracer_ext i : ext_invoker (U := U) (Tracer_Invoke i).
Proof using Type.
  intros c evt h f g Hfg w. unfold Tracer_Invoke.
  destruct (MetadataFromContext c) as [md ?], (DeliveryFromContext c) as [d ?].
  apply bind_ext; [done|]. intros dest w1. destruct (replayLinks d) as [links kvs].
  apply bind_ext; [done|]. intros [c' sp] w2. apply deferring_ext; [|done].
  by apply bind_ext; [apply Hfg|].
Qed.
End contract.

(** C23: the consumer span. It is started before the handler, with the destination,
    the attributes and the links of the message; the handler runs in the context of
    the message with this very span as the active one; its result comes back unchanged, and the span has recorded the
    error, its type and its text, unless it is nil or a duplicate; and the span is
    ended exactly once, whether the handler returns, panics or leaves its
    goroutine. A destination that cannot be resolved starts no span. *)
Theorem tracer_contract {U : Type} `{TL : TraceLaws U} `{RangeOrder} (i : TracerInvoker (U := U))
    (c : Ctx) (evt : option Event) (handler : string) (fn : handler_fn U) (w : World U) :
  let md := (MetadataFromContext c).1 in
  let d := (DeliveryFromContext c).1 in
  match span_destination i c evt d w with
  | (Ret dest, w0) =>
      exists sp w1, let c' := with_span c (span_id sp) in
        span_log (w_user w1) = span_log (w_user w0)
          ++ [OpStart sp ("process " +:+ dest) SpanKindConsumer
                (span_attributes d md dest handler (replayLinks d).2) (replayLinks d).1]
        /\ w_log w1 = w_log w0 /\ w_now w1 = w_now w0
        /\ exists w3, Tracer_Invoke i c evt handler fn w = ((fn c' w1).1, w3)
             /\ span_log (w_user w3) = span_log (w_user (fn c' w1).2)
                  ++ (match (fn c' w1).1 with Ret err => error_ops sp err | _ => [] end) ++ [OpEnd sp]
             /\ w_log w3 = w_log (fn c' w1).2 /\ w_now w3 = w_now (fn c' w1).2
  | (Panicking v, w0) => Tracer_Invoke i c evt handler fn w = (Panicking v, w0)
  | (Goexit, w0) => Tracer_Invoke i c evt handler fn w = (Goexit, w0)
  end.
Proof.
  intros md d. unfold Tracer_Invoke. fold md d. subst md d.
  destruct (MetadataFromContext c) as [md ?], (DeliveryFromContext c) as [d ?]. cbn [fst].
  destruct (span_destination i c evt d w) as [[dest|v|] w0] eqn:Ed;
    [|unfold mbind, M_bind; by rewrite Ed..].
  rewrite (bind_run _ _ _ _ _ Ed).
  destruct (replayLinks d) as [links kvs]. cbn [fst snd].
  destruct (law_start (ti_tracer i) c ("process " +:+ dest) SpanKindConsumer (span_attributes d md dest handler kvs)
    links w0) as (sp & u1 & Hs & L1).
  exists sp, (put_user u1 w0).2. cbv zeta. set (c' := with_span c (span_id sp)) in *. split; [exact L1|]. split; [done|]. split; [done|].
  rewrite (bind_run _ _ _ _ _ Hs). cbv beta iota.
  unfold deferring. destruct (fn c' (put_user u1 w0).2) as [[err|v|] w2] eqn:Ef; cbn [fst snd].
  - rewrite (bind_run _ _ _ _ _ Ef). destruct (span_error_run sp err w2) as (u2 & H2 & L2).
    rewrite (bind_run _ _ _ _ _ H2). cbn.
    destruct (law_end sp (put_user u2 w2).2) as (u3 & H3 & L3). cbn in H3.
    rewrite (bind_run _ _ _ _ _ H3). eexists. split; [reflexivity|]. simpl in *.
    rewrite L3, L2. by rewrite <- app_assoc.
  - destruct (law_end sp w2) as (u3 & H3 & L3).
    unfold mbind, M_bind. rewrite Ef, H3. by eexists.
  - destruct (law_end sp w2) as (u3 & H3 & L3).
    unfold mbind, M_bind. rewrite Ef, H3. by eexists.
Qed.

(** ** Text in headers *)

(** ASCII text, byte by byte. *)
Definition ascii (s : string) : Prop := Forall (fun b => 0 <= b < 128) (to_bytes s).

Lemma ascii_runes l : Forall (fun b => 0 <= b < 128) l -> runes l = map (fun b => Rune [b]) l.
Proof.
  induction 1 as [|b l Hb _ IH]; [done|]. simpl. rewrite (proj2 (Z.ltb_lt b 128)) by lia. by rewrite IH.
Qed.

Lemma skip_plain (l : list Z) :
  Forall (fun b => 33 <= b < 127) l ->
  skip_spaces (map (fun b => Rune [b]) l) = map (fun b => Rune [b]) l.
Proof.
  destruct 1 as [|b l Hb _]; [done|]. simpl. unfold in_range.
  destruct (Z.leb_spec b 13); [lia|]. rewrite andb_false_r.
  by rewrite (proj2 (Z.eqb_neq b 32)) by lia.
Qed.

Lemma TrimSpace_pretty (z : Z) : TrimSpace (pretty z) = pretty z.
Proof.
  assert (Hn : Forall (fun b => 33 <= b < 127) (to_bytes (pretty z))).
  { eapply Forall_impl; [apply (Itoa_num z)|]. unfold num_byte. lia. }
  unfold TrimSpace. rewrite ascii_runes by (eapply Forall_impl; [exact Hn|]; simpl; lia).
  rewrite skip_plain by done. rewrite <- map_rev, skip_plain by (by apply Forall_rev).
  rewrite <- map_rev, rev_involutive. rewrite flat_map_concat_map, map_map. simpl.
  rewrite <- flat_map_concat_map.
  assert (Hid : forall l : list Z, flat_map (fun b => [b]) l = l) by (intros l; induction l; simpl; congruence).
  rewrite Hid. apply of_to_bytes.
Qed.

(** ** Keys *)

Lemma ascii_segs (f : seg -> list Z) s :
  (forall b, f (Rune [b]) = [lower_byte b]) -> ascii s ->
  flat_map f (runes (to_bytes s)) = map lower_byte (to_bytes s).
Proof.
  intros Hf Hs. rewrite ascii_runes by done. clear Hs.
  induction (to_bytes s) as [|b l IH]; [done|]. simpl. by rewrite Hf, IH.
Qed.
Lemma fold_ascii b : fold_seg (Rune [b]) = [lower_byte b].
Proof. unfold fold_seg. by rewrite !bool_decide_eq_false_2 by (intros [=]). Qed.
Lemma lower_ascii b : lower_seg (Rune [b]) = [lower_byte b].
Proof. unfold lower_seg. by rewrite !bool_decide_eq_false_2 by (intros [=]). Qed.

(** On ASCII keys folding is comparison in lower case. *)
Lemma EqualFold_lower k name :
  ascii k -> ascii name -> EqualFold k name = true -> ToLower k = ToLower name.
Proof.
  intros Hk Hn He. apply bool_decide_eq_true_1 in He. rewrite !(ascii_segs fold_seg) in He by (apply fold_ascii || done).
  unfold ToLower. by rewrite !(ascii_segs lower_seg), He by (apply lower_ascii || done).
Qed.

Lemma EqualFold_refl k : EqualFold k k = true.
Proof. by apply bool_decide_eq_true_2. Qed.

(** ** From the replayer to the tracer *)

Section replayed.
Context {U : Type} `{NatsLib} `{TraceSDK U} `{RangeOrder}.

(** The first key that matches is the name itself, whatever the order of the map. *)
Lemma headerValue_only h name :
  (forall k vs, h !! k = Some vs -> EqualFold k name = true -> k = name) ->
  headerValue h name = match h !! name with Some (v :: _) => (v, true) | _ => ("", false) end.
Proof using Type.
  intros Honly. unfold headerValue.
  assert (Hmem : forall k vs, (k, vs) ∈ range_map h <-> h !! k = Some vs).
  { intros k vs. rewrite range_perm. apply elem_of_map_to_list. }
  assert (Hgo : forall l, (forall k vs, (k, vs) ∈ l -> h !! k = Some vs) ->
    header_value l name = match h !! name with Some (v :: _) => (v, true) | _ => ("", false) end
    \/ (header_value l name = ("", false) /\ forall v vs, (name, v :: vs) ∉ l)).
  { induction l as [|[k vs] l IH]; intros Hl.
    { right. split; [done|]. intros v vs. apply not_elem_of_nil. }
    pose proof (Hl k vs ltac:(by left)) as Hk.
    specialize (IH (fun k' vs' Hin => Hl k' vs' (list_elem_of_further _ _ _ Hin))).
    cbn [header_value]. destruct vs as [|v vs].
    { destruct IH as [IH|[IH Hno]]; [by left|right]. split; [done|].
      intros v' vs' [?|?]%elem_of_cons; [congruence|by eapply Hno]. }
    destruct (EqualFold k name) eqn:Ef.
    { left. pose proof (Honly _ _ Hk Ef) as <-. by rewrite Hk. }
    destruct IH as [IH|[IH Hno]]; [by left|right]. split; [done|].
    intros v' vs' [Heq|Hin]%elem_of_cons; [|by eapply Hno].
    injection Heq as -> _ _. by rewrite EqualFold_refl in Ef. }
  destruct (Hgo (range_map h) (fun k vs => proj1 (Hmem k vs))) as [Hr|[Hr Hno]]; [done|].
  rewrite Hr. destruct (h !! name) as [[|v vs]|] eqn:E; [done| |done].
  apply Hmem in E. by apply Hno in E.
Qed.

Lemma replay_names_fold k name :
  In k [HeaderReplayTraceparent; HeaderReplayFailedTraceparent; HeaderReplayDLQSequence; "Nats-Msg-Id"] ->
  In name [HeaderReplayTraceparent; HeaderReplayFailedTraceparent; HeaderReplayDLQSequence] ->
  EqualFold k name = true -> k = name.
Proof using Type.
  simpl. intros Hk Hn. repeat destruct Hk as [<-|Hk]; repeat destruct Hn as [<-|Hn]; try done;
    intros He; vm_compute in He; discriminate.
Qed.

Lemma replay_name_prefix k name :
  In name [HeaderReplayTraceparent; HeaderReplayFailedTraceparent; HeaderReplayDLQSequence] ->
  ascii k -> EqualFold k name = true -> replay_dropped k = true.
Proof using Type.
  intros Hn Hk He.
  assert (Hl : ToLower k = ToLower name).
  { apply EqualFold_lower; [done| |done]. simpl in Hn.
    repeat destruct Hn as [<-|Hn]; [..|done]; unfold ascii; repeat constructor; done. }
  unfold replay_dropped, has_prefix. rewrite Hl.
  simpl in Hn. repeat destruct Hn as [<-|Hn]; [..|done]; vm_compute; reflexivity.
Qed.

(** The keys of a replayed record. *)
Lemma replay_headers_keys opts src seq linked tp k vs :
  (forall k, is_Some (src !! k) -> ascii k) ->
  replay_headers opts src (Some seq) linked tp !! k = Some vs ->
  In k [HeaderReplayTraceparent; HeaderReplayFailedTraceparent; HeaderReplayDLQSequence; "Nats-Msg-Id"]
  \/ ascii k /\ replay_dropped k = false.
Proof using Type.
  intros Hascii. unfold replay_headers, set_nonempty.
  rewrite !header_Set_spec, MsgIDHeader_spec. simpl In.
  repeat (rewrite lookup_insert; case_decide as Hd; [subst; tauto|clear Hd]).
  set (rest := if String.eqb tp "" then _ else _). intros Hk.
  assert (Hrest : rest !! k = Some vs \/ HeaderReplayFailedTraceparent = k).
  { destruct linked; [|by left]. rewrite lookup_insert in Hk.
    case_decide; tauto. }
  destruct Hrest as [Hr|Hr]; [|tauto]. clear Hk.
  assert (Hsrc : replayHeaders src !! k = Some vs \/ HeaderReplayTraceparent = k).
  { subst rest. destruct (String.eqb tp ""); [by left|]. rewrite lookup_insert in Hr.
    case_decide; tauto. }
  destruct Hsrc as [Hs|Hs]; [|tauto]. right.
  apply map_lookup_filter_Some in Hs as [Hs Hd]. split; [|exact Hd]. apply Hascii. by eexists.
Qed.

Lemma replay_headers_only opts src seq linked tp name k vs :
  (forall k, is_Some (src !! k) -> ascii k) ->
  In name [HeaderReplayTraceparent; HeaderReplayFailedTraceparent; HeaderReplayDLQSequence] ->
  replay_headers opts src (Some seq) linked tp !! k = Some vs -> EqualFold k name = true -> k = name.
Proof using Type.
  intros Hascii Hn Hk He.
  destruct (replay_headers_keys opts src seq linked tp k vs Hascii Hk) as [Hin|[Ha Hd]].
  - by apply replay_names_fold.
  - by rewrite (replay_name_prefix k name Hn Ha He) in Hd.
Qed.

(** The replay headers of a replayed record. *)
Lemma replayed_headers opts src seq linked tp :
  let h := replay_headers opts src (Some seq) linked tp in
  let failed := header_Get HeaderDLQTraceparent src in
  h !! HeaderReplayDLQSequence = Some [pretty seq]
  /\ h !! HeaderReplayFailedTraceparent = (if linked then Some [failed] else None)
  /\ h !! HeaderReplayTraceparent = (if String.eqb tp "" then None else Some [tp]).
Proof using Type.
  assert (Hno : forall k, replay_dropped k = true -> replayHeaders src !! k = None).
  { intros k Hd. apply map_lookup_filter_None. right. intros vs _ Hf. simpl in Hf. congruence. }
  unfold replay_headers, set_nonempty. rewrite !header_Set_spec, MsgIDHeader_spec. cbv zeta.
  split; [by rewrite lookup_insert_eq|]. rewrite !(lookup_insert_ne _ HeaderReplayDLQSequence) by done.
  rewrite !(lookup_insert_ne _ "Nats-Msg-Id") by done.
  split; destruct linked, (String.eqb tp "");
    rewrite ?header_Set_spec, ?lookup_insert_eq, ?lookup_insert_ne by done;
    rewrite ?lookup_insert_eq, ?lookup_insert_ne by done;
    try done; by rewrite Hno by (vm_compute; reflexivity).
Qed.
End replayed.

(** The links of a replayed message. The tracer reads from a replayed record,
    among any headers of the user and in any order of the map, the headers the
    replayer wrote: a link to the span of the dead letter when the replay span had one, a link to the replay span, the replayed mark, and the stream sequence as
    the 64-bit attribute OpenTelemetry has. *)
Theorem replay_links_roundtrip {U : Type} `{NatsLib} `{TraceSDK U} `{RangeOrder}
    (opts : ReplayOptions) (src : Header) (seq : Z) (linked : bool) (tp : string) (d : Delivery) :
  d_headers d = Some (replay_headers opts src (Some seq) linked tp) ->
  (forall k, is_Some (src !! k) -> ascii k) ->
  0 <= seq < 2 ^ 64 ->
  let failed := header_Get HeaderDLQTraceparent src in
  replayLinks d =
    (link_to (if linked then failed else "") linkTypeDeadLetter
       ++ link_to tp linkTypeReplay,
     [(AttrReplayed, ABool true); (AttrDLQSequence, AInt (wrap64 seq))]).
Proof.
  intros Hd Hascii Hseq failed. unfold replayLinks. rewrite Hd. cbn [default from_option]. unfold id.
  destruct (replayed_headers opts src seq linked tp) as (Hs & Hf & Hr). fold failed in Hf.
  pose proof (fun name k vs => replay_headers_only opts src seq linked tp name k vs Hascii) as Honly.
  set (h := replay_headers opts src (Some seq) linked tp) in *.
  rewrite decide_False by (intros E; rewrite E, lookup_empty in Hs; done).
  rewrite !headerValue_only by (intros k vs; apply Honly; simpl; tauto).
  rewrite Hs, Hf, Hr, TrimSpace_pretty, parse_pretty by done.
  destruct linked; destruct (String.eqb_spec tp "") as [->|Hne]; reflexivity.
Qed.

(** ** Concrete clients *)

#[local] Instance tr_nats : NatsLib := demo_nats.
#[local] Instance tr_range : RangeOrder.
Proof. by refine {| range_map h := map_to_list h |}. Defined.

(** A tracer that keeps the operations of its spans in the user state. *)
Inductive demo_op :=
| DStart (name : string) (kind : SpanKind) (attrs : list KeyValue) (links : list (string * list KeyValue))
| DError (e : error) | DAttributes (attrs : list KeyValue) | DStatus (text : string) | DEnd.

Definition demo_add (o : demo_op) : M (list demo_op) unit := u ← get_user; put_user (u ++ [o]).

#[local] Instance demo_trace : TraceSDK (list demo_op) := {|
  TracerProvider := unit; Tracer := unit; Span := unit; SpanContext := string;
  GetTracerProvider := mret tt;
  tp_Tracer _ _ := mret tt;
  tracer_Start _ c name kind attrs links :=
    _ ← demo_add (DStart name kind attrs links); mret (with_span c 7, tt);
  span_RecordError _ e := demo_add (DError e);
  span_SetAttributes _ kvs := demo_add (DAttributes kvs);
  span_SetErrorStatus _ text := demo_add (DStatus text);
  span_End _ := demo_add DEnd;
  SpanContextFromContext _ := mret "";
  tc_Inject _ := mret "00-replay";
  tc_Extract s := s;
  sc_IsValid s := String.prefix "00-" s;
  MessagingSystem s := ("messaging.system", AString s);
  MessagingOperationName s := ("messaging.operation.name", AString s);
  MessagingOperationTypeProcess := ("messaging.operation.type", AString "process");
  MessagingOperationTypeSend := ("messaging.operation.type", AString "send");
  MessagingDestinationName s := ("messaging.destination.name", AString s);
  MessagingMessageID s := ("messaging.message.id", AString s);
  span_ErrorType _ := ("error.type", AString "error");
|}.

Definition demo_span_op (o : demo_op) : span_op (list demo_op) :=
  match o with
  | DStart name kind attrs links => @OpStart _ demo_trace tt name kind attrs links
  | DError e => @OpError _ demo_trace tt e
  | DAttributes kvs => @OpAttributes _ demo_trace tt kvs
  | DStatus text => @OpErrorStatus _ demo_trace tt text
  | DEnd => @OpEnd _ demo_trace tt
  end.

#[local] Program Instance demo_trace_laws : TraceLaws (list demo_op) := {|
  span_log u := map demo_span_op u; span_id _ := 7%nat;
|}.
Next Obligation.
  intros t c name kind attrs links w. exists tt, (w_user w ++ [DStart name kind attrs links]).
  split; [done|]. by rewrite map_app.
Qed.
Next Obligation. intros [] e w. exists (w_user w ++ [DError e]). split; [done|]. by rewrite map_app. Qed.
Next Obligation. intros [] e w. exists (w_user w ++ [DAttributes e]). split; [done|]. by rewrite map_app. Qed.
Next Obligation. intros [] e w. exists (w_user w ++ [DStatus e]). split; [done|]. by rewrite map_app. Qed.
Next Obligation. intros [] w. exists (w_user w ++ [DEnd]). split; [done|]. by rewrite map_app. Qed.

Definition tr_src : Header :=
  {["Tenant" := ["acme"]; HeaderDLQTraceparent := ["00-failed"]]}.
Definition tr_delivery : Delivery :=
  mkDelivery 2 5 "orders.new" None (Some (replay_headers (mkReplayOptions "DLQ" "" 0 "" "") tr_src
    (Some 7) true "00-replay")) "" "" 0 zero_time "nats".

Lemma replay_links_roundtrip_witness :
  replayLinks tr_delivery =
    ([("00-failed", [(AttrLinkType, AString "dead_letter")]);
      ("00-replay", [(AttrLinkType, AString "replay")])],
     [(AttrReplayed, ABool true); (AttrDLQSequence, AInt 7)]).
Proof.
  assert (Hascii : forall k, is_Some (tr_src !! k) -> ascii k).
  { intros k [vs Hk]. unfold tr_src in Hk.
    apply lookup_insert_Some in Hk as [[<- _]|[_ Hk]]; [unfold ascii; repeat constructor; done|].
    apply lookup_singleton_Some in Hk as [<- _]. unfold ascii; repeat constructor; done. }
  rewrite (replay_links_roundtrip (mkReplayOptions "DLQ" "" 0 "" "") tr_src 7 true "00-replay" tr_delivery
    eq_refl Hascii ltac:(lia)). vm_compute. reflexivity.
Defined.

Definition tr_invoker : @TracerInvoker (list demo_op) demo_trace :=
  @mkTracerInvoker (list demo_op) demo_trace tt None.

(** A failing handler, on a message without a subject. *)
Example tracer_runs :
  map demo_span_op (w_user (Tracer_Invoke tr_invoker background
    (Some (plain_event "order.created")) "h" (fun _ => mret (Some (Sentinel ErrRateLimited)))
    (mkWorld 0 [] ∅ 0 ∅ ∅ [])).2)
  = [@OpStart _ demo_trace tt "process order.created" SpanKindConsumer
       [("messaging.system", AString "eventbus"); ("messaging.operation.name", AString "process");
        ("messaging.operation.type", AString "process");
        ("messaging.destination.name", AString "order.created");
        (AttrHandler, AString "h"); (AttrDeliveryCount, AInt 0)] [];
     @OpError _ demo_trace tt (Sentinel ErrRateLimited);
     @OpAttributes _ demo_trace tt [("error.type", AString "error")];
     @OpErrorStatus _ demo_trace tt (error_text (Sentinel ErrRateLimited));
     @OpEnd _ demo_trace tt].
Proof. vm_compute. reflexivity. Qed.

(** A handler that reads the active span of its context. *)
Lemma tracer_contract_witness :
  exists w1 w3,
    Tracer_Invoke tr_invoker background
      (Some (plain_event "order.created")) "h"
      (fun c => panic (mkAny (if decide (cx_span c = Some 7%nat) then "traced" else "untraced") None))
      (mkWorld 0 [] ∅ 0 ∅ ∅ []) = (Panicking (mkAny "traced" None), w3)
    /\ span_log (w_user w3) = span_log (w_user w1) ++ [@OpEnd _ demo_trace tt].
Proof.
  destruct (tracer_contract tr_invoker background
    (Some (plain_event "order.created")) "h"
    (fun c => panic (mkAny (if decide (cx_span c = Some 7%nat) then "traced" else "untraced") None))
    (mkWorld 0 [] ∅ 0 ∅ ∅ [])) as ([] & w1 & _ & _ & _ & w3 & Hr & Hl & _).
  exists w1, w3. split; [exact Hr|exact Hl].
Defined.
