(* ===== verification/ReplayerSpec.v ===== *)
(** * Properties of dead letters and their replay

    What a dead letter carries and where a replay sends it; what a run of [Replay]
    has published, acknowledged and handed back; and that it ends. *)

From S2P Require Import Prelude GoErrors Types Failure Text Runtime Trace History HistorySpec Emit Nats.
From S2P Require Import Jetstream JetstreamFacts JetDlq Replayer ReplayerFacts.
Local Open Scope string_scope.
Local Open Scope list_scope.
Local Open Scope Z_scope.
Local Opaque has_prefix.

(** ** Dead letters *)

Section dlq.
Context {U : Type} `{NatsLib} `{RangeOrder} `{Stream U} `{TraceSDK U} `{Fmt} `{Broker U}.
Context (Hs : still_client U) `{Hk : !spans_keep still}.
Implicit Types (w : World U) (c : Ctx) (r : DLQRecord).

(** The encoder of a registry sends nothing. *)
Definition still_encoder (d : DLQ U) (newid : M U string) : Prop :=
  respects still newid /\
  forall reg c evt md, dq_registry d = Some reg -> respects still (EncodeEvent c reg evt md).

(** The bytes of a record: those it came with, unless it has an event and none. *)
Definition keeps_bytes r (data : option string) : Prop :=
  rec_evt r = None \/ no_bytes (rec_raw r) = false -> data = rec_raw r.

Lemma still_dlq_data d newid c r : still_encoder d newid -> respects still (dlq_data d newid c r).
Proof.
  intros [Hid Henc]. unfold dlq_data.
  assert (Hret : forall A (a : A), respects still (mret (M := M U) a))
    by (intros; by apply respects_ret, _).
  assert (Hname : forall evt, respects still (Name (U := U) evt))
    by (intros evt w; unfold Name; by destruct (ev_name_panics evt)).
  destruct (rec_evt r) as [evt|]; [|by apply Hret]. apply respects_if; [|by apply Hret].
  destruct (dq_registry d) as [reg|] eqn:Hreg; [|by apply Hret].
  destruct (MetadataFromContext c) as [md ok].
  apply respects_bind; [apply _| |intros md'].
  - apply respects_if; [by apply Hret|]. intros w. unfold mbind, M_bind.
    destruct (ApplyEmitOptions evt [] w) as [[cfg|v|] w1] eqn:Hc.
    + apply ApplyEmitOptions_inv in Hc as [-> ->]. by apply keeps_ResolveOutbound; [apply _| |].
    + unfold ApplyEmitOptions in Hc. pose proof (Hname evt w) as Hn. unfold mbind, M_bind in Hc.
      destruct (Name evt w) as [[n|v'|] w2]; by simplify_eq/=.
    + unfold ApplyEmitOptions, Name in Hc. by destruct (ev_name_panics evt).
  - apply respects_bind; [apply _|by apply Henc|intros [enc err]].
    destruct err as [e|]; [|by apply Hret].
    apply respects_bind; [apply _|apply Hname|intros; by apply Hret].
Qed.

Lemma dlq_data_bytes d newid c r :
  yields (U := U) (fun o => match o with inl data => keeps_bytes r data | inr _ => True end)
    (dlq_data d newid c r).
Proof.
  unfold dlq_data, keeps_bytes. destruct (rec_evt r) as [evt|]; [|by apply yields_ret].
  destruct (no_bytes (rec_raw r)); [|by apply yields_ret].
  destruct (dq_registry d) as [reg|]; [|by apply yields_ret].
  destruct (MetadataFromContext c) as [md ok]. apply yields_bind. intros md'.
  apply yields_bind. intros [enc [e|]].
  - apply yields_bind. intros name. by apply yields_ret.
  - apply yields_ret. by intros [|].
Qed.

(** The dead letter of a record, with all its headers or with the minimal ones. *)
Definition dead_letter (d : DLQ U) r (tp : string) (minimal : bool) (data : option string) : NatsMsg :=
  mkNatsMsg (dq_prefix d +:+ dlqSubject r)
    (if minimal then dlqMinimalHeaders r tp else dlq_headers r tp) data.

(** What a publish of a record has sent. *)
Lemma DLQ_Publish_inv d newid c r w err w' :
  still_encoder d newid -> DLQ_Publish d newid c r w = (Ret err, w') ->
  (exists e, err = Some e /\ adds [] [] w w') \/
  exists tp data t1 e1, keeps_bytes r data /\
    if Is e1 ErrMaxPayload
    then exists t2, adds [(t1, dead_letter d r tp false data, e1); (t2, dead_letter d r tp true data, err)]
                      [] w w'
    else err = e1 /\ adds [(t1, dead_letter d r tp false data, e1)] [] w w'.
Proof using Hs Hk.
  intros Henc Hrun. unfold DLQ_Publish in Hrun.
  apply bind_ret_inv in Hrun as (o & w1 & Hd & Hrun).
  pose proof (respects_run _ _ _ _ _ (still_dlq_data d newid c r Henc) Hd) as Hst1.
  pose proof (dlq_data_bytes d newid c r _ _ _ Hd) as Hbytes. cbn beta in Hbytes.
  destruct o as [data|e].
  2: { apply mret_inv in Hrun as [-> ->]. left. exists e. split; [done|by apply adds_still]. }
  right. apply bind_ret_inv in Hrun as (tp & w2 & Htp & Hrun).
  pose proof (respects_run _ _ _ _ _ (keeps_oxTraceparent _ c) Htp) as Hst2.
  apply bind_ret_inv in Hrun as (e1 & w3 & Hsend & Hrun).
  assert (Hsent : forall h w e w', send c (dq_prefix d +:+ dlqSubject r) h data w = (Ret e, w') ->
    exists t, adds [(t, mkNatsMsg (dq_prefix d +:+ dlqSubject r) h data, e)] [] w w').
  { intros h v e v' Hsd. apply bind_ret_inv in Hsd as (x & v1 & Hp & Hsd).
    apply mret_inv in Hsd as [-> ->]. eexists. by apply (PublishMsg_adds Hs c). }
  apply Hsent in Hsend as [t1 Ha1]. exists tp, data, t1, e1. split; [done|].
  assert (Ha1' : adds [(t1, dead_letter d r tp false data, e1)] [] w w3).
  { apply (adds_trans [] [] _ _ _ w2); [|done]. apply adds_still. by etransitivity. }
  destruct (Is e1 ErrMaxPayload).
  - apply Hsent in Hrun as [t2 Ha2]. exists t2. by apply (adds_trans [_] [] [_] [] w w3).
  - by apply mret_inv in Hrun as [-> ->].
Qed.

(** A valid subject of text comes back from its header unchanged. *)
Lemma subject_kept s :
  validReplaySubject s = true -> valid (to_bytes s) -> len s <= DLQHeaderValueLimit ->
  TruncateHeader s DLQHeaderValueLimit = s.
Proof.
  intros Hv (rs & Hrs & Hl) Hlen. unfold TruncateHeader.
  rewrite truncate_bytes_id; [apply of_to_bytes| |by rewrite length_to_bytes].
  unfold validReplaySubject in Hv. destruct (String.eqb s ""); [done|].
  apply andb_prop in Hv as [Hv _]. apply negb_true_iff in Hv. rewrite Hl, runes_concat in Hv by done.
  exists rs. split; [|done].
  rewrite Forall_forall in Hrs |- *. intros bs Hin. split; [by apply Hrs|].
  destruct (IsControl bs) eqn:Hc; [|done]. rewrite <- Hv. symmetry.
  apply existsb_exists. exists (Rune bs). split; [|simpl; by rewrite Hc, orb_true_r].
  apply in_map_iff. exists bs. split; [done|]. by apply list_elem_of_In.
Qed.
End dlq.

(** ** Replayed headers *)

Section headers.
Context `{NatsLib}.

Lemma replay_headers_lookup opts src seq linked tp k :
  has_prefix replayHeaderPrefix k = false -> has_prefix "nats-" k = false ->
  replay_headers opts src seq linked tp !! k = if has_prefix HeaderDLQPrefix k then None else src !! k.
Proof.
  intros Hr Hn. unfold replay_headers.
  assert (Hne : forall x, has_prefix replayHeaderPrefix x || has_prefix "nats-" x = true -> x <> k)
    by (intros x Hx He; subst x; rewrite Hr in Hx; rewrite Hn in Hx; discriminate Hx).
  assert (Hbase : replayHeaders src !! k = if has_prefix HeaderDLQPrefix k then None else src !! k).
  { assert (Hd : replay_dropped k = has_prefix HeaderDLQPrefix k)
      by (unfold replay_dropped; rewrite Hr, Hn, !orb_false_r; reflexivity).
    unfold replayHeaders. rewrite map_lookup_filter. destruct (src !! k) as [v|]; simpl.
    - rewrite <- Hd. destruct (replay_dropped k); reflexivity.
    - destruct (has_prefix HeaderDLQPrefix k); reflexivity. }
  assert (Hset : forall x v h, has_prefix replayHeaderPrefix x || has_prefix "nats-" x = true ->
    header_Set x v h !! k = h !! k).
  { intros x v h Hx. rewrite header_Set_spec, lookup_insert_ne; [done|by apply Hne]. }
  assert (Hrest : (if linked
    then header_Set HeaderReplayFailedTraceparent (header_Get HeaderDLQTraceparent src)
           (set_nonempty HeaderReplayTraceparent tp (replayHeaders src))
    else set_nonempty HeaderReplayTraceparent tp (replayHeaders src)) !! k = replayHeaders src !! k).
  { assert (Htp : set_nonempty HeaderReplayTraceparent tp (replayHeaders src) !! k = replayHeaders src !! k)
      by (unfold set_nonempty; destruct (String.eqb tp ""); [done|by apply Hset; vm_compute]).
    destruct linked; [rewrite Hset by (by vm_compute)|]; done. }
  destruct seq as [seq|]; [|by rewrite Hrest].
  rewrite Hset by (by vm_compute). rewrite Hset by (rewrite MsgIDHeader_spec; by vm_compute).
  by rewrite Hrest.
Qed.

Lemma replay_headers_user opts src seq linked tp k : user_key k = true ->
  replay_headers opts src seq linked tp !! k = src !! k.
Proof.
  unfold user_key, replay_dropped. intros Hu. apply negb_true_iff in Hu.
  apply orb_false_elim in Hu as [Hu Hn]. apply orb_false_elim in Hu as [Hd Hr].
  by rewrite replay_headers_lookup, Hd.
Qed.

Lemma replay_headers_id opts src seq linked tp :
  header_Get MsgIDHeader (replay_headers opts src (Some seq) linked tp) = replay_id opts src seq.
Proof.
  unfold replay_headers. rewrite Get_Set, decide_False by (by rewrite MsgIDHeader_spec).
  by rewrite Get_Set, decide_True.
Qed.
End headers.

(** ** The loop *)

Section replay.
Context {U : Type} `{NatsLib} `{Stream U} `{TraceSDK U} `{Broker U} `{ReplayBackend U} `{FetchLedger U}.
Context (Hs : still_client U) `{Hk : !spans_keep still}.
Implicit Types (r : Replayer).
Implicit Types (w : World U) (c : Ctx) (m : JsMsg) (opts : ReplayOptions) (res : ReplayResult).

(** A consumer that enters the records it hands out in the ledger, never more than
    it was asked for, and leaves the trace alone. *)
Definition fetch_ok (fetch : Consumer U) : Prop := forall n, 0 < n ->
  respects still (fetch n) /\
  forall w f w', fetch n w = (Ret f, w') ->
    match f with
    | inl b => fetched (w_user w') = fetched (w_user w) ++ bt_messages b
        /\ Z.of_nat (length (bt_messages b)) <= n
    | inr _ => fetched (w_user w') = fetched (w_user w)
    end.

(** What a fetch yields when the stream has no more records. *)
Definition no_records (f : batch + error) : Prop :=
  match f with
  | inl b => bt_messages b = []
      /\ match bt_error b with Some e => errors_is e ErrNoMessages = true | None => True end
  | inr e => errors_is e ErrNoMessages = true
  end.

(** Why a replay without an error is over: the limit is reached, or the last thing it
    did was a fetch that found no records. *)
Definition replay_over opts (fetch : Consumer U) res w' : Prop :=
  (0 < ro_limit opts /\ rr_replayed res = ro_limit opts)
  \/ exists n f v, fetch n v = (Ret f, w') /\ no_records f.

(** What a run of the loop has done. *)
Definition loop_done opts (fetch : Consumer U) res res' (err : goerr) w w' : Prop :=
  exists ms k n sent rerr, fetched (w_user w') = fetched (w_user w) ++ ms
    /\ replay_run opts ms k n res res' rerr w w' sent
    /\ ((0 < n)%nat -> err = rerr)
    /\ (0 < ro_limit opts -> rr_replayed res' <= ro_limit opts)
    /\ (err = None -> replay_over opts fetch res' w').

Lemma still_err c : respects still (Err (U := U) c).
Proof. by intros w. Qed.

Lemma replay_run_size opts ms k n res res' err w w' sent :
  replay_run opts ms k n res res' err w w' sent ->
  rr_replayed res' <= rr_replayed res + Z.of_nat (length ms).
Proof. intros [Hl _ Hr _ _ _ _ _ _]. lia. Qed.

(** A finished run of the loop. *)
Lemma replay_loop_run r fuel fetch c opts : ledger_kept U -> fetch_ok fetch ->
  forall res w res' err w',
  (0 < ro_limit opts -> rr_replayed res <= ro_limit opts) ->
  replay_loop r fuel fetch c opts res w = (Ret (Some (res', err)), w') ->
  loop_done opts fetch res res' err w w'.
Proof using Hs Hk.
  intros Hled Hf. induction fuel as [|fuel IH]; intros res w res' err w' Hlim Hrun;
    cbn [replay_loop] in Hrun; [done|].
  assert (Hstop : forall w1 x e, still w w1 -> fetched (w_user w1) = fetched (w_user w) ->
    (e = None -> replay_over opts fetch res w1) -> (Ret (Some (x, e)), w1)
    = (@Ret (any error) _ (Some (res', err)), w') -> x = res -> loop_done opts fetch res res' err w w').
  { intros w1 x e Hst Hfe Hov [= -> -> ->] ->. exists [], 0%nat, 0%nat, [], None.
    split; [by rewrite app_nil_r|]. split; [by apply replay_run_nil|]. split; [lia|]. by split. }
  apply bind_ret_inv in Hrun as (e & w1 & [= <- <-] & Hrun).
  destruct (ctx_err (w_now w) c) as [e|]; [by eapply (Hstop w _ (Some e)); [..|exact Hrun|]|].
  destruct (fetch_size opts res) as [n|] eqn:Hsize.
  2: { eapply (Hstop w _ None); [..|exact Hrun|]; try done. intros _. left. unfold fetch_size in Hsize.
       destruct (Z.ltb_spec 0 (ro_limit opts)); [|done].
       destruct (Z.leb_spec (ro_limit opts - rr_replayed res) 0); [|done]. specialize (Hlim ltac:(done)). lia. }
  apply bind_ret_inv in Hrun as (f & w2 & Hfetch & Hrun).
  assert (Hpos : 0 < n).
  { unfold fetch_size in Hsize. destruct (0 <? ro_limit opts); [|by injection Hsize as <-].
    destruct (Z.leb_spec (ro_limit opts - rr_replayed res) 0); [done|]. injection Hsize as <-.
    unfold replayBatchSize. lia. }
  destruct (Hf n Hpos) as [Hst Hy].
  pose proof (respects_run _ _ _ _ _ Hst Hfetch) as Hst2. specialize (Hy _ _ _ Hfetch).
  destruct f as [b|e].
  2: { eapply (Hstop w2); [exact Hst2|exact Hy| |exact Hrun|done]. intros He. right. exists n, (inr e), w.
       split; [done|]. simpl. by destruct (errors_is e ErrNoMessages). }
  destruct Hy as [Hent Hn].
  apply bind_ret_inv in Hrun as ([res1 recErr] & w3 & Hb & Hrun).
  pose proof (respects_run _ _ _ _ _ (batch_ledger r c opts (bt_messages b) res None Hled) Hb) as Hl3.
  unfold same_ledger in Hl3. rewrite Hent in Hl3.
  assert (Hsame : bt_messages b = [] -> w3 = w2).
  { intros He. rewrite He in Hb. cbn [replay_batch] in Hb. by apply mret_inv in Hb as [_ ->]. }
  apply (replay_batch_run Hs) in Hb as (k & n1 & sent & Hb).
  assert (Hb' : replay_run opts (bt_messages b) k n1 res res1 recErr w w3 sent).
  { change (replay_run opts ([] ++ bt_messages b) (0 + k) n1 res res1 recErr w w3 ([] ++ sent)).
    eapply replay_run_app; [by apply replay_run_nil|done]. }
  assert (Hlim1 : 0 < ro_limit opts -> rr_replayed res1 <= ro_limit opts).
  { intros Hlp. pose proof (replay_run_size _ _ _ _ _ _ _ _ _ _ Hb'). specialize (Hlim Hlp).
    unfold fetch_size in Hsize. rewrite (proj2 (Z.ltb_lt _ _) Hlp) in Hsize.
    destruct (_ <=? 0); [done|]. injection Hsize as <-. unfold replayBatchSize in Hn. lia. }
  assert (Hend : forall e0, (Ret (Some (res1, e0)), w3) = (@Ret (any error) _ (Some (res', err)), w') ->
    ((0 < n1)%nat -> e0 = recErr) -> (e0 = None -> no_records (inl b)) ->
    loop_done opts fetch res res' err w w').
  { intros e0 [= -> -> ->] He0 Hov. exists (bt_messages b), k, n1, sent, recErr.
    do 4 (split; [done|]). intros He. right. exists n, (inl b), w. destruct (Hov He) as [Hnil He'].
    by rewrite (Hsame Hnil). }
  destruct recErr as [re|]; [by eapply (Hend _ Hrun)|].
  assert (Hn1 : n1 = 0%nat).
  { destruct (pr_err _ _ _ _ _ _ _ _ _ _ Hb') as [_ Hne]. destruct n1; [done|].
    by destruct (Hne ltac:(lia)). }
  subst n1.
  assert (Hmore : replay_loop r fuel fetch c opts res1 w3 = (Ret (Some (res', err)), w') ->
    loop_done opts fetch res res' err w w').
  { intros Hl. destruct (IH _ _ _ _ _ Hlim1 Hl) as (ms & k2 & n2 & sent2 & rerr & HP2 & Hr2 & He2 & Hl2).
    exists (bt_messages b ++ ms), (k + k2)%nat, n2, (sent ++ sent2), rerr.
    split; [by rewrite HP2, Hl3, app_assoc|]. split; [by eapply replay_run_app|done]. }
  destruct (bt_error b) as [be|] eqn:Hbe.
  - destruct (errors_is be ErrNoMessages) eqn:Hno; [|by eapply (Hend _ Hrun); [lia|]].
    destruct (bt_messages b) as [|m0 ms0] eqn:Hms; [|by apply Hmore].
    eapply (Hend _ Hrun); [lia|]. intros _. simpl. by rewrite Hms, Hbe.
  - destruct (bt_messages b) as [|m0 ms0] eqn:Hms; [|by apply Hmore].
    eapply (Hend _ Hrun); [lia|]. intros _. simpl. by rewrite Hms, Hbe.
Qed.

(** ** Termination *)

(** The client answers every call. *)
Record answering : Prop := {
  an_publish c nm : returns (stream_publish (U := U) c nm);
  an_act m a : returns (broker_act (U := U) m a);
}.

Context `{!spans_return U}.

Lemma returns_oxParseTraceparent c tp : returns (oxParseTraceparent c tp).
Proof.
  unfold oxParseTraceparent. repeat (apply returns_if; [apply returns_ret|]).
  apply returns_bind; [apply sr_context|intros; apply returns_ret].
Qed.

Lemma returns_act m a : answering -> returns (act (U := U) m a).
Proof. intros Ha. apply returns_bind; [apply returns_log|intros _; by apply an_act]. Qed.

Lemma returns_replayOne r c m opts res : answering -> returns (replayOne (U := U) r c m opts res).
Proof.
  intros Ha. unfold replayOne. apply returns_if.
  - apply returns_bind; [by apply returns_act|intros; apply returns_ret].
  - apply returns_bind; [apply returns_oxParseTraceparent|intros failedSC].
    apply returns_bind; [apply returns_tracer_of|intros tracer].
    apply returns_bind; [apply sr_start|intros [sctx span]].
    apply returns_bind; [apply returns_oxTraceparent|intros tp].
    apply returns_bind; [|intros p].
    { apply returns_bind; [apply returns_now|intros t].
      apply returns_bind; [by apply an_publish|intros x].
      apply returns_bind; [apply returns_log|intros; apply returns_ret]. }
    apply returns_bind; [apply returns_fail_span|intros _].
    apply returns_bind; [apply sr_end|intros _].
    destruct p.2; (apply returns_bind; [by apply returns_act|intros; apply returns_ret]).
Qed.

Lemma returns_replay_batch r c opts ms res err : answering ->
  returns (replay_batch (U := U) r c opts ms res err).
Proof.
  intros Ha. revert res err. induction ms as [|m ms IH]; intros res err; cbn [replay_batch];
    [apply returns_ret|].
  destruct err; [apply returns_bind; [by apply returns_act|intros; apply IH]|].
  apply returns_bind; [by apply returns_replayOne|]. intros [res' err]. apply IH.
Qed.

(** A measure that every batch of replayed records makes smaller. *)
Definition decreasing r opts c (fetch : Consumer U) (size : ReplayResult -> World U -> nat) : Prop :=
  forall res w n b w1 res' w2,
    fetch_size opts res = Some n -> fetch n w = (Ret (inl b), w1) -> bt_messages b <> [] ->
    replay_batch r c opts (bt_messages b) res None w1 = (Ret (res', None), w2) ->
    (size res' w2 < size res w)%nat.

Lemma replay_loop_ends r fetch c opts size :
  answering -> (forall n, returns (fetch n)) -> decreasing r opts c fetch size ->
  forall fuel res w, (size res w < fuel)%nat ->
  exists out w', replay_loop r fuel fetch c opts res w = (Ret (Some out), w').
Proof.
  intros Ha Hf Hdec. induction fuel as [|fuel IH]; intros res w Hfuel; [lia|]. cbn [replay_loop].
  erewrite bind_run by reflexivity. destruct (ctx_err (w_now w) c); [by do 2 eexists|].
  destruct (fetch_size opts res) as [n|] eqn:Hn; [|by do 2 eexists].
  destruct (Hf n w) as [f Hfetch]. apply ran in Hfetch. erewrite bind_run by exact Hfetch.
  destruct f as [b|e]; [|by do 2 eexists].
  destruct (returns_replay_batch r c opts (bt_messages b) res None Ha (fetch n w).2) as [[res1 re] Hb].
  apply ran in Hb. erewrite bind_run by exact Hb. cbn iota beta.
  destruct re as [re|]; [by do 2 eexists|].
  assert (Hmore : bt_messages b <> [] -> exists out w',
    replay_loop r fuel fetch c opts res1 (replay_batch r c opts (bt_messages b) res None (fetch n w).2).2
    = (Ret (Some out), w')).
  { intros Hne. apply IH. specialize (Hdec res w n b _ res1 _ Hn Hfetch Hne Hb). lia. }
  destruct (bt_messages b) as [|m ms]; cbn [head is_nil];
    (destruct (bt_error b) as [be|]; [destruct (errors_is be ErrNoMessages)|]);
    first [by do 2 eexists | by apply Hmore].
Qed.

(** With a limit the records still wanted get fewer. *)
Lemma decreasing_limit r c opts fetch : 0 < ro_limit opts ->
  decreasing r opts c fetch (fun res _ => Z.to_nat (ro_limit opts - rr_replayed res)).
Proof using Hs Hk.
  intros Hlim res w n b w1 res' w2 Hsize _ Hne Hb.
  apply (replay_batch_run Hs) in Hb as (k & n1 & sent & [Hl _ Hr _ [_ He] _ _ _ _]).
  destruct n1; [|by destruct (He ltac:(lia))].
  destruct (bt_messages b); [done|]. simpl in Hl.
  unfold fetch_size in Hsize. rewrite (proj2 (Z.ltb_lt _ _) Hlim) in Hsize.
  destruct (Z.leb_spec (ro_limit opts - rr_replayed res) 0); [done|]. lia.
Qed.
End replay.
Arguments answering U {_ _}.

(** * Properties *)

Section properties.
Context {U : Type} `{NatsLib} `{RangeOrder} `{Stream U} `{TraceSDK U} `{Fmt} `{Broker U}.
Context `{ReplayBackend U} `{!spans_keep still}.
Implicit Types (rp : Replayer).
Implicit Types (w : World U) (c : Ctx) (r : DLQRecord) (m : JsMsg) (opts : ReplayOptions).

(** C16: dead letters come back. A record stored in the dead-letter stream, with all
    its failure headers or with the minimal ones after the broker found it too
    large, is replayed to the subject it came from, with the bytes it came with
    and every header of the user as it was; the stored message is acknowledged
    exactly when the publish succeeds. This holds of a record whose original subject
    is a valid replay target, valid UTF-8 and no longer than a failure header may be
    ([DLQHeaderValueLimit], 1024 bytes; a longer one comes back under another subject,
    [long_subject_redirected]), when the replay does not override the subject. *)
Theorem dead_letter_roundtrip (d : DLQ U) (newid : M U string) c r rp w w1 (t : Z) (stored : NatsMsg)
    c2 m opts res w2 res' (err : goerr) w3 :
  still_client U -> still_encoder d newid ->
  validReplaySubject (rec_subject r) = true -> valid (to_bytes (rec_subject r)) ->
  len (rec_subject r) <= DLQHeaderValueLimit ->
  DLQ_Publish d newid c r w = (Ret None, w1) ->
  last (messages (w_log w1)) = Some (t, stored, None) ->
  jm_data m = nm_data stored -> jm_headers m = Some (nm_header stored) -> ro_to_subject opts = "" ->
  replayOne rp c2 m opts res w2 = (Ret (res', err), w3) ->
  nm_subject stored = dq_prefix d +:+ rec_subject r /\
  exists t' again e, messages (w_log w3) = messages (w_log w2) ++ [(t', again, e)]
    /\ nm_subject again = rec_subject r /\ nm_data again = nm_data stored
    /\ keeps_bytes r (nm_data again)
    /\ (forall k, user_key k = true -> nm_header again !! k = default ∅ (rec_headers r) !! k)
    /\ actions (w_log w3) = actions (w_log w2) ++ [if e is None then MsgAck else MsgNak]
    /\ (err = None <-> e = None).
Proof.
  intros Hs Henc Hvalid Hutf Hlen Hpub Hlast Hdata Hhead Hto Hone.
  assert (Hne : rec_subject r <> "") by (intros He; by rewrite He in Hvalid).
  assert (Hsub : dlqSubject r = rec_subject r)
    by (unfold dlqSubject; by rewrite (proj2 (String.eqb_neq _ _) Hne)).
  assert (Hst : exists tp data min, keeps_bytes r data /\ stored = dead_letter d r tp min data).
  { apply (DLQ_Publish_inv Hs) in Hpub as [(e & He & _)|(tp & data & t1 & e1 & Hb & Hcase)]; [done| |done].
    destruct (Is e1 ErrMaxPayload).
    - destruct Hcase as (t2 & Hm & _). rewrite Hm, (last_app_cons _ [_]) in Hlast.
      injection Hlast as _ <-. by exists tp, data, true.
    - destruct Hcase as (_ & Hm & _). rewrite Hm, last_snoc in Hlast. injection Hlast as _ <- _.
      by exists tp, data, false. }
  destruct Hst as (tp & data & min & Hb & ->). cbn [dead_letter nm_subject nm_data nm_header] in *.
  split; [by rewrite Hsub|].
  assert (Htarget : replay_target opts (if min then dlqMinimalHeaders r tp else dlq_headers r tp)
                    = rec_subject r).
  { unfold replay_target. rewrite Hto. simpl.
    destruct (dlq_headers_subject r tp Hne) as [Hf Hm].
    by destruct min; [rewrite Hm|rewrite Hf]; apply subject_kept. }
  apply (replayOne_inv Hs) in Hone. cbv zeta in Hone.
  assert (Hsrc : default ∅ (jm_headers m) = if min then dlqMinimalHeaders r tp else dlq_headers r tp)
    by (by rewrite Hhead).
  unfold record_valid in Hone. rewrite Hsrc, Htarget, Hvalid in Hone. destruct Hone as ([[t' again] e] & [_ (linked & tp' & Hmsg)] & Hcase).
  cbn [fst snd] in Hmsg, Hcase. exists t', again, e.
  assert (Hparts : nm_subject again = rec_subject r /\ nm_data again = data
    /\ keeps_bytes r (nm_data again)
    /\ forall k, user_key k = true -> nm_header again !! k = default ∅ (rec_headers r) !! k).
  { rewrite Hmsg. unfold replay_msg. rewrite Hsrc. cbn [nm_subject nm_data nm_header].
    split; [exact Htarget|]. split; [exact Hdata|]. split; [by rewrite Hdata|].
    intros k Hk. rewrite replay_headers_user by done.
    destruct (dlq_headers_user r tp k Hk) as [Hf Hm]. by destruct min. }
  destruct Hparts as (Hp1 & Hp2 & Hp3 & Hp4).
  destruct e as [e|]; [destruct Hcase as ([Hm Ha] & _ & ->)|destruct Hcase as ([Hm Ha] & -> & _)].
  all: refine (conj Hm (conj Hp1 (conj Hp2 (conj Hp3 (conj Hp4 (conj Ha _))))));
    split; intros Hx; first [discriminate Hx|reflexivity].
Qed.

(** C20: what a replay has done when it returns. The records that the consumer handed
    out during the run are k that were published again under their own subject,
    bytes and headers and then acknowledged, followed by n that were handed back with
    a Nak, the whole rest of the batch of a record that failed; n is not zero exactly
    when a record failed, then nothing is published after it, it alone counts as
    failed and its error is returned. Nil means that every record handed out was
    replayed and counted, and that the limit is reached or the last fetch found no
    records; never more than the limit are replayed. The consumer enters what it
    hands out in a ledger that nothing else writes. *)
Theorem Replay_contract `{FetchLedger U} rp fuel c opts w res (err : goerr) w' :
  still_client U -> ledger_kept U ->
  (forall cfg, respects still (CreateOrUpdateConsumer (U := U) c (ro_from_stream opts) cfg)
     /\ respects same_ledger (CreateOrUpdateConsumer (U := U) c (ro_from_stream opts) cfg)) ->
  (forall cfg, yields (fun f => match f with inl fetch => fetch_ok fetch | inr _ => True end)
                 (CreateOrUpdateConsumer (U := U) c (ro_from_stream opts) cfg)) ->
  Replay rp fuel c opts w = (Ret (Some (res, err)), w') ->
  exists ms k n sent, fetched (w_user w') = fetched (w_user w) ++ ms
    /\ length ms = (k + n)%nat
    /\ actions (w_log w') = actions (w_log w) ++ repeat MsgAck k ++ repeat MsgNak n
    /\ messages (w_log w') = messages (w_log w) ++ sent
    /\ (k <= length sent <= Nat.min (k + 1) (k + n))%nat
    /\ Forall2 (replayed_of opts) (take (length sent) ms) sent
    /\ Forall (fun s => s.2 = None) (take k sent) /\ Forall (fun s => s.2 <> None) (drop k sent)
    /\ rr_replayed res = Z.of_nat k /\ rr_failed res = (if (0 <? n)%nat then 1 else 0)
    /\ ((0 < n)%nat -> err <> None)
    /\ (err = None -> n = 0%nat /\ rr_replayed res = Z.of_nat (length ms)
          /\ exists cfg v fetch, CreateOrUpdateConsumer c (ro_from_stream opts) cfg w = (Ret (inl fetch), v)
               /\ replay_over opts fetch res w')
    /\ (0 < ro_limit opts -> rr_replayed res <= ro_limit opts).
Proof.
  intros Hs Hled Hst Hcons Hrun. unfold Replay in Hrun.
  match goal with |- ?G => assert (Hnone : forall v e, still w v -> same_ledger w v -> e <> None ->
    (Ret (Some (mkReplayResult 0 0, e)), v) = (@Ret (any error) _ (Some (res, err)), w') -> G) end.
  { intros v e [Hm Ha] Hl He [= <- <- <-]. exists [], 0%nat, 0%nat, [].
    rewrite !app_nil_r. split; [exact Hl|]. split; [done|]. split; [exact Ha|]. split; [exact Hm|].
    split; [simpl; lia|]. do 3 (split; [constructor|]). do 2 (split; [done|]). split; [done|].
    split; [by intros ->|simpl; lia]. }
  destruct (String.eqb (ro_from_stream opts) "").
  { apply mret_inv in Hrun as [Hr ->].
    apply (Hnone w (Some (Sentinel ErrStreamRequired))); [done..|by rewrite Hr]. }
  apply bind_ret_inv in Hrun as (f & w1 & Hc & Hrun).
  pose proof (respects_run _ _ _ _ _ (proj1 (Hst _)) Hc) as Hst1.
  pose proof (respects_run _ _ _ _ _ (proj2 (Hst _)) Hc) as Hl1. unfold same_ledger in Hl1.
  pose proof (Hcons _ _ _ _ Hc) as Hok. cbn beta in Hok.
  destruct f as [fetch|e].
  - apply (replay_loop_run Hs) in Hrun as (ms & k & n & sent & rerr & HP & Hr & He & Hl & Hov);
      [|done|done|simpl; lia].
    assert (Hr' : replay_run opts ([] ++ ms) (0 + k) n (mkReplayResult 0 0) res rerr w w' ([] ++ sent))
      by (eapply replay_run_app; [by apply replay_run_nil|done]).
    destruct Hr' as [Hall [Hm Ha] Hrep Hfail [_ Herr] Hsent Hgood Hbad Hof]. simpl in *.
    exists ms, k, n, sent. split; [by rewrite HP, Hl1|]. split; [done|]. split; [exact Ha|]. split; [exact Hm|].
    split; [exact Hsent|]. split; [exact Hof|]. split; [exact Hgood|]. split; [exact Hbad|].
    split; [lia|]. split; [exact Hfail|]. split; [intros Hn; rewrite (He Hn); by apply Herr|].
    split; [|exact Hl]. intros Hnil. assert (n = 0%nat) as ->.
    { destruct n; [done|]. by rewrite (He ltac:(lia)) in Hnil; destruct (Herr ltac:(lia)). }
    split; [done|]. split; [lia|]. do 3 eexists. split; [exact Hc|by apply Hov].
  - apply mret_inv in Hrun as [Hr ->]. apply (Hnone w1 (Some e)); [done..|by rewrite Hr].
Qed.

(** C40: a replay ends. With a limit it returns after at most that many batches,
    whatever the stream holds, also when its own publishes are dead-lettered
    again; without one it returns if some measure of the stream gets smaller with
    every batch, as it does when nothing new is dead-lettered. *)
Theorem Replay_ends `{!spans_return U} rp fuel c opts w (size : ReplayResult -> World U -> nat) :
  still_client U -> answering U ->
  (forall cfg, returns (CreateOrUpdateConsumer (U := U) c (ro_from_stream opts) cfg)) ->
  (forall cfg, yields (fun f => match f with
                                | inl fetch => (forall n, returns (fetch n)) /\
                                    (0 < ro_limit opts \/ decreasing rp opts c fetch size)
                                | inr _ => True
                                end)
                 (CreateOrUpdateConsumer (U := U) c (ro_from_stream opts) cfg)) ->
  (Z.to_nat (ro_limit opts) < fuel)%nat ->
  (ro_limit opts <= 0 -> forall cfg f w1,
     CreateOrUpdateConsumer c (ro_from_stream opts) cfg w = (Ret f, w1) ->
     (size (mkReplayResult 0 0) w1 < fuel)%nat) ->
  exists res err w', Replay rp fuel c opts w = (Ret (Some (res, err)), w').
Proof.
  intros Hs Ha Hret Hcons Hfuel Hsize. unfold Replay.
  destruct (String.eqb (ro_from_stream opts) ""); [by do 3 eexists|].
  set (cfg := mkReplayConsumerConfig _ _ _ _ _).
  destruct (Hret cfg w) as [f Hc]. apply ran in Hc. specialize (Hcons cfg _ _ _ Hc). cbn beta in Hcons.
  erewrite bind_run by exact Hc. destruct f as [fetch|e]; [|by do 3 eexists].
  destruct Hcons as [Hf Hdec].
  assert (Hend : exists out w', replay_loop rp fuel fetch c opts (mkReplayResult 0 0)
    (CreateOrUpdateConsumer c (ro_from_stream opts) cfg w).2 = (Ret (Some out), w')).
  { destruct (Z.ltb_spec 0 (ro_limit opts)) as [Hlim|Hlim].
    - eapply replay_loop_ends; [done|done|by apply (decreasing_limit Hs)|]. simpl. lia.
    - destruct Hdec as [|Hdec]; [lia|]. eapply replay_loop_ends; [done|done|exact Hdec|by eapply Hsize]. }
  destruct Hend as ([res err] & w' & Hend). by exists res, err, w'.
Qed.
End properties.

(** A traceparent that cannot be read yields the span of the caller, if it has one:
    the replay span is linked to it as to the span of the failure, and the value
    goes on in the headers. *)
Lemma invalid_traceparent_links_caller {U : Type} `{TraceSDK U} c tp (w : World U) sc w' :
  tp <> "" -> sc_IsValid (tc_Extract tp) = false ->
  SpanContextFromContext c w = (Ret sc, w') -> sc_IsValid sc = true ->
  oxParseTraceparent c tp w = (Ret (Some sc), w') /\ valid_context (Some sc) = true
  /\ failed_link (Some sc) = [(sc, [("eventbus.link.type", AString "dead_letter")])].
Proof.
  intros Hne Hbad Hsc Hok. unfold oxParseTraceparent, failed_link, valid_context.
  rewrite (proj2 (String.eqb_neq _ _) Hne), Hbad, Hok. by rewrite (bind_run _ _ _ _ _ Hsc).
Qed.

(** A subject longer than a failure header may be is cut in it, and the cut text is
    a valid subject too: the replay goes there, without an error. *)
Definition long_subject : string := of_bytes (repeat 97 1030).
Lemma long_subject_redirected :
  validReplaySubject long_subject = true
  /\ validReplaySubject (TruncateHeader long_subject DLQHeaderValueLimit) = true
  /\ TruncateHeader long_subject DLQHeaderValueLimit <> long_subject.
Proof. vm_compute. repeat split; [..|discriminate]. Qed.

(** ** A concrete stream

    The state is the dead-letter stream and the ledger; a fetch takes records off the
    front of the stream and enters them in the ledger. *)
Definition rp_state : Type := list JsMsg * list JsMsg.

#[local] Instance rp_nats : NatsLib := demo_nats.
#[local] Instance rp_range : RangeOrder.
Proof. by refine {| range_map h := map_to_list h |}. Defined.
#[local] Instance rp_trace : TraceSDK rp_state := silent_trace _.
#[local] Instance rp_spans : spans_keep (U := rp_state) still := silent_spans_keep still.
#[local] Instance rp_spans_return : spans_return rp_state := silent_spans_return.
#[local] Instance rp_fmt : Fmt := {| fmt_q s := s |}.
#[local] Instance rp_stream : Stream rp_state := {|
  stream_publish _ _ := mret (Some (mkPubAck false), None)
|}.
#[local] Instance rp_broker : Broker rp_state := {| broker_act _ _ := mret None |}.
Definition rp_fetch : Consumer rp_state := fun n =>
  u ← get_user;
  _ ← put_user (drop (Z.to_nat n) u.1, u.2 ++ take (Z.to_nat n) u.1);
  mret (inl (mkBatch (take (Z.to_nat n) u.1) None)).
#[local] Instance rp_ledger : FetchLedger rp_state := {| fetched u := u.2 |}.
#[local] Instance rp_backend : ReplayBackend rp_state := {|
  CreateOrUpdateConsumer _ _ _ := mret (inl rp_fetch)
|}.

Definition rp_user_header : Header := {["Tenant" := ["acme"]]}.
Definition rp_record : DLQRecord :=
  mkDLQRecord (Some "{}") (Some rp_user_header) None "e1" "order" (Some (Sentinel ErrRetriesExhausted))
    ReasonRetriesExhausted "h" "orders.new" 3 single_delivery zero_execution zero_time [].
Definition rp_replayer : Replayer := NewReplayer [].
Definition rp_dlq : DLQ rp_state := NewDLQ "" [].
Definition rp_world (u : list JsMsg) : World rp_state := mkWorld 0 [] ∅ 0 ∅ ∅ (u, []).
Definition rp_options (limit : Z) : ReplayOptions := mkReplayOptions "DLQ" "" limit "" "".
Definition rp_letter : NatsMsg := dead_letter rp_dlq rp_record "" false (Some "{}").
Definition rp_msg (m : NatsMsg) : JsMsg :=
  mkJsMsg (nm_subject m) (nm_data m) (Some (nm_header m)) (inl (mkMsgMetadata 1 "DLQ" "r" 7 0)).

Lemma rp_still : still_client rp_state.
Proof. by split; intros; intros w. Qed.
Lemma rp_answers : answering rp_state.
Proof. split; intros; intros w; by eexists. Qed.
Lemma rp_encoder : still_encoder rp_dlq (mret "id").
Proof. split; [by intros w|]. intros reg c evt md [=]. Qed.
Lemma rp_ledger_kept : ledger_kept rp_state.
Proof. split; [intros; by intros w..|]. apply silent_spans_keep, _. Qed.
Lemma rp_fetch_ok : fetch_ok rp_fetch.
Proof.
  intros n Hn. split; [by intros w|]. intros w f w' [= <- <-]. split; [done|].
  simpl. rewrite length_take. lia.
Qed.

Lemma dead_letter_roundtrip_witness :
  exists t again e, messages (w_log (replayOne rp_replayer background (rp_msg rp_letter) (rp_options 0)
      (mkReplayResult 0 0) (rp_world [])).2) = [(t, again, e)]
    /\ nm_subject again = "orders.new" /\ nm_data again = Some "{}"
    /\ nm_header again !! "Tenant" = Some ["acme"].
Proof.
  set (stored := (DLQ_Publish rp_dlq (mret "id") background rp_record (rp_world [])).2).
  set (again := (replayOne rp_replayer background (rp_msg rp_letter) (rp_options 0) (mkReplayResult 0 0) (rp_world [])).2).
  pose proof (dead_letter_roundtrip rp_dlq (mret "id") background rp_record rp_replayer (rp_world []) stored 0
    rp_letter background (rp_msg rp_letter) (rp_options 0) (mkReplayResult 0 0) (rp_world [])
    (mkReplayResult 1 0) None again rp_still rp_encoder) as Hr.
  destruct Hr as [_ (t & m & e & Hm & Hsub & Hdata & _ & Huser & _)].
  - vm_compute. reflexivity.
  - exists (map (fun b => [b]) (to_bytes "orders.new")). split; [repeat constructor|reflexivity].
  - vm_compute. discriminate.
  - reflexivity.
  - reflexivity.
  - reflexivity.
  - reflexivity.
  - reflexivity.
  - vm_compute. reflexivity.
  - exists t, m, e. split; [exact Hm|]. split; [exact Hsub|]. split; [exact Hdata|].
    rewrite Huser by (vm_compute; reflexivity). vm_compute. reflexivity.
Defined.

Definition rp_bad : JsMsg := mkJsMsg "dlq.x" (Some "{}") None (inr (Sentinel Canceled)).
Definition rp_two : list JsMsg := [rp_msg rp_letter; rp_bad].
Definition rp_run (limit : Z) : outcome (any error) (option (ReplayResult * goerr)) * World rp_state :=
  Replay rp_replayer 10 background (rp_options limit) (rp_world rp_two).

(** The second record has no target: it is handed back. *)
Example rp_runs :
  actions (w_log (rp_run 0).2) = [MsgAck; MsgNak]
  /\ (exists e, (rp_run 0).1 = Ret (Some (mkReplayResult 1 1, Some e)) /\ errors_is e ErrReplaySubject = true)
  /\ (rp_run 1).1 = Ret (Some (mkReplayResult 1 0, None)).
Proof. vm_compute. split; [reflexivity|]. split; [by eexists|reflexivity]. Qed.

(** A record fails with two more behind it in the batch: all three go back. *)
Definition rp_four : list JsMsg := [rp_msg rp_letter; rp_bad; rp_msg rp_letter; rp_msg rp_letter].

Lemma Replay_contract_witness :
  let r := Replay rp_replayer 10 background (rp_options 0) (rp_world rp_four) in
  exists k n, actions (w_log r.2) = repeat MsgAck k ++ repeat MsgNak n /\ (k + n = 4)%nat
    /\ exists err, r.1 = Ret (Some (mkReplayResult (Z.of_nat k) 1, err)) /\ err <> None.
Proof.
  set (r := Replay _ _ _ _ _). cbv zeta.
  assert (Ho : exists e, r.1 = Ret (Some (mkReplayResult 1 1, Some e)))
    by (eexists; vm_compute; reflexivity).
  destruct Ho as [e Ho].
  assert (Hr : r = (Ret (Some (mkReplayResult 1 1, Some e)), r.2)) by (rewrite <- Ho; apply surjective_pairing).
  destruct (Replay_contract rp_replayer 10 background (rp_options 0) (rp_world rp_four)
    (mkReplayResult 1 1) (Some e) r.2 rp_still rp_ledger_kept) as
    (ms & k & n & sent & Hms & Hlen & Hact & _ & _ & _ & _ & _ & Hrep & _ & _ & _ & _).
  - intros cfg. split; by intros w.
  - intros cfg w f w' [= <- <-]. apply rp_fetch_ok.
  - exact Hr.
  - exists k, n. split; [exact Hact|]. split.
    + rewrite <- Hlen. assert (H4 : fetched (w_user r.2) = rp_four) by (vm_compute; reflexivity).
      rewrite H4 in Hms. simpl in Hms. rewrite <- Hms. reflexivity.
    + exists (Some e). split; [|discriminate]. simpl in Hrep. rewrite <- Hrep. exact Ho.
Defined.

Lemma Replay_ends_witness :
  exists res err w', Replay rp_replayer 10 background (rp_options 5) (rp_world rp_two) = (Ret (Some (res, err)), w').
Proof.
  apply (Replay_ends rp_replayer 10 background (rp_options 5) (rp_world rp_two) (fun _ _ => 0%nat) rp_still rp_answers).
  - intros cfg w. by eexists.
  - intros cfg w f w' [= <- <-]. split; [intros n v; by eexists|]. left. simpl. lia.
  - simpl. lia.
  - simpl. lia.
Defined.
