(* ===== verification/Drain.v ===== *)
(** * Shutting a transport down

    [Shutdown] of src/jetstream/bus.go and of src/nats/bus.go, with the registration
    of subscriptions they compete with. Both follow one protocol: the first caller
    takes the registered subscriptions under the mutex of the bus, drains them and
    closes the channel [drained]; later callers wait for that channel; then every
    caller waits for the work in flight ([Lifecycle.Wait]). A caller whose context
    expires forces the shutdown. What differs is in the class [Transport]: the calls
    of [force], the calls after the wait, whether a drain can be refused, and whether
    a later caller looks at [drained] before it selects.

    The steps are the critical sections, the channel operations and the calls of the
    client library; [sh_step] interleaves them freely with the work of the bus, with
    the registrations and with the client closing subscriptions. *)

From S2P Require Import Prelude GoErrors Types Failure Lifecycle.
Local Open Scope list_scope.
Local Open Scope Z_scope.

(** ** State *)

(** A call of the forced path, or after the wait. *)
Inductive call := StopConsumers | InterruptLife | CloseConn.

#[export] Instance call_eq_dec : EqDecision call.
Proof. solve_decision. Defined.

(** Where a caller of [Shutdown] is. *)
Inductive phase :=
  | Began
  | Peeking
  | Joining
  | Draining (todo waiting : list nat)
  | Awaiting (rest : list nat)
  | Forcing (owner : bool) (e : error) (todo : list call)
  | Waiting
  | Finishing (err : goerr) (todo : list call)
  | Ended (err : goerr).

(** [sh_subs] is [b.subs] ([b.consumers]), [sh_taken] the list the owner took
    ([b.draining]), [sh_drained] the channel [b.drained]: nil, open or closed.
    [sh_mutex] is the registration that holds the mutex, [sh_closed] the
    subscriptions whose closed channel is closed, [sh_dropped] the registrations
    that were refused, [sh_refused] the subscriptions whose drain failed. *)
Record shut := mkShut {
  sh_sys : system;
  sh_subs : list nat;
  sh_taken : list nat;
  sh_drained : option bool;
  sh_mutex : option nat;
  sh_callers : gmap nat phase;
  sh_closed : gset nat;
  sh_dropped : gset nat;
  sh_refused : gset nat;
  sh_stopped : bool;
  sh_conn : bool;
}.

Definition sh_start : shut := mkShut start [] [] None None ∅ ∅ ∅ ∅ false false.
Definition sh_life (s : shut) : Lifecycle := sy_life (sh_sys s).

Definition with_sys (s : shut) (y : system) : shut :=
  mkShut y (sh_subs s) (sh_taken s) (sh_drained s) (sh_mutex s) (sh_callers s) (sh_closed s)
    (sh_dropped s) (sh_refused s) (sh_stopped s) (sh_conn s).
Definition goto (s : shut) (g : nat) (p : phase) : shut :=
  mkShut (sh_sys s) (sh_subs s) (sh_taken s) (sh_drained s) (sh_mutex s)
    (<[g := p]> (sh_callers s)) (sh_closed s) (sh_dropped s) (sh_refused s) (sh_stopped s)
    (sh_conn s).
Definition closed_sub (s : shut) (i : nat) : shut :=
  mkShut (sh_sys s) (sh_subs s) (sh_taken s) (sh_drained s) (sh_mutex s) (sh_callers s)
    ({[i]} ∪ sh_closed s) (sh_dropped s) (sh_refused s) (sh_stopped s) (sh_conn s).
Definition refuse (s : shut) (i : nat) : shut :=
  mkShut (sh_sys s) (sh_subs s) (sh_taken s) (sh_drained s) (sh_mutex s) (sh_callers s)
    (sh_closed s) (sh_dropped s) ({[i]} ∪ sh_refused s) (sh_stopped s) (sh_conn s).

(** ** Registration *)

(** The check under the mutex, after the client has created the subscription [i]. *)
Definition register_check (s : shut) (i : nat) : shut :=
  if Closing (sh_life s)
  then mkShut (sh_sys s) (sh_subs s) (sh_taken s) (sh_drained s) (sh_mutex s) (sh_callers s)
         (sh_closed s) ({[i]} ∪ sh_dropped s) (sh_refused s) (sh_stopped s) (sh_conn s)
  else mkShut (sh_sys s) (sh_subs s) (sh_taken s) (sh_drained s) (Some i) (sh_callers s)
         (sh_closed s) (sh_dropped s) (sh_refused s) (sh_stopped s) (sh_conn s).

(** The append, and the unlock. *)
Definition register_append (s : shut) (i : nat) : shut :=
  mkShut (sh_sys s) (sh_subs s ++ [i]) (sh_taken s) (sh_drained s) None (sh_callers s)
    (sh_closed s) (sh_dropped s) (sh_refused s) (sh_stopped s) (sh_conn s).

(** ** The calls of a shutdown *)

(** [b.life.BeginShutdown()]. *)
Definition begin (s : shut) : shut :=
  with_sys s (with_life_of (sh_sys s) (BeginShutdown (sh_life s))).

(** The owner's critical section. *)
Definition take_subs (s : shut) : shut :=
  mkShut (sh_sys s) [] (sh_subs s) (Some false) (sh_mutex s) (sh_callers s) (sh_closed s)
    (sh_dropped s) (sh_refused s) (sh_stopped s) (sh_conn s).

(** [close(drained)]. *)
Definition close_drained (s : shut) : shut :=
  mkShut (sh_sys s) (sh_subs s) (sh_taken s) (Some true) (sh_mutex s) (sh_callers s)
    (sh_closed s) (sh_dropped s) (sh_refused s) (sh_stopped s) (sh_conn s).

(** The caller [g] calls [b.life.Wait], [BeginShutdown] having run. *)
Definition enter_wait (s : shut) (g : nat) : shut :=
  goto (with_sys s (set_waiter (sh_sys s) (BeginShutdown (sh_life s)) g Checking)) g Waiting.

(** One call of [force] or of the end of [Shutdown]. *)
Definition run_call (s : shut) (a : call) : shut :=
  match a with
  | StopConsumers =>
      mkShut (sh_sys s) (sh_subs s) (sh_taken s) (sh_drained s) (sh_mutex s) (sh_callers s)
        (sh_closed s) (sh_dropped s) (sh_refused s) true (sh_conn s)
  | InterruptLife => with_sys s (with_life_of (sh_sys s) (Interrupt (sh_life s)))
  | CloseConn =>
      mkShut (sh_sys s) (sh_subs s) (sh_taken s) (sh_drained s) (sh_mutex s) (sh_callers s)
        (sh_closed s) (sh_dropped s) (sh_refused s) (sh_stopped s) true
  end.

(** ** What a transport has of its own *)

(** No connection is closed before the interruption, and the path interrupts. *)
Fixpoint interrupts_first (seen : bool) (l : list call) : bool :=
  match l with
  | [] => seen
  | InterruptLife :: r => interrupts_first true r
  | CloseConn :: r => seen && interrupts_first seen r
  | StopConsumers :: r => interrupts_first seen r
  end.

Class Transport := {
  t_force : list call;
  t_finish : list call;
  t_refuses : bool;
  t_peeks : bool;
  t_force_interrupts : interrupts_first false t_force = true;
  t_finish_closes : Forall (fun a => a = CloseConn) t_finish;
}.

(** src/nats/bus.go: [force], and [closeConn] after the wait. *)
Definition core_force : list call := [InterruptLife; CloseConn].
Definition core_finish : list call := [CloseConn].

(** src/jetstream/bus.go: [force]. *)
Definition jet_force : list call := [StopConsumers; InterruptLife].

Definition core_transport : Transport.
Proof. refine (Build_Transport core_force core_finish true true eq_refl _). by repeat constructor. Defined.

Definition jet_transport : Transport.
Proof. refine (Build_Transport jet_force [] false false eq_refl _). constructor. Defined.

(** ** Steps *)

(** A step of the work of the bus: admitted, tracked or released. *)
Definition work (y y' : system) : Prop :=
  step y y' /\ sy_waiters y' = sy_waiters y /\ l_closed (sy_life y') = l_closed (sy_life y)
  /\ l_forced (sy_life y') = l_forced (sy_life y).

(** A step of the caller [g] inside [Wait]. *)
Definition waits (g : nat) (y y' : system) : Prop :=
  step y y' /\ exists w w', sy_waiters y !! g = Some w /\ w <> w'
    /\ sy_waiters y' = <[g := w']> (sy_waiters y).

Section steps.
Context `{Transport}.

(** The steps, labelled with the caller of [Shutdown] that makes them. *)
Inductive sh_step : option nat -> shut -> shut -> Prop :=
| sh_work s y : work (sh_sys s) y -> sh_step None s (with_sys s y)
| sh_check s i :
    sh_mutex s = None -> i ∉ sh_subs s ++ sh_taken s -> i ∉ sh_dropped s ->
    sh_step None s (register_check s i)
| sh_append s i : sh_mutex s = Some i -> sh_step None s (register_append s i)
| sh_client_closes s i : sh_step None s (closed_sub s i)
| sh_begin s g : sh_callers s !! g = None -> sh_step (Some g) s (goto (begin s) g Began)
| sh_take s g :
    sh_callers s !! g = Some Began -> sh_mutex s = None -> sh_drained s = None ->
    sh_step (Some g) s (goto (take_subs s) g (Draining (sh_subs s) []))
| sh_later s g d :
    sh_callers s !! g = Some Began -> sh_mutex s = None -> sh_drained s = Some d ->
    sh_step (Some g) s (goto s g (if t_peeks then Peeking else Joining))
| sh_peek_open s g :
    sh_callers s !! g = Some Peeking -> sh_drained s = Some false ->
    sh_step (Some g) s (goto s g Joining)
| sh_peek_closed s g :
    sh_callers s !! g = Some Peeking -> sh_drained s = Some true ->
    sh_step (Some g) s (enter_wait s g)
| sh_join s g :
    sh_callers s !! g = Some Joining -> sh_drained s = Some true ->
    sh_step (Some g) s (enter_wait s g)
| sh_join_expire s g e :
    sh_callers s !! g = Some Joining -> sh_step (Some g) s (goto s g (Forcing false e t_force))
| sh_drain s g i todo waiting :
    sh_callers s !! g = Some (Draining (i :: todo) waiting) ->
    sh_step (Some g) s (goto s g (Draining todo (waiting ++ [i])))
| sh_drain_refused s g i todo waiting :
    t_refuses = true -> sh_callers s !! g = Some (Draining (i :: todo) waiting) ->
    sh_step (Some g) s (goto (refuse s i) g (Draining todo waiting))
| sh_drain_all s g waiting :
    sh_callers s !! g = Some (Draining [] waiting) ->
    sh_step (Some g) s (goto s g (Awaiting waiting))
| sh_sub_closed s g i rest :
    sh_callers s !! g = Some (Awaiting (i :: rest)) -> i ∈ sh_closed s ->
    sh_step (Some g) s (goto s g (Awaiting rest))
| sh_all_closed s g :
    sh_callers s !! g = Some (Awaiting []) ->
    sh_step (Some g) s (enter_wait (close_drained s) g)
| sh_other_forced s g i rest :
    sh_callers s !! g = Some (Awaiting (i :: rest)) -> l_cancelled (sh_life s) = true ->
    sh_step (Some g) s (enter_wait (close_drained s) g)
| sh_own_expire s g i rest e :
    sh_callers s !! g = Some (Awaiting (i :: rest)) ->
    sh_step (Some g) s (goto s g (Forcing true e t_force))
| sh_force s g owner e a todo :
    sh_callers s !! g = Some (Forcing owner e (a :: todo)) ->
    sh_step (Some g) s (goto (run_call s a) g (Forcing owner e todo))
| sh_forced s g (owner : bool) e :
    sh_callers s !! g = Some (Forcing owner e []) ->
    sh_step (Some g) s (goto (if owner then close_drained s else s) g (Ended (Some e)))
| sh_wait s g y :
    sh_callers s !! g = Some Waiting -> waits g (sh_sys s) y -> sh_step (Some g) s (with_sys s y)
| sh_waited s g err :
    sh_callers s !! g = Some Waiting -> sy_waiters (sh_sys s) !! g = Some (Returned err) ->
    sh_step (Some g) s (goto s g (Finishing err t_finish))
| sh_finish s g err a todo :
    sh_callers s !! g = Some (Finishing err (a :: todo)) ->
    sh_step (Some g) s (goto (run_call s a) g (Finishing err todo))
| sh_return s g err :
    sh_callers s !! g = Some (Finishing err []) -> sh_step (Some g) s (goto s g (Ended err)).

Definition sh_next (s s' : shut) : Prop := exists l, sh_step l s s'.
Definition sh_reachable (s : shut) : Prop := rtc sh_next sh_start s.
End steps.
