(* ===== verification/DrainFacts.v ===== *)
(** * The invariant of the shutdown of a transport

    [sh_inv] says what holds of the lists, the channel, the connection and every
    caller of [Shutdown]; each step of Drain.v keeps it. A step moves at most one
    caller: [moves] lists what it owes, and [inv_moves] gives the invariant back. *)

From S2P Require Import Prelude GoErrors Types Failure Lifecycle Drain.
Local Open Scope list_scope.
Local Open Scope Z_scope.

(** ** The lifecycle below *)

(** What the callers of [Wait] were told. *)
Definition told (l : Lifecycle) (err : goerr) : Prop :=
  match err with None => l_done l = true | Some _ => l_forced l = true end.

Record waiters_ok (y : system) : Prop := {
  wo_cancelled : l_cancelled (sy_life y) = l_forced (sy_life y);
  wo_told : forall g err, sy_waiters y !! g = Some (Returned err) -> told (sy_life y) err;
}.

Lemma told_flags y y' err : flags_le y y' -> told (sy_life y) err -> told (sy_life y') err.
Proof. intros (_ & Hf & Hd). destruct err; simpl; auto. Qed.

Lemma waiters_ok_step y y' : waiters_ok y -> step y y' -> waiters_ok y'.
Proof.
  intros [Hc Ht] Hstep. pose proof (step_flags y y' Hstep) as Hfl.
  assert (Hkeep : forall g err, sy_waiters y !! g = Some (Returned err) -> told (sy_life y') err)
    by (intros g err Hg; by eapply told_flags, Ht).
  destruct Hstep as [s nested t l Hk Ha|s t l Hk Ha|s t|s|s|s g Hg|s g l Hg Hk|s g l ch Hg Hk
    |s g ch Hg Hch|s g ch e Hg]; split; try exact Hkeep; try exact Hc.
  - unfold Admit in Ha. by repeat case_match; simplify_eq/=.
  - unfold Track in Ha. by repeat case_match; simplify_eq/=.
  - unfold call_release, releaser. by repeat case_match; simplify_eq/=.
  - intros g err. unfold call_release in *. repeat case_match; simplify_eq/=; apply Hkeep.
  - done.
  - intros g' err. simpl. destruct (decide (g' = g)) as [->|]; [by rewrite lookup_insert_eq|].
    rewrite lookup_insert_ne by done. apply Hkeep.
  - unfold Wait_check in Hk. by repeat case_match; simplify_eq/=.
  - intros g' err. simpl. destruct (decide (g' = g)) as [->|].
    + rewrite lookup_insert_eq. intros [= <-]. simpl. unfold Wait_check in Hk.
      by repeat case_match; simplify_eq/=.
    + rewrite lookup_insert_ne by done. apply Hkeep.
  - unfold Wait_check in Hk. by repeat case_match; simplify_eq/=.
  - intros g' err. simpl. destruct (decide (g' = g)) as [->|]; [by rewrite lookup_insert_eq|].
    rewrite lookup_insert_ne by done. apply Hkeep.
  - intros g' err. simpl. destruct (decide (g' = g)) as [->|]; [by rewrite lookup_insert_eq|].
    rewrite lookup_insert_ne by done. apply Hkeep.
  - done.
  - intros g' err. simpl. destruct (decide (g' = g)) as [->|]; [by rewrite lookup_insert_eq; intros [= <-]|].
    rewrite lookup_insert_ne by done. apply Hkeep.
Qed.

(** A step inside [Wait]: the caller was still there, and only an expired one
    interrupts. *)
Lemma waits_cases g y y' : waits g y y' ->
  (forall err, sy_waiters y !! g <> Some (Returned err)) /\
  (l_forced (sy_life y') = true ->
     l_forced (sy_life y) = true \/ exists e, sy_waiters y' !! g = Some (Returned (Some e))).
Proof.
  intros (Hstep & w & w' & Hw & Hne & Hy). apply (f_equal (lookup g)) in Hy. rewrite lookup_insert_eq in Hy.
  assert (Hkey : forall h v, sy_waiters y' = <[h := v]> (sy_waiters y) -> h = g /\ v = w').
  { intros h v Hv. rewrite Hv in Hy. destruct (decide (h = g)) as [->|].
    - rewrite lookup_insert_eq in Hy. by injection Hy.
    - rewrite lookup_insert_ne, Hw in Hy by done. by injection Hy. }
  assert (Hsame : sy_waiters y' <> sy_waiters y) by (intros Hv; rewrite Hv, Hw in Hy; by injection Hy).
  destruct Hstep as [s nested t l Hk Ha|s t l Hk Ha|s t|s|s|s h Hg|s h l Hg Hk|s h l ch Hg Hk
    |s h ch Hg Hch|s h ch e Hg]; try (by destruct Hsame); simpl in *.
  - destruct Hsame. unfold call_release, releaser. by repeat case_match.
  - destruct (Hkey h Checking eq_refl) as [-> _]. congruence.
  - destruct (Hkey h _ eq_refl) as [-> _]. rewrite Hg. split; [done|]. left.
    unfold Wait_check in Hk. by repeat case_match; simplify_eq/=.
  - destruct (Hkey h _ eq_refl) as [-> _]. rewrite Hg. split; [done|]. left.
    unfold Wait_check in Hk. by repeat case_match; simplify_eq/=.
  - destruct (Hkey h _ eq_refl) as [-> _]. rewrite Hg. split; [done|]. by left.
  - destruct (Hkey h _ eq_refl) as [-> _]. rewrite Hg, lookup_insert_eq. split; [done|]. right. by eexists.
Qed.

(** ** The invariant *)

(** A subscription that Shutdown need not wait for. *)
Definition settled (s : shut) (i : nat) : Prop := i ∈ sh_closed s \/ i ∈ sh_refused s.
Definition all_settled (s : shut) : Prop := forall i, i ∈ sh_taken s -> settled s i.

(** The owner of the drain, until it closes [drained]. *)
Definition owns (p : phase) : bool :=
  match p with Draining _ _ | Awaiting _ | Forcing true _ _ => true | _ => false end.
Definition in_wait (p : phase) : bool :=
  match p with Waiting | Finishing _ _ | Ended _ => true | _ => false end.

(** What holds of a caller in phase [p]. *)
Definition phase_ok (s : shut) (p : phase) : Prop :=
  match p with
  | Draining todo waiting =>
      (forall i, i ∈ todo ++ waiting -> i ∈ sh_taken s)
      /\ forall i, i ∈ sh_taken s -> i ∈ todo \/ i ∈ waiting \/ settled s i
  | Awaiting rest =>
      (forall i, i ∈ rest -> i ∈ sh_taken s) /\ forall i, i ∈ sh_taken s -> i ∈ rest \/ settled s i
  | Forcing _ _ todo => interrupts_first (l_forced (sh_life s)) todo = true
  | Waiting => sh_drained s = Some true
  | Finishing err todo =>
      Forall (fun a => a = CloseConn) todo /\ told (sh_life s) err
      /\ (err = None -> sh_drained s = Some true)
  | Ended err => told (sh_life s) err /\ (err = None -> sh_drained s = Some true)
  | _ => True
  end.

(** The caller [g], in phase [p], gave up: its context expired. *)
Definition gives_up (s : shut) (g : nat) (p : phase) : Prop :=
  match p with
  | Forcing _ _ _ | Finishing (Some _) _ | Ended (Some _) => True
  | Waiting => exists e, sy_waiters (sh_sys s) !! g = Some (Returned (Some e))
  | _ => False
  end.
Definition gave_up (s : shut) : Prop := exists g p, sh_callers s !! g = Some p /\ gives_up s g p.

Record sh_inv (s : shut) : Prop := {
  si_sys : inv (sh_sys s);
  si_waiters : waiters_ok (sh_sys s);
  si_callers : forall g p, sh_callers s !! g = Some p -> l_closed (sh_life s) = true;
  si_phases : forall g p, sh_callers s !! g = Some p -> phase_ok s p;
  si_outside : forall g, sy_waiters (sh_sys s) !! g <> None ->
    exists p, sh_callers s !! g = Some p /\ in_wait p = true;
  si_inside : forall g, sh_callers s !! g = Some Waiting -> sy_waiters (sh_sys s) !! g <> None;
  si_before : sh_drained s = None -> sh_taken s = [] /\ sh_conn s = false /\
    forall g p, sh_callers s !! g = Some p -> p = Began;
  si_begun : sh_drained s <> None -> sh_subs s = [] /\ sh_mutex s = None /\ l_closed (sh_life s) = true;
  si_owner : forall g p, sh_callers s !! g = Some p -> owns p = true -> sh_drained s = Some false;
  si_one : forall g g' p p', sh_callers s !! g = Some p -> sh_callers s !! g' = Some p' ->
    owns p = true -> owns p' = true -> g = g';
  si_open : sh_drained s = Some false -> exists g p, sh_callers s !! g = Some p /\ owns p = true;
  si_drained : sh_drained s = Some true -> l_forced (sh_life s) = true \/ all_settled s;
  si_conn : sh_conn s = true ->
    l_forced (sh_life s) = true \/ (l_done (sh_life s) = true /\ all_settled s);
  si_forced : l_forced (sh_life s) = true -> gave_up s;
}.

(** What only grows. *)
Record grows (s s' : shut) : Prop := {
  gr_flags : flags_le (sh_sys s) (sh_sys s');
  gr_taken : sh_taken s' = sh_taken s;
  gr_closed : sh_closed s ⊆ sh_closed s';
  gr_refused : sh_refused s ⊆ sh_refused s';
  gr_drained : sh_drained s = Some true -> sh_drained s' = Some true;
}.

Lemma grows_settled s s' i : grows s s' -> settled s i -> settled s' i.
Proof. intros [_ _ Hc Hr _] [H|H]; [left|right]; set_solver. Qed.

Lemma grows_all s s' : grows s s' -> all_settled s -> all_settled s'.
Proof. intros Hg Ha i Hi. rewrite (gr_taken _ _ Hg) in Hi. by eapply grows_settled, Ha. Qed.

Lemma interrupts_first_seen l : forall seen, interrupts_first seen l = true -> interrupts_first true l = true.
Proof.
  induction l as [|a l IH]; intros seen H; [done|].
  destruct a; simpl in *; [by eapply IH|done|]. apply andb_prop in H as [_ H]. by eapply IH.
Qed.

Lemma grows_phase s s' p : grows s s' -> phase_ok s p -> phase_ok s' p.
Proof.
  intros Hg. pose proof (grows_settled s s') as Hs. pose proof Hg as [Hfl Ht _ _ Hd].
  pose proof (fun err => told_flags _ _ err Hfl) as Htold. destruct p; simpl; try done; rewrite ?Ht.
  - intros [Hin H]. split; [done|]. intros i Hi. destruct (H i Hi) as [|[|]]; auto.
  - intros [Hin H]. split; [done|]. intros i Hi. destruct (H i Hi) as [|]; auto.
  - unfold sh_life. destruct Hfl as (_ & Hf & _). destruct (l_forced (sy_life (sh_sys s))); [by rewrite Hf|].
    destruct (l_forced (sy_life (sh_sys s'))); [apply interrupts_first_seen|done].
  - intros (H1 & H2 & H3). repeat split; auto.
  - intros (H2 & H3). split; auto.
Qed.

(** The caller [g] goes to phase [p']. *)
Record moves (s s' : shut) (g : nat) (p' : phase) : Prop := {
  mv_callers : sh_callers s' = <[g := p']> (sh_callers s);
  mv_grows : grows s s';
  mv_inv : inv (sh_sys s');
  mv_ok : waiters_ok (sh_sys s');
  mv_closed : l_closed (sh_life s') = true;
  mv_phase : phase_ok s' p';
  mv_others : forall h, h <> g -> sy_waiters (sh_sys s') !! h = sy_waiters (sh_sys s) !! h;
  mv_wait : sy_waiters (sh_sys s') !! g <> None -> in_wait p' = true;
  mv_inside : p' = Waiting -> sy_waiters (sh_sys s') !! g <> None;
  mv_subs : sh_subs s' = sh_subs s /\ sh_mutex s' = sh_mutex s;
  mv_began : sh_drained s = None -> p' = Began /\ sh_conn s' = sh_conn s;
  mv_drained :
    (sh_drained s' = sh_drained s /\ Some (owns p') = Some (default false (owns <$> sh_callers s !! g)))
    \/ (sh_drained s' = Some true /\ owns p' = false /\ (owns <$> sh_callers s !! g) = Some true
        /\ (l_forced (sh_life s') = true \/ all_settled s'));
  mv_conn : sh_conn s' = true -> sh_conn s = true \/ l_forced (sh_life s') = true
    \/ (l_done (sh_life s') = true /\ all_settled s');
  mv_forced : l_forced (sh_life s') = true -> l_forced (sh_life s) = true \/ gives_up s' g p';
  mv_gave : forall p, sh_callers s !! g = Some p -> gives_up s g p -> gives_up s' g p';
}.

Lemma gives_up_same s s' g p :
  sy_waiters (sh_sys s') !! g = sy_waiters (sh_sys s) !! g -> gives_up s g p -> gives_up s' g p.
Proof. intros Hw. destruct p as [| | | | | | |[]|[]]; simpl; try done. by rewrite Hw. Qed.

Lemma moves_look s s' g p' h p : moves s s' g p' -> sh_callers s' !! h = Some p ->
  (h = g /\ p = p') \/ (h <> g /\ sh_callers s !! h = Some p).
Proof.
  intros M. rewrite (mv_callers _ _ _ _ M). destruct (decide (h = g)) as [->|Hne].
  - rewrite lookup_insert_eq. intros [= <-]. by left.
  - rewrite lookup_insert_ne by done. by right.
Qed.

(** Who owns the drain after the move owned it before. *)
Lemma moves_owns s s' g p' h p : sh_inv s -> moves s s' g p' ->
  sh_callers s' !! h = Some p -> owns p = true ->
  (exists q, sh_callers s !! h = Some q /\ owns q = true) /\ sh_drained s' = sh_drained s.
Proof.
  intros Hs M Hh Ho. destruct (moves_look _ _ _ _ h p M Hh) as [[-> ->]|[Hne Hh']];
    destruct (mv_drained _ _ _ _ M) as [[Hd Hol]|(Hd & Hno & Hol & _)]; try congruence.
  - split; [|done]. injection Hol as Hol. rewrite Ho in Hol.
    destruct (sh_callers s !! g) as [q|]; [|done]. exists q. split; [done|]. simpl in Hol. congruence.
  - split; [by exists p|done].
  - destruct (sh_callers s !! g) as [q|] eqn:Hq; [|done]. injection Hol as Hol.
    destruct Hne. by eapply (si_one s Hs).
Qed.

Lemma inv_moves s s' g p' : sh_inv s -> moves s s' g p' -> sh_inv s'.
Proof.
  intros Hs M. pose proof (fun h p => moves_look s s' g p' h p M) as Hlook.
  pose proof (fun h p => moves_owns s s' g p' h p Hs M) as Howns.
  destruct Hs as [Hsys Hwo Hcl Hph Hout Hins Hbef Hbeg Hown Hone Hopen Hdr Hconn Hf],
    M as [Mc Mg Mi Mo Mcl Mp Mw Mwg Mins [Ms Mm] Mb Md Mco Mfo Mga].
  pose proof Mg as [Hfl Ht _ _ _].
  assert (Hgl : forall h p, h <> g -> sh_callers s !! h = Some p -> sh_callers s' !! h = Some p)
    by (intros h p Hne Hh; by rewrite Mc, lookup_insert_ne).
  assert (Hgg : sh_callers s' !! g = Some p') by (by rewrite Mc, lookup_insert_eq).
  split; auto.
  - intros h p [[-> ->]|[_ Hh]]%Hlook; [done|]. by eapply grows_phase, Hph.
  - intros h Hh. destruct (decide (h = g)) as [->|Hne]; [by eauto|].
    rewrite Mw in Hh by done. destruct (Hout h Hh) as (p & Hp & Hi). by eauto.
  - intros h [[-> Hp]|[Hne Hh]]%Hlook; [by apply Mins|]. rewrite Mw by done. by apply Hins.
  - intros Hn. assert (Hn0 : sh_drained s = None).
    { destruct Md as [[Hd _]|[Hd _]]; [by rewrite <- Hd|congruence]. }
    destruct (Hbef Hn0) as (Hta & Hco & Hb), (Mb Hn0) as [-> ->]. split; [by rewrite Ht|].
    split; [done|]. intros h p [[-> ->]|[_ Hh]]%Hlook; [done|by eapply Hb].
  - intros Hn. assert (Hn0 : sh_drained s <> None).
    { destruct Md as [[Hd _]|(Hd & _ & Hol & _)]; [by rewrite <- Hd|].
      destruct (sh_callers s !! g) as [q|] eqn:Hq; [|done]. injection Hol as Hol.
      by rewrite (Hown g q Hq Hol). }
    rewrite Ms, Mm. destruct (Hbeg Hn0) as (? & ? & ?). auto.
  - intros h p Hh Ho. destruct (Howns h p Hh Ho) as [(q & Hq & Hoq) ->]. by eapply Hown.
  - intros h h' p q Hh Hh' Ho Ho'.
    destruct (Howns h p Hh Ho) as [(? & ? & ?) _], (Howns h' q Hh' Ho') as [(? & ? & ?) _]. by eapply Hone.
  - intros Hd'. destruct Md as [[Hd Hol]|[Hd _]]; [|congruence]. rewrite Hd in Hd'.
    destruct (Hopen Hd') as (h & p & Hh & Ho). destruct (decide (h = g)) as [->|Hne]; [|by eauto].
    exists g, p'. split; [done|]. rewrite Hh in Hol. simpl in Hol. congruence.
  - intros Hd'. destruct Md as [[Hd _]|(_ & _ & _ & Hx)]; [|done]. rewrite Hd in Hd'.
    destruct (Hdr Hd') as [|Ha]; [left|right]; [by apply Hfl|by eapply grows_all].
  - intros Hx. destruct (Mco Hx) as [H1|H1]; [|done].
    destruct (Hconn H1) as [|[H2 Ha]]; [left; by apply Hfl|right].
    split; [by apply Hfl|by eapply grows_all].
  - intros Hx. destruct (Mfo Hx) as [H1|H1]; [|by exists g, p'].
    destruct (Hf H1) as (h & p & Hh & Hg). destruct (decide (h = g)) as [->|Hne].
    + exists g, p'. split; [done|by eapply Mga].
    + exists h, p. split; [by apply Hgl|]. eapply gives_up_same; [|done]. by apply Mw.
Qed.

(** ** Every step keeps it *)

Lemma sh_inv_start : sh_inv sh_start.
Proof.
  by split.
Qed.

(** A step that moves no caller. *)
Lemma inv_env s s' : sh_inv s -> sh_callers s' = sh_callers s -> grows s s' ->
  inv (sh_sys s') -> waiters_ok (sh_sys s') ->
  sy_waiters (sh_sys s') = sy_waiters (sh_sys s) ->
  l_forced (sh_life s') = l_forced (sh_life s) ->
  sh_drained s' = sh_drained s -> sh_conn s' = sh_conn s ->
  (sh_drained s <> None -> sh_subs s' = [] /\ sh_mutex s' = None) -> sh_inv s'.
Proof.
  intros [Hsys Hwo Hcl Hph Hout Hins Hbef Hbeg Hown Hone Hopen Hdr Hconn Hf] Ec Hg Hi Hw Ew Ef Ed En Hs.
  pose proof Hg as [Hfl Ht _ _ _].
  split; rewrite ?Ec, ?Ed, ?En, ?Ew; auto.
  - intros g p Hp. by eapply Hfl, Hcl.
  - intros g p Hp. by eapply grows_phase, Hph.
  - intros Hn. rewrite Ht. by apply Hbef.
  - intros Hn. destruct (Hs Hn) as [H1 H2]. repeat split; [done..|]. apply Hfl. by apply Hbeg.
  - intros Hn. rewrite Ef. destruct (Hdr Hn) as [|Ha]; [by left|right]. by eapply grows_all.
  - intros Hn. rewrite Ef. destruct (Hconn Hn) as [|[H1 Ha]]; [by left|right].
    split; [by apply Hfl|by eapply grows_all].
  - rewrite Ef. intros Hn. destruct (Hf Hn) as (g & p & Hp & Hgp). exists g, p.
    rewrite Ec. split; [done|]. eapply gives_up_same; [|done]. by rewrite Ew.
Qed.

Lemma grows_refl s s' : sh_sys s' = sh_sys s -> sh_taken s' = sh_taken s ->
  sh_closed s ⊆ sh_closed s' -> sh_refused s ⊆ sh_refused s' ->
  (sh_drained s = Some true -> sh_drained s' = Some true) -> grows s s'.
Proof. intros Es. split; try done. by rewrite Es. Qed.

(** A step of the lifecycle below. *)
Lemma grows_sys s y : step (sh_sys s) y -> grows s (with_sys s y).
Proof. intros Hy. split; try done. by apply step_flags. Qed.

(** A caller outside [Wait] is unknown to it. *)
Lemma outside s g : sh_inv s ->
  (forall p, sh_callers s !! g = Some p -> in_wait p = false) -> sy_waiters (sh_sys s) !! g = None.
Proof.
  intros Hs Hp. destruct (sy_waiters (sh_sys s) !! g) eqn:E; [|done].
  destruct (si_outside s Hs g) as (p & Hg & Hi); [by rewrite E|]. by rewrite (Hp p Hg) in Hi.
Qed.

Lemma drained_some s g p : sh_inv s -> sh_callers s !! g = Some p -> p <> Began ->
  sh_drained s <> None.
Proof. intros Hs Hp Hne Hn. apply Hne. by eapply (si_before s Hs Hn). Qed.

(** A caller that goes from [p] to [p'] without entering [Wait]. *)
Lemma inv_goto s s1 g p p' : sh_inv s -> sh_callers s !! g = Some p -> sh_drained s <> None ->
  in_wait p = false -> p' <> Waiting -> owns p' = owns p ->
  sh_callers s1 = sh_callers s -> sh_subs s1 = sh_subs s -> sh_mutex s1 = sh_mutex s ->
  sh_drained s1 = sh_drained s -> grows s s1 -> inv (sh_sys s1) -> waiters_ok (sh_sys s1) ->
  sy_waiters (sh_sys s1) = sy_waiters (sh_sys s) ->
  phase_ok s1 p' -> (gives_up s g p -> gives_up s1 g p') ->
  (l_forced (sh_life s1) = true -> l_forced (sh_life s) = true \/ gives_up s1 g p') ->
  (sh_conn s1 = true -> sh_conn s = true \/ l_forced (sh_life s1) = true) ->
  sh_inv (goto s1 g p').
Proof.
  intros Hs Hp Hnb Hip Hpw Hop Ec Es Em Ed Hg Hi Hw Ew Hph Hga Hf Hco.
  apply (inv_moves s (goto s1 g p') g p'); [done|]. split; try done; simpl.
  - by rewrite Ec.
  - by destruct Hg.
  - eapply (gr_flags _ _ Hg), (si_callers s Hs g p Hp).
  - intros h _. by rewrite Ew.
  - rewrite Ew. by rewrite (outside s g Hs) by (intros q Hq; congruence).
  - left. split; [done|]. by rewrite Hp; simpl; rewrite Hop.
  - intros Hx. destruct (Hco Hx); auto.
  - intros q Hq. rewrite Hp in Hq. injection Hq as <-. apply Hga.
Qed.

(** The state in which [g] has called [Wait]. *)
Lemma step_enter s g : sy_waiters (sh_sys s) !! g = None ->
  step (sh_sys s) (set_waiter (sh_sys s) (BeginShutdown (sh_life s)) g Checking).
Proof. by apply step_shutdown. Qed.

(** A caller that enters [Wait], having closed [drained] or not. *)
Lemma inv_enter s s1 g p : sh_inv s -> sh_callers s !! g = Some p -> in_wait p = false ->
  (s1 = s /\ owns p = false /\ sh_drained s = Some true
   \/ s1 = close_drained s /\ owns p = true
      /\ (l_forced (sh_life s) = true \/ all_settled s)) ->
  gives_up s g p = False -> sh_inv (enter_wait s1 g).
Proof.
  intros Hs Hp Hip Hs1 Hng. assert (Hnone : sy_waiters (sh_sys s) !! g = None)
    by (apply outside; [done|intros q Hq; congruence]).
  pose proof (step_enter s g Hnone) as Hstep.
  assert (Hsame : sh_sys s1 = sh_sys s /\ sh_callers s1 = sh_callers s /\ sh_subs s1 = sh_subs s
    /\ sh_mutex s1 = sh_mutex s /\ sh_conn s1 = sh_conn s /\ sh_taken s1 = sh_taken s
    /\ sh_closed s1 = sh_closed s /\ sh_refused s1 = sh_refused s /\ sh_drained s1 = Some true)
    by (destruct Hs1 as [(-> & _ & ?)|(-> & _)]; done).
  destruct Hsame as (E1 & E2 & E3 & E4 & E5 & E6 & E7 & E8 & E9).
  assert (Hd : sh_drained s <> None).
  { destruct Hs1 as [(_ & _ & ->)|(_ & Ho & _)]; [done|]. by rewrite (si_owner s Hs g p Hp Ho). }
  unfold enter_wait. apply (inv_moves s _ g Waiting); [done|]. split; simpl; rewrite ?E1, ?E2, ?E3, ?E4, ?E5; auto.
  - split; simpl; rewrite ?E1, ?E6, ?E7, ?E8, ?E9; try done. unfold sh_life. rewrite E1. by apply step_flags.
  - unfold sh_life. rewrite E1. by eapply inv_step; [apply Hs|].
  - unfold sh_life. rewrite E1. by eapply waiters_ok_step; [apply Hs|].
  - intros h Hh. by rewrite lookup_insert_ne.
  - intros _. by rewrite lookup_insert_eq.
  - by intros.
  - destruct Hs1 as [(-> & Ho & Hdr)|(-> & Ho & Hset)]; rewrite Hp; simpl; rewrite Ho; [by left|right].
    split_and!; [done..|exact Hset].
  - unfold sh_life. rewrite E1. by left.
  - rewrite Hp. intros q [= <-]. by rewrite Hng.
Qed.

(** A new caller. *)
Lemma inv_begin s g : sh_inv s -> sh_callers s !! g = None -> sh_inv (goto (begin s) g Began).
Proof.
  intros Hs Hg. assert (Hst : step (sh_sys s) (with_life_of (sh_sys s) (BeginShutdown (sh_life s))))
    by apply step_begin.
  apply (inv_moves s (goto (begin s) g Began) g Began Hs). split; try done; simpl; auto.
  - by eapply inv_step; [apply Hs|].
  - by eapply waiters_ok_step; [apply Hs|].
  - rewrite (outside s g Hs) by (intros q Hq; congruence). done.
  - left. by rewrite Hg.
  - rewrite Hg. done.
Qed.

(** The owner takes the subscriptions: until then nobody has passed the mutex. *)
Lemma inv_take s g : sh_inv s -> sh_callers s !! g = Some Began -> sh_mutex s = None ->
  sh_drained s = None -> sh_inv (goto (take_subs s) g (Draining (sh_subs s) [])).
Proof.
  intros Hs Hg Hm Hd. destruct (si_before s Hs Hd) as (Ht & Hco & Hb).
  pose proof (si_callers s Hs g _ Hg) as Hc.
  assert (Hlook : forall h p, <[g := Draining (sh_subs s) []]> (sh_callers s) !! h = Some p ->
    (h = g /\ p = Draining (sh_subs s) []) \/ p = Began).
  { intros h p. destruct (decide (h = g)) as [->|Hne].
    - rewrite lookup_insert_eq. intros [= <-]. by left.
    - rewrite lookup_insert_ne by done. intros Hh. right. by eapply Hb. }
  split; simpl; try done; try apply Hs.
  - intros h p [[-> ->]| ->]%Hlook; [|done]. simpl. rewrite app_nil_r. auto.
  - intros h Hh. destruct (si_outside s Hs h Hh) as (p & Hp & Hi). by rewrite (Hb h p Hp) in Hi.
  - intros h Hh. destruct (Hlook h _ Hh) as [[_ ?]|?]; done.
  - intros h h' p q [[-> ->]| ->]%Hlook [[-> ->]| ->]%Hlook; done.
  - intros _. exists g, (Draining (sh_subs s) []). by rewrite lookup_insert_eq.
  - by rewrite Hco.
  - intros Hx. destruct (si_forced s Hs Hx) as (h & p & Hh & Hgu). by rewrite (Hb h p Hh) in Hgu.
Qed.

Section steps.
Context `{Transport}.

Lemma inv_env_step s s' : sh_inv s -> sh_step None s s' -> sh_inv s'.
Proof.
  intros Hs Hstep. pose proof (si_begun s Hs) as Hbeg.
  inversion Hstep as [? y (Hy & Hw & Hc & Hf)|? i Hm Hi Hd|? i Hm|? i| | | | | | | | | | | | | | | | | | | | ];
    subst; clear Hstep; [|unfold register_check; destruct (Closing (sh_life s)) eqn:Ec| |];
    apply (inv_env s _ Hs); try done; try apply Hs;
    try (by apply grows_refl); try (intros Hn; destruct (Hbeg Hn) as (? & ? & Hx)); auto.
  - by apply grows_sys.
  - by eapply inv_step; [apply Hs|].
  - by eapply waiters_ok_step; [apply Hs|].
  - unfold Closing in Ec. by rewrite Hx in Ec.
  - congruence.
  - apply grows_refl; try done. simpl. set_solver.
Qed.

Lemma force_interrupts seen : interrupts_first seen t_force = true.
Proof. destruct seen; [eapply interrupts_first_seen|]; apply t_force_interrupts. Qed.

(** One call, of [force] or after the wait. *)
Lemma inv_call s g a p p' : sh_inv s -> sh_callers s !! g = Some p -> sh_drained s <> None ->
  in_wait p = false -> p' <> Waiting -> owns p' = owns p -> gives_up s g p' ->
  (a = CloseConn -> l_forced (sh_life s) = true) ->
  phase_ok (run_call s a) p' -> gives_up (run_call s a) g p' -> sh_inv (goto (run_call s a) g p').
Proof.
  intros Hs Hp Hd Hi Hpw Ho Hg Ha Hph Hga.
  assert (Hst : step (sh_sys s) (with_life_of (sh_sys s) (Interrupt (sh_life s)))) by apply step_interrupt.
  apply (inv_goto s (run_call s a) g p p'); try done; try (by destruct a); destruct a; simpl; auto;
    try (by apply grows_refl); try apply Hs.
  all: first [by apply grows_sys|by eapply inv_step; [apply Hs|]|by eapply waiters_ok_step; [apply Hs|]].
Qed.

(** A caller goes on without a change of the rest. *)
Lemma inv_quiet s s1 g p p' : sh_inv s -> sh_callers s !! g = Some p -> sh_drained s <> None ->
  in_wait p = false -> p' <> Waiting -> owns p' = owns p -> (gives_up s g p -> gives_up s g p') ->
  s1 = s \/ (exists i, s1 = refuse s i) -> phase_ok s1 p' -> sh_inv (goto s1 g p').
Proof.
  intros Hs Hp Hd Hi Hpw Ho Hg Hs1 Hph.
  assert (Hsame : sh_sys s1 = sh_sys s /\ sh_callers s1 = sh_callers s /\ sh_subs s1 = sh_subs s
    /\ sh_mutex s1 = sh_mutex s /\ sh_conn s1 = sh_conn s /\ sh_taken s1 = sh_taken s
    /\ sh_closed s1 = sh_closed s /\ sh_refused s ⊆ sh_refused s1 /\ sh_drained s1 = sh_drained s)
    by (destruct Hs1 as [->|[i ->]]; simpl; repeat split; set_solver).
  destruct Hsame as (E1 & E2 & E3 & E4 & E5 & E6 & E7 & E8 & E9).
  apply (inv_goto s s1 g p p'); rewrite ?E1, ?E5; auto; try apply Hs.
  - apply grows_refl; rewrite ?E7, ?E9; done.
  - unfold gives_up. rewrite E1. exact Hg.
  - unfold sh_life. rewrite E1. auto.
Qed.

(** The owner leaves, forced: it closes [drained]. *)
Lemma inv_owner_forced s g e : sh_inv s -> sh_callers s !! g = Some (Forcing true e []) ->
  sh_inv (goto (close_drained s) g (Ended (Some e))).
Proof.
  intros Hs Hg. pose proof (si_phases s Hs g _ Hg) as Hf. simpl in Hf.
  apply (inv_moves s _ g (Ended (Some e)) Hs). split; simpl; auto; try done.
  - apply Hs.
  - apply Hs.
  - by apply (si_callers s Hs g _ Hg).
  - intros Hn. by destruct (drained_some s g _ Hs Hg).
  - right. rewrite Hg. auto.
Qed.

(** A caller in [Wait], or back from it, of which only the phase, the connection and
    the goroutines below change. *)
Lemma inv_in_wait s s1 g p p' : sh_inv s -> sh_callers s !! g = Some p -> p <> Began ->
  owns p = false -> owns p' = false -> in_wait p' = true ->
  (sh_callers s1 = sh_callers s /\ sh_subs s1 = sh_subs s /\ sh_mutex s1 = sh_mutex s
   /\ sh_drained s1 = sh_drained s /\ sh_taken s1 = sh_taken s /\ sh_closed s1 = sh_closed s
   /\ sh_refused s1 = sh_refused s) ->
  (sh_sys s1 = sh_sys s \/ waits g (sh_sys s) (sh_sys s1)) ->
  (p' = Waiting -> sy_waiters (sh_sys s1) !! g <> None) ->
  phase_ok s1 p' -> (gives_up s g p -> gives_up s1 g p') ->
  (l_forced (sh_life s1) = true -> l_forced (sh_life s) = true \/ gives_up s1 g p') ->
  (sh_conn s1 = true -> sh_conn s = true \/ exists err, told (sh_life s1) err
     /\ (err = None -> sh_drained s = Some true)) ->
  sh_inv (goto s1 g p').
Proof.
  intros Hs Hp Hnb Hop Hop' Hi (E2 & E3 & E4 & E5 & E6 & E7 & E8) Hsys Hins Hph Hga Hf Hco.
  assert (Hst : rtc step (sh_sys s) (sh_sys s1)).
  { destruct Hsys as [->|[Hst _]]; [done|by apply rtc_once]. }
  assert (Hgr : grows s s1).
  { split; rewrite ?E5, ?E7, ?E8; try done. by apply steps_flags. }
  apply (inv_moves s (goto s1 g p') g p' Hs). split; simpl; rewrite ?E2; auto.
  - by destruct Hgr.
  - destruct Hsys as [->|[Hst' _]]; [apply Hs|by eapply inv_step; [apply Hs|]].
  - destruct Hsys as [->|[Hst' _]]; [apply Hs|by eapply waiters_ok_step; [apply Hs|]].
  - apply (gr_flags _ _ Hgr), (si_callers s Hs g p Hp).
  - intros h Hh. destruct Hsys as [->|(_ & w & w' & _ & _ & ->)]; [done|by rewrite lookup_insert_ne].
  - intros Hn. by destruct (drained_some s g p Hs Hp Hnb).
  - left. rewrite Hp, Hop'. simpl. by rewrite Hop.
  - intros Hx. destruct (Hco Hx) as [|(err & Ht & Hd)]; [by left|right].
    destruct err as [e|]; [by left|]. destruct (si_drained s Hs (Hd eq_refl)) as [Hfo|Ha].
    + left. by apply (gr_flags _ _ Hgr).
    + right. split; [exact Ht|]. exact (grows_all s s1 Hgr Ha).
  - rewrite Hp. intros q [= <-]. exact Hga.
Qed.

Lemma inv_own_step s s' g : sh_inv s -> sh_step (Some g) s s' -> sh_inv s'.
Proof.
  intros Hs Hstep.
  inversion Hstep as [| | | |? g' Hg|? g' Hg Hm Hd|? g' d Hg Hm Hd|? g' Hg Hd|? g' Hg Hd|? g' Hg Hd|? g' e Hg
    |? g' i todo w Hg|? g' i todo w Hr Hg|? g' w Hg|? g' i rest Hg Hi|? g' Hg|? g' i rest Hg Hc
    |? g' i rest e Hg|? g' o e a todo Hg|? g' o e Hg|? g' y Hg Hw|? g' err Hg Hw|? g' err a todo Hg
    |? g' err Hg]; subst; clear Hstep;
    try (assert (Hnn : sh_drained s <> None) by (by eapply drained_some));
    try (pose proof (si_phases s Hs g _ Hg) as Hph; simpl in Hph).
  - by apply inv_begin.
  - by apply inv_take.
  - apply (inv_quiet s s g Began); auto; [congruence|by destruct t_peeks..].
  - apply (inv_quiet s s g Peeking); simpl; auto; try done.
  - apply (inv_enter s s g Peeking); auto.
  - apply (inv_enter s s g Joining); auto.
  - apply (inv_quiet s s g Joining); simpl; auto; try done. apply force_interrupts.
  - apply (inv_quiet s s g _ _ Hs Hg); simpl; auto; try done. destruct Hph as [Hin Hph].
    split; intros j Hj; [apply Hin; set_solver|]. destruct (Hph j Hj) as [|[|]]; set_solver.
  - apply (inv_quiet s (refuse s i) g _ _ Hs Hg); simpl; eauto; try done. destruct Hph as [Hin Hph].
    split; intros j Hj; [apply Hin; set_solver|]. unfold settled in *. destruct (Hph j Hj) as [|[|[]]]; set_solver.
  - apply (inv_quiet s s g _ _ Hs Hg); simpl; auto; try done. destruct Hph as [Hin Hph].
    split; intros j Hj; [apply Hin; set_solver|]. destruct (Hph j Hj) as [|[|]]; set_solver.
  - apply (inv_quiet s s g _ _ Hs Hg); simpl; auto; try done. destruct Hph as [Hin Hph].
    split; intros j Hj; [apply Hin; set_solver|]. unfold settled in *. destruct (Hph j Hj) as [|]; set_solver.
  - apply (inv_enter s (close_drained s) g _ Hs Hg); auto. right. repeat split. right.
    intros j Hj. destruct (proj2 Hph j Hj); set_solver.
  - apply (inv_enter s (close_drained s) g _ Hs Hg); auto. right. repeat split. left.
    unfold sh_life in *. by rewrite <- (wo_cancelled _ (si_waiters s Hs)).
  - apply (inv_quiet s s g _ _ Hs Hg); simpl; auto; try done. apply force_interrupts.
  - apply (inv_call s g a _ _ Hs Hg); simpl; auto.
    + intros ->. simpl in Hph. by b2p.
    + destruct a; simpl in *; auto. by b2p.
  - destruct o; [by apply inv_owner_forced|].
    apply (inv_quiet s s g _ _ Hs Hg); simpl; auto; try done.
  - replace (with_sys s y) with (goto (with_sys s y) g Waiting)
      by (unfold goto, with_sys; simpl; by rewrite insert_id).
    apply (inv_in_wait s (with_sys s y) g _ _ Hs Hg); simpl; auto; try done.
    + destruct Hw as (_ & w & w' & _ & _ & ->). by rewrite lookup_insert_eq.
    + intros [e He]. by destruct (proj1 (waits_cases _ _ _ Hw) (Some e)).
    + by apply waits_cases.
  - pose proof (wo_told _ (si_waiters s Hs) g err Hw) as Ht.
    apply (inv_in_wait s s g _ _ Hs Hg); simpl; auto; try done.
    + split; [apply t_finish_closes|done].
    + intros [e He]. rewrite Hw in He. by injection He as ->.
  - destruct Hph as (Hc & Ht & Hd). apply Forall_cons in Hc as [-> Hc].
    apply (inv_in_wait s (run_call s CloseConn) g _ _ Hs Hg); simpl; auto; try done. eauto.
  - destruct Hph as (Hc & Ht & Hd).
    apply (inv_in_wait s s g _ _ Hs Hg); simpl; auto; try done.
Qed.

Lemma sh_reachable_inv s : sh_reachable s -> sh_inv s.
Proof.
  intros Hr. unfold sh_reachable in Hr. remember sh_start as s0 eqn:E.
  assert (H0 : sh_inv s0) by (subst; apply sh_inv_start). clear E.
  induction Hr as [|s0 s1 s [l Hstep] _ IH]; [done|]. apply IH.
  destruct l as [g|]; [by eapply inv_own_step|by eapply inv_env_step].
Qed.

(** ** Monotonicity *)

Lemma sh_step_flags l s s' : sh_step l s s' -> flags_le (sh_sys s) (sh_sys s').
Proof.
  assert (Hi : forall y, flags_le y (with_life_of y (Interrupt (sy_life y)))) by (by intros; split).
  destruct 1 as [s y [Hy _]|s i| | | | | | | | | | | | | | | | |s g o e a todo|s g o e|s g y Hg [Hy _]| |s g err a todo|];
    try (by apply step_flags); try done.
  - unfold register_check. by case_match.
  - by destruct a.
  - by destruct o.
  - by destruct a.
Qed.

Lemma sh_steps_flags s s' : rtc sh_next s s' -> flags_le (sh_sys s) (sh_sys s').
Proof.
  induction 1 as [|s s1 s' [l Hstep] _ IH]; [by unfold flags_le|].
  apply sh_step_flags in Hstep. unfold flags_le in *. tauto.
Qed.

(** A registered subscription stays known: none is lost between the lists. *)
Lemma sh_step_known l s s' i : sh_inv s -> sh_step l s s' ->
  i ∈ sh_subs s ++ sh_taken s -> i ∈ sh_subs s' ++ sh_taken s'.
Proof.
  intros Hs Hstep. destruct Hstep as [s y Hy|s j Hm Hj Hd| | | |s g Hg Hm Hd| | | | | | | | | | | | |s g o e a todo|s g o e
    |s g y Hg Hy| |s g err a todo|]; try done; simpl.
  - unfold register_check. by case_match.
  - set_solver.
  - destruct (si_before s Hs Hd) as [-> _]. set_solver.
  - by destruct a.
  - by destruct o.
  - by destruct a.
Qed.

Lemma sh_step_inv l s s' : sh_inv s -> sh_step l s s' -> sh_inv s'.
Proof. destruct l as [g|]; [apply inv_own_step|apply inv_env_step]. Qed.

Lemma sh_steps_known s s' i : sh_inv s -> rtc sh_next s s' ->
  i ∈ sh_subs s ++ sh_taken s -> i ∈ sh_subs s' ++ sh_taken s'.
Proof.
  intros Hs Hr. induction Hr as [|s s1 s' [l Hstep] _ IH]; [done|]. intros Hi.
  apply IH; [by eapply sh_step_inv|by eapply sh_step_known].
Qed.

Lemma sh_steps_inv s s' : sh_inv s -> rtc sh_next s s' -> sh_inv s'.
Proof. intros Hs Hr. induction Hr as [|s s1 s' [l Hstep] _ IH]; [done|]. by eapply IH, sh_step_inv. Qed.
End steps.
