(* ===== verification/DrainSpec.v ===== *)
(** * Properties of the shutdown of a transport

    No subscription escapes a shutdown, the connection outlives the drain, what the
    result of [Shutdown] says is so, and every caller returns by its deadline, in
    every interleaving. *)

From S2P Require Import Prelude GoErrors Types Failure Lifecycle Drain DrainFacts.
Local Open Scope list_scope.
Local Open Scope Z_scope.

Section steps.
Context `{Transport}.

(** ** Running one caller to its end *)

(** [g] can return within [n] steps of its own. *)
Definition returns_within (g n : nat) (s : shut) : Prop :=
  exists s' err, bsteps (sh_step (Some g)) n s s' /\ sh_callers s' !! g = Some (Ended err).

Lemma rw_step g n s s1 : sh_step (Some g) s s1 -> returns_within g n s1 -> returns_within g (S n) s.
Proof. intros Hst (s' & err & Hb & He). exists s', err. split; [by eapply bsteps_l|done]. Qed.

Lemma rw_weaken g n m s : (n <= m)%nat -> returns_within g n s -> returns_within g m s.
Proof. intros Hle (s' & err & Hb & He). exists s', err. split; [by eapply bsteps_weaken|done]. Qed.

Lemma goto_at s g p : sh_callers (goto s g p) !! g = Some p.
Proof. simpl. by rewrite lookup_insert_eq. Qed.

Lemma rw_ended g s err : sh_callers s !! g = Some (Ended err) -> returns_within g 0 s.
Proof. intros Hg. exists s, err. split; [constructor|done]. Qed.

Lemma rw_finishing g err todo : forall s,
  sh_callers s !! g = Some (Finishing err todo) -> returns_within g (S (length todo)) s.
Proof.
  induction todo as [|a todo IH]; intros s Hg.
  - eapply rw_step; [by apply sh_return|]. eapply rw_ended, goto_at.
  - eapply rw_step; [by apply sh_finish|]. apply IH, goto_at.
Qed.

Lemma rw_forcing g owner e todo : forall s,
  sh_callers s !! g = Some (Forcing owner e todo) -> returns_within g (S (length todo)) s.
Proof.
  induction todo as [|a todo IH]; intros s Hg.
  - eapply rw_step; [by apply sh_forced|]. eapply rw_ended, goto_at.
  - eapply rw_step; [by apply sh_force|]. apply IH, goto_at.
Qed.

Lemma rw_returned g s err : sh_callers s !! g = Some Waiting ->
  sy_waiters (sh_sys s) !! g = Some (Returned err) -> returns_within g (length t_finish + 2) s.
Proof.
  intros Hg Hw. replace (length t_finish + 2)%nat with (S (S (length t_finish))) by lia.
  eapply rw_step; [by apply sh_waited|]. apply rw_finishing with (err := err), goto_at.
Qed.

(** One step inside [Wait]. *)
Lemma wait_step s g l w w' : sh_callers s !! g = Some Waiting ->
  sy_waiters (sh_sys s) !! g = Some w -> w <> w' ->
  step (sh_sys s) (set_waiter (sh_sys s) l g w') ->
  sh_step (Some g) s (with_sys s (set_waiter (sh_sys s) l g w')).
Proof. intros Hg Hw Hne Hst. apply sh_wait; [done|]. split; [done|]. by exists w, w'. Qed.

Lemma rw_blocked g s ch : sh_callers s !! g = Some Waiting ->
  sy_waiters (sh_sys s) !! g = Some (Blocked ch) -> returns_within g (length t_finish + 3) s.
Proof.
  intros Hg Hw. replace (length t_finish + 3)%nat with (S (length t_finish + 2)) by lia.
  eapply rw_step; [apply (wait_step s g (Interrupt (sy_life (sh_sys s))) _ (Returned (Some (Sentinel DeadlineExceeded))) Hg Hw);
    [done|by eapply step_expire]|].
  eapply rw_returned; [done|]. simpl. by rewrite lookup_insert_eq.
Qed.

Lemma rw_waiting g s : sh_inv s -> sh_callers s !! g = Some Waiting ->
  returns_within g (length t_finish + 4) s.
Proof.
  intros Hs Hg. pose proof (si_inside s Hs g Hg) as Hin.
  destruct (sy_waiters (sh_sys s) !! g) as [[|ch|err]|] eqn:Hw; [|..|done].
  - replace (length t_finish + 4)%nat with (S (length t_finish + 3)) by lia.
    destruct (Wait_check (sy_next (sh_sys s)) (sh_life s)) as [l [ch|]] eqn:Hk.
    + eapply rw_step; [apply (wait_step s g l _ (Blocked ch) Hg Hw); [done|by eapply step_check_wait]|].
      eapply rw_blocked; [done|]. simpl. by rewrite lookup_insert_eq.
    + eapply rw_step; [apply (wait_step s g l _ (Returned None) Hg Hw); [done|by eapply step_check_done]|].
      eapply rw_weaken; [|eapply rw_returned; [done|simpl; by rewrite lookup_insert_eq]]. lia.
  - eapply rw_weaken; [|by eapply rw_blocked]. lia.
  - eapply rw_weaken; [|by eapply rw_returned]. lia.
Qed.

(** The cost of what follows the drain. *)
Definition tail_cost : nat := length t_force + length t_finish + 6.

Lemma rw_enter g s s' : sh_inv s -> sh_step (Some g) s s' -> (exists s1, s' = enter_wait s1 g) ->
  returns_within g tail_cost s.
Proof.
  intros Hs Hst [s1 ->]. eapply rw_weaken; [|eapply rw_step; [done|eapply rw_waiting; [|apply goto_at]]];
    [unfold tail_cost; lia|]. by eapply inv_own_step.
Qed.

Lemma rw_joining g s : sh_callers s !! g = Some Joining -> returns_within g tail_cost s.
Proof.
  intros Hg. eapply rw_weaken; [|eapply rw_step; [by apply (sh_join_expire s g (Sentinel DeadlineExceeded))
    |eapply rw_forcing, goto_at]]. unfold tail_cost. lia.
Qed.

Lemma rw_peeking g s : sh_inv s -> sh_callers s !! g = Some Peeking -> returns_within g (S tail_cost) s.
Proof.
  intros Hs Hg. assert (Hn : sh_drained s <> None) by (by eapply drained_some).
  destruct (sh_drained s) as [[|]|] eqn:Hd; [| |done].
  - eapply rw_weaken; [|eapply rw_enter; [done|by apply sh_peek_closed|by eexists]]. lia.
  - eapply rw_step; [by apply sh_peek_open|apply rw_joining, goto_at].
Qed.

Lemma rw_awaiting g s rest : sh_inv s -> sh_callers s !! g = Some (Awaiting rest) ->
  returns_within g tail_cost s.
Proof.
  intros Hs Hg. destruct rest as [|i rest].
  - eapply rw_enter; [done|by apply sh_all_closed|by eexists].
  - eapply rw_weaken; [|eapply rw_step; [by apply (sh_own_expire s g i rest (Sentinel DeadlineExceeded))
      |eapply rw_forcing, goto_at]]. unfold tail_cost. lia.
Qed.

Lemma rw_draining g todo : forall s waiting, sh_inv s ->
  sh_callers s !! g = Some (Draining todo waiting) -> returns_within g (length todo + S tail_cost) s.
Proof.
  induction todo as [|i todo IH]; intros s waiting Hs Hg.
  - eapply rw_step; [by apply sh_drain_all|]. eapply rw_awaiting, goto_at.
    eapply inv_own_step; [done|by apply sh_drain_all].
  - eapply rw_step; [by apply sh_drain|]. eapply IH, goto_at. eapply inv_own_step; [done|by apply sh_drain].
Qed.

(** ** A drain that completes *)

(** Nobody gave up, nothing is in flight, and the client has closed every subscription. *)
Record calm (s : shut) : Prop := {
  ca_inv : sh_inv s;
  ca_patient : ~ gave_up s;
  ca_held : held (sh_sys s) = 0%nat;
  ca_closed : forall i, i ∈ sh_subs s ++ sh_taken s -> i ∈ sh_closed s;
  ca_mutex : sh_mutex s = None;
}.

Definition completes (g : nat) (s : shut) : Prop :=
  exists s', rtc sh_next s s' /\ sh_callers s' !! g = Some (Ended None).

Lemma cp_step l g s s1 : sh_step l s s1 -> completes g s1 -> completes g s.
Proof. intros Hst (s' & Hr & He). exists s'. split; [eapply rtc_l; [by exists l|done]|done]. Qed.

Lemma cp_steps g s s1 : rtc sh_next s s1 -> completes g s1 -> completes g s.
Proof. intros Hst (s' & Hr & He). exists s'. split; [by etransitivity|done]. Qed.

Lemma calm_step s s' g p' : calm s -> sh_step (Some g) s s' ->
  sh_callers s' = <[g := p']> (sh_callers s) -> ~ gives_up s' g p' ->
  sy_tokens (sh_sys s') = sy_tokens (sh_sys s) ->
  (forall h, h <> g -> sy_waiters (sh_sys s') !! h = sy_waiters (sh_sys s) !! h) ->
  sh_closed s' = sh_closed s -> sh_mutex s' = sh_mutex s ->
  (forall i, i ∈ sh_subs s' ++ sh_taken s' -> i ∈ sh_subs s ++ sh_taken s) -> calm s'.
Proof.
  intros [Hs Hp Hh Hc Hm] Hst Ec Hng Et Ew El Em Hin. split.
  - by eapply inv_own_step.
  - intros (h & p & Hh' & Hgu). rewrite Ec in Hh'. destruct (decide (h = g)) as [->|Hne].
    + rewrite lookup_insert_eq in Hh'. by injection Hh' as <-.
    + rewrite lookup_insert_ne in Hh' by done. apply Hp. exists h, p. split; [done|].
      eapply gives_up_same; [|exact Hgu]. by rewrite Ew.
  - unfold held in *. by rewrite Et.
  - intros i Hi. rewrite El. by apply Hc, Hin.
  - by rewrite Em.
Qed.

Lemma cp_finishing g todo : forall s, sh_callers s !! g = Some (Finishing None todo) -> completes g s.
Proof.
  induction todo as [|a todo IH]; intros s Hg.
  - eapply cp_step; [by apply sh_return|]. eexists. split; [done|apply goto_at].
  - eapply cp_step; [by apply sh_finish|]. apply IH, goto_at.
Qed.

Lemma cp_returned g s : sh_callers s !! g = Some Waiting ->
  sy_waiters (sh_sys s) !! g = Some (Returned None) -> completes g s.
Proof.
  intros Hg Hw. eapply cp_step; [by apply sh_waited|]. eapply cp_finishing, goto_at.
Qed.

Lemma cp_checking g s : sh_callers s !! g = Some Waiting ->
  sy_waiters (sh_sys s) !! g = Some Checking -> l_inflight (sh_life s) = 0 -> completes g s.
Proof.
  intros Hg Hw H0. assert (Hk : exists l, Wait_check (sy_next (sh_sys s)) (sh_life s) = (l, None))
    by (unfold Wait_check; rewrite H0; by eexists).
  destruct Hk as [l Hk].
  eapply cp_step; [apply (wait_step s g l _ (Returned None) Hg Hw); [done|by eapply step_check_done]|].
  apply cp_returned; [done|]. simpl. by rewrite lookup_insert_eq.
Qed.

Lemma calm_idle s : calm s -> l_inflight (sh_life s) = 0.
Proof. intros [Hs _ Hh _ _]. unfold sh_life. by rewrite (inv_count _ (si_sys s Hs)), Hh. Qed.

Lemma cp_enter g s s1 : calm s -> s1 = s \/ s1 = close_drained s ->
  sh_step (Some g) s (enter_wait s1 g) -> completes g s.
Proof.
  intros Hc Hs1 Hst. eapply cp_step; [exact Hst|].
  pose proof (calm_idle s Hc) as H0.
  apply cp_checking; [apply goto_at|simpl; by rewrite lookup_insert_eq|destruct Hs1 as [->| ->]; exact H0].
Qed.

Lemma cp_waiting g s : calm s -> sh_callers s !! g = Some Waiting -> completes g s.
Proof.
  intros Hc Hg. pose proof Hc as [Hs Hp Hh _ _]. pose proof (si_inside s Hs g Hg) as Hin.
  destruct (sy_waiters (sh_sys s) !! g) as [[|ch|[e|]]|] eqn:Hw; [| | | |done].
  - apply cp_checking; auto using calm_idle.
  - eapply cp_step; [apply (wait_step s g (sy_life (sh_sys s)) _ Checking Hg Hw); [done|]|].
    + eapply step_wake; [exact Hw|]. destruct (inv_blocked _ (si_sys s Hs) g ch Hw) as [|[H1 H2]]; [done|].
      destruct (inv_idle _ (si_sys s Hs) ch H1) as (_ & _ & _ & Hx). by destruct (Hx H2).
    + apply cp_checking; [done|simpl; by rewrite lookup_insert_eq|exact (calm_idle s Hc)].
  - destruct Hp. exists g, Waiting. split; [done|]. by exists e.
  - by apply cp_returned.
Qed.

(** The owner runs up to the end of its drain; the other callers stay where they are. *)
Definition drains_to (o : nat) (s s' : shut) : Prop :=
  rtc sh_next s s' /\ calm s' /\ sh_callers s' !! o = Some (Awaiting [])
  /\ forall h, h <> o -> sh_callers s' !! h = sh_callers s !! h.

Lemma drains_step o s p : calm s -> sh_step (Some o) s (goto s o p) -> ~ gives_up s o p ->
  (calm (goto s o p) -> exists s', drains_to o (goto s o p) s') -> exists s', drains_to o s s'.
Proof.
  intros Hc Hst Hng Hk. destruct Hk as (s' & Hr & Hc' & Ha & Ho).
  { apply (calm_step s _ o p Hc Hst); try done. }
  exists s'. split; [eapply rtc_l; [by exists (Some o)|done]|]. split; [done|]. split; [done|].
  intros h Hh. rewrite Ho by done. simpl. by rewrite lookup_insert_ne.
Qed.

Lemma drains_awaiting o rest : forall s, calm s -> sh_callers s !! o = Some (Awaiting rest) ->
  exists s', drains_to o s s'.
Proof.
  induction rest as [|i rest IH]; intros s Hc Hg; [by exists s|].
  apply (drains_step o s (Awaiting rest) Hc); [|by intros []|intros Hc'; by eapply IH, goto_at].
  apply (sh_sub_closed s o i); [done|]. apply (ca_closed s Hc).
  destruct (si_phases s (ca_inv s Hc) o _ Hg) as [Hin _]. specialize (Hin i). set_solver.
Qed.

Lemma drains_draining o todo : forall s w, calm s -> sh_callers s !! o = Some (Draining todo w) ->
  exists s', drains_to o s s'.
Proof.
  induction todo as [|i todo IH]; intros s w Hc Hg.
  - apply (drains_step o s (Awaiting w) Hc); [by apply sh_drain_all|by intros []|].
    intros Hc'. by eapply drains_awaiting, goto_at.
  - apply (drains_step o s (Draining todo (w ++ [i])) Hc); [by apply sh_drain|by intros []|intros Hc'; by eapply IH, goto_at].
Qed.

Lemma drains_owner o s p : calm s -> sh_callers s !! o = Some p -> owns p = true ->
  exists s', drains_to o s s'.
Proof.
  intros Hc Hg Ho. destruct p as [| | |todo w|rest|[] e todo| | |]; try done.
  - by eapply drains_draining.
  - by eapply drains_awaiting.
  - destruct (ca_patient s Hc). by eexists _, _.
Qed.

(** A caller once the drain is over. *)
Lemma cp_drained g s p : calm s -> sh_callers s !! g = Some p -> sh_drained s = Some true ->
  p <> Began -> completes g s.
Proof.
  intros Hc Hg Hd Hb. pose proof (ca_inv s Hc) as Hs.
  assert (Hno : owns p = false).
  { destruct (owns p) eqn:Ho; [|done]. by rewrite (si_owner s Hs g p Hg Ho) in Hd. }
  assert (Hpat : ~ gives_up s g p) by (intros Hx; apply (ca_patient s Hc); by exists g, p).
  destruct p as [| | |todo w|rest|[] e todo| |[e|] todo|[e|]]; try done; try (by destruct Hpat).
  - eapply cp_enter; [done|by left|by apply sh_peek_closed].
  - eapply cp_enter; [done|by left|by apply sh_join].
  - by apply cp_waiting.
  - by eapply cp_finishing.
  - by exists s.
Qed.

(** The owner closes [drained]. *)
Lemma calm_close o s : calm s -> sh_callers s !! o = Some (Awaiting []) ->
  calm (enter_wait (close_drained s) o) /\ sh_next s (enter_wait (close_drained s) o).
Proof.
  intros Hc Hg. assert (Hst : sh_step (Some o) s (enter_wait (close_drained s) o)) by (by apply sh_all_closed).
  split; [|by exists (Some o)]. apply (calm_step s _ o Waiting Hc Hst); try done.
  - simpl. rewrite lookup_insert_eq. by intros [e He].
  - intros h Hh. simpl. by rewrite lookup_insert_ne.
Qed.

Lemma cp_owned g s p : calm s -> sh_callers s !! g = Some p -> sh_drained s = Some false ->
  p <> Began -> completes g s.
Proof.
  intros Hc Hg Hd Hb. destruct (si_open s (ca_inv s Hc) Hd) as (o & q & Ho & Hq).
  destruct (drains_owner o s q Hc Ho Hq) as (s1 & Hr & Hc1 & Ha & Hsame). eapply cp_steps; [exact Hr|].
  destruct (decide (g = o)) as [->|Hne].
  - eapply cp_enter; [done|by right|by apply sh_all_closed].
  - destruct (calm_close o s1 Hc1 Ha) as [Hc2 [l Hst]]. eapply cp_step; [exact Hst|].
    eapply (cp_drained g _ p Hc2); [|done..]. simpl. by rewrite lookup_insert_ne, Hsame.
Qed.

Lemma cp_any g s p : calm s -> sh_callers s !! g = Some p -> completes g s.
Proof.
  intros Hc Hg. assert (Hp : p = Began \/ p <> Began) by (destruct p; auto). destruct Hp as [->|Hb].
  - destruct (sh_drained s) as [d|] eqn:Hd.
    + assert (Hst : sh_step (Some g) s (goto s g (if t_peeks then Peeking else Joining)))
        by (by apply (sh_later s g d); [|apply (ca_mutex s Hc)|]).
      eapply cp_step; [exact Hst|].
      assert (Hc' : calm (goto s g (if t_peeks then Peeking else Joining)))
        by (apply (calm_step s _ g (if t_peeks then Peeking else Joining) Hc Hst); try done;
            destruct t_peeks; simpl; tauto).
      destruct d; [eapply (cp_drained g _ _ Hc')|eapply (cp_owned g _ _ Hc')];
        try apply goto_at; try done; by destruct t_peeks.
    + assert (Hst : sh_step (Some g) s (goto (take_subs s) g (Draining (sh_subs s) [])))
        by (apply sh_take; auto; apply (ca_mutex s Hc)).
      eapply cp_step; [exact Hst|].
      eapply cp_owned; [|apply goto_at|done..].
      apply (calm_step s _ g (Draining (sh_subs s) []) Hc Hst); try done;
        [by intros []|simpl; set_solver].
  - destruct (sh_drained s) as [[]|] eqn:Hd; [by eapply cp_drained|by eapply cp_owned|].
    by destruct (drained_some s g p (ca_inv s Hc) Hg Hb).
Qed.

(** * Properties *)

(** C10: the contract of [Shutdown], in every interleaving of its callers with the
    work of the bus, the registrations and the client. A registered subscription
    is never lost, and from the moment the owner took them every later one is
    refused. A caller that returns nil leaves nothing in flight, then and ever
    after, and every subscription it took has ended unless another caller's
    deadline forced the shutdown; a caller that returns an error has stopped all
    new work. The connection is closed only when all of this is over, or forced;
    a shutdown is forced only by a caller that gave up, and the channel of the
    later callers is closed once, by the one owner. *)
Theorem shutdown_contract (s : shut) :
  sh_reachable s ->
  (forall s' i, rtc sh_next s s' -> i ∈ sh_subs s ++ sh_taken s -> i ∈ sh_subs s' ++ sh_taken s')
  /\ (sh_drained s <> None -> sh_subs s = [] /\ sh_mutex s = None
      /\ forall i, sh_subs (register_check s i) = [] /\ i ∈ sh_dropped (register_check s i))
  /\ (forall g, sh_callers s !! g = Some (Ended None) ->
      (l_forced (sh_life s) = true \/ all_settled s)
      /\ forall s', rtc sh_next s s' -> held (sh_sys s') = 0%nat)
  /\ (forall g e, sh_callers s !! g = Some (Ended (Some e)) ->
      forall nested, (Admit nested (sh_life s)).2 = Some (Sentinel ErrBusClosed)
        /\ (Track (sh_life s)).2 = false)
  /\ (sh_conn s = true ->
      l_forced (sh_life s) = true \/ (held (sh_sys s) = 0%nat /\ all_settled s))
  /\ (l_forced (sh_life s) = true -> gave_up s)
  /\ (forall g p, sh_callers s !! g = Some p -> owns p = true -> sh_drained s = Some false
      /\ forall g' p', sh_callers s !! g' = Some p' -> owns p' = true -> g' = g).
Proof.
  intros Hr. pose proof (sh_reachable_inv s Hr) as Hs. split_and!.
  - intros s' i Hss. by apply sh_steps_known.
  - intros Hd. destruct (si_begun s Hs Hd) as (H1 & H2 & H3). split_and!; [done..|].
    intros i. unfold register_check, Closing. rewrite H3. simpl. split; [done|set_solver].
  - intros g Hg. destruct (si_phases s Hs g _ Hg) as [Ht Hd]. split; [by apply (si_drained s Hs), Hd|].
    intros s' Hss. apply (inv_done _ (si_sys s' (sh_steps_inv s s' Hs Hss))).
    by apply (sh_steps_flags s s' Hss).
  - intros g e Hg nested. destruct (si_phases s Hs g _ Hg) as [Ht _]. simpl in Ht.
    unfold Admit, Track. by rewrite Ht.
  - intros Hc. destruct (si_conn s Hs Hc) as [|[H1 H2]]; [by left|right].
    split; [by apply (inv_done _ (si_sys s Hs))|done].
  - apply Hs.
  - intros g p Hg Ho. split; [by eapply si_owner|]. intros g' p' Hg' Ho'. by eapply (si_one s Hs).
Qed.

(** The calls a caller has before it: the drains to start, or the rest of a path. *)
Definition to_do (s : shut) (p : phase) : nat :=
  match p with
  | Began => length (sh_subs s)
  | Draining todo _ => length todo
  | Forcing _ _ todo | Finishing _ todo => length todo
  | _ => 0
  end.

(** A shutdown is bounded by its context. Whatever the other callers, the
    handlers and the client do, a caller of [Shutdown] whose context has expired
    returns by steps of its own, within a bound that depends only on the
    calls it has before it and on the forced path; it never waits for
    another caller beyond its deadline. *)
Theorem shutdown_is_bounded (s : shut) (g : nat) (p : phase) :
  sh_reachable s -> sh_callers s !! g = Some p -> (p = Began -> sh_mutex s = None) ->
  exists s' err,
    bsteps (sh_step (Some g)) (to_do s p + length t_force + length t_finish + 8) s s'
    /\ sh_callers s' !! g = Some (Ended err).
Proof.
  intros Hr Hg Hm. pose proof (sh_reachable_inv s Hr) as Hs.
  cut (returns_within g (to_do s p + S (S tail_cost)) s).
  { intros (s' & err & Hb & He). exists s', err. split; [|done].
    eapply bsteps_weaken; [|exact Hb]. unfold tail_cost. lia. }
  assert (Htail : (length t_force + length t_finish + 4 <= tail_cost)%nat) by (unfold tail_cost; lia).
  destruct p as [| | |todo w|rest|o e todo| |err todo|err]; unfold to_do.
  - destruct (sh_drained s) as [d|] eqn:Hd.
    + assert (Hst : sh_step (Some g) s (goto s g (if t_peeks then Peeking else Joining)))
        by (eapply sh_later; eauto).
      pose proof (inv_own_step _ _ _ Hs Hst) as Hs1.
      eapply (rw_weaken g (S (S tail_cost))); [lia|]. eapply rw_step; [exact Hst|]. destruct t_peeks.
      * by apply rw_peeking, goto_at.
      * eapply rw_weaken; [|apply rw_joining, goto_at]. lia.
    + assert (Hst : sh_step (Some g) s (goto (take_subs s) g (Draining (sh_subs s) [])))
        by (apply sh_take; auto).
      eapply rw_weaken; [|eapply rw_step; [exact Hst|eapply rw_draining, goto_at]]; [lia|].
      by eapply inv_own_step.
  - eapply rw_weaken; [|by apply rw_peeking]. lia.
  - eapply rw_weaken; [|by apply rw_joining]. lia.
  - eapply rw_weaken; [|by eapply rw_draining]. lia.
  - eapply rw_weaken; [|by eapply rw_awaiting]. lia.
  - eapply rw_weaken; [|by eapply rw_forcing]. lia.
  - eapply rw_weaken; [|by apply rw_waiting]. lia.
  - eapply rw_weaken; [|by eapply rw_finishing]. lia.
  - eapply rw_weaken; [|by eapply rw_ended]. lia.
Qed.

(** A drain completes. When the client has closed every subscription, nothing
    is in flight and no caller gave up, every caller of [Shutdown], wherever it is
    and whoever owns the drain, can go on to return nil: no caller is left waiting
    for a channel that nobody closes. *)
Theorem shutdown_completes (s : shut) (g : nat) (p : phase) :
  sh_reachable s -> sh_callers s !! g = Some p -> sh_mutex s = None -> ~ gave_up s ->
  held (sh_sys s) = 0%nat -> (forall i, i ∈ sh_subs s ++ sh_taken s -> i ∈ sh_closed s) ->
  exists s', rtc sh_next s s' /\ sh_callers s' !! g = Some (Ended None).
Proof.
  intros Hr Hg Hm Hp Hh Hc. eapply cp_any; [|done]. split; try done. by apply sh_reachable_inv.
Qed.
End steps.

(** ** A run of the NATS core bus

    Subscription 5 is registered; caller 1 shuts the bus down, caller 2 comes later. *)

#[local] Existing Instance core_transport.

Lemma reach_step l s s' : sh_reachable s -> sh_step l s s' -> sh_reachable s'.
Proof. intros Hr Hst. eapply rtc_r; [exact Hr|by exists l]. Qed.

Definition run_registered : shut := register_append (register_check sh_start 5) 5.
Definition run_taken : shut :=
  goto (take_subs (goto (begin run_registered) 1 Began)) 1 (Draining [5%nat] []).
Definition run_joining : shut := goto (goto (goto (begin run_taken) 2 Began) 2 Peeking) 2 Joining.
Definition run_closed : shut := closed_sub run_joining 5.

Lemma run_closed_reachable : sh_reachable run_closed.
Proof.
  eapply (reach_step None); [|apply sh_client_closes].
  eapply (reach_step (Some 2%nat)); [|apply sh_peek_open; reflexivity].
  eapply (reach_step (Some 2%nat)); [|exact (sh_later (goto (begin run_taken) 2 Began) 2 false eq_refl eq_refl eq_refl)].
  eapply (reach_step (Some 2%nat)); [|apply sh_begin; reflexivity].
  eapply (reach_step (Some 1%nat)); [|exact (sh_take (goto (begin run_registered) 1 Began) 1 eq_refl eq_refl eq_refl)].
  eapply (reach_step (Some 1%nat)); [|apply sh_begin; reflexivity].
  eapply (reach_step None); [|apply sh_append; reflexivity].
  eapply (reach_step None); [apply rtc_refl|apply sh_check; [reflexivity|apply not_elem_of_nil|apply not_elem_of_empty]].
Qed.

(** The owner ends its drain, waits and returns, the connection closed. *)
Definition run_waiting : shut :=
  enter_wait (close_drained (goto (goto (goto run_closed 1 (Draining [] [5%nat])) 1 (Awaiting [5%nat])) 1 (Awaiting []))) 1.
Definition run_waited : shut :=
  let y := sh_sys run_waiting in
  with_sys run_waiting (set_waiter y (Wait_check (sy_next y) (sy_life y)).1 1 (Returned None)).
Definition run_ended : shut :=
  goto (goto (run_call (goto run_waited 1 (Finishing None core_finish)) CloseConn) 1 (Finishing None [])) 1 (Ended None).

Lemma run_ended_reachable : sh_reachable run_ended.
Proof.
  eapply (reach_step (Some 1%nat)); [|apply sh_return; reflexivity].
  eapply (reach_step (Some 1%nat)); [|apply sh_finish; reflexivity].
  eapply (reach_step (Some 1%nat)); [|exact (sh_waited run_waited 1 None eq_refl eq_refl)].
  eapply (reach_step (Some 1%nat)).
  2:{ apply sh_wait; [reflexivity|]. split; [eapply step_check_done; reflexivity|].
      exists Checking, (Returned None). repeat split; discriminate || reflexivity. }
  eapply (reach_step (Some 1%nat)); [|apply sh_all_closed; reflexivity].
  eapply (reach_step (Some 1%nat)); [|apply (sh_sub_closed _ 1%nat 5%nat []); [reflexivity|set_solver]].
  eapply (reach_step (Some 1%nat)); [|apply sh_drain_all; reflexivity].
  eapply (reach_step (Some 1%nat)); [|apply (sh_drain _ 1%nat 5%nat [] []); reflexivity].
  exact run_closed_reachable.
Qed.

Lemma shutdown_contract_witness :
  sh_conn run_ended = true /\ sh_taken run_ended = [5%nat] /\ l_forced (sh_life run_ended) = false
  /\ all_settled run_ended
  /\ forall s', rtc sh_next run_ended s' -> held (sh_sys s') = 0%nat.
Proof.
  destruct (shutdown_contract run_ended run_ended_reachable) as (_ & _ & Hn & _).
  destruct (Hn 1%nat eq_refl) as [[Hf|Ha] Hh]; [vm_compute in Hf; discriminate|].
  repeat split; try reflexivity; assumption.
Defined.

Lemma shutdown_is_bounded_witness :
  exists s' err, bsteps (sh_step (Some 2%nat)) 11 run_closed s' /\ sh_callers s' !! 2%nat = Some (Ended err).
Proof.
  exact (shutdown_is_bounded run_closed 2 Joining run_closed_reachable eq_refl ltac:(discriminate)).
Defined.

Lemma run_closed_calm : ~ gave_up run_closed /\ forall i, i ∈ sh_subs run_closed ++ sh_taken run_closed -> i ∈ sh_closed run_closed.
Proof.
  split; [|intros i; simpl; set_solver]. intros (g & p & Hg & Hp). simpl in Hg.
  destruct (decide (g = 2%nat)) as [->|H2]; [by simplify_map_eq|].
  destruct (decide (g = 1%nat)) as [->|H1]; by simplify_map_eq.
Qed.

Lemma shutdown_completes_witness :
  exists s', rtc sh_next run_closed s' /\ sh_callers s' !! 2%nat = Some (Ended None).
Proof.
  destruct run_closed_calm as [Hp Hc].
  apply (shutdown_completes run_closed 2 Joining run_closed_reachable); [reflexivity|reflexivity|exact Hp|reflexivity|exact Hc].
Defined.
