(* ===== verification/NatsCore.v ===== *)
(** * The NATS core transport

    src/nats/bus.go and src/nats/errors.go: publishing and requests, the callbacks
    of [Subscribe] and [SubscribeSync], and the error a responder sends back. The
    connection is the interface [Conn]; a reply is recorded in the trace like every
    other message.

    NATS core never redelivers: every delivery is the final one, and the callback
    answers a request itself, also when it panics. The local variable [replied] of
    [SubscribeSync] is set by the last statement before a return, so that a panic
    always finds it false; the flag [sync] tells the two callbacks apart. The
    provider of the producer spans, a field of the bus, is the argument [tp]. *)

From S2P Require Import Prelude GoErrors Types Failure Text Runtime Trace Observer Scope Dlq.
From S2P Require Import Settle Invoke Lifecycle LifeOps History Emit Nats.
Local Open Scope string_scope.
Local Open Scope list_scope.
Local Open Scope Z_scope.

(** ** src/nats/errors.go *)

Definition HeaderError := "Eventbus-Error".

(** [strings.Cut] with the separator ": ", the bytes 58 and 32. *)
Fixpoint cut_colon (s : string) : string * string :=
  match s with
  | EmptyString => ("", "")
  | String a r =>
      match r with
      | String b rest =>
          if Ascii.eqb a (Ascii.ascii_of_nat 58) && Ascii.eqb b (Ascii.ascii_of_nat 32) then ("", rest)
          else let '(p, q) := cut_colon r in (String a p, q)
      | EmptyString => (s, "")
      end
  end.

(** [errorHeaderValue]. *)
Definition errorHeaderValue (reason : string) (err : goerr) (withMessage : bool) : string :=
  match err with
  | Some e => if withMessage
              then reason +:+ ": " +:+ TruncateHeader (error_text e) DLQHeaderValueLimit
              else reason
  | None => reason
  end.

(** [parseRemoteError]. *)
Definition parseRemoteError (subject value : string) : error :=
  RemoteError subject (cut_colon value).1 (cut_colon value).2.

(** ** The connection *)

(** [nats.Msg], as it is received. *)
Record InMsg := mkInMsg {
  im_subject : string;
  im_reply : string;
  im_header : option Header;
  im_data : option string;
}.

(** [natsConn] without [Subscribe] and [Close]. *)
Class Conn (U : Type) := {
  conn_publish : string -> string -> M U goerr;
  conn_request : string -> string -> Z -> M U (InMsg + error);
  conn_publish_msg : NatsMsg -> M U goerr;
}.

Definition core_PublishMsg {U} `{Conn U} (m : NatsMsg) : M U goerr :=
  t ← now;
  err ← conn_publish_msg m;
  _ ← log_entry (EMessage t m err);
  mret err.

(** ** Configuration *)

Record BusOptions (U : Type) := mkBusOptions {
  no_request_timeout : Z;
  no_invoker : option (Invoker U);
  no_observer : option observer;
  no_id_generator : option (M U string);
  no_inherit_headers : list string;
  no_dlq : option (DLQPublisher U);
  no_reply_error_message : bool;
  no_shutdown_timeout : Z;
}.
Arguments mkBusOptions {U}.
Arguments no_request_timeout {U}.
Arguments no_invoker {U}.
Arguments no_observer {U}.
Arguments no_id_generator {U}.
Arguments no_inherit_headers {U}.
Arguments no_dlq {U}.
Arguments no_reply_error_message {U}.
Arguments no_shutdown_timeout {U}.

(** [Bus], with the identity of its lifecycle and the moment, if any, at which
    [Interrupt] cancels its context. *)
Record Bus (U : Type) := mkBus {
  nb_registry : @Registry U;
  nb_decode : Decoder U;
  nb_timeout : Z;
  nb_invoker : option (Invoker U);
  nb_id_gen : option (M U string);
  nb_inherit : list string;
  nb_observer : option observer;
  nb_default_log : bool;
  nb_dlq : option (DLQPublisher U);
  nb_reply_err_msg : bool;
  nb_shutdown_timeout : Z;
  nb_life : nat;
  nb_interrupt : option done_info;
}.
Arguments mkBus {U}.
Arguments nb_registry {U}.
Arguments nb_decode {U}.
Arguments nb_timeout {U}.
Arguments nb_invoker {U}.
Arguments nb_id_gen {U}.
Arguments nb_inherit {U}.
Arguments nb_observer {U}.
Arguments nb_default_log {U}.
Arguments nb_dlq {U}.
Arguments nb_reply_err_msg {U}.
Arguments nb_shutdown_timeout {U}.
Arguments nb_life {U}.
Arguments nb_interrupt {U}.

(** [newBus]; [default_observer] is what [NewSlogObserver(nil)] gives. *)
Definition newBus {U} (default_observer : observer) (life : nat) (interrupt : option done_info)
    (registry : @Registry U) (decode : Decoder U) (o : BusOptions U) : M U (Bus U) :=
  let timeout := if no_request_timeout o <=? 0 then 5 * 10 ^ 9 else no_request_timeout o in
  obs ← MultiObserver [Some (default default_observer (no_observer o))];
  mret (mkBus registry decode timeout (no_invoker o) (no_id_generator o) (no_inherit_headers o)
          (Some obs) (is_nil (no_observer o)) (no_dlq o) (no_reply_error_message o)
          (no_shutdown_timeout o) life interrupt).

(** [deliveryOf]. *)
Definition deliveryOf (m : InMsg) : Delivery :=
  mkDelivery 1 1 (im_subject m) (im_data m) (im_header m) "" "" 0 zero_time "nats".

(** [settleReason]. *)
Definition settleReason (s : Settlement) (err : goerr) : string :=
  if negb (String.eqb (s_reason s) "") then s_reason s else ReasonOf err.

Section bus.
Context {U : Type} `{Env U} `{NatsLib} `{Conn U} (b : Bus U).

(** [Bus.obs], [Bus.internalError] and [Bus.msgScope]. *)
Definition obs : observer := match nb_observer b with Some o => o | None => NopObserver end.

Definition internalError (c : Ctx) (op handler subject : string) (err : goerr) : M U unit :=
  raise_to obs c (SInternalError (mkInternalErrorInfo ComponentTransport op handler subject err)).

Definition msgScope (c : Ctx) : M U Ctx :=
  c ← WithObserver c (Some obs);
  cs ← WithFailureScope c;
  mret cs.1.

(** [Bus.reply] and [Bus.replyError]. *)
Definition reply (c : Ctx) (m : InMsg) (handler : string) (data : option string) (h : Header)
    : M U unit :=
  if String.eqb (im_reply m) "" then mret tt
  else
    err ← core_PublishMsg (mkNatsMsg (im_reply m) h data);
    match err with
    | Some _ => internalError c OpReply handler (im_subject m) err
    | None => mret tt
    end.

Definition replyError (c : Ctx) (m : InMsg) (handler reason : string) (err : goerr) : M U unit :=
  reply c m handler None
    (header_Set HeaderError (errorHeaderValue reason err (nb_reply_err_msg b)) ∅).

(** [Bus.handlerCtx], on a context that is not nil. *)
Definition handlerCtx (c : Ctx) (m : InMsg) (handler : string) : M U Ctx :=
  t ← now; mret (WithExecution (WithDelivery c (deliveryOf m)) (mkExecution handler t)).

(** [Bus.settle] and [Bus.settleDecode]. *)
Definition settle (sub c : Ctx) (evt : option Event) (handler : string) (err : goerr)
    : M U Settlement :=
  Settle c (mkSettleInput (Some sub) evt handler err (nb_dlq b)).

Definition settleDecode (sub : Ctx) (c : option Ctx) (m : InMsg) (handler : string) (err : goerr)
    : M U (Settlement * goerr) :=
  let err := WrapDecodeError err in
  s ← settle sub (WithDelivery (default sub c) (deliveryOf m)) None handler err;
  mret (s, err).

(** [Bus.rejectInbound]. *)
Definition rejectInbound (c : Ctx) (m : InMsg) (handler : string) (sync : bool) : M U unit :=
  t ← now;
  let ictx := cancelled_by (Some (mkDone t Canceled (Sentinel ErrShutdownInterrupted))) c in
  ictx ← msgScope ictx;
  t ← now;
  s ← Settle (WithDelivery ictx (deliveryOf m))
        (mkSettleInput (Some ictx) None handler
           (WrapInterrupted t ictx (Some (Sentinel Canceled))) (nb_dlq b));
  if sync : bool
  then replyError ictx m handler (s_reason s) (Some (Sentinel ErrShutdownInterrupted))
  else mret tt.

(** [Bus.recoverCallback]. *)
Definition recoverCallback (c : Ctx) (m : InMsg) (handler : string) (sync : bool) (r : any error)
    : M U unit :=
  let pe := recoveredPanic r in
  _ ← internalError c OpPanic handler (im_subject m) (Some pe);
  if sync : bool
  then recovering (replyError c m handler ReasonPanic (Some pe))
         (fun r2 => internalError c OpPanic handler (im_subject m) (Some (recoveredPanic r2)))
  else mret tt.

(** [Bus.resolve] and [Bus.newID]; [newid] is [NewID]. *)
Definition resolve (newid : M U string) (c : Ctx) (evt : Event) (cfg : EmitOptions U)
    : M U Metadata :=
  ResolveOutbound newid c evt (bus_options (nb_id_gen b) (nb_inherit b) cfg).

Definition newID (newid : M U string) : M U string :=
  match nb_id_gen b with
  | Some gen => id ← gen; if String.eqb id "" then newid else mret id
  | None => newid
  end.

(** The reply of a request whose handler succeeded. *)
Definition respond (newid : M U string) (c : Ctx) (m : InMsg) (handler : string)
    (evt : option Event) : M U unit :=
  match evt with
  | None => panic nil_deref
  | Some e =>
      cfg ← ApplyEmitOptions e [];
      id ← newID newid;
      md ← resolve newid c e (WithID id cfg);
      '(resp, err) ← EncodeEvent c (nb_registry b) e md;
      match err with
      | Some _ => internalError c OpEncodeReply handler (im_subject m) err
      | None => reply c m handler (Some resp) ∅
      end
  end.

(** The callbacks of [Subscribe] and [SubscribeSync] for a message that [Track]
    let in. *)
Definition serve (sync : bool) (newid : M U string) (c : Ctx) (handler : string)
    (fn : Ctx -> option Event -> M U goerr) (m : InMsg) : M U unit :=
  hctx ← msgScope (HandlerContext (nb_life b) (nb_interrupt b) c false);
  '(msgCtx, evt, err) ← nb_decode b hctx (im_data m);
  match err with
  | Some _ =>
      '(s, derr) ← settleDecode hctx msgCtx m handler err;
      if sync : bool then replyError hctx m handler (settleReason s derr) derr else mret tt
  | None =>
      match msgCtx with
      | None => panic (mkAny "cannot create context from nil parent" None)
      | Some msgCtx =>
          msgCtx ← handlerCtx msgCtx m handler;
          err ← InvokeHandler msgCtx (nb_invoker b) evt handler (fun c => fn c evt);
          t ← now;
          let err := WrapInterrupted t hctx err in
          match err with
          | Some _ =>
              s ← settle hctx msgCtx evt handler err;
              if sync : bool then replyError msgCtx m handler (settleReason s err) err else mret tt
          | None => if sync : bool then respond newid msgCtx m handler evt else mret tt
          end
      end
  end.

Context `{Lens Lifecycle U}.

(** The callback given to the connection by [Subscribe], and by [SubscribeSync]. *)
Definition callback (sync : bool) (newid : M U string) (c : Ctx) (handler : string)
    (fn : Ctx -> option Event -> M U goerr) (m : InMsg) : M U unit :=
  ok ← track_life;
  let body := recovering
                (if ok : bool then serve sync newid c handler fn m else rejectInbound c m handler sync)
                (recoverCallback c m handler sync) in
  if ok : bool then deferring tt body (fun _ => release_life) else body.

Context `{TraceSDK U}.

(** [Bus.tracer]. *)
Definition tracer (tp : option TracerProvider) : M U Tracer :=
  tracer_of tp "github.com/isaquesb/go-event-bus/nats".

(** [Bus.startPublish]. *)
Definition startPublish (tp : option TracerProvider) : Ctx -> string -> string -> M U (Ctx * Span) :=
  start_publish (tracer tp).

(** [Bus.Emit]. *)
Definition Emit (tp : option TracerProvider) (newid : M U string) (c : Ctx) (e : Event)
    (opts : list (EmitOption U)) : M U goerr :=
  err ← admit_life (nb_life b) c;
  match err with
  | Some _ => mret err
  | None =>
      deferring None
        (cfg ← ApplyEmitOptions e opts;
         md ← resolve newid c e cfg;
         '(c, span) ← startPublish tp c (eo_subject cfg) (md_id md);
         deferring None
           ('(data, err) ← EncodeEvent c (nb_registry b) e md;
            match err with
            | Some _ => _ ← fail_span span err; mret err
            | None =>
                _ ← Name e;
                err ← conn_publish (eo_subject cfg) data;
                _ ← fail_span span err;
                mret err
            end)
           (fun _ => span_End span))
        (fun _ => release_life)
  end.

(** [Bus.EmitSync] once it was let in, and in its span. *)
Definition request_body (c : Ctx) (span : Span) (e : Event) (md : Metadata)
    : M U (option Event * goerr) :=
  '(data, err) ← EncodeEvent c (nb_registry b) e md;
  match err with
  | Some _ => _ ← fail_span span err; mret (None, err)
  | None =>
      t ← now;
      let timeout := match cx_deadline c with Some dl => dl - t | None => nb_timeout b end in
      name ← Name e;
      r ← conn_request name data timeout;
      match r with
      | inr x => _ ← fail_span span (Some x); mret (None, Some x)
      | inl m =>
          let value := header_Get HeaderError (default ∅ (im_header m)) in
          if negb (String.eqb value "") then
            let remote := Some (parseRemoteError name value) in
            _ ← fail_span span remote; mret (None, remote)
          else
            '(_, evt, err) ← nb_decode b c (im_data m);
            _ ← fail_span span err;
            mret (evt, err)
      end
  end.
Definition request (tp : option TracerProvider) (newid : M U string) (c : Ctx) (e : Event)
    : M U (option Event * goerr) :=
  cfg ← ApplyEmitOptions e [];
  md ← resolve newid c e cfg;
  name ← Name e;
  '(c, span) ← startPublish tp c name (md_id md);
  deferring (None, None) (request_body c span e md) (fun _ => span_End span).

(** [Bus.EmitSync]. *)
Definition EmitSync (tp : option TracerProvider) (newid : M U string) (c : Ctx) (e : Event)
    : M U (option Event * goerr) :=
  err ← admit_life (nb_life b) c;
  match err with
  | Some _ => mret (None, err)
  | None => deferring (None, None) (request tp newid c e) (fun _ => release_life)
  end.
End bus.
