(* ===== verification/NatsCoreSpec.v ===== *)
(** * Properties of the NATS core transport

    A request gets one answer, and the error a responder sends is the one the
    requester reads. *)

From S2P Require Import Prelude GoErrors Types Failure Text Runtime Trace Observer Scope Dlq Fixtures.
From S2P Require Import Settle Invoke Frames Lifecycle LifeOps History Emit Nats NatsCore.
Local Open Scope string_scope.
Local Open Scope list_scope.
Local Open Scope Z_scope.

(** ** Replies *)

(** The messages published to the reply subject of a request. *)
Definition reply_in (inbox : string) (e : entry) : option NatsMsg :=
  match e with
  | EMessage _ m _ => if String.eqb (nm_subject m) inbox then Some m else None
  | _ => None
  end.
Definition replies (inbox : string) (l : list entry) : list NatsMsg := omap (reply_in inbox) l.

Arguments replies : simpl never.

Lemma replies_app inbox l1 l2 : replies inbox (l1 ++ l2) = replies inbox l1 ++ replies inbox l2.
Proof. apply omap_app. Qed.

Definition same_replies {U} (inbox : string) : relation (World U) := fun w w' =>
  replies inbox (w_log w') = replies inbox (w_log w).

#[export] Instance same_replies_preorder U inbox : PreOrder (@same_replies U inbox).
Proof. split; [done|]. intros w1 w2 w3 H1 H2. unfold same_replies in *. congruence. Qed.

Lemma same_replies_log {U} inbox e :
  reply_in inbox e = None -> respects (@same_replies U inbox) (log_entry e).
Proof.
  intros He w. unfold same_replies. cbn [w_log log_entry snd]. rewrite replies_app.
  unfold replies at 2. simpl. by rewrite He, app_nil_r.
Qed.

(** A call that replies: [lo] to one replies when it returns, each of them in [P],
    and none when it panics. *)
Definition replying {U A} (inbox : string) (P : NatsMsg -> Prop) (lo : nat) (m : M U A) : Prop :=
  forall w, match m w with
  | (Ret _, w') => exists l, replies inbox (w_log w') = replies inbox (w_log w) ++ l
      /\ (lo <= length l <= 1)%nat /\ Forall P l
  | (Panicking _, w') => same_replies inbox w w'
  | (Goexit, w') => exists l, replies inbox (w_log w') = replies inbox (w_log w) ++ l
      /\ (length l <= 1)%nat
  end.

Section replying.
Context {U : Type} (inbox : string) (P : NatsMsg -> Prop).
Abbreviation mute := (respects (@same_replies U inbox)).

Lemma replying_mute {A} (m : M U A) : mute m -> replying inbox P 0 m.
Proof.
  intros Hm w. specialize (Hm w). unfold same_replies in *.
  destruct (m w) as [[a|v|] w1]; cbn in *; [|done|];
    exists []; rewrite app_nil_r; repeat split; try done; simpl; lia.
Qed.

Lemma replying_after {A B} lo (m : M U A) (k : A -> M U B) :
  mute m -> (forall a, replying inbox P lo (k a)) -> replying inbox P lo (mbind k m).
Proof.
  intros Hm Hk w. unfold mbind, M_bind. specialize (Hm w). unfold same_replies in Hm.
  destruct (m w) as [[a|v|] w1]; cbn in *; [|exact Hm|exists []; rewrite app_nil_r; split; [done|simpl; lia]].
  specialize (Hk a w1). unfold same_replies in *. by rewrite Hm in Hk.
Qed.

(** A reply, and then calls that neither reply nor panic. *)
Lemma replying_before {A B} lo (m : M U A) (k : A -> M U B) :
  replying inbox P lo m -> (forall a, mute (k a)) -> (forall a, no_panic (k a)) ->
  replying inbox P lo (mbind k m).
Proof.
  intros Hm Hk Hn w. unfold mbind, M_bind. specialize (Hm w).
  destruct (m w) as [[a|v|] w1]; cbn in *; [|done..].
  destruct Hm as (l & Hl & Hlen & HP). specialize (Hk a w1). specialize (Hn a w1).
  unfold same_replies in *. destruct (k a w1) as [[b|v|] w2]; cbn in *.
  - exists l. by rewrite Hk.
  - by destruct (Hn v).
  - exists l. rewrite Hk. split; [done|lia].
Qed.

Lemma replying_if {A} lo (c : bool) (m n : M U A) :
  replying inbox P lo m -> replying inbox P lo n -> replying inbox P lo (if c then m else n).
Proof. by destruct c. Qed.

Lemma replying_weaken {A} lo lo' (m : M U A) :
  (lo' <= lo)%nat -> replying inbox P lo m -> replying inbox P lo' m.
Proof.
  intros Hlo Hm w. specialize (Hm w). destruct (m w) as [[a|v|] w1]; [|done..].
  destruct Hm as (l & Hl & Hlen & HP). exists l. repeat split; [done|lia|lia|done].
Qed.

Lemma replying_recovering {A} lo (m : M U A) h :
  replying inbox P lo m -> (forall v, replying inbox P lo (h v)) ->
  replying inbox P lo (recovering m h).
Proof.
  intros Hm Hh w. unfold recovering. specialize (Hm w).
  destruct (m w) as [[a|v|] w1]; cbn in *; [done| |done].
  specialize (Hh v w1). unfold same_replies in *. by rewrite Hm in Hh.
Qed.

Lemma replying_deferring lo (m : M U unit) (f : unit -> M U unit) :
  replying inbox P lo m -> (forall a, mute (f a)) -> (forall a, returns (f a)) ->
  replying inbox P lo (deferring tt m f).
Proof.
  intros Hm Hf Hr w. unfold deferring. specialize (Hm w).
  destruct (m w) as [[[]|v|] w1]; cbn in *; unfold mbind, M_bind;
    destruct (Hr tt w1) as [u Hu]; specialize (Hf tt w1); unfold same_replies in *;
    destruct (f tt w1) as [o w2]; cbn in *; subst o; cbn; by rewrite Hf.
Qed.
End replying.

(** ** The callback *)

Section callback.
Context {U : Type} `{Env U} `{NatsLib} `{Conn U} `{Lens Lifecycle U}.
Context (b : Bus U) (fn : Ctx -> option Event -> M U goerr) (newid : M U string).
Implicit Types (c : Ctx) (m : InMsg) (w : World U).

(** The user's code behind the bus keeps [R]. *)
Record nats_user (R : relation (World U)) : Prop := {
  nu_observe id c s : respects R (env_observe (U := U) id c s);
  nu_onerr x c e h : respects R (env_onerr (U := U) x c e h);
  nu_decode c d : respects R (nb_decode b c d);
  nu_handler c e : respects R (fn c e);
  nu_invoker i e : nb_invoker b = Some i ->
    forall c evt h, respects R (i c evt h (call (fun c => fn c e)));
  nu_dlq q c r : nb_dlq b = Some q -> respects R (q c r);
  nu_encode c e md : respects R (EncodeEvent c (nb_registry b) e md);
  nu_newid : respects R newid;
  nu_gen gen : nb_id_gen b = Some gen -> respects R gen;
  nu_conn nm : respects R (conn_publish_msg (U := U) nm);
}.

Section one_reply.
Context (m : InMsg) (Hu : nats_user (same_replies (im_reply m))).
Context (Hiso : isolated (obs b)) (Hcalm : forall nm, no_panic (conn_publish_msg (U := U) nm)).
Abbreviation mute := (respects (@same_replies U (im_reply m))).
Abbreviation sends := (replying (im_reply m) (fun nm => nm_subject nm = im_reply m)).

Local Instance nats_core : core_keeps (@same_replies U (im_reply m)).
Proof using Hu.
  apply core_keeps_on_trace; [apply _|intros w w' He; unfold same_replies; by rewrite He| | |].
  - intros e He. apply same_replies_log. by destruct e.
  - apply (nu_observe _ Hu).
  - apply (nu_onerr _ Hu).
Qed.

Lemma mute_internalError c op h subj err : mute (internalError b c op h subj err).
Proof using Hu.
  apply raise_to_on_trace; [apply _|intros w w' He; unfold same_replies; by rewrite He| |].
  - intros e He. apply same_replies_log. by destruct e.
  - apply (nu_observe _ Hu).
Qed.

Lemma no_panic_nats_error c op h subj err : no_panic (internalError b c op h subj err).
Proof using Hiso. by apply no_panic_raise_to. Qed.

Lemma mute_msgScope c : mute (msgScope b c).
Proof using Hu.
  apply respects_bind; [apply _|apply keeps_WithObserver; apply _|intros c'].
  apply respects_bind; [apply _|apply keeps_WithFailureScope; apply _|intros; by apply respects_ret, _].
Qed.

Lemma mute_Settle c i : in_publisher i = nb_dlq b -> mute (Settle c i).
Proof using Hu.
  intros Hp. apply keeps_Settle; [apply _..|]. intros q c' r Hq. rewrite Hp in Hq.
  apply respects_bind; [apply _|by apply (nu_dlq _ Hu)|intros err].
  apply respects_bind; [apply _|by apply same_replies_log|intros; by apply respects_ret, _].
Qed.

(** One reply, when the message is a request. *)
Definition wanted : nat := if String.eqb (im_reply m) "" then 0 else 1.

Lemma sends_reply c h data hd : sends wanted (reply b c m h data hd).
Proof using Hu Hiso Hcalm.
  unfold reply, wanted. destruct (String.eqb (im_reply m) "") eqn:Hr.
  { apply replying_mute. by apply respects_ret, _. }
  apply replying_before.
  - unfold core_PublishMsg. apply replying_after; [by intros w|intros t]. intros w.
    unfold mbind, M_bind. pose proof (nu_conn _ Hu (mkNatsMsg (im_reply m) hd data) w) as Hc.
    pose proof (Hcalm (mkNatsMsg (im_reply m) hd data) w) as Hn. unfold same_replies in *.
    destruct (conn_publish_msg _ w) as [[err|v|] w1]; cbn in *.
    + exists [mkNatsMsg (im_reply m) hd data]. rewrite replies_app, Hc. unfold replies at 2.
      cbn [omap list_omap reply_in nm_subject]. rewrite String.eqb_refl. repeat split; [simpl; lia|simpl; lia|by repeat constructor].
    + by destruct (Hn v).
    + exists []. rewrite app_nil_r. split; [done|simpl; lia].
  - intros [e|]; [apply mute_internalError|by apply respects_ret, _].
  - intros [e|]; [apply no_panic_nats_error|by intros w v].
Qed.

Lemma sends_reject c h : sends wanted (rejectInbound b c m h true).
Proof using Hu Hiso Hcalm.
  unfold rejectInbound. apply replying_after; [by intros w|intros t].
  apply replying_after; [apply mute_msgScope|intros ictx].
  apply replying_after; [by intros w|intros t'].
  apply replying_after; [by apply mute_Settle|intros s]. apply sends_reply.
Qed.

Lemma sends_recover c h v : sends wanted (recoverCallback b c m h true v).
Proof using Hu Hiso Hcalm.
  unfold recoverCallback. apply replying_after; [apply mute_internalError|intros _].
  intros w. pose proof (sends_reply c h None
    (header_Set HeaderError (errorHeaderValue ReasonPanic (Some (recoveredPanic v)) (nb_reply_err_msg b)) ∅) w)
    as Hs. unfold recovering.
  assert (Hno : no_panic (reply b c m h None
    (header_Set HeaderError (errorHeaderValue ReasonPanic (Some (recoveredPanic v)) (nb_reply_err_msg b)) ∅))).
  { unfold reply. destruct (String.eqb (im_reply m) ""); [by intros w' v'|].
    apply no_panic_bind; [|intros [e|]; [apply no_panic_nats_error|by intros w' v']].
    unfold core_PublishMsg. apply no_panic_bind; [by intros w' v'|intros t].
    apply no_panic_bind; [apply Hcalm|intros err]. by apply no_panic_bind; [intros w' v'|intros _ w' v']. }
  specialize (Hno w). unfold replyError.
  destruct (reply b c m h None _ w) as [[[]|x|] w1]; cbn in *; [exact Hs|by destruct (Hno x)|exact Hs].
Qed.

(** The reply of a request whose handler succeeded: one, unless it cannot be
    encoded. *)
Lemma sends_respond lo c h evt :
  (lo = 0%nat \/ lo = wanted /\ forall c e md, yields (fun r => r.2 = None) (EncodeEvent (U := U) c (nb_registry b) e md)) ->
  sends lo (respond b newid c m h evt).
Proof using Hu Hiso Hcalm.
  intros Hlo. unfold respond. destruct evt as [e|]; [|by intros w].
  apply replying_after; [|intros cfg].
  { intros w. unfold ApplyEmitOptions, Name. by destruct (ev_name_panics e). }
  apply replying_after; [|intros id].
  { unfold newID. destruct (nb_id_gen b) as [gen|] eqn:Hg; [|apply (nu_newid _ Hu)].
    apply respects_bind; [apply _|by apply (nu_gen _ Hu)|intros id].
    apply respects_if; [apply (nu_newid _ Hu)|by apply respects_ret, _]. }
  apply replying_after; [|intros md].
  { apply keeps_ResolveOutbound; [apply _|apply (nu_newid _ Hu)|]. cbn. apply (nu_gen _ Hu). }
  intros w. unfold mbind, M_bind. pose proof (nu_encode _ Hu c e md w) as He.
  destruct (EncodeEvent c (nb_registry b) e md w) as [[[resp err]|v|] w1] eqn:Henc; cbn in *;
    [|done|exists []; rewrite app_nil_r; split; [done|simpl; lia]].
  assert (Hk : sends lo (match err with
    | Some _ => internalError b c OpEncodeReply h (im_subject m) err
    | None => reply b c m h (Some resp) ∅ end)).
  { destruct Hlo as [->|[-> Hok]].
    - destruct err; [apply replying_mute, mute_internalError|].
      eapply replying_weaken; [|apply sends_reply]. lia.
    - specialize (Hok c e md _ _ _ Henc). cbn in Hok. subst err. apply sends_reply. }
  specialize (Hk w1). unfold same_replies in *. by rewrite He in Hk.
Qed.

Lemma sends_serve lo c h :
  (lo = 0%nat \/ lo = wanted /\ forall c e md, yields (fun r => r.2 = None) (EncodeEvent (U := U) c (nb_registry b) e md)) ->
  sends lo (serve b true newid c h fn m).
Proof using Hu Hiso Hcalm.
  intros Hlo. assert (Hw : forall A (k : M U A), sends wanted k -> sends lo k).
  { intros A k Hk. destruct Hlo as [->|[-> _]]; [|done]. eapply replying_weaken; [|exact Hk]. lia. }
  unfold serve. apply replying_after; [apply mute_msgScope|intros hctx].
  apply replying_after; [apply (nu_decode _ Hu)|intros [[mctx evt] [e|]]].
  - apply replying_after; [|intros [s derr]; apply Hw, sends_reply].
    apply respects_bind; [apply _|by apply mute_Settle|intros; by apply respects_ret, _].
  - destruct mctx as [mctx|]; [|by intros w].
    apply replying_after; [by intros w|intros mctx'].
    apply replying_after; [|intros err].
    { apply keeps_InvokeHandler; [apply _..|intros; apply (nu_handler _ Hu)|].
      intros i Hi. by apply (nu_invoker _ Hu). }
    apply replying_after; [by intros w|intros t].
    destruct (WrapInterrupted t hctx err) as [e|]; [|by apply sends_respond].
    apply replying_after; [by apply mute_Settle|intros s]. apply Hw, sends_reply.
Qed.

Lemma sends_callback lo c h :
  (lo = 0%nat \/ lo = wanted /\ forall c e md, yields (fun r => r.2 = None) (EncodeEvent (U := U) c (nb_registry b) e md)) ->
  sends lo (callback b true newid c h fn m).
Proof using Hu Hiso Hcalm.
  intros Hlo. assert (Hw : forall A (k : M U A), sends wanted k -> sends lo k).
  { intros A k Hk. destruct Hlo as [->|[-> _]]; [|done]. eapply replying_weaken; [|exact Hk]. lia. }
  assert (Hlife : forall A (f : Lifecycle -> A * Lifecycle), mute (atomically f))
    by (intros; apply respects_atomically; by intros u w).
  unfold callback. apply replying_after; [apply Hlife|intros ok].
  assert (Hbody : sends lo (recovering
    (if ok then serve b true newid c h fn m else rejectInbound b c m h true)
    (recoverCallback b c m h true))).
  { apply replying_recovering; [|intros v; apply Hw, sends_recover].
    apply replying_if; [by apply sends_serve|apply Hw, sends_reject]. }
  apply replying_if; [|done].
  apply replying_deferring; [done|intros; apply Hlife|intros; apply returns_atomically].
Qed.
End one_reply.

(** No panic reaches the goroutine of the connection. *)
Lemma no_panic_callback sync c h m : isolated (obs b) -> no_panic (callback b sync newid c h fn m).
Proof.
  intros Hiso. unfold callback.
  apply no_panic_bind; [apply returns_no_panic, returns_atomically|intros ok].
  assert (Hb : forall k : M U unit, no_panic (recovering k (recoverCallback b c m h sync))).
  { intros k. apply no_panic_recovering. intros v.
    apply no_panic_bind; [by apply no_panic_raise_to|intros _]. destruct sync; [|by intros w x].
    apply no_panic_recovering. intros v'. by apply no_panic_raise_to. }
  destruct ok; [|apply Hb].
  apply no_panic_deferring; [apply Hb|intros; apply returns_no_panic, returns_atomically].
Qed.
End callback.

(** ** The error header *)

(** A reason that holds no separator, as those of the vocabulary. *)
Definition plain_reason (reason : string) : bool :=
  String.eqb (cut_colon reason).1 reason && String.eqb (cut_colon reason).2 "".

Lemma plain_cut reason : plain_reason reason = true -> cut_colon reason = (reason, "").
Proof. unfold plain_reason. destruct (cut_colon reason) as [p q]. simpl. intros H'. b2p. congruence. Qed.

Lemma vocabulary_plain : forallb plain_reason reason_vocabulary = true.
Proof. vm_compute. reflexivity. Qed.

Lemma cut_colon_cons a r :
  cut_colon (String a r) =
  match r with
  | String b rest =>
      if Ascii.eqb a (Ascii.ascii_of_nat 58) && Ascii.eqb b (Ascii.ascii_of_nat 32) then ("", rest)
      else let '(p, q) := cut_colon r in (String a p, q)
  | EmptyString => (String a r, "")
  end.
Proof. reflexivity. Qed.

Lemma cut_colon_app s t : cut_colon s = (s, "") -> cut_colon (s +:+ ": " +:+ t) = (s, t).
Proof.
  induction s as [|a r IH]; intros Hs; [reflexivity|]. destruct r as [|x r].
  - destruct a as [[] [] [] [] [] [] [] []]; reflexivity.
  - change (String a (String x r) +:+ ": " +:+ t) with (String a (String x (r +:+ ": " +:+ t))).
    change (String x r +:+ ": " +:+ t) with (String x (r +:+ ": " +:+ t)) in IH.
    rewrite cut_colon_cons in Hs |- *.
    destruct (Ascii.eqb a (Ascii.ascii_of_nat 58) && Ascii.eqb x (Ascii.ascii_of_nat 32)); [done|].
    assert (Hr : cut_colon (String x r) = (String x r, "")).
    { destruct (cut_colon (String x r)) as [p q]. cbn in Hs. by injection Hs as -> ->. }
    specialize (IH Hr). rewrite IH. reflexivity.
Qed.

(** The text of an error in the header, when the responder sends texts. *)
Definition error_message (err : goerr) (withMessage : bool) : string :=
  match err with
  | Some e => if withMessage then TruncateHeader (error_text e) DLQHeaderValueLimit else ""
  | None => ""
  end.

Lemma parse_header subject reason err msg : plain_reason reason = true ->
  parseRemoteError subject (errorHeaderValue reason err msg)
  = RemoteError subject reason (error_message err msg).
Proof.
  intros Hp. apply plain_cut in Hp. unfold parseRemoteError, errorHeaderValue, error_message.
  destruct err as [e|]; [destruct msg|]; by rewrite ?cut_colon_app, ?Hp.
Qed.

Lemma header_nonempty reason err msg : reason <> "" -> errorHeaderValue reason err msg <> "".
Proof. unfold errorHeaderValue. by destruct reason, err, msg. Qed.

(** What a requester can ask of the error. *)
Lemma remote_error_is subject reason msg :
  let e := Some (RemoteError subject reason msg) in
  Is e ErrRemoteFailure = true
  /\ Is e ErrRemoteDecode = isDecode reason /\ Is e ErrRemoteHandler = negb (isDecode reason)
  /\ (forall s, reasonSentinels reason = Some s -> Is e s = true).
Proof.
  unfold Is, errors_is. cbn [error_tree existsb matches_target].
  rewrite !orb_false_r. do 3 (split; [done|]). intros s Hs. rewrite orb_false_r.
  assert (Hroot : s <> ErrRemoteFailure /\ s <> ErrRemoteDecode /\ s <> ErrRemoteHandler).
  { unfold reasonSentinels in Hs. repeat case_match; simplify_eq; repeat split; discriminate. }
  destruct Hroot as (H1 & H2 & H3). unfold RemoteError_Is. rewrite Hs.
  destruct s; try (by rewrite bool_decide_true); done.
Qed.

(** * Properties *)

Section properties.
Context {U : Type} `{Env U} `{NatsLib} `{Conn U} `{Lens Lifecycle U}.
Implicit Types (b : Bus U) (c : Ctx) (m : InMsg) (w : World U).

(** C6: one answer per request. Whatever the decoder, the handler, the invokers,
    the dead-letter publisher and the user's observers do, panics included, the
    callback of a request sends one reply, with the result or with the error
    header, and never a second one; only a reply that cannot be encoded leaves
    the request without an answer. No panic reaches the connection. *)
Theorem one_reply_per_request b (fn : Ctx -> option Event -> M U goerr) (newid : M U string) c
    (handler : string) m w w' (o : outcome (any error) unit) :
  nats_user b fn newid (same_replies (im_reply m)) -> isolated (obs b) ->
  (forall nm, no_panic (conn_publish_msg (U := U) nm)) ->
  callback b true newid c handler fn m w = (o, w') ->
  match o with
  | Ret _ => exists l, replies (im_reply m) (w_log w') = replies (im_reply m) (w_log w) ++ l
      /\ (length l <= 1)%nat
      /\ (im_reply m <> "" ->
          (forall c e md, yields (fun r => r.2 = None) (EncodeEvent (U := U) c (nb_registry b) e md)) ->
          length l = 1%nat)
  | Panicking _ => False
  | Goexit => exists l, replies (im_reply m) (w_log w') = replies (im_reply m) (w_log w) ++ l
      /\ (length l <= 1)%nat
  end.
Proof.
  intros Hu Hiso Hcalm Hrun.
  pose proof (no_panic_callback b fn newid true c handler m Hiso w) as Hn.
  pose proof (sends_callback b fn newid m Hu Hiso Hcalm 0 c handler (or_introl eq_refl) w) as H0'.
  rewrite Hrun in Hn, H0'. cbn in Hn. destruct o as [[]|v|]; [|by destruct (Hn v)|exact H0'].
  destruct H0' as (l & Hl & Hlen & _). exists l. split; [done|]. split; [lia|]. intros Hr Henc.
  pose proof (sends_callback b fn newid m Hu Hiso Hcalm (wanted m) c handler
    (or_intror (conj eq_refl Henc)) w) as H1'.
  rewrite Hrun in H1'. destruct H1' as (l' & Hl' & Hlen' & _). rewrite Hl in Hl'.
  apply app_inv_head in Hl' as <-. unfold wanted in Hlen'.
  rewrite (proj2 (String.eqb_neq _ _) Hr) in Hlen'. lia.
Qed.

(** C17: the error of a responder reaches the requester. The reason a responder puts
    in the error header is the reason of the RemoteError that EmitSync returns,
    for every reason without the separator, so for the whole vocabulary; it
    matches ErrRemoteFailure, exactly one of the two classes, and the sentinel of
    the reason; the error text travels only when the responder allows it. *)
Theorem remote_error_roundtrip `{TraceSDK U} (tp : option TracerProvider) (responder requester : Bus U) (newid : M U string) c (e : Event)
    (reason : string) (err : goerr) w w' (evt : option Event) (x : goerr) :
  plain_reason reason = true -> reason <> "" ->
  (Admit (Nested (nb_life requester) c) (lget (w_user w))).2 = None ->
  (forall c e md, yields (fun r => r.2 = None) (EncodeEvent (U := U) c (nb_registry requester) e md)) ->
  (forall data timeout, yields (fun r => exists m, r = inl m /\
      im_header m = Some (header_Set HeaderError
        (errorHeaderValue reason err (nb_reply_err_msg responder)) ∅))
    (conn_request (U := U) (ev_name e) data timeout)) ->
  EmitSync requester tp newid c e w = (Ret (evt, x), w') ->
  evt = None
  /\ x = Some (RemoteError (ev_name e) reason (error_message err (nb_reply_err_msg responder)))
  /\ Is x ErrRemoteFailure = true
  /\ Is x ErrRemoteDecode = isDecode reason /\ Is x ErrRemoteHandler = negb (isDecode reason)
  /\ (forall s, reasonSentinels reason = Some s -> Is x s = true)
  /\ (nb_reply_err_msg responder = false -> error_message err (nb_reply_err_msg responder) = "").
Proof.
  intros Hp Hne Hadm Henc Hconn Hrun. unfold EmitSync in Hrun.
  apply bind_ret_inv in Hrun as (a & w1 & Ha & Hrun).
  destruct (atomically_run (fun l => let '(l, err) := Admit (Nested (nb_life requester) c) l in (err, l)) w)
    as (w1' & Ha' & _). unfold admit_life in Ha. rewrite Ha' in Ha. injection Ha as <- ->.
  destruct (Admit _ _) as [l [y|]]; [done|]. cbn [fst] in Hrun.
  apply deferring_ret_inv in Hrun as (w2 & Hrun & _). unfold request in Hrun.
  apply bind_ret_inv in Hrun as (cfg & w3 & _ & Hrun).
  apply bind_ret_inv in Hrun as (md & w4 & _ & Hrun).
  apply bind_ret_inv in Hrun as (n0 & w5 & _ & Hrun).
  apply bind_ret_inv in Hrun as ([sctx span] & w50 & _ & Hrun).
  apply deferring_ret_inv in Hrun as (w51 & Hrun & _). unfold request_body in Hrun.
  apply bind_ret_inv in Hrun as ([data err'] & w6 & He & Hrun).
  specialize (Henc _ _ _ _ _ _ He). cbn in Henc. subst err'.
  apply bind_ret_inv in Hrun as (t & w7 & _ & Hrun).
  apply bind_ret_inv in Hrun as (name & w8 & Hname & Hrun).
  assert (Hn : name = ev_name e).
  { unfold Name in Hname. destruct (ev_name_panics e); [done|]. by apply mret_inv in Hname as [-> _]. }
  subst name. apply bind_ret_inv in Hrun as (r & w9 & Hr & Hrun).
  specialize (Hconn _ _ _ _ _ Hr). destruct Hconn as (m & -> & Hm).
  assert (Hval : header_Get HeaderError (default ∅ (im_header m))
    = errorHeaderValue reason err (nb_reply_err_msg responder)).
  { rewrite Hm.
    change (header_Get HeaderError (header_Set HeaderError
      (errorHeaderValue reason err (nb_reply_err_msg responder)) ∅)
      = errorHeaderValue reason err (nb_reply_err_msg responder)).
    by rewrite Get_Set, decide_True. }
  cbv zeta in Hrun. rewrite Hval in Hrun.
  rewrite (proj2 (String.eqb_neq _ _) (header_nonempty reason err (nb_reply_err_msg responder) Hne)) in Hrun.
  apply bind_ret_inv in Hrun as ([] & w10 & _ & Hrun).
  apply mret_inv in Hrun as [[= -> ->] _]. rewrite parse_header by done.
  split; [done|]. split; [done|].
  destruct (remote_error_is (ev_name e) reason (error_message err (nb_reply_err_msg responder)))
    as (H1' & H2' & H3' & H4'). do 4 (split; [done|]). intros ->. by destruct err.
Qed.
End properties.

(** ** A concrete bus

    A decoder that accepts "E1", panics on "P" and rejects the rest, and a handler
    that succeeds. *)

#[local] Instance nc_env : Env Lifecycle := silent_env Lifecycle.
#[local] Instance nc_nats : NatsLib := demo_nats.
#[local] Instance nc_conn : Conn Lifecycle := {|
  conn_publish _ _ := mret None;
  conn_request subject _ _ := mret (inl (mkInMsg "inbox" ""
    (Some (header_Set HeaderError (errorHeaderValue ReasonRetriesExhausted
       (Some (Sentinel Canceled)) true) ∅)) None));
  conn_publish_msg _ := mret None;
|}.
#[local] Instance nc_trace : TraceSDK Lifecycle := silent_trace _.
Definition nc_decode : Decoder Lifecycle := fun c data =>
  let d := default "" data in
  if String.eqb d "E1" then mret (Some c, Some (plain_event "order"), None)
  else if String.eqb d "P" then panic (mkAny "decode" None)
  else mret (None, None, Some (DecodeError "" 0 (Some (Sentinel ErrMalformedEnvelope)))).
Definition nc_bus : Bus Lifecycle :=
  mkBus (mkRegistry None (fun _ _ => mret ("{}", None))) nc_decode (5 * 10 ^ 9) None None [] None
    true None true 0 0 None.
Definition nc_handler : Ctx -> option Event -> M Lifecycle goerr := fun _ _ => mret None.
Definition nc_newid : M Lifecycle string := mret "id".
Definition nc_world : World Lifecycle := mkWorld 100 [] ∅ 0 ∅ ∅ zero_lifecycle.
Definition nc_msg (data : string) : InMsg := mkInMsg "orders" "inbox" None (Some data).
Definition nc_run (data : string) : outcome (any error) unit * World Lifecycle :=
  callback nc_bus true nc_newid background "h" nc_handler (nc_msg data) nc_world.

(** The reply of each request: its error header, or its body. *)
Example nc_runs :
  map (fun m => (header_Get HeaderError (nm_header m), nm_data m)) (replies "inbox" (w_log (nc_run "E1").2))
  = [("", Some "{}")]
  /\ map (fun m => header_Get HeaderError (nm_header m)) (replies "inbox" (w_log (nc_run "P").2))
     = ["panic: event: handler panic: decode"]
  /\ map (fun m => header_Get HeaderError (nm_header m)) (replies "inbox" (w_log (nc_run "x").2))
     = ["decode_malformed: event: decode: event: malformed envelope"].
Proof. vm_compute. repeat split; reflexivity. Qed.

Lemma nc_user m : nats_user nc_bus nc_handler nc_newid (same_replies (im_reply m)).
Proof.
  split; intros; try (by intros w); try done. unfold nc_bus, nb_decode, nc_decode. intros w.
  destruct (String.eqb _ "E1"); [done|]. by destruct (String.eqb _ "P").
Qed.

Lemma nc_encodes c e md : yields (fun r => r.2 = None) (EncodeEvent (U := Lifecycle) c (nb_registry nc_bus) e md).
Proof. by intros w r w' [= <- <-]. Qed.

Lemma one_reply_per_request_witness :
  exists l, replies "inbox" (w_log (nc_run "P").2) = l /\ length l = 1%nat.
Proof.
  assert (Ho : nc_run "P" = (Ret tt, (nc_run "P").2))
    by (apply injective_projections; [vm_compute|]; reflexivity).
  pose proof (one_reply_per_request nc_bus nc_handler nc_newid background "h" (nc_msg "P") nc_world
    (nc_run "P").2 (Ret tt) (nc_user (nc_msg "P")) I ltac:(by intros nm w v) Ho) as Hr.
  destruct Hr as (l & Hl & _ & Hone). exists l. split; [exact Hl|].
  apply Hone; [discriminate|exact nc_encodes].
Defined.

Lemma remote_error_roundtrip_witness :
  exists evt x w', EmitSync nc_bus None nc_newid background (plain_event "order") nc_world = (Ret (evt, x), w')
    /\ Is x ErrRetriesExhausted = true /\ Is x ErrRemoteDecode = false.
Proof.
  set (r := EmitSync nc_bus None nc_newid background (plain_event "order") nc_world).
  set (x := Some (RemoteError "order" ReasonRetriesExhausted "context canceled")).
  assert (Ho : r = (Ret (None, x), r.2))
    by (apply injective_projections; [vm_compute|]; reflexivity).
  pose proof (remote_error_roundtrip None nc_bus nc_bus nc_newid background (plain_event "order")
    ReasonRetriesExhausted (Some (Sentinel Canceled)) nc_world r.2 None x) as Hr.
  destruct Hr as (_ & _ & _ & Hd & _ & Hs & _).
  - vm_compute. reflexivity.
  - discriminate.
  - vm_compute. reflexivity.
  - exact nc_encodes.
  - intros data timeout w y w' [= <- <-]. eexists. split; [reflexivity|reflexivity].
  - exact Ho.
  - exists None, x, r.2. split; [exact Ho|]. split; [apply Hs; reflexivity|exact Hd].
Defined.
