(* ===== verification/Subscribing.v ===== *)
(** * Subscribing on the transports

    [Subscribe] and [RegisterSubscribers] of src/jetstream/bus.go, and [Subscribe],
    [SubscribeSync], [trackSub] and [RegisterSubscribers] of src/nats/bus.go: from the
    options to the callback the client gets and to the list Shutdown drains. The
    list lives at a lens of the user state, like the lifecycle; a subscription of the
    client is a number. The check under the mutex and the append are two critical
    sections, as in Drain.v. Log output is left out. *)

From S2P Require Import Prelude GoErrors Types Failure Text Runtime Observer Scope Dlq.
From S2P Require Import Settle Invoke Invokers Lifecycle LifeOps History Emit Nats Jetstream NatsCore.
Local Open Scope string_scope.
Local Open Scope list_scope.
Local Open Scope Z_scope.

(** [b.subs] or [b.consumers], the subscriptions Shutdown drains. *)
Definition Subs : Type := list nat.

Section subs.
Context {U : Type} `{Lens Subs U}.

Definition add_sub (i : nat) : M U unit := atomically (fun l : Subs => (tt, l ++ [i])).
End subs.

(** A [Subscriber]: its name, the entries of its [Events] map in the order of the
    iteration, and its [SubscribeOptions]. *)
Record Subscriber (U : Type) := mkSubscriber {
  sub_name : string;
  sub_events : list (string * (Ctx -> option Event -> M U goerr));
  sub_options : list SubscribeOption;
}.
Arguments sub_name {U}.
Arguments sub_events {U}.
Arguments sub_options {U}.

Section registering.
Context {U : Type} (subscribe : string -> (Ctx -> option Event -> M U goerr) ->
  list SubscribeOption -> M U goerr).

Fixpoint subscribe_events (opts : list SubscribeOption)
    (events : list (string * (Ctx -> option Event -> M U goerr))) : M U goerr :=
  match events with
  | [] => mret None
  | (subject, fn) :: rest =>
      err ← subscribe subject fn opts;
      match err with Some _ => mret err | None => subscribe_events opts rest end
  end.

Fixpoint register_all (subs : list (Subscriber U)) : M U goerr :=
  match subs with
  | [] => mret None
  | s :: rest =>
      err ← subscribe_events (WithHandlerName (sub_name s) :: sub_options s) (sub_events s);
      match err with Some _ => mret err | None => register_all rest end
  end.
End registering.

(** ** JetStream *)

(** The calls of the client; a message handler is given the identity of the
    [settleGuard] of its message. *)
Class ConsumerClient (U : Type) := {
  client_consumer : Ctx -> string -> ConsumerConfig -> M U (nat + error);
  client_consume : nat -> (nat -> JsMsg -> M U unit) -> (goerr -> M U unit) -> M U (nat + error);
  client_stop : nat -> M U unit;
}.

(** [fmt.Errorf] of an invalid schedule. *)
Definition invalid_config (max len : Z) : error :=
  Wrapped (sentinel_text ErrInvalidConfig +:+ ": MaxDeliver (" +:+ pretty max
    +:+ ") must be greater than len(BackOff) (" +:+ pretty len
    +:+ ") — NATS requires MaxDeliver > len(BackOff) to apply the backoff schedule")
    [Sentinel ErrInvalidConfig].

Section jetstream.
Context {U : Type} `{Env U} `{Broker U} `{ConsumerClient U} `{Lens Lifecycle U} `{Lens Subs U}.
Context (b : Jetstream.Bus U).

(** [Bus.consumeErr]: the observer is installed once, when the handler is built. *)
Definition consumeErr (c : Ctx) (handler subject : string) : M U (goerr -> M U unit) :=
  octx ← WithObserver c (Some (Jetstream.obs b));
  mret (fun err => raise_to (ObserverFromContext octx) octx
    (SInternalError (mkInternalErrorInfo ComponentTransport OpConsume handler subject err))).

(** The configuration of the consumer. *)
Definition consumer_config (subject : string) (cfg : SubscribeOptions) : ConsumerConfig :=
  let name := if String.eqb (so_consumer cfg) "" then subject else so_consumer cfg in
  mkConsumerConfig name name true subject (so_max_deliver cfg)
    (default defaultBackOff (so_backoff cfg)).

(** What [Subscribe] refuses before it calls the client. *)
Definition config_error (cfg : SubscribeOptions) : goerr :=
  if String.eqb (so_stream cfg) "" then Some (Sentinel ErrStreamRequired)
  else
    let len := Z.of_nat (length (default defaultBackOff (so_backoff cfg))) in
    if (0 <? so_max_deliver cfg) && (so_max_deliver cfg <=? len)
    then Some (invalid_config (so_max_deliver cfg) len)
    else None.

(** The name of the handler and the policy of its messages. *)
Definition subscription_handler (subject : string) (cfg : SubscribeOptions) : string :=
  if String.eqb (so_handler_name cfg) "" then cc_name (consumer_config subject cfg)
  else so_handler_name cfg.
Definition subscription_policy (subject : string) (cfg : SubscribeOptions) : deliveryPolicy :=
  mkDeliveryPolicy (so_max_deliver cfg) (cc_backoff (consumer_config subject cfg)).

(** [Bus.Subscribe] from the client's consumer to the start of its loop. *)
Definition consume_messages (c : Ctx) (subject : string) (fn : Ctx -> option Event -> M U goerr)
    (cfg : SubscribeOptions) : M U (nat + error) :=
  let config := consumer_config subject cfg in
  let handler := subscription_handler subject cfg in
  _ ← log_entry (EConsumer (so_stream cfg) config);
  r ← client_consumer c (so_stream cfg) config;
  match r with
  | inr e => mret (inr e)
  | inl consumer =>
      onerr ← consumeErr c handler subject;
      client_consume consumer
        (fun g => msgHandler b g c handler fn (subscription_policy subject cfg)) onerr
  end.

(** The end of [Bus.Subscribe]: shutdown may have begun while [Consume] ran. *)
Definition register_consumer (cc : nat) : M U goerr :=
  closing ← closing_life;
  if closing : bool
  then _ ← log_entry (EUnsubscribe cc);
       _ ← client_stop cc;
       mret (Some (Sentinel ErrBusClosed))
  else _ ← add_sub cc; mret None.

(** [Bus.Subscribe] from the client's consumer on. *)
Definition start_consumer (c : Ctx) (subject : string) (fn : Ctx -> option Event -> M U goerr)
    (cfg : SubscribeOptions) : M U goerr :=
  r ← consume_messages c subject fn cfg;
  match r with
  | inr e => mret (Some e)
  | inl cc => register_consumer cc
  end.

(** [Bus.Subscribe]. *)
Definition Subscribe (c : Ctx) (subject : string) (fn : Ctx -> option Event -> M U goerr)
    (opts : list SubscribeOption) : M U goerr :=
  closing ← closing_life;
  if closing : bool then mret (Some (Sentinel ErrBusClosed))
  else
    let cfg := ApplyOptions opts in
    match config_error cfg with
    | Some e => mret (Some e)
    | None => start_consumer c subject fn cfg
    end.

(** [Bus.RegisterSubscribers]. *)
Definition RegisterSubscribers (c : Ctx) (subs : list (Subscriber U)) : M U goerr :=
  register_all (Subscribe c) subs.
End jetstream.

(** ** NATS core *)

(** [natsConn.Subscribe] and the [Unsubscribe] of a subscription. *)
Class SubscribeClient (U : Type) := {
  client_subscribe : string -> (InMsg -> M U unit) -> M U (nat + error);
  client_unsubscribe : nat -> M U goerr;
}.

Section core.
Context {U : Type} `{Env U} `{NatsLib} `{Conn U} `{SubscribeClient U} `{Lens Lifecycle U} `{Lens Subs U}.
Context (b : NatsCore.Bus U) (newid : M U string).

(** [Bus.trackSub], for a subscription of the client. *)
Definition trackSub (c : Ctx) (subject : string) (sub : nat) : M U goerr :=
  closing ← closing_life;
  if closing : bool
  then _ ← log_entry (EUnsubscribe sub);
       err ← client_unsubscribe sub;
       _ ← match err with
           | Some _ => NatsCore.internalError b c OpUnsubscribe "" subject err
           | None => mret tt
           end;
       mret (Some (Sentinel ErrBusClosed))
  else _ ← add_sub sub; mret None.

(** [Bus.Subscribe], and [Bus.SubscribeSync] when [sync] holds. *)
Definition core_Subscribe (sync : bool) (c : Ctx) (subject : string)
    (fn : Ctx -> option Event -> M U goerr) (opts : list SubscribeOption) : M U goerr :=
  closing ← closing_life;
  if closing : bool then mret (Some (Sentinel ErrBusClosed))
  else
    let cfg := ApplyOptions opts in
    let handler := if String.eqb (so_handler_name cfg) "" then subject else so_handler_name cfg in
    r ← client_subscribe subject (callback b sync newid c handler fn);
    match r with
    | inr e => mret (Some e)
    | inl sub => trackSub c subject sub
    end.

(** [Bus.RegisterSubscribers]. *)
Definition core_RegisterSubscribers (c : Ctx) (subs : list (Subscriber U)) : M U goerr :=
  register_all (core_Subscribe false c) subs.
End core.
