(* ===== verification/SubscribingSpec.v ===== *)
(** * Properties of subscribing

    What [Subscribe] of the JetStream transport refuses, what it asks the server for,
    and what it leaves for Shutdown to drain. *)

From S2P Require Import Prelude GoErrors Types Failure Text Runtime Observer Scope Dlq.
From S2P Require Import Settle Invoke Invokers Frames Lifecycle LifeOps History Emit Nats Jetstream NatsCore Fixtures Subscribing.
Local Open Scope string_scope.
Local Open Scope list_scope.
Local Open Scope Z_scope.

(** The consumers asked for, and the subscriptions given up. *)
Definition consumer_of (e : entry) : option (string * ConsumerConfig) :=
  match e with EConsumer s c => Some (s, c) | _ => None end.
Definition consumers (l : list entry) : list (string * ConsumerConfig) := omap consumer_of l.
Definition unsubscribed_of (e : entry) : option nat :=
  match e with EUnsubscribe i => Some i | _ => None end.
Definition unsubscribed (l : list entry) : list nat := omap unsubscribed_of l.

Arguments consumers : simpl never.
Arguments unsubscribed : simpl never.

Lemma consumers_app l1 l2 : consumers (l1 ++ l2) = consumers l1 ++ consumers l2.
Proof. apply omap_app. Qed.
Lemma unsubscribed_app l1 l2 : unsubscribed (l1 ++ l2) = unsubscribed l1 ++ unsubscribed l2.
Proof. apply omap_app. Qed.

Section subscribing.
Context {U : Type} `{Env U} `{Broker U} `{ConsumerClient U} `{Lens Lifecycle U} `{Lens Subs U}.
Implicit Types (b : Jetstream.Bus U) (c : Ctx) (w : World U) (cfg : SubscribeOptions).

(** The client asks for no consumer and gives up no subscription of its own, and does
    not touch the list of the bus. *)
Definition untouched : relation (World U) := fun w w' =>
  consumers (w_log w') = consumers (w_log w) /\ unsubscribed (w_log w') = unsubscribed (w_log w)
  /\ lget (S := Subs) (w_user w') = lget (w_user w).

#[local] Instance untouched_preorder : PreOrder untouched.
Proof. split; [done|]. intros w1 w2 w3 (?&?&?) (?&?&?). unfold untouched. intuition congruence. Qed.

Record quiet_client : Prop := {
  qc_consumer c s config : respects untouched (client_consumer (U := U) c s config);
  qc_consume i h e : respects untouched (client_consume (U := U) i h e);
  qc_stop i : respects untouched (client_stop (U := U) i);
}.

(** The rule of the server: a schedule shorter than the number of deliveries. *)
Definition valid_schedule (config : ConsumerConfig) : Prop :=
  cc_max_deliver config <= 0 \/ Z.of_nat (length (cc_backoff config)) < cc_max_deliver config.

Lemma config_error_cases cfg subject :
  match config_error cfg with
  | None => so_stream cfg <> "" /\ valid_schedule (consumer_config subject cfg)
  | Some e => (so_stream cfg = "" /\ e = Sentinel ErrStreamRequired)
      \/ (so_stream cfg <> "" /\ ~ valid_schedule (consumer_config subject cfg)
          /\ errors_is e ErrInvalidConfig = true)
  end.
Proof.
  unfold config_error. destruct (String.eqb_spec (so_stream cfg) "") as [|Hs]; [by left|].
  unfold valid_schedule. simpl. set (n := Z.of_nat _).
  destruct (_ && _) eqn:Hb; b2p; [right|split; [done|]; lia]. split; [done|]. split; [lia|].
  reflexivity.
Qed.

Lemma untouched_consumeErr b c handler subject : respects untouched (consumeErr b c handler subject).
Proof.
  apply respects_bind; [apply _| |intros; by apply respects_ret, _].
  apply WithObserver_on_children; [apply _|by intros w].
Qed.

(** The registration, or the stop of a subscription that came too late. *)
Lemma register_run (i : nat) w err w' :
  register_consumer i w = (Ret err, w') ->
  if Closing (lget (w_user w))
  then err = Some (Sentinel ErrBusClosed)
       /\ client_stop i (log_entry (EUnsubscribe i) w).2 = (Ret tt, w')
  else err = None /\ w_log w' = w_log w /\ lget (S := Subs) (w_user w') = lget (w_user w) ++ [i].
Proof.
  intros Hrun. unfold register_consumer in Hrun. apply bind_ret_inv in Hrun as (cl & w1 & Hcl & Hrun).
  rewrite closing_life_run in Hcl. injection Hcl as <- <-.
  destruct (Closing _); apply bind_ret_inv in Hrun as ([] & w2 & He & Hrun).
  - injection He as <-. apply bind_ret_inv in Hrun as ([] & w3 & Hst & Hrun).
    apply mret_inv in Hrun as [-> ->]. split; [done|exact Hst].
  - unfold add_sub in He.
    destruct (atomically_run (fun l : Subs => (tt, l ++ [i])) w) as (w3 & He' & Hl & Hlog & _).
    rewrite He in He'. injection He' as <-. by apply mret_inv in Hrun as [-> ->].
Qed.

(** The client's part: one consumer is asked for, nothing is registered, and the loop
    runs the callback of this subscription. *)
Lemma consume_messages_run b c subject fn cfg w r w1 : quiet_client ->
  consume_messages b c subject fn cfg w = (Ret r, w1) ->
  consumers (w_log w1) = consumers (w_log w) ++ [(so_stream cfg, consumer_config subject cfg)]
  /\ unsubscribed (w_log w1) = unsubscribed (w_log w)
  /\ lget (S := Subs) (w_user w1) = lget (w_user w)
  /\ forall i, r = inl i -> exists consumer onerr v,
       client_consume consumer (fun g => msgHandler b g c (subscription_handler subject cfg) fn
                                  (subscription_policy subject cfg)) onerr v = (Ret (inl i), w1).
Proof.
  intros Hq Hrun. unfold consume_messages in Hrun.
  apply bind_ret_inv in Hrun as ([] & v1 & He & Hrun). injection He as <-.
  apply bind_ret_inv in Hrun as (rc & v2 & Hr & Hrun).
  pose proof (respects_run _ _ _ _ _ (qc_consumer Hq _ _ _) Hr) as (Hc & Hu & Hs).
  cbn [w_log w_user] in Hc, Hu, Hs. rewrite consumers_app in Hc.
  rewrite unsubscribed_app, app_nil_r in Hu.
  destruct rc as [consumer|e]; [|by apply mret_inv in Hrun as [-> ->]].
  apply bind_ret_inv in Hrun as (onerr & v3 & Ho & Hrun).
  pose proof (respects_run _ _ _ _ _ (untouched_consumeErr b _ _ _) Ho) as (Hc3 & Hu3 & Hs3).
  pose proof (respects_run _ _ _ _ _ (qc_consume Hq _ _ _) Hrun) as (Hc4 & Hu4 & Hs4).
  split; [rewrite Hc4, Hc3; exact Hc|]. split; [congruence|]. split; [congruence|].
  intros i ->. by exists consumer, onerr, v3.
Qed.

(** * Properties *)

(** C33: what [Subscribe] of the JetStream transport does. A closing bus, a missing
    stream and a schedule the server would not apply are refused with their errors
    before anything is asked of the client. Otherwise the server is asked for one
    durable consumer that acknowledges explicitly, filters the subject and is named
    by the option or after the subject, with the given or the default schedule,
    shorter than the deliveries; an error of the client is returned and nothing
    is registered. A subscription whose loop started, with the callback of this
    handler, is on the list Shutdown drains when nil is returned, and otherwise the
    shutdown began meanwhile, the loop is stopped, nothing is registered, and the
    error is ErrBusClosed. *)
Theorem Subscribe_contract b c (subject : string) (fn : Ctx -> option Event -> M U goerr)
    (opts : list SubscribeOption) w (err : goerr) w' :
  quiet_client -> Subscribe b c subject fn opts w = (Ret err, w') ->
  let subs w := lget (S := Subs) (w_user w) in
  let cfg := ApplyOptions opts in
  let config := consumer_config subject cfg in
  if Closing (lget (w_user w)) then err = Some (Sentinel ErrBusClosed) /\ w' = w
  else match config_error cfg with
  | Some e => err = Some e /\ w' = w
      /\ ((so_stream cfg = "" /\ e = Sentinel ErrStreamRequired)
          \/ (so_stream cfg <> "" /\ ~ valid_schedule config /\ errors_is e ErrInvalidConfig = true))
  | None => so_stream cfg <> "" /\ valid_schedule config
      /\ cc_name config = (if String.eqb (so_consumer cfg) "" then subject else so_consumer cfg)
      /\ cc_durable config = cc_name config /\ cc_ack_explicit config = true
      /\ cc_filter_subject config = subject /\ cc_max_deliver config = so_max_deliver cfg
      /\ cc_backoff config = default defaultBackOff (so_backoff cfg)
      /\ consumers (w_log w') = consumers (w_log w) ++ [(so_stream cfg, config)]
      /\ exists r w1, consume_messages b c subject fn cfg w = (Ret r, w1)
         /\ subs w1 = subs w /\ unsubscribed (w_log w1) = unsubscribed (w_log w)
         /\ match r with
            | inr e => err = Some e /\ w' = w1
            | inl i =>
                (exists consumer onerr v,
                   client_consume consumer (fun g => msgHandler b g c (subscription_handler subject cfg) fn
                     (subscription_policy subject cfg)) onerr v = (Ret (inl i), w1))
                /\ if Closing (lget (w_user w1))
                   then err = Some (Sentinel ErrBusClosed) /\ subs w' = subs w
                        /\ unsubscribed (w_log w') = unsubscribed (w_log w) ++ [i]
                        /\ client_stop i (log_entry (EUnsubscribe i) w1).2 = (Ret tt, w')
                   else err = None /\ subs w' = subs w ++ [i]
                        /\ unsubscribed (w_log w') = unsubscribed (w_log w)
            end
  end.
Proof.
  intros Hq Hrun subs cfg config. unfold Subscribe in Hrun.
  apply bind_ret_inv in Hrun as (cl & w1 & Hcl & Hrun).
  rewrite closing_life_run in Hcl. injection Hcl as <- <-.
  destruct (Closing _); [by apply mret_inv in Hrun as [-> ->]|].
  pose proof (config_error_cases cfg subject) as Hcases. fold cfg in Hrun.
  destruct (config_error cfg) as [e|]; [by apply mret_inv in Hrun as [-> ->]|].
  destruct Hcases as [Hs Hv]. do 8 (split; [done|]). unfold start_consumer in Hrun.
  apply bind_ret_inv in Hrun as (r & w1 & Hr & Hrun).
  destruct (consume_messages_run b c subject fn cfg w r w1 Hq Hr) as (Hc & Hu & Hl & Hcall).
  destruct r as [i|e].
  2: { apply mret_inv in Hrun as [-> ->]. split; [exact Hc|]. exists (inr e), w1. by repeat split. }
  specialize (Hcall i eq_refl). apply register_run in Hrun.
  enough (consumers (w_log w') = consumers (w_log w1)
    /\ if Closing (lget (w_user w1))
       then err = Some (Sentinel ErrBusClosed) /\ subs w' = subs w
            /\ unsubscribed (w_log w') = unsubscribed (w_log w) ++ [i]
            /\ client_stop i (log_entry (EUnsubscribe i) w1).2 = (Ret tt, w')
       else err = None /\ subs w' = subs w ++ [i]
            /\ unsubscribed (w_log w') = unsubscribed (w_log w)) as [Hc' Hend].
  { split; [by rewrite Hc', Hc|]. by exists (inl i), w1. }
  unfold subs. destruct (Closing _).
  - destruct Hrun as [-> Hstop].
    destruct (respects_run _ _ _ _ _ (qc_stop Hq i) Hstop) as (Hc' & Hu' & Hl').
    cbn [w_log w_user log_entry snd] in Hc', Hu', Hl'.
    rewrite consumers_app, app_nil_r in Hc'. rewrite unsubscribed_app, Hu in Hu'.
    by rewrite Hl', Hl.
  - destruct Hrun as (-> & Hlog & Hsub). by rewrite Hlog, Hu, <- Hl.
Qed.
End subscribing.

(** ** A concrete client

    A server that numbers its consumers 7 and its subscriptions 9. *)

Definition sub_user : Type := Lifecycle * Subs.

#[local] Program Instance sub_life : Lens Lifecycle sub_user :=
  {| lget u := u.1; lput s u := (s, u.2) |}.
Solve All Obligations with by intros; try by destruct u.
#[local] Program Instance sub_list : Lens Subs sub_user :=
  {| lget u := u.2; lput s u := (u.1, s) |}.
Solve All Obligations with by intros; try by destruct u.

#[local] Instance sub_env : Env sub_user := silent_env sub_user.
#[local] Instance sub_broker : Broker sub_user := {| broker_act _ _ := mret None |}.
#[local] Instance sub_client : ConsumerClient sub_user := {|
  client_consumer _ _ _ := mret (inl 7%nat);
  client_consume _ _ _ :=
    u ← get_user;
    _ ← (if decide (u.2 = [1%nat]) then put_user (BeginShutdown u.1, u.2) else mret tt);
    mret (inl 9%nat);
  client_stop _ := mret tt;
|}.
Definition sub_bus : Jetstream.Bus sub_user :=
  Jetstream.mkBus (mkRegistry None (fun _ _ => mret ("{}", None))) (fun c _ => mret (Some c, None, None))
    None None [] None (mkPublishRetryPolicy 3 0 0 0) None true 0 0 0 0 None.
Definition sub_world (l : Lifecycle) (subs : Subs) : World sub_user := mkWorld 100 [] ∅ 0 ∅ ∅ (l, subs).
Definition sub_run (w : World sub_user) (opts : list SubscribeOption) : outcome (any error) goerr * World sub_user :=
  Subscribe sub_bus background "orders" (fun _ _ => mret None) opts w.

Example sub_runs :
  (sub_run (sub_world zero_lifecycle []) []).1 = Ret (Some (Sentinel ErrStreamRequired))
  /\ (sub_run (sub_world (BeginShutdown zero_lifecycle) []) [WithStream "S"]).1 = Ret (Some (Sentinel ErrBusClosed))
  /\ (sub_run (sub_world zero_lifecycle []) [WithStream "S"; WithMaxDeliver 4]).1 = Ret (Some (invalid_config 4 4))
  /\ (sub_run (sub_world zero_lifecycle []) [WithStream "S"; WithMaxDeliver 5]).1 = Ret None
  /\ (sub_run (sub_world zero_lifecycle [1%nat]) [WithStream "S"; WithMaxDeliver 5]).1
     = Ret (Some (Sentinel ErrBusClosed)).
Proof. vm_compute. repeat split; reflexivity. Qed.

(** One subscription in time, and one during which the shutdown began. *)
Lemma Subscribe_contract_witness :
  let run subs := (sub_run (sub_world zero_lifecycle subs) [WithStream "S"; WithMaxDeliver 5]).2 in
  lget (S := Subs) (w_user (run [])) = [9%nat]
  /\ lget (S := Subs) (w_user (run [1%nat])) = [1%nat] /\ unsubscribed (w_log (run [1%nat])) = [9%nat].
Proof.
  assert (Hq : quiet_client (U := sub_user)).
  { split; intros; intros w; try exact (conj eq_refl (conj eq_refl eq_refl)).
    unfold client_consume, sub_client, mbind, M_bind, get_user. destruct (decide _);
      exact (conj eq_refl (conj eq_refl eq_refl)). }
  assert (Hall : forall subs err w1, let w := sub_world zero_lifecycle subs in
    let cfg := ApplyOptions [WithStream "S"; WithMaxDeliver 5] in
    let w' := (sub_run w [WithStream "S"; WithMaxDeliver 5]).2 in
    sub_run w [WithStream "S"; WithMaxDeliver 5] = (Ret err, w') ->
    consume_messages sub_bus background "orders" (fun _ _ => mret None) cfg w = (Ret (inl 9%nat), w1) ->
    if Closing (lget (w_user w1)) then lget (S := Subs) (w_user w') = subs /\ unsubscribed (w_log w') = [9%nat]
    else lget (S := Subs) (w_user w') = subs ++ [9%nat]).
  { intros subs err w1 w cfg w' Hr Hc.
    pose proof (Subscribe_contract sub_bus background "orders" (fun _ _ => mret None)
      [WithStream "S"; WithMaxDeliver 5] w err w' Hq Hr) as Hk.
    cbv zeta in Hk. change (Closing (lget (w_user w))) with false in Hk.
    change (config_error (ApplyOptions [WithStream "S"; WithMaxDeliver 5])) with (@None error) in Hk.
    destruct Hk as (_ & _ & _ & _ & _ & _ & _ & _ & _ & r & w2 & Hc2 & _ & _ & Hm).
    fold cfg in Hc2. rewrite Hc in Hc2. injection Hc2 as <- <-. destruct Hm as [_ Hm].
    destruct (Closing (lget (w_user w1))); destruct Hm as (_ & H1 & H2); [|exact H1].
    split; [exact H1|]. destruct H2 as [H2 _]. exact H2. }
  cbv zeta. split.
  - refine (Hall [] None _ _ eq_refl); vm_compute; reflexivity.
  - refine (Hall [1%nat] (Some (Sentinel ErrBusClosed)) _ _ eq_refl); vm_compute; reflexivity.
Defined.
