(* ===== verification/BusClose.v ===== *)
(** * Shutdown and Close

    [Shutdown] and [Close] of the three buses, src/local-bus.go,
    src/jetstream/bus.go and src/nats/bus.go, with [Lifecycle.Shutdown] and
    [SlogObserver.Flush], as calls of the world. Drain.v interleaves the callers of
    a transport's [Shutdown]; here one caller runs from its call to its return, and
    the other goroutines run while it is blocked in a select, which is what the
    class [Scheduler] says of the language. [Wait] may be woken any number of times,
    so it has fuel, and a run out of it is [None].

    The channel [drained], the list [b.draining] and the [sync.Once] of a transport
    are the [Drainage] at a lens of the user state. *)

From S2P Require Import Prelude GoErrors Types Failure Runtime Observer Lifecycle LifeOps.
From S2P Require Import SlogObserver LocalBus Jetstream NatsCore Subscribing.
Local Open Scope string_scope.
Local Open Scope list_scope.
Local Open Scope Z_scope.

(** Channels and selects: [poll] is a select with a default, [select_chans] one over
    channels and the end of a context, [None] for the latter. *)
Class Scheduler (U : Type) := {
  make_chan : M U nat;
  close_chan : nat -> M U unit;
  poll : nat -> M U bool;
  select_chans : Ctx -> list nat -> M U (option nat);
}.

(** ** src/lifecycle.go *)

Section lifecycle.
Context {U : Type} `{Scheduler U} `{Lens Lifecycle U}.

(** [BeginShutdown] and [Interrupt]. *)
Definition begin_life : M U unit := atomically (fun l => (tt, BeginShutdown l)).
Definition interrupt_life : M U unit := atomically (fun l => (tt, Interrupt l)).

(** [Lifecycle.Wait]. *)
Fixpoint wait_life (fuel : nat) (c : Ctx) : M U (option goerr) :=
  match fuel with
  | O => mret None
  | S fuel =>
      next ← make_chan;
      idle ← atomically (fun l => let '(l, ch) := Wait_check next l in (ch, l));
      match idle with
      | None => mret (Some None)
      | Some idle =>
          r ← select_chans c [idle];
          match r with
          | Some _ => wait_life fuel c
          | None => _ ← interrupt_life; err ← Err c; mret (Some err)
          end
      end
  end.

(** [Lifecycle.Shutdown]. *)
Definition shutdown_life (fuel : nat) (c : Ctx) : M U (option goerr) :=
  _ ← begin_life; wait_life fuel c.
End lifecycle.

(** ** The default log observer *)

(** Where the log observer writes its lines. *)
Class LogSink (U : Type) := { write_line : line -> M U unit }.

Section log.
Context {U : Type} `{LogSink U} `{Lens slog U}.

Fixpoint write_lines (ls : list line) : M U unit :=
  match ls with [] => mret tt | x :: ls => _ ← write_line x; write_lines ls end.

(** [SlogObserver.Flush]. *)
Definition Flush : M U unit :=
  ls ← atomically (fun s => let '(s, ls) := flush s in (ls, s)); write_lines ls.
End log.

(** ** The transports *)

(** [drained], [draining], and whether [stopOnce] or [closeOnce] is done. *)
Record Drainage := mkDrainage {
  dn_drained : option nat;
  dn_draining : Subs;
  dn_once : bool;
}.

(** The subscriptions of a client: [sub_drain] starts the drain of one, [sub_done] is
    the channel closed at its end. *)
Class DrainClient (U : Type) := {
  sub_subject : nat -> string;
  sub_drain : nat -> M U goerr;
  sub_done : nat -> M U nat;
  sub_stop : nat -> M U unit;
  conn_close : M U unit;
}.

Section transports.
Context {U : Type} `{Scheduler U} `{DrainClient U} `{Lens Lifecycle U} `{Lens Subs U}.
Context `{Lens Drainage U} (life_done : nat).

(** Whether this is the first call of a [sync.Once]. *)
Definition once : M U bool :=
  atomically (fun d => (negb (dn_once d), mkDrainage (dn_drained d) (dn_draining d) true)).

Definition drained : M U (option nat) := atomically (fun d => (dn_drained d, d)).
Definition take_registered : M U Subs := atomically (fun l => (l, [])).

(** The wait of the owner: [life_done] is [b.life.Context().Done()]. *)
Fixpoint await_closed (force : M U unit) (c : Ctx) (subs : list nat) : M U goerr :=
  match subs with
  | [] => mret None
  | cc :: rest =>
      ch ← sub_done cc;
      r ← select_chans c [ch; life_done];
      match r with
      | Some O => await_closed force c rest
      | Some _ => mret None
      | None => _ ← force; Err c
      end
  end.

(** src/jetstream/bus.go: [Bus.force]. *)
Fixpoint stop_all (subs : list nat) : M U unit :=
  match subs with [] => mret tt | cc :: rest => _ ← sub_stop cc; stop_all rest end.
Definition force_jet : M U unit :=
  first ← once;
  _ ← (if first : bool
       then draining ← atomically (fun d => (dn_draining d, d)); stop_all draining
       else mret tt);
  interrupt_life.

(** [Bus.drain]. *)
Fixpoint drain_all (subs : list nat) : M U unit :=
  match subs with [] => mret tt | cc :: rest => _ ← sub_drain cc; drain_all rest end.
Definition jet_drain (c : Ctx) (consumers : list nat) (ch : nat) : M U goerr :=
  deferring None (_ ← drain_all consumers; await_closed force_jet c consumers)
    (fun _ => close_chan ch).

(** [Bus.shutdown]. *)
Definition jet_shutdown (fuel : nat) (c : Ctx) : M U (option goerr) :=
  _ ← begin_life;
  d ← drained;
  match d with
  | Some ch =>
      r ← select_chans c [ch];
      match r with
      | Some _ => wait_life fuel c
      | None => _ ← force_jet; err ← Err c; mret (Some err)
      end
  | None =>
      ch ← make_chan;
      consumers ← take_registered;
      _ ← atomically (fun d => (tt, mkDrainage (Some ch) consumers (dn_once d)));
      err ← jet_drain c consumers ch;
      match err with Some _ => mret (Some err) | None => wait_life fuel c end
  end.

(** src/nats/bus.go: [Bus.closeConn] and [Bus.force]. *)
Definition close_conn : M U unit :=
  first ← once; if first : bool then conn_close else mret tt.
Definition force_core : M U unit := _ ← interrupt_life; close_conn.

(** The loop of [Bus.drainSubs] over [drain]: the subscriptions to wait for. *)
Context `{Env U} (b : NatsCore.Bus U).
Fixpoint drain_tracked (c : Ctx) (subs : list nat) : M U (list nat) :=
  match subs with
  | [] => mret []
  | ts :: rest =>
      err ← sub_drain ts;
      match err with
      | Some _ => _ ← NatsCore.internalError b c OpDrain "" (sub_subject ts) err; drain_tracked c rest
      | None => waiting ← drain_tracked c rest; mret (ts :: waiting)
      end
  end.

(** [Bus.drainSubs]. *)
Definition drainSubs (c : Ctx) (subs : list nat) (ch : nat) : M U goerr :=
  deferring None (waiting ← drain_tracked c subs; await_closed force_core c waiting)
    (fun _ => close_chan ch).

(** [b.life.Wait(ctx)] and [b.closeConn()]. *)
Definition core_wait (fuel : nat) (c : Ctx) : M U (option goerr) :=
  err ← wait_life fuel c;
  match err with None => mret None | Some _ => _ ← close_conn; mret err end.

(** [Bus.shutdown]. *)
Definition core_shutdown (fuel : nat) (c : Ctx) : M U (option goerr) :=
  _ ← begin_life;
  d ← drained;
  match d with
  | None =>
      ch ← make_chan;
      subs ← take_registered;
      _ ← atomically (fun d => (tt, mkDrainage (Some ch) (dn_draining d) (dn_once d)));
      err ← drainSubs c subs ch;
      match err with Some _ => mret (Some err) | None => core_wait fuel c end
  | Some ch =>
      closed ← poll ch;
      if closed : bool then core_wait fuel c
      else
        r ← select_chans c [ch];
        match r with
        | Some _ => core_wait fuel c
        | None => _ ← force_core; err ← Err c; mret (Some err)
        end
  end.
End transports.

(** ** Shutdown and Close *)

(** What a bus brings to [Shutdown] and [Close]: the drain of its own, whether it
    made its log observer itself, and the bound of [Close]. *)
Class Shutdowner (U : Type) := {
  own_shutdown : nat -> Ctx -> M U (option goerr);
  own_default_log : bool;
  own_timeout : Z;
}.

Section close.
Context {U : Type} `{Shutdowner U} `{LogSink U} `{Lens slog U}.

(** [Shutdown]. *)
Definition Shutdown (fuel : nat) (c : Ctx) : M U (option goerr) :=
  err ← own_shutdown fuel c;
  match err with
  | None => mret None
  | Some _ => _ ← (if own_default_log then Flush else mret tt); mret err
  end.

(** [Close]. *)
Definition Close (fuel : nat) : M U (option goerr) :=
  t ← now;
  Shutdown fuel (WithTimeoutCause t own_timeout (Sentinel DeadlineExceeded) background).
End close.

Section buses.
Context {U : Type} `{Scheduler U} `{DrainClient U} `{Lens Lifecycle U} `{Lens Subs U}.
Context `{Lens Drainage U} `{Env U}.

Definition local_shutdowner (b : LocalBus U) : Shutdowner U := {|
  own_shutdown := shutdown_life;
  own_default_log := lb_default_log b;
  own_timeout := lb_shutdown_timeout b;
|}.

Definition jet_shutdowner (life_done : nat) (b : Jetstream.Bus U) : Shutdowner U := {|
  own_shutdown := jet_shutdown life_done;
  own_default_log := jb_default_log b;
  own_timeout := jb_shutdown_timeout b;
|}.

(** [Close] of the NATS core bus, which has not normalised its timeout. *)
Definition core_shutdowner (life_done : nat) (b : NatsCore.Bus U) : Shutdowner U := {|
  own_shutdown := core_shutdown life_done b;
  own_default_log := nb_default_log b;
  own_timeout := if nb_shutdown_timeout b <=? 0 then DefaultShutdownTimeout
                 else nb_shutdown_timeout b;
|}.
End buses.
