(* ===== verification/BusCloseSpec.v ===== *)
(** * Properties of Shutdown and Close

    A shutdown of any of the three buses returns when its context ends, at the
    latest, with an answer that is true; Close is bounded by its timeout, and leaves
    no repetition unreported in a log observer the bus made itself. *)

From S2P Require Import Prelude GoErrors Types Failure Runtime Observer Fixtures Lifecycle LifeOps Emit Nats.
From S2P Require Import SlogObserver LocalBus Jetstream NatsCore Subscribing BusClose.
Local Open Scope string_scope.
Local Open Scope list_scope.
Local Open Scope Z_scope.

(** A component is apart from another: writing the one leaves the other. *)
Class Apart (S T : Type) {U : Type} `{Lens S U} `{Lens T U} : Prop :=
  apart (s : S) (u : U) : lget (S := T) (lput s u) = lget u.

Section ends.
Context {U : Type} `{LU : Lens Lifecycle U}.
Implicit Types (w : World U) (l : Lifecycle) (dl t : Z).

Definition life w : Lifecycle := lget (w_user w).

(** Time goes on, but not past the end of the context, and a bus stays closed. *)
Record timely dl w w' : Prop := {
  tm_after : w_now w <= w_now w';
  tm_bound : w_now w' <= Z.max (w_now w) dl;
  tm_closed : l_closed (life w) = true -> l_closed (life w') = true;
}.

#[export] Instance timely_preorder dl : PreOrder (timely dl).
Proof.
  split; [by intros w; split; [lia..|]|].
  intros w1 w2 w3 [A1 B1 C1] [A2 B2 C2]. split; [lia|lia|]. by intros; apply C2, C1.
Qed.

(** A call that returns in time, with what it says of its result, the clock and the
    lifecycle. *)
Definition ends {A} dl (m : M U A) (Q : A -> Z -> Lifecycle -> Prop) w : Prop :=
  exists a w', m w = (Ret a, w') /\ timely dl w w' /\ Q a (w_now w') (life w').

Lemma ends_ret {A} dl (a : A) (Q : A -> Z -> Lifecycle -> Prop) w :
  Q a (w_now w) (life w) -> ends dl (mret a) Q w.
Proof. intros HQ. by exists a, w. Qed.

Lemma ends_bind {A B} dl (m : M U A) (k : A -> M U B) Q R w :
  ends dl m Q w -> (forall a w', timely dl w w' -> Q a (w_now w') (life w') -> ends dl (k a) R w') ->
  ends dl (mbind k m) R w.
Proof.
  intros (a & w1 & Hm & Ht & HQ) Hk. destruct (Hk a w1 Ht HQ) as (b & w2 & Hb & Ht2 & HR).
  exists b, w2. split; [by rewrite (bind_run _ _ _ _ _ Hm)|]. split; [by etransitivity|exact HR].
Qed.

Lemma ends_assoc {A B C} dl (m : M U A) (k : A -> M U B) (h : B -> M U C) R w :
  ends dl (mbind (fun a => mbind h (k a)) m) R w -> ends dl (mbind h (mbind k m)) R w.
Proof. intros (a & w1 & Hm & HR). exists a, w1. by rewrite bind_assoc. Qed.

(** A call that leaves the clock and the lifecycle alone. *)
Definition tame {A} (m : M U A) : Prop := forall w, exists a w',
  m w = (Ret a, w') /\ w_now w' = w_now w /\ life w' = life w.

Lemma tame_ret {A} (a : A) : tame (mret a).
Proof. intros w. by exists a, w. Qed.
Lemma tame_bind {A B} (m : M U A) (k : A -> M U B) : tame m -> (forall a, tame (k a)) -> tame (mbind k m).
Proof.
  intros Hm Hk w. destruct (Hm w) as (a & w1 & Hr & Hn & Hl), (Hk a w1) as (b & w2 & Hr2 & Hn2 & Hl2).
  exists b, w2. split; [by rewrite (bind_run _ _ _ _ _ Hr)|]. split; congruence.
Qed.
Lemma tame_if {A} (b : bool) (m n : M U A) : tame m -> tame n -> tame (if b then m else n).
Proof. by destruct b. Qed.

Lemma tame_atomically {S A} `{LS : Lens S U} `{!Apart S Lifecycle} (f : S -> A * S) : tame (atomically f).
Proof.
  intros w. unfold atomically, life. destruct (f _) as [a s]. do 2 eexists. split; [done|].
  split; [done|]. cbn. apply apart.
Qed.

Lemma ends_tame {A B} dl (m : M U A) (k : A -> M U B) R w :
  tame m ->
  (forall a w', w_now w' = w_now w -> life w' = life w -> ends dl (k a) R w') ->
  ends dl (mbind k m) R w.
Proof.
  intros Hm Hk. destruct (Hm w) as (a & w1 & Hr & Hn & Hl).
  apply (ends_bind dl m k (fun _ t l => t = w_now w /\ l = life w)).
  - exists a, w1. split; [done|]. split; [|done]. split; [lia|lia|]. by rewrite Hl.
  - intros a' w' _ [Hn' Hl']. by apply Hk.
Qed.

Lemma ends_atomically {A B} dl (f : Lifecycle -> A * Lifecycle) (k : A -> M U B) R w :
  (l_closed (life w) = true -> l_closed (f (life w)).2 = true) ->
  (forall w', w_now w' = w_now w -> life w' = (f (life w)).2 -> ends dl (k (f (life w)).1) R w') ->
  ends dl (mbind k (atomically f)) R w.
Proof.
  intros Hc Hk. destruct (atomically_run f w) as (w1 & Hr & Hg & _ & Ht & _).
  apply (ends_bind dl _ k (fun a t l => a = (f (life w)).1 /\ t = w_now w /\ l = (f (life w)).2)).
  - exists (f (life w)).1, w1. split; [exact Hr|]. split; [|split; [done|split; [exact Ht|exact Hg]]].
    split; [lia|lia|]. unfold life at 2. by rewrite Hg.
  - intros a w' _ (-> & Hn & Hl). by apply Hk.
Qed.

Lemma ends_deferring {A} dl (zero : A) (m : M U A) f Q w :
  ends dl m Q w -> (forall a, tame (f a)) -> ends dl (deferring zero m f) Q w.
Proof.
  intros (a & w1 & Hm & Ht & HQ) Hf. destruct (Hf a w1) as (u & w2 & Hr & Hn & Hl).
  exists a, w2. split; [unfold deferring; by rewrite Hm, (bind_run _ _ _ _ _ Hr)|].
  split; [|by rewrite Hn, Hl]. destruct Ht as [T1 T2 T3]. split; [lia|lia|]. by rewrite Hl.
Qed.
End ends.

(** ** What the environment promises *)

(** The selects of the language: one returns when the context ends, at the latest,
    and only then without a channel; an open channel gets ready by what another
    goroutine does later; no goroutine reopens a bus. *)
Class SchedulerLaws (U : Type) `{Scheduler U} `{Lens Lifecycle U} : Prop := {
  sl_make : tame make_chan;
  sl_close ch : tame (close_chan ch);
  sl_poll ch : tame (poll ch);
  sl_select c di chs w : cx_done c = Some di ->
    ends (done_at di) (select_chans c chs) (fun r t _ => r = None -> done_at di <= t) w;
  sl_idle c ch w r w' : l_idle (life w) = Some ch -> l_idle_closed (life w) = false ->
    select_chans c [ch] w = (Ret (Some r), w') -> w_now w < w_now w';
}.

(** The lines reach the sink one by one, and nothing else changes. *)
Class SinkLaws (U : Type) `{LogSink U} `{Lens Lifecycle U} `{Lens slog U} := {
  sunk : U -> list line;
  sn_write x w : exists u', write_line x w = put_user u' w
    /\ sunk u' = sunk (w_user w) ++ [x]
    /\ lget (S := slog) u' = lget (w_user w) /\ lget (S := Lifecycle) u' = lget (w_user w);
  sn_apart : Apart slog Lifecycle;
  sn_kept (s : slog) u : sunk (lput s u) = sunk u;
}.

(** ** The drain of a lifecycle *)

(** A true answer at a time: nil when nothing is in flight and nothing new will be,
    the end of the context when it came first, the bus being interrupted. *)
Definition settled (di : done_info) (err : goerr) (t : Z) (l : Lifecycle) : Prop :=
  l_closed l = true /\
  match err with
  | None => l_done l = true /\ l_inflight l = 0
  | Some e => e = Sentinel (done_err di) /\ l_forced l = true /\ done_at di <= t
  end.
Definition answered (di : done_info) (r : option goerr) (t : Z) (l : Lifecycle) : Prop :=
  exists err, r = Some err /\ settled di err t l.

(** The same before the wait for the lifecycle: nil says nothing yet. *)
Definition drained_or (di : done_info) (err : goerr) (t : Z) (l : Lifecycle) : Prop :=
  match err with None => l_closed l = true | Some _ => settled di err t l end.

Lemma Wait_check_spec next l :
  match Wait_check next l with
  | (l', None) => l_done l' = true /\ l_inflight l' = 0 /\ l_closed l' = l_closed l
  | (l', Some ch) => l_idle l' = Some ch /\ l_idle_closed l' = false /\ l_closed l' = l_closed l
  end.
Proof.
  unfold Wait_check. destruct (Z.eqb_spec (l_inflight l) 0); [done|].
  by destruct (l_idle l) eqn:Hi, (l_idle_closed l) eqn:Hc.
Qed.

Section wait.
Context {U : Type} `{SL : SchedulerLaws U} (c : Ctx) (di : done_info) (Hc : cx_done c = Some di).
Implicit Types (w : World U) (fuel : nat).

Definition enough fuel w : Prop := (Z.to_nat (done_at di - w_now w) < fuel)%nat.

Lemma enough_later fuel w w' : enough fuel w -> w_now w <= w_now w' -> enough fuel w'.
Proof. unfold enough. lia. Qed.

(** The end of the context, with the bus interrupted before it is reported. *)
Lemma ends_expired w :
  done_at di <= w_now w -> l_closed (life w) = true -> l_forced (life w) = true ->
  ends (done_at di) (Err c) (settled di) w.
Proof using Hc.
  intros Ht Hcl Hf. exists (ctx_err (w_now w) c), w. split; [done|]. split; [done|].
  unfold ctx_err. rewrite Hc, (proj2 (Z.leb_le _ _) Ht). by split.
Qed.

Lemma ends_interrupted w (k : M U goerr) :
  done_at di <= w_now w ->
  (forall w', w_now w' = w_now w -> l_closed (life w') = true -> l_forced (life w') = true ->
     ends (done_at di) k (settled di) w') ->
  ends (done_at di) (_ ← interrupt_life; k) (settled di) w.
Proof.
  intros Ht Hk. apply ends_atomically; [done|]. intros w' Hn Hl. apply Hk; [done|by rewrite Hl..].
Qed.

Lemma ends_wait fuel w : enough fuel w -> l_closed (life w) = true ->
  ends (done_at di) (wait_life fuel c) (answered di) w.
Proof using Hc SL.
  revert w. induction fuel as [|fuel IH]; intros w Hf Hcl; [unfold enough in Hf; lia|]. cbn [wait_life].
  apply ends_tame; [apply sl_make|]. intros next w1 Hn1 Hl1.
  pose proof (Wait_check_spec next (life w1)) as Hspec.
  apply ends_atomically; destruct (Wait_check next (life w1)) as [l' [ch|]]; cbn [fst snd].
  1, 2: intros _; destruct Hspec as (_ & _ & ->); congruence.
  - intros w2 Hn2 Hl2. destruct Hspec as (Hi & Hic & Hcl2). rewrite <- Hl2 in Hi, Hic, Hcl2.
    destruct (sl_select c di [ch] w2 Hc) as (r & w3 & Hr & [T1 T2 T3] & HQ).
    assert (Hcl3 : l_closed (life w3) = true) by (apply T3; congruence).
    apply (ends_bind _ _ _ (fun r' t l => r' = r /\ t = w_now w3 /\ l = life w3 )).
    { exists r, w3. split; [exact Hr|]. by split. }
    intros r' w4 _ (-> & Hn4 & Hl4). destruct r as [r|].
    + pose proof (sl_idle c ch w2 r w3 Hi Hic Hr) as Hlt. apply IH; [unfold enough in *; lia|congruence].
    + apply ends_atomically; [done|]. intros w5 Hn5 Hl5.
      eapply ends_bind; [apply ends_expired; [specialize (HQ eq_refl); lia|by rewrite Hl5..]|].
      intros err w6 _ Hs. apply ends_ret. by exists err.
  - intros w2 Hn2 Hl2. apply ends_ret. exists None. split; [done|]. rewrite Hl2.
    destruct Hspec as (? & ? & ?). split; [congruence|done].
Qed.

Lemma ends_shutdown_life fuel w : enough fuel w ->
  ends (done_at di) (shutdown_life fuel c) (answered di) w.
Proof using Hc SL.
  intros Hf. apply ends_atomically; [done|]. intros w1 Hn Hl. apply ends_wait; [unfold enough in *; lia|].
  by rewrite Hl.
Qed.
End wait.

(** ** The drain of a transport *)

(** The client and the observers leave the clock and the bus alone. *)
Class DrainLaws (U : Type) `{DrainClient U} `{Lens Lifecycle U} `{Lens Subs U} `{Lens Drainage U} : Prop := {
  dl_drain i : tame (sub_drain i);
  dl_done i : tame (sub_done i);
  dl_stop i : tame (sub_stop i);
  dl_conn : tame conn_close;
  dl_subs : Apart Subs Lifecycle;
  dl_drainage : Apart Drainage Lifecycle;
}.
#[export] Existing Instances dl_subs dl_drainage.

Section transports.
Context {U : Type} `{SL : SchedulerLaws U} `{Lens Subs U} `{Lens Drainage U} `{DrainClient U}.
Context {DL : DrainLaws U} (life_done : nat).
Context (c : Ctx) (di : done_info) (Hc : cx_done c = Some di).
Implicit Types (w : World U) (fuel : nat).

(** The forced path of a transport: the bus is interrupted, in no time. *)
Definition forces (force : M U unit) : Prop := forall (k : M U goerr) w,
  done_at di <= w_now w -> l_closed (life w) = true ->
  (forall w', w_now w' = w_now w -> l_closed (life w') = true -> l_forced (life w') = true ->
     ends (done_at di) k (settled di) w') ->
  ends (done_at di) (_ ← force; k) (settled di) w.

Lemma tame_once : tame (U := U) once.
Proof using DL. apply tame_atomically. Qed.
Lemma tame_stop_all subs : tame (stop_all subs).
Proof using DL. induction subs; [apply tame_ret|]. apply tame_bind; [apply dl_stop|done]. Qed.
Lemma tame_drain_all subs : tame (drain_all subs).
Proof using DL. induction subs; [apply tame_ret|]. apply tame_bind; [apply dl_drain|done]. Qed.
Lemma tame_close_conn : tame (U := U) close_conn.
Proof using DL. apply tame_bind; [apply tame_once|]. intros []; [apply dl_conn|apply tame_ret]. Qed.

Lemma forces_jet : forces force_jet.
Proof using DL.
  intros k w Ht Hcl Hk. unfold force_jet. apply ends_assoc.
  apply ends_tame; [apply tame_once|]. intros first w1 Hn1 Hl1. apply ends_assoc.
  apply ends_tame; [|intros [] w2 Hn2 Hl2].
  { apply tame_if; [|apply tame_ret]. apply tame_bind; [apply tame_atomically|]. apply tame_stop_all. }
  apply ends_interrupted; [lia|]. intros w3 Hn3 Hc3 Hf3. apply Hk; [lia|done..].
Qed.

Lemma forces_core : forces force_core.
Proof using DL.
  intros k w Ht Hcl Hk. unfold force_core. apply ends_assoc.
  apply ends_interrupted; [done|]. intros w1 Hn1 Hc1 Hf1.
  apply ends_tame; [apply tame_close_conn|]. intros [] w2 Hn2 Hl2.
  apply Hk; [lia|by rewrite Hl2..].
Qed.

Lemma ends_forced force w : forces force -> done_at di <= w_now w -> l_closed (life w) = true ->
  ends (done_at di) (_ ← force; Err c) (settled di) w.
Proof using Hc.
  intros Hf Ht Hcl. apply Hf; [done|done|]. intros w' Hn Hc' Hf'. apply ends_expired; [done|lia|done|done].
Qed.

(** A select, and what is known when it was the context that ended it. *)
Lemma ends_select {B} chs (k : option nat -> M U B) R w :
  l_closed (life w) = true ->
  (forall r w', w_now w <= w_now w' -> l_closed (life w') = true -> (r = None -> done_at di <= w_now w') ->
     ends (done_at di) (k r) R w') ->
  ends (done_at di) (r ← select_chans c chs; k r) R w.
Proof using Hc SL.
  intros Hcl Hk. eapply ends_bind; [apply (sl_select c di chs w Hc)|].
  intros r w' [T1 _ T3] HQ. apply Hk; [done|by apply T3|exact HQ].
Qed.

Lemma settled_drained w (m : M U goerr) :
  ends (done_at di) m (settled di) w -> ends (done_at di) m (drained_or di) w.
Proof.
  intros (err & w1 & Hm & Ht & HQ). exists err, w1. split; [done|]. split; [done|].
  unfold drained_or. destruct err; [done|by destruct HQ].
Qed.

Lemma ends_await force subs w : forces force -> l_closed (life w) = true ->
  ends (done_at di) (await_closed life_done force c subs) (drained_or di) w.
Proof using Hc SL DL.
  intros Hf. revert w. induction subs as [|cc subs IH]; intros w Hcl; cbn [await_closed].
  { by apply ends_ret. }
  apply ends_tame; [apply dl_done|]. intros ch w1 Hn1 Hl1.
  apply ends_select; [by rewrite Hl1|]. intros r w2 Hn2 Hc2 Hr2.
  destruct r as [[|i]|]; [by apply IH|by apply ends_ret|].
  apply settled_drained, ends_forced; [done|by apply Hr2|done].
Qed.

(** The end of the owner's drain, and the wait of every caller. *)
Lemma ends_owner fuel w (m : M U goerr) (wait : M U (option goerr)) :
  ends (done_at di) m (drained_or di) w -> enough di fuel w ->
  (forall w', enough di fuel w' -> l_closed (life w') = true -> ends (done_at di) wait (answered di) w') ->
  ends (done_at di)
    (err ← m; match err with Some _ => mret (Some err) | None => wait end) (answered di) w.
Proof.
  intros Hm Hf Hw. eapply ends_bind; [exact Hm|]. intros err w1 [T1 _ _] HQ. destruct err as [e|].
  - apply ends_ret. by exists (Some e).
  - apply Hw; [by eapply enough_later|exact HQ].
Qed.

(** A later caller. *)
Lemma ends_joined fuel w force ch (wait : M U (option goerr)) :
  forces force -> enough di fuel w -> l_closed (life w) = true ->
  (forall w', enough di fuel w' -> l_closed (life w') = true -> ends (done_at di) wait (answered di) w') ->
  ends (done_at di)
    (r ← select_chans c [ch];
     match r with Some _ => wait | None => _ ← force; err ← Err c; mret (Some err) end)
    (answered di) w.
Proof using Hc SL.
  intros Hfo Hf Hcl Hw. apply ends_select; [done|]. intros r w1 Hn1 Hc1 Hr1. destruct r as [r|].
  - apply Hw; [by eapply enough_later|done].
  - assert (Hk : ends (done_at di) (err ← (_ ← force; Err c); mret (Some err)) (answered di) w1).
    { eapply ends_bind; [apply ends_forced; [done|by apply Hr1|done]|].
      intros err w2 _ HQ. apply ends_ret. by exists err. }
    destruct Hk as (r & w2 & Hr & HQ). rewrite bind_assoc in Hr. by exists r, w2.
Qed.

Lemma ends_jet fuel w : enough di fuel w ->
  ends (done_at di) (jet_shutdown life_done fuel c) (answered di) w.
Proof using Hc SL DL.
  intros Hf. apply ends_atomically; [done|]. intros w1 Hn1 Hl1.
  assert (Hc1 : l_closed (life w1) = true) by (by rewrite Hl1).
  apply ends_tame; [apply tame_atomically|]. intros d w2 Hn2 Hl2.
  assert (Hf2 : enough di fuel w2) by (unfold enough in *; lia). destruct d as [ch|].
  - apply (ends_joined fuel); [apply forces_jet|done|by rewrite Hl2|]. intros w' He Hw'. by apply ends_wait.
  - apply ends_tame; [apply sl_make|]. intros ch w3 Hn3 Hl3.
    apply ends_tame; [apply tame_atomically|]. intros consumers w4 Hn4 Hl4.
    apply ends_tame; [apply tame_atomically|]. intros [] w5 Hn5 Hl5.
    apply (ends_owner fuel); [|unfold enough in *; lia|intros w' He Hw'; by apply ends_wait].
    apply ends_deferring; [|intros; apply sl_close].
    apply ends_tame; [apply tame_drain_all|]. intros [] w6 Hn6 Hl6.
    apply ends_await; [apply forces_jet|congruence].
Qed.

Context `{Env U} (b : NatsCore.Bus U).
Context (Hobs : forall c op handler subject err, tame (NatsCore.internalError b c op handler subject err)).

Lemma tame_drain_tracked subs : tame (drain_tracked b c subs).
Proof using Hobs DL.
  induction subs as [|ts subs IH]; [apply tame_ret|]. apply tame_bind; [apply dl_drain|].
  intros [e|]; (apply tame_bind; [done|]); [done|]. intros. apply tame_ret.
Qed.

Lemma ends_core_wait fuel w : enough di fuel w -> l_closed (life w) = true ->
  ends (done_at di) (core_wait fuel c) (answered di) w.
Proof using Hc SL DL.
  intros Hf Hcl. eapply ends_bind; [by apply ends_wait|]. intros r w1 _ (err & -> & HQ).
  apply ends_tame; [apply tame_close_conn|]. intros [] w2 Hn Hl. apply ends_ret.
  exists err. by rewrite Hn, Hl.
Qed.

Lemma ends_core fuel w : enough di fuel w ->
  ends (done_at di) (core_shutdown life_done b fuel c) (answered di) w.
Proof using Hc SL DL Hobs.
  intros Hf. apply ends_atomically; [done|]. intros w1 Hn1 Hl1.
  assert (Hc1 : l_closed (life w1) = true) by (by rewrite Hl1).
  apply ends_tame; [apply tame_atomically|]. intros d w2 Hn2 Hl2.
  assert (Hf2 : enough di fuel w2) by (unfold enough in *; lia). destruct d as [ch|].
  - apply ends_tame; [apply sl_poll|]. intros closed w3 Hn3 Hl3.
    assert (Hf3 : enough di fuel w3) by (unfold enough in *; lia).
    destruct closed; [apply ends_core_wait; [done|congruence]|].
    apply (ends_joined fuel); [apply forces_core|done|congruence|]. intros w' He Hw'. by apply ends_core_wait.
  - apply ends_tame; [apply sl_make|]. intros ch w3 Hn3 Hl3.
    apply ends_tame; [apply tame_atomically|]. intros subs w4 Hn4 Hl4.
    apply ends_tame; [apply tame_atomically|]. intros [] w5 Hn5 Hl5.
    apply (ends_owner fuel); [|unfold enough in *; lia|intros w' He Hw'; by apply ends_core_wait].
    apply ends_deferring; [|intros; apply sl_close].
    apply ends_tame; [apply tame_drain_tracked|]. intros waiting w6 Hn6 Hl6.
    apply ends_await; [apply forces_core|congruence].
Qed.
End transports.

(** ** Shutdown and Close *)

(** What a bus promises to [Close]: its drain answers truly by the end of a context. *)
Class ShutdownLaws (U : Type) `{Shutdowner U} `{Lens Lifecycle U} : Prop :=
  sd_ends fuel c di (w : World U) : cx_done c = Some di -> enough di fuel w ->
    ends (done_at di) (own_shutdown fuel c) (answered di) w.

Section buses.
Context {U : Type} `{SL : SchedulerLaws U} `{DrainClient U} `{Lens Subs U} `{Lens Drainage U} `{Env U}.
Context {DL : DrainLaws U}.

Lemma local_closes (b : LocalBus U) : @ShutdownLaws U (local_shutdowner b) _.
Proof using SL. intros fuel c di w Hc Hf. by apply ends_shutdown_life. Qed.

Lemma jet_closes life_done (b : Jetstream.Bus U) : @ShutdownLaws U (jet_shutdowner life_done b) _.
Proof using SL DL. intros fuel c di w Hc Hf. by apply ends_jet. Qed.

Lemma core_closes life_done (b : NatsCore.Bus U) :
  (forall c op handler subject err, tame (NatsCore.internalError b c op handler subject err)) ->
  @ShutdownLaws U (core_shutdowner life_done b) _.
Proof using SL DL. intros Hobs fuel c di w Hc Hf. by apply ends_core. Qed.

(** One of the three buses, and what it brings to [Close]. *)
Inductive any_bus :=
| TheLocalBus (b : LocalBus U)
| TheJetBus (life_done : nat) (b : Jetstream.Bus U)
| TheCoreBus (life_done : nat) (b : NatsCore.Bus U).

Definition shutdowner_of (bus : any_bus) : Shutdowner U :=
  match bus with
  | TheLocalBus b => local_shutdowner b
  | TheJetBus life_done b => jet_shutdowner life_done b
  | TheCoreBus life_done b => core_shutdowner life_done b
  end.

(** The observers of a NATS core bus, which its drain reports to, return, and leave
    the clock and the lifecycle alone. *)
Definition calm_reports (bus : any_bus) : Prop :=
  match bus with
  | TheCoreBus _ b =>
      forall c op handler subject err, tame (NatsCore.internalError b c op handler subject err)
  | _ => True
  end.

Lemma bus_closes (bus : any_bus) : calm_reports bus -> @ShutdownLaws U (shutdowner_of bus) _.
Proof using SL DL.
  destruct bus as [b|life_done b|life_done b]; intros Hcalm;
    [apply local_closes|apply jet_closes|by apply core_closes].
Qed.
End buses.
Arguments any_bus U : clear implicits.

Section flush.
Context {U : Type} `{SN : SinkLaws U}.
Implicit Types (w : World U).

(** The log observer of a world, and its sink. *)
Definition log_of w : slog := lget (w_user w).

Lemma write_lines_run ls w : exists w', write_lines ls w = (Ret tt, w')
  /\ w_now w' = w_now w /\ life w' = life w /\ log_of w' = log_of w
  /\ sunk (w_user w') = sunk (w_user w) ++ ls.
Proof using SN.
  revert w. induction ls as [|x ls IH]; intros w; cbn [write_lines].
  { exists w. by rewrite app_nil_r. }
  destruct (sn_write x w) as (u & Hx & Hs & Hg & Hl).
  destruct (IH (put_user u w).2) as (w' & Hr & Hn & Hl' & Hg' & Hs').
  exists w'. split; [by rewrite (bind_run _ _ _ _ _ Hx)|]. split; [exact Hn|].
  split; [rewrite Hl'; exact Hl|]. split; [rewrite Hg'; exact Hg|].
  rewrite Hs'. cbn. by rewrite Hs, <- app_assoc.
Qed.

Lemma Flush_run w : exists w', Flush w = (Ret tt, w')
  /\ w_now w' = w_now w /\ life w' = life w /\ sl_entries (log_of w') = ∅
  /\ sunk (w_user w') = sunk (w_user w) ++ map (fun kv => summary kv.1 kv.2) (pending (log_of w)).
Proof using SN.
  unfold Flush, flush. erewrite bind_run by reflexivity. cbn [fst snd].
  match goal with |- context [write_lines ?ls ?w0] =>
    destruct (write_lines_run ls w0) as (w' & Hr & Hn & Hl & Hg & Hs) end.
  exists w'. split; [exact Hr|]. split; [exact Hn|].
  split; [rewrite Hl; unfold life; cbn; apply (apart (Apart := sn_apart))|].
  split; [rewrite Hg; unfold log_of; cbn; by rewrite lget_lput|]. rewrite Hs. cbn. by rewrite sn_kept.
Qed.
End flush.

(** What [Shutdown] has done when it returns: the answer is true, and a log observer
    of the bus itself has no repetition left to report. *)
Definition shut_down {U} `{SinkLaws U} `{Shutdowner U} fuel c (di : done_info) (w : World U) (err : goerr)
    (w' : World U) : Prop :=
  w_now w <= w_now w' <= Z.max (w_now w) (done_at di)
  /\ settled di err (w_now w') (life w')
  /\ exists w1, own_shutdown fuel c w = (Ret (Some err), w1)
     /\ if own_default_log
        then sl_entries (log_of w') = ∅
             /\ sunk (w_user w') = sunk (w_user w1)
                  ++ map (fun kv => summary kv.1 kv.2) (pending (log_of w1))
        else w' = w1.

Lemma Shutdown_run {U} `{SN : SinkLaws U} `{Shutdowner U} {SD : ShutdownLaws U} fuel c di (w : World U) :
  cx_done c = Some di -> enough di fuel w ->
  exists err w', Shutdown fuel c w = (Ret (Some err), w') /\ shut_down fuel c di w err w'.
Proof.
  intros Hc Hf. destruct (sd_ends fuel c di w Hc Hf) as (r & w1 & Hr & [T1 T2 T3] & (err & -> & HQ)).
  unfold Shutdown. rewrite (bind_run _ _ _ _ _ Hr). unfold shut_down. exists err.
  destruct own_default_log.
  - destruct (Flush_run w1) as (w' & Hfl & Hn & Hl & Hg & Hs). exists w'.
    rewrite (bind_run _ _ _ _ _ Hfl). split; [done|]. rewrite Hn, Hl.
    split; [done|]. split; [done|]. by exists w1.
  - exists w1. split; [done|]. split; [done|]. split; [done|]. by exists w1.
Qed.

(** * Properties *)

(** C11: Close is bounded. [Close] of the in-process bus, of the JetStream bus and of
    the NATS core bus returns within the bus' timeout, whatever the goroutines in
    flight do; nil means that nothing is in flight and nothing new will be;
    DeadlineExceeded means that the timeout passed and the handlers were
    interrupted; the bus is closed either way. The log observer a bus made itself is
    flushed on both paths, after the drain: every repetition it held back is
    written as a summary. The language's selects return when their context ends, the
    client's calls return in no time, and so do the observers a core bus reports
    failed drains to. *)
Theorem Close_contract {U} `{SL : SchedulerLaws U} `{DrainClient U} `{Lens Subs U} `{Lens Drainage U}
    `{Env U} {DL : DrainLaws U} `{LogSink U} `{Lens slog U} {SN : SinkLaws U}
    (bus : any_bus U) (fuel : nat) (w : World U) :
  let SD := shutdowner_of bus in
  calm_reports bus -> (Z.to_nat own_timeout < fuel)%nat ->
  exists err w', Close fuel w = (Ret (Some err), w')
    /\ w_now w <= w_now w' <= w_now w + Z.max 0 own_timeout
    /\ l_closed (life w') = true
    /\ (err = None /\ l_done (life w') = true /\ l_inflight (life w') = 0
        \/ err = Some (Sentinel DeadlineExceeded) /\ l_forced (life w') = true
           /\ w_now w + own_timeout <= w_now w')
    /\ exists w1,
         own_shutdown fuel
           (WithTimeoutCause (w_now w) own_timeout (Sentinel DeadlineExceeded) background) w
         = (Ret (Some err), w1)
       /\ if own_default_log
          then sl_entries (log_of w') = ∅
               /\ sunk (w_user w') = sunk (w_user w1)
                    ++ map (fun kv => summary kv.1 kv.2) (pending (log_of w1))
          else w' = w1.
Proof.
  intros SD Hcalm Hf. pose proof (bus_closes bus Hcalm) as Hends.
  unfold Close. erewrite bind_run by reflexivity.
  set (di := mkDone (w_now w + own_timeout) DeadlineExceeded (Sentinel DeadlineExceeded)).
  set (c := WithTimeoutCause _ _ _ _). assert (Hc : cx_done c = Some di) by done.
  assert (He : enough di fuel w) by (unfold enough; cbn [done_at di]; lia).
  destruct (Shutdown_run fuel c di w Hc He) as (err & w' & Hr & [T1 T2] & [Hcl Hs] & w1 & Hown & Hlog).
  exists err, w'. split; [exact Hr|]. cbn [done_at di] in T2. split; [lia|]. split; [exact Hcl|].
  split; [|by exists w1]. destruct err as [e|]; [right|by left].
  destruct Hs as (-> & ? & Ht). split; [done|]. split; [done|exact Ht].
Qed.

(** ** A concrete bus

    Every three nanoseconds one handler in flight is done. *)

Record cl_state := mkClState {
  cl_life : Lifecycle;
  cl_slog : slog;
  cl_drainage : Drainage;
  cl_subs : Subs;
  cl_sink : list line;
}.

#[local] Program Instance cl_lens_life : Lens Lifecycle cl_state := {|
  lget u := cl_life u;
  lput l u := mkClState l (cl_slog u) (cl_drainage u) (cl_subs u) (cl_sink u);
|}.
Solve All Obligations with (by intros; repeat match goal with u : cl_state |- _ => destruct u end).
#[local] Program Instance cl_lens_slog : Lens slog cl_state := {|
  lget u := cl_slog u;
  lput s u := mkClState (cl_life u) s (cl_drainage u) (cl_subs u) (cl_sink u);
|}.
Solve All Obligations with (by intros; repeat match goal with u : cl_state |- _ => destruct u end).
#[local] Program Instance cl_lens_drainage : Lens Drainage cl_state := {|
  lget u := cl_drainage u;
  lput d u := mkClState (cl_life u) (cl_slog u) d (cl_subs u) (cl_sink u);
|}.
Solve All Obligations with (by intros; repeat match goal with u : cl_state |- _ => destruct u end).
#[local] Program Instance cl_lens_subs : Lens Subs cl_state := {|
  lget u := cl_subs u;
  lput l u := mkClState (cl_life u) (cl_slog u) (cl_drainage u) l (cl_sink u);
|}.
Solve All Obligations with (by intros; repeat match goal with u : cl_state |- _ => destruct u end).

#[local] Instance cl_scheduler : Scheduler cl_state := {|
  make_chan := mret 7%nat;
  close_chan _ := mret tt;
  poll _ := mret false;
  select_chans c _ :=
    later ← select_timer c 3;
    if later : bool then _ ← release_life; mret (Some 0%nat) else mret None;
|}.
#[local] Instance cl_sink_class : LogSink cl_state := {|
  write_line x := u ← get_user;
    put_user (mkClState (cl_life u) (cl_slog u) (cl_drainage u) (cl_subs u) (cl_sink u ++ [x]));
|}.
#[local] Instance cl_client : DrainClient cl_state := {|
  sub_subject _ := "orders";
  sub_drain _ := mret None;
  sub_done i := mret i;
  sub_stop _ := mret tt;
  conn_close := mret tt;
|}.
#[local] Instance cl_env : Env cl_state := silent_env cl_state.

Lemma releaser_closed l : l_closed (releaser l).1 = l_closed l.
Proof. unfold releaser. by repeat case_match. Qed.

#[local] Instance cl_sched_laws : SchedulerLaws cl_state.
Proof.
  split; [intros; apply tame_ret..| |].
  - intros c di chs w Hc. unfold ends, select_chans, cl_scheduler, select_timer, mbind, M_bind, now.
    rewrite Hc. destruct (Z.leb_spec (done_at di) (w_now w + Z.max 0 3)) as [Hle|Hgt];
      do 2 eexists; (split; [reflexivity|]).
    + cbn. split; [split; cbn; [lia..|done]|lia].
    + cbn. split; [split; cbn; [lia..|]|done]. intros Hcl. unfold life. cbn. by rewrite releaser_closed.
  - intros c ch w r w' _ _ Hr. unfold select_chans, cl_scheduler in Hr.
    apply bind_ret_inv in Hr as (later & w1 & Hs & Hr). destruct later; [|by apply mret_inv in Hr as [? _]].
    assert (Hlt : w_now w < w_now w1).
    { unfold select_timer in Hs. apply bind_ret_inv in Hs as (t & w0 & [= <- <-] & Hs).
      destruct (cx_done c) as [di|]; [destruct (_ <=? _)|];
        apply bind_ret_inv in Hs as ([] & w2 & [= <-] & Hs); apply mret_inv in Hs as [? ->];
        simpl; try done; lia. }
    apply bind_ret_inv in Hr as ([] & w2 & [= <-] & Hr). apply mret_inv in Hr as [_ ->]. exact Hlt.
Qed.

#[local] Program Instance cl_sink_laws : SinkLaws cl_state := {| sunk u := cl_sink u |}.
Next Obligation. intros x w. eexists. by split. Qed.
Next Obligation. by intros s u. Qed.
Next Obligation. done. Qed.

#[local] Instance cl_drain_laws : DrainLaws cl_state.
Proof. split; intros; try apply tame_ret; by intros s u. Qed.

Definition cl_bus : NatsCore.Bus cl_state :=
  NatsCore.mkBus (mkRegistry None (fun _ _ => mret ("{}", None))) (fun c _ => mret (Some c, None, None))
    0 None None [] None true None false 20 0 None.
#[local] Instance cl_shutdowner : Shutdowner cl_state := shutdowner_of (TheCoreBus 9 cl_bus).

Lemma cl_calm : calm_reports (TheCoreBus 9 cl_bus).
Proof. intros c op handler subject err w. by do 2 eexists. Qed.

(** Two repetitions held back, [n] handlers in flight, two subscriptions. *)
Definition cl_key : soKey := mkSoKey "failure" "h" "" "".
Definition cl_world (n : Z) : World cl_state :=
  mkWorld 100 [] ∅ 0 ∅ ∅
    (mkClState (mkLifecycle false false false n None false false)
       (mkSlog {[cl_key := mkSoEntry 0 90 2 LevelError]} 1) (mkDrainage None [] false) [1%nat; 2%nat] []).

(** Three handlers end in time, ten do not; the summary is written either way. *)
Example cl_runs :
  (Close 30 (cl_world 3)).1 = Ret (Some None)
  /\ cl_sink (w_user (Close 30 (cl_world 3)).2) = [Summary cl_key LevelError 2]
  /\ (Close 30 (cl_world 10)).1 = Ret (Some (Some (Sentinel DeadlineExceeded)))
  /\ cl_sink (w_user (Close 30 (cl_world 10)).2) = [Summary cl_key LevelError 2].
Proof. vm_compute. repeat split; reflexivity. Qed.

Lemma Close_contract_witness :
  exists w', Close 30 (cl_world 10) = (Ret (Some (Some (Sentinel DeadlineExceeded))), w')
    /\ w_now w' = 120 /\ sl_entries (log_of w') = ∅.
Proof.
  assert (Hf : (Z.to_nat own_timeout < 30)%nat) by (apply Nat.ltb_lt; vm_compute; reflexivity).
  destruct (Close_contract (TheCoreBus 9 cl_bus) 30 (cl_world 10) cl_calm Hf)
    as (err & w' & Hr & Ht & _ & Hs & w1 & _ & Hlog).
  assert (He : (Close 30 (cl_world 10)).1 = Ret (Some (Some (Sentinel DeadlineExceeded))))
    by (vm_compute; reflexivity).
  change (Close 30 (cl_world 10) = (Ret (Some err), w')) in Hr.
  rewrite Hr in He. injection He as ->. exists w'. split; [exact Hr|].
  destruct Hs as [[? _]|(_ & _ & Hge)]; [discriminate|].
  split; [cbn in *; lia|]. by destruct Hlog.
Defined.
