(* ===== verification/JsonRegistry.v ===== *)
(** * The envelope registry

    src/json/registry.go and the wire types of src/registry.go: the registration
    of factories and upcasters, the encoding of an event into an envelope and the
    decoding of untrusted bytes through the chain of upcasters to the latest
    version.

    encoding/json, the OpenTelemetry packages and the user's upcasters and
    factories are the interface [Wire]; a context is a pair of the program's
    [Ctx] and the values [T] the tracing packages keep in it. The registry's maps
    live at a [Lens] of the user state and are read in critical sections, so an
    upcaster may register more versions while a decode runs. *)

From S2P Require Import Prelude GoErrors Types Runtime Emit.
Local Open Scope string_scope.
Local Open Scope list_scope.
Local Open Scope Z_scope.

(** ** src/registry.go *)

Record Envelope := mkEnvelope {
  en_name : string;
  en_version : Z;
  en_timestamp : Z;
  en_id : string;
  en_correlation_id : string;
  en_causation_id : string;
  en_headers : headers;
  en_trace_id : string;
  en_span_id : string;
  en_payload : string;
}.

(** [Upcaster]: the results of its first three methods, and the behaviour of
    [Upcast]. *)
Record Upcaster := mkUpcaster {
  up_event : string;
  up_from : Z;
  up_to : Z;
  up_code : nat;
}.

(** [Factory]: the behaviour of a function that may be nil. *)
Definition Factory : Type := option nat.

(** ** What the registry calls *)

Class Wire (U T : Type) := {
  (** [json.Unmarshal] into a zero [Envelope]: what it filled in, and the error. *)
  unmarshal_envelope : string -> Envelope * goerr;
  marshal_envelope : Envelope -> string * goerr;
  marshal_event : Event -> M U (string * goerr);
  (** [json.Unmarshal] into the event a factory made. *)
  unmarshal_event : string -> Event -> M U (Event * goerr);
  (** [trace.SpanContextFromContext]: [IsValid], [IsRemote] and the hex ids. *)
  span_valid : T -> bool;
  span_remote : T -> bool;
  span_ids : T -> string * string;
  TraceIDFromHex : string -> option string;
  SpanIDFromHex : string -> option string;
  (** [trace.ContextWithSpanContext] of a sampled and remote span context. *)
  with_remote_span : T -> string -> string -> T;
  (** User code. *)
  call_upcast : nat -> Ctx * T -> string -> M U (string * goerr);
  call_factory : nat -> M U (option Event);
}.

(** [propagation.TextMapPropagator]. *)
Record Propagator (T : Type) := mkPropagator {
  Fields : list string;
  Inject : T -> gmap string string -> gmap string string;
  Extract : T -> gmap string string -> T;
}.
Arguments mkPropagator {T}.
Arguments Fields {T}.
Arguments Inject {T}.
Arguments Extract {T}.

(** ** The registry *)

(** The maps under the registry's mutex. *)
Record RegistryMaps := mkMaps {
  factories : gmap (string * Z) Factory;
  upcasters : gmap (string * Z) Upcaster;
  latest : gmap string Z;
}.

(** The fields that do not change after [NewRegistry]. *)
Record JsonRegistry (U T : Type) := mkJsonRegistry {
  jr_idgen : option (M U string);
  jr_prop : Propagator T;
}.
Arguments mkJsonRegistry {U T}.
Arguments jr_idgen {U T}.
Arguments jr_prop {U T}.

Section options.
Context {U T : Type}.

Definition Option : Type := JsonRegistry U T -> JsonRegistry U T.

Definition WithIDGenerator (gen : option (M U string)) : Option := fun r =>
  match gen with Some g => mkJsonRegistry (Some g) (jr_prop r) | None => r end.
Definition WithPropagator (p : option (Propagator T)) : Option := fun r =>
  match p with Some p => mkJsonRegistry (jr_idgen r) p | None => r end.

(** [NewRegistry]; [w3c] is the composite of the trace context and baggage
    propagators. *)
Definition NewRegistry (w3c : Propagator T) (opts : list (option Option))
    : JsonRegistry U T * RegistryMaps :=
  (fold_left (fun r opt => match opt with Some f => f r | None => r end) opts
     (mkJsonRegistry None w3c),
   mkMaps ∅ ∅ ∅).
End options.

(** The body of [Register], under the mutex. *)
Definition register_maps (name : string) (factory : Factory) (version : Z) (s : RegistryMaps)
    : RegistryMaps :=
  mkMaps (<[(name, version) := factory]> (factories s)) (upcasters s)
    (if default 0 (latest s !! name) <? version then <[name := version]> (latest s) else latest s).

(** [Registry.Register]. *)
Definition Register {U} `{Lens RegistryMaps U} (name : string) (factory : Factory) (version : Z)
    : M U unit :=
  let version := if version <=? 0 then 1 else version in
  atomically (fun s => (tt, register_maps name factory version s)).

(** [Registry.RegisterUpcaster]. *)
Definition RegisterUpcaster {U} `{Lens RegistryMaps U} (u : Upcaster) : M U unit :=
  let store from := atomically (fun s =>
    (tt, mkMaps (factories s) (<[(up_event u, from) := u]> (upcasters s)) (latest s))) in
  if up_from u <=? 0 then (if up_to u <=? 1 then mret tt else store 1) else store (up_from u).

Section registry.
Context {U T : Type} `{Lens RegistryMaps U} `{Wire U T}.
Implicit Types (r : JsonRegistry U T) (c : Ctx * T).

(** ** Encoding *)

(** The headers of the envelope: the propagator owns its fields. *)
Definition envelope_headers (p : Propagator T) (t : T) (h : headers) : gmap string string :=
  Inject p t (fold_left (fun m k => delete k m) (Fields p) (default ∅ h)).

(** The envelope [EncodeWith] marshals. *)
Definition make_envelope r c (name : string) (evt : Event) (md : Metadata) (ts : Z)
    (payload : string) : Envelope :=
  let h := envelope_headers (jr_prop r) c.2 (md_headers md) in
  let '(tid, sid) := if span_valid c.2 then span_ids c.2 else ("", "") in
  mkEnvelope name (default 1 (ev_version evt)) ts (md_id md) (md_correlation_id md)
    (md_causation_id md) (if decide (h = ∅) then None else Some h) tid sid payload.

(** [Registry.EncodeWith]; [newid] is [event.NewID]. *)
Definition EncodeWith (newid : M U string) r c (evt : Event) (md : Metadata)
    : M U (string * goerr) :=
  md ← (if String.eqb (md_id md) ""
        then ResolveOutbound newid c.1 evt
               (mkEmitOptions "" "" (md_correlation_id md) (jr_idgen r) (md_headers md) [])
        else mret md);
  '(payload, err) ← marshal_event evt;
  match err with
  | Some _ => mret ("", err)
  | None =>
      ts ← (if IsZero (md_timestamp md) then now else mret (md_timestamp md));
      name ← Name evt;
      mret (marshal_envelope (make_envelope r c name evt md ts payload))
  end.

(** [Registry.Encode]. *)
Definition Encode (newid : M U string) r c (evt : Event) : M U (string * goerr) :=
  md ← ResolveOutbound newid c.1 evt (mkEmitOptions "" "" "" (jr_idgen r) None []);
  EncodeWith newid r c evt md.

(** ** Decoding *)

(** [Registry.extractTrace], on the tracing values of the context. *)
Definition extractTrace r (t : T) (env : Envelope) : T :=
  let legacy base :=
    if String.eqb (en_trace_id env) "" then base
    else match TraceIDFromHex (en_trace_id env), SpanIDFromHex (en_span_id env) with
         | Some tid, Some sid => with_remote_span base tid sid
         | _, _ => base
         end in
  match en_headers env with
  | None => legacy t
  | Some h =>
      if decide (h = ∅) then legacy t
      else let out := Extract (jr_prop r) t h in
           if span_valid out && span_remote out then out else legacy out
  end.

(** A result of [Decode]: the context, the event and the error. *)
Definition decoded : Type := (Ctx * T) * option Event * goerr.

(** [return ctx, nil, &event.DecodeError{...}]. *)
Definition decode_failed c (name : string) (version : Z) (err : error) : decoded :=
  (c, None, Some (DecodeError name version (Some err))).

(** What the walk through the upcasters ends with: the payload at the latest
    version, or the version reached and the error. *)
Definition walk : Type := string + Z * error.

(** The reads of the maps. *)
Definition get_latest (name : string) : M U Z :=
  atomically (fun s => (default 0 (latest s !! name), s)).
Definition get_upcaster (name : string) (version : Z) : M U (option Upcaster) :=
  atomically (fun s => (upcasters s !! (name, version), s)).
Definition get_factory (name : string) (version : Z) : M U Factory :=
  atomically (fun s => (default None (factories s !! (name, version)), s)).

Definition missing_upcaster (version last : Z) : error :=
  Wrapped (sentinel_text ErrMissingUpcaster +:+ ": v" +:+ pretty version +:+ " to v" +:+ pretty last)
    [Sentinel ErrMissingUpcaster].

Definition no_advance (name : string) (version next last : Z) : error :=
  Wrapped ("upcaster for " +:+ name +:+ " v" +:+ pretty version
    +:+ " does not advance to a valid version (to v" +:+ pretty next +:+ ", latest v"
    +:+ pretty last +:+ ")") [].

(** The loop of [Decode]; [fuel] is at least [last - version], which every turn
    makes smaller. *)
Fixpoint upcast_loop (fuel : nat) (name : string) (last : Z) c (version : Z) (payload : string)
    : M U walk :=
  if version =? last then mret (inl payload)
  else match fuel with
       | O => panic (mkAny "out of fuel" None)
       | S fuel =>
           up ← get_upcaster name version;
           match up with
           | None => mret (inr (version, missing_upcaster version last))
           | Some u =>
               let next := up_to u in
               if (next <=? version) || (last <? next)
               then mret (inr (version, no_advance name version next last))
               else
                 '(payload, err) ← call_upcast (up_code u) c payload;
                 match err with
                 | Some e => mret (inr (version, e))
                 | None => upcast_loop fuel name last c next payload
                 end
           end
       end.

(** The end of [Decode]: the factory of the version reached and the payload. *)
Definition build_event c (name : string) (version : Z) (payload : string) : M U decoded :=
  factory ← get_factory name version;
  match factory with
  | None => mret (decode_failed c name version (Sentinel ErrUnknownEvent))
  | Some f =>
      evt ← call_factory f;
      match evt with
      | None => mret (decode_failed c name version (Sentinel ErrUnknownEvent))
      | Some evt =>
          '(evt, err) ← unmarshal_event payload evt;
          match err with
          | Some e => mret (decode_failed c name version (wrap2 (Sentinel ErrMalformedEnvelope) e))
          | None => mret (c, Some evt, None)
          end
      end
  end.

(** The version an envelope decodes as. *)
Definition wire_version (env : Envelope) : Z :=
  if en_version env =? 0 then 1 else en_version env.

(** The metadata a decoded envelope puts in the context. *)
Definition envelope_metadata (env : Envelope) : Metadata :=
  mkMetadata (en_id env) (en_correlation_id env) (en_causation_id env) (en_name env)
    (wire_version env) (en_timestamp env) (en_headers env).

(** [Registry.Decode]. *)
Definition Decode r c (data : string) : M U decoded :=
  let '(env, uerr) := unmarshal_envelope data in
  match uerr with
  | Some e =>
      mret (decode_failed c (en_name env) (en_version env) (wrap2 (Sentinel ErrMalformedEnvelope) e))
  | None =>
      if String.eqb (en_name env) "" || (en_version env <? 0)
      then mret (decode_failed c (en_name env) (en_version env)
             (Wrapped (sentinel_text ErrMalformedEnvelope +:+ ": missing name or negative version")
                [Sentinel ErrMalformedEnvelope]))
      else
        let version := wire_version env in
        let c := (WithMetadata c.1 (envelope_metadata env), extractTrace r c.2 env) in
        last ← get_latest (en_name env);
        if last =? 0
        then mret (decode_failed c (en_name env) version (Sentinel ErrUnknownEvent))
        else if last <? version
        then mret (decode_failed c (en_name env) version (Sentinel ErrUnknownVersion))
        else
          walked ← upcast_loop (Z.to_nat (last - version)) (en_name env) last c version
                     (en_payload env);
          match walked with
          | inr (v, e) => mret (decode_failed c (en_name env) v e)
          | inl payload => build_event c (en_name env) last payload
          end
  end.
End registry.
