(* ===== verification/JsonRegistrySpec.v ===== *)
(** * Properties of the envelope registry

    The maps stay well-formed; decoding untrusted bytes always ends, with an event
    or a classified error; the upcasters it runs are the chain the maps hold; an
    encoded event decodes back with its metadata. *)

From S2P Require Import Prelude GoErrors Types Runtime Emit JsonRegistry.
Local Open Scope string_scope.
Local Open Scope list_scope.
Local Open Scope Z_scope.

(** ** Well-formed maps *)

(** [latest] is the greatest version with a factory, and versions start at 1. *)
Definition maps_wf (s : RegistryMaps) : Prop :=
  (forall name v, is_Some (factories s !! (name, v)) ->
     1 <= v /\ exists l, latest s !! name = Some l /\ v <= l)
  /\ (forall name l, latest s !! name = Some l -> is_Some (factories s !! (name, l)))
  /\ (forall name v, is_Some (upcasters s !! (name, v)) -> 1 <= v).

Lemma register_maps_wf name f v s : 1 <= v -> maps_wf s -> maps_wf (register_maps name f v s).
Proof.
  intros Hv (Hf & Hl & Hu). split; [|split]; cbn [register_maps factories latest upcasters]; [| |done].
  - intros n k Hk. destruct (decide ((n, k) = (name, v))) as [[= -> ->]|Hne].
    + split; [done|]. destruct (latest s !! name) as [l|] eqn:El; simpl.
      * destruct (Z.ltb_spec l v); [exists v; by rewrite lookup_insert_eq|exists l; split; [done|simpl; lia]].
      * rewrite (proj2 (Z.ltb_lt 0 v)) by lia. exists v. by rewrite lookup_insert_eq.
    + rewrite lookup_insert_ne in Hk by done. destruct (Hf n k Hk) as (H1 & l & El & H2).
      split; [done|]. destruct (default 0 (latest s !! name) <? v) eqn:Hlt; [|by exists l].
      destruct (decide (n = name)) as [->|]; [|rewrite lookup_insert_ne by done; by exists l].
      exists v. rewrite lookup_insert_eq. rewrite El in Hlt. simpl in Hlt. split; [done|simpl; lia].
  - intros n l Hn. destruct (default 0 (latest s !! name) <? v); [|].
    + destruct (decide (n = name)) as [->|Hne].
      * rewrite lookup_insert_eq in Hn. injection Hn as <-. by rewrite lookup_insert_eq.
      * rewrite lookup_insert_ne in Hn by done. rewrite lookup_insert_ne by congruence. by apply Hl.
    + destruct (decide ((n, l) = (name, v))) as [->|]; [by rewrite lookup_insert_eq|].
      rewrite lookup_insert_ne by done. by apply Hl.
Qed.

Section spec.
Context {U T : Type} `{Lens RegistryMaps U} `{Wire U T}.
Implicit Types (r : JsonRegistry U T) (c : Ctx * T) (w : World U).

Definition maps_of w : RegistryMaps := lget (w_user w).

(** Registrations keep the maps well-formed. *)
Lemma Register_wf name f v w :
  maps_wf (maps_of w) ->
  exists w', Register name f v w = (Ret tt, w') /\ maps_wf (maps_of w')
    /\ factories (maps_of w') !! (name, Z.max 1 v) = Some f
    /\ latest (maps_of w') !! name = Some (Z.max (default 0 (latest (maps_of w) !! name)) (Z.max 1 v)).
Proof.
  intros Hwf. unfold Register.
  replace (if v <=? 0 then 1 else v) with (Z.max 1 v) by (destruct (Z.leb_spec v 0); lia).
  set (k := Z.max 1 v).
  destruct (atomically_run (fun s => (tt, register_maps name f k s)) w) as (w' & Hr & Hs & _).
  exists w'. split; [exact Hr|]. unfold maps_of. rewrite Hs. cbn [snd].
  split; [apply register_maps_wf; [lia|done]|]. split; [apply lookup_insert_eq|].
  cbn [register_maps latest]. fold (maps_of w).
  destruct (latest (maps_of w) !! name) as [l|] eqn:El; simpl.
  - destruct (Z.ltb_spec l k); [rewrite lookup_insert_eq|rewrite El]; f_equal; lia.
  - rewrite (proj2 (Z.ltb_lt 0 k)), lookup_insert_eq by lia. f_equal; lia.
Qed.

Lemma RegisterUpcaster_wf u w :
  maps_wf (maps_of w) ->
  exists w', RegisterUpcaster u w = (Ret tt, w') /\ maps_wf (maps_of w')
    /\ (up_from u <= 0 -> up_to u <= 1 -> w' = w).
Proof.
  intros Hwf. unfold RegisterUpcaster.
  assert (Hstore : forall from, 1 <= from -> exists w',
    atomically (fun s => (tt, mkMaps (factories s) (<[(up_event u, from) := u]> (upcasters s)) (latest s))) w
    = (Ret tt, w') /\ maps_wf (maps_of w')).
  { intros from Hfrom. destruct (atomically_run (fun s => (tt, mkMaps (factories s)
      (<[(up_event u, from) := u]> (upcasters s)) (latest s))) w) as (w' & Hr & Hs & _).
    exists w'. split; [exact Hr|]. unfold maps_of. rewrite Hs. destruct Hwf as (Hf & Hl & Hu).
    split; [done|]. split; [done|]. intros n k. cbn.
    destruct (decide ((n, k) = (up_event u, from))) as [[= -> ->]|]; [done|].
    rewrite lookup_insert_ne by done. apply Hu. }
  destruct (Z.leb_spec (up_from u) 0).
  - destruct (Z.leb_spec (up_to u) 1); [by exists w|].
    destruct (Hstore 1 ltac:(lia)) as (w' & ? & ?). exists w'. repeat (split; [done|]). lia.
  - destruct (Hstore (up_from u) ltac:(lia)) as (w' & ? & ?). exists w'.
    repeat (split; [done|]). lia.
Qed.

(** ** User code that returns *)

Definition wire_returns : Prop :=
  (forall i c p, returns (call_upcast i c p)) /\ (forall i, returns (call_factory i))
  /\ (forall p e, returns (unmarshal_event p e)).

(** A read of the maps changes nothing. *)
Lemma atomically_read {A} (f : RegistryMaps -> A) w :
  atomically (fun s => (f s, s)) w = (Ret (f (maps_of w)), w).
Proof. unfold atomically. cbn. rewrite lput_lget. by destruct w. Qed.

Lemma upcast_loop_returns fuel name last c v p w :
  wire_returns -> v <= last -> (Z.to_nat (last - v) <= fuel)%nat ->
  exists res w', upcast_loop fuel name last c v p w = (Ret res, w')
    /\ match res with inl _ => True | inr (v', _) => v <= v' <= last end.
Proof.
  intros (Hup & _). revert v p w. induction fuel as [|fuel IH]; intros v p w Hv Hf;
    cbn [upcast_loop]; destruct (Z.eqb_spec v last) as [->|Hne];
    try (eexists (inl p), w; by split); [lia|].
  erewrite bind_run by apply atomically_read. destruct (upcasters _ !! _) as [u|];
    [|eexists (inr _), w; split; [done|simpl; lia]].
  destruct ((up_to u <=? v) || (last <? up_to u)) eqn:Hadv;
    [eexists (inr _), w; split; [done|simpl; lia]|].
  destruct (Hup (up_code u) c p w) as [[p' err] Hp].
  destruct (call_upcast (up_code u) c p w) as [o w2] eqn:Ho; simpl in Hp; subst o.
  erewrite bind_run by exact Ho. destruct err as [e|]; [eexists (inr _), w2; split; [done|simpl; lia]|].
  destruct (IH (up_to u) p' w2 ltac:(lia) ltac:(lia)) as (res & w3 & -> & Hres).
  exists res, w3. split; [done|]. destruct res as [|[v' e]]; [done|simpl; lia].
Qed.

Lemma build_event_returns c name v p w :
  wire_returns ->
  exists evt err w', build_event c name v p w = (Ret (c, evt, err), w')
    /\ is_nil err = negb (is_nil evt)
    /\ forall e, err = Some e -> exists cause, e = DecodeError name v (Some cause)
         /\ (errors_is cause ErrUnknownEvent = true \/ errors_is cause ErrMalformedEnvelope = true).
Proof.
  intros (_ & Hfac & Hun). unfold build_event.
  assert (Hfail : forall cause w', errors_is cause ErrUnknownEvent = true \/
      errors_is cause ErrMalformedEnvelope = true ->
    exists evt err w2, @mret (M U) _ _ (decode_failed c name v cause) w' = (Ret (c, evt, err), w2)
      /\ is_nil err = negb (is_nil evt)
      /\ forall e, err = Some e -> exists cause, e = DecodeError name v (Some cause)
         /\ (errors_is cause ErrUnknownEvent = true \/ errors_is cause ErrMalformedEnvelope = true)).
  { intros cause w' Hc. do 3 eexists. split; [done|]. split; [done|].
    intros e [= <-]. by exists cause. }
  erewrite bind_run by apply atomically_read. destruct (default None _) as [f|]; [|apply Hfail; by left].
  destruct (Hfac f w) as [o Ho]. destruct (call_factory f w) as [o' w2] eqn:Hf.
  simpl in Ho. subst o'. erewrite bind_run by exact Hf.
  destruct o as [evt|]; [|apply Hfail; by left].
  destruct (Hun p evt w2) as [[evt' err] Hu]. destruct (unmarshal_event p evt w2) as [o w3] eqn:Hue.
  simpl in Hu. subst o. erewrite bind_run by exact Hue.
  destruct err as [e|]; [apply Hfail; right; unfold wrap2; by rewrite errors_is_unwrap|].
  do 3 eexists. split; [done|]. by split.
Qed.

(** An envelope [Decode] accepts as such. *)
Definition well_formed (env : Envelope) (uerr : goerr) : bool :=
  is_nil uerr && negb (String.eqb (en_name env) "") && (0 <=? en_version env).

(** The context of an accepted envelope. *)
Definition decode_ctx r c (env : Envelope) : Ctx * T :=
  (WithMetadata c.1 (envelope_metadata env), extractTrace r c.2 env).

Definition latest_of w (name : string) : Z := default 0 (latest (maps_of w) !! name).

Lemma wrap2_malformed e : errors_is (wrap2 (Sentinel ErrMalformedEnvelope) e) ErrMalformedEnvelope = true.
Proof. unfold wrap2. by rewrite errors_is_unwrap. Qed.

Lemma Decode_malformed r c data w env uerr :
  unmarshal_envelope data = (env, uerr) -> well_formed env uerr = false ->
  exists cause, errors_is cause ErrMalformedEnvelope = true
    /\ Decode r c data w = (Ret (decode_failed c (en_name env) (en_version env) cause), w).
Proof.
  unfold Decode, well_formed. intros -> Hwf.
  destruct uerr as [e|]; [eexists; split; [apply (wrap2_malformed e)|done]|].
  eexists (Wrapped _ [Sentinel ErrMalformedEnvelope]). split; [done|].
  replace (String.eqb (en_name env) "" || (en_version env <? 0)) with true; [done|].
  simpl in Hwf. destruct (String.eqb (en_name env) ""); [done|]. simpl in *. lia.
Qed.

(** [Decode] of an accepted envelope. *)
Lemma Decode_accepted r c data w env uerr :
  unmarshal_envelope data = (env, uerr) -> well_formed env uerr = true ->
  let name := en_name env in
  let last := latest_of w name in
  let version := wire_version env in
  let c' := decode_ctx r c env in
  Decode r c data w =
    (if last =? 0 then mret (decode_failed c' name version (Sentinel ErrUnknownEvent))
     else if last <? version then mret (decode_failed c' name version (Sentinel ErrUnknownVersion))
     else
       walked ← upcast_loop (Z.to_nat (last - version)) name last c' version (en_payload env);
       match walked with
       | inr (v, e) => mret (decode_failed c' name v e)
       | inl payload => build_event c' name last payload
       end) w.
Proof.
  unfold Decode, well_formed. intros -> Hwf. destruct uerr as [e|]; [done|]. simpl in Hwf.
  replace (String.eqb (en_name env) "" || (en_version env <? 0)) with false
    by (destruct (String.eqb (en_name env) ""); [done|]; simpl in *; lia).
  cbv zeta. erewrite bind_run by apply atomically_read. done.
Qed.

Lemma wire_version_pos env uerr : well_formed env uerr = true -> 1 <= wire_version env.
Proof. unfold well_formed, wire_version. intros Hwf. destruct (Z.eqb_spec (en_version env) 0); lia. Qed.

(** ** The chain of upcasters *)

(** [chain s name last v ups v']: the upcasters [s] holds for [name] lead from [v]
    to [v'] through [ups], each forward and none past [last]. *)
Inductive chain (s : RegistryMaps) (name : string) (last : Z) : Z -> list Upcaster -> Z -> Prop :=
| chain_nil v : chain s name last v [] v
| chain_cons v u ups v' :
    upcasters s !! (name, v) = Some u -> v < up_to u <= last ->
    chain s name last (up_to u) ups v' -> chain s name last v (u :: ups) v'.

(** Why a walk cannot go on from [v]. *)
Definition stuck (s : RegistryMaps) (name : string) (last v : Z) (e : error) : Prop :=
  (upcasters s !! (name, v) = None /\ e = missing_upcaster v last)
  \/ exists u, upcasters s !! (name, v) = Some u /\ ~ v < up_to u <= last
       /\ e = no_advance name v (up_to u) last.

(** Running upcasters in order, from version [v]. *)
Fixpoint run_upcasts c (ups : list Upcaster) (v : Z) (payload : string) : M U walk :=
  match ups with
  | [] => mret (inl payload)
  | u :: rest =>
      '(payload, err) ← call_upcast (up_code u) c payload;
      match err with
      | Some e => mret (inr (v, e))
      | None => run_upcasts c rest (up_to u) payload
      end
  end.

(** Upcasters that leave the registry alone. *)
Definition upcasters_keep_maps : Prop :=
  forall i c p, respects same_part (call_upcast i c p).

Lemma chain_le s name last v ups v' : chain s name last v ups v' -> v <= v'.
Proof. induction 1; lia. Qed.

Lemma chain_length s name last v ups v' :
  chain s name last v ups v' -> Z.of_nat (length ups) <= v' - v.
Proof. induction 1; simpl length; lia. Qed.

(** What follows the walk, in the reference. *)
Definition after_walk (last v' : Z) (e : error) (walked : walk) : walk :=
  match walked with
  | inl p => if v' =? last then inl p else inr (v', e)
  | err => err
  end.

Lemma upcast_loop_done fuel name last c p w :
  upcast_loop fuel name last c last p w = (Ret (inl p), w).
Proof. destruct fuel; cbn [upcast_loop]; by rewrite Z.eqb_refl. Qed.

(** Every version has a chain, to the latest or to where it is stuck. *)
Lemma chain_total s name last v :
  v <= last ->
  exists ups v' e, chain s name last v ups v' /\ v' <= last
    /\ (v' = last \/ (v' < last /\ stuck s name last v' e)).
Proof.
  remember (Z.to_nat (last - v)) as n eqn:Hn. revert v Hn.
  induction n as [n IH] using lt_wf_ind. intros v -> Hv.
  destruct (Z.eqb_spec v last) as [->|Hne].
  { exists [], last, (Sentinel ErrMissingUpcaster). split; [constructor|]. split; [lia|by left]. }
  destruct (upcasters s !! (name, v)) as [u|] eqn:Hu.
  - destruct (decide (v < up_to u <= last)) as [Hadv|Hadv].
    + destruct (IH (Z.to_nat (last - up_to u)) ltac:(lia) (up_to u) eq_refl ltac:(lia))
        as (ups & v' & e & Hc & Hv' & Hend).
      exists (u :: ups), v', e. split; [by econstructor|]. by split.
    + exists [], v, (no_advance name v (up_to u) last). split; [constructor|]. split; [done|].
      right. split; [lia|]. right. by exists u.
  - exists [], v, (missing_upcaster v last). split; [constructor|]. split; [done|].
    right. split; [lia|]. by left.
Qed.

(** The loop is a run of the chain. *)
Lemma upcast_loop_chain s name last v ups v' e :
  upcasters_keep_maps -> chain s name last v ups v' -> v' <= last ->
  (v' = last \/ (v' < last /\ stuck s name last v' e)) ->
  forall fuel c p w, maps_of w = s -> (Z.to_nat (last - v) <= fuel)%nat ->
  upcast_loop fuel name last c v p w
  = (walked ← run_upcasts c ups v p; mret (after_walk last v' e walked)) w.
Proof.
  intros Hkeep Hc Hv' Hend. induction Hc as [v|v u ups v' Hu Hadv Hc IH]; intros fuel c p w Hs Hf.
  - cbn [run_upcasts]. erewrite bind_run by reflexivity. cbn [after_walk].
    destruct Hend as [->|[Hlt Hstuck]].
    + rewrite Z.eqb_refl. apply upcast_loop_done.
    + destruct fuel as [|fuel]; [lia|]. cbn [upcast_loop].
      rewrite (proj2 (Z.eqb_neq v last)) by lia.
      erewrite bind_run by apply atomically_read. rewrite Hs.
      destruct Hstuck as [[-> ->]|(u & -> & Hadv & ->)]; [done|].
      by replace ((up_to u <=? v) || (last <? up_to u)) with true by lia.
  - destruct fuel as [|fuel]; [lia|]. cbn [upcast_loop].
    rewrite (proj2 (Z.eqb_neq v last)) by lia.
    erewrite bind_run by apply atomically_read. rewrite Hs, Hu.
    replace ((up_to u <=? v) || (last <? up_to u)) with false by lia.
    cbn [run_upcasts]. rewrite bind_assoc. apply bind_ext_on. intros [payload err] w' Hcall.
    destruct err as [e'|]; [done|]. apply IH; [done|done| |lia].
    transitivity (maps_of w); [|done]. apply (respects_run _ _ _ _ _ (Hkeep _ _ _) Hcall).
Qed.

(** * Properties *)

(** C35: decoding of untrusted bytes. Whatever the bytes, the registry and the
    user's upcasters, which may register more while it runs, [Decode] ends, without
    a panic of its own, with an event or with a [DecodeError] that carries the
    envelope's name, never both. An envelope that does not parse, has no name or a
    negative version is malformed and leaves the context alone; any other puts its
    metadata in the context, also when the decoding fails. The version that decides
    is the latest at the first read: without one the event is unknown, below the
    envelope's the version is unknown, and otherwise the error names a version
    between the two. *)
Theorem Decode_contract r c (data : string) w (env : Envelope) (uerr : goerr) :
  wire_returns -> unmarshal_envelope data = (env, uerr) ->
  let last := latest_of w (en_name env) in
  let version := wire_version env in
  exists c' evt err w',
    Decode r c data w = (Ret (c', evt, err), w')
    /\ is_nil err = negb (is_nil evt)
    /\ c' = (if well_formed env uerr then decode_ctx r c env else c)
    /\ (err = None -> well_formed env uerr = true /\ 1 <= version <= last)
    /\ forall e, err = Some e -> exists v cause, e = DecodeError (en_name env) v (Some cause)
         /\ (if well_formed env uerr then
               if last =? 0 then v = version /\ cause = Sentinel ErrUnknownEvent
               else if last <? version then v = version /\ cause = Sentinel ErrUnknownVersion
               else version <= v <= last
             else v = en_version env /\ errors_is cause ErrMalformedEnvelope = true).
Proof.
  intros Hret Henv. cbv zeta. destruct (well_formed env uerr) eqn:Hwf.
  2:{ destruct (Decode_malformed r c data w env uerr Henv Hwf) as (cause & Hc & ->).
      do 4 eexists. split; [done|]. split; [done|]. split; [done|]. split; [done|].
      intros e [= <-]. by exists (en_version env), cause. }
  pose proof (wire_version_pos _ _ Hwf) as Hpos.
  rewrite (Decode_accepted r c data w env uerr Henv Hwf).
  destruct (Z.eqb_spec (latest_of w (en_name env)) 0) as [Hnone|Hsome];
    [|destruct (Z.ltb_spec (latest_of w (en_name env)) (wire_version env)) as [Hlt|Hge]].
  1,2: do 4 eexists; split; [done|]; split; [done|]; split; [done|]; split; [done|];
    intros e [= <-]; do 2 eexists; done.
  destruct (upcast_loop_returns _ (en_name env) _ (decode_ctx r c env) _ (en_payload env) w
    Hret Hge (le_n _)) as ([p|[v e]] & w1 & Hloop & Hv); erewrite bind_run by exact Hloop.
  - destruct (build_event_returns (decode_ctx r c env) (en_name env) (latest_of w (en_name env))
      p w1 Hret) as (evt & err & w2 & -> & Hn & He).
    exists (decode_ctx r c env), evt, err, w2. split; [done|]. split; [done|]. split; [done|].
    split; [done|]. intros e Herr. destruct (He e Herr) as (cause & -> & _).
    exists (latest_of w (en_name env)), cause. split; [done|lia].
  - do 4 eexists. split; [done|]. split; [done|]. split; [done|]. split; [done|].
    intros e' [= <-]. by exists v, e.
Qed.

(** C37: the upcasters of a decode. When the upcasters leave the registry alone,
    [Decode] of an acceptable version is a run, in order, of the upcasters that
    lead from that version, each one forward and none past the latest, at most one
    per version: to the latest version, whose factory makes the event, or to the
    version where an upcaster is missing or does not advance, which is the error. *)
Theorem Decode_runs_the_chain r c (data : string) w (env : Envelope) :
  let last := latest_of w (en_name env) in
  let version := wire_version env in
  upcasters_keep_maps -> unmarshal_envelope data = (env, None) ->
  en_name env <> "" -> 0 <= en_version env -> version <= last ->
  exists ups v' e,
    chain (maps_of w) (en_name env) last version ups v'
    /\ Z.of_nat (length ups) <= last - version
    /\ (v' = last \/ (v' < last /\ stuck (maps_of w) (en_name env) last v' e))
    /\ Decode r c data w =
       (walked ← run_upcasts (decode_ctx r c env) ups version (en_payload env);
        match walked with
        | inl p => if v' =? last then build_event (decode_ctx r c env) (en_name env) last p
                   else mret (decode_failed (decode_ctx r c env) (en_name env) v' e)
        | inr (v, e') => mret (decode_failed (decode_ctx r c env) (en_name env) v e')
        end) w.
Proof.
  cbv zeta. intros Hkeep Henv Hname Hver Hle.
  assert (Hwf : well_formed env None = true).
  { unfold well_formed. simpl. destruct (String.eqb_spec (en_name env) ""); [done|]. simpl. lia. }
  pose proof (wire_version_pos _ _ Hwf) as Hpos.
  destruct (chain_total (maps_of w) (en_name env) _ _ Hle) as (ups & v' & e & Hc & Hv' & Hend).
  exists ups, v', e. split; [done|].
  split; [pose proof (chain_length _ _ _ _ _ _ Hc); lia|]. split; [done|].
  rewrite (Decode_accepted r c data w env None Henv Hwf).
  rewrite (proj2 (Z.eqb_neq _ 0)), (proj2 (Z.ltb_ge _ _)) by lia.
  pose proof (upcast_loop_chain _ _ _ _ _ _ e Hkeep Hc Hv' Hend _ (decode_ctx r c env)
    (en_payload env) w eq_refl (le_n _)) as Hloop.
  unfold mbind at 1, M_bind. rewrite Hloop. unfold mbind, M_bind.
  destruct (run_upcasts _ ups _ _ w) as [[[p|[v e']]|x|] w1]; try done.
  unfold after_walk. by destruct (v' =? _).
Qed.

(** ** Encoding and back *)

(** A propagator writes only the headers it owns. *)
Definition owns_fields (p : Propagator T) : Prop :=
  forall t h k, k ∉ Fields p -> Inject p t h !! k = h !! k.

Lemma deleted_lookup (ks : list string) (h : gmap string string) k :
  k ∉ ks -> fold_left (fun m k => delete k m) ks h !! k = h !! k.
Proof.
  revert h. induction ks as [|x ks IH]; intros h Hk; [done|].
  apply not_elem_of_cons in Hk as [Hne Hk]. cbn [fold_left].
  rewrite IH by done. by rewrite lookup_delete_ne.
Qed.

Lemma envelope_headers_lookup p t (h : headers) k :
  owns_fields p -> k ∉ Fields p ->
  envelope_headers p t h !! k = h ≫= (fun m : gmap string string => m !! k).
Proof.
  intros Hown Hk. unfold envelope_headers. rewrite Hown, deleted_lookup by done.
  destruct h; simpl; [done|apply lookup_empty].
Qed.

(** The envelope, field by field. *)
Lemma make_envelope_fields r c name evt md ts payload :
  let env := make_envelope r c name evt md ts payload in
  let h := envelope_headers (jr_prop r) c.2 (md_headers md) in
  en_version env = default 1 (ev_version evt) /\ en_payload env = payload
  /\ envelope_metadata env =
     mkMetadata (md_id md) (md_correlation_id md) (md_causation_id md) name (wire_version env) ts
       (if decide (h = ∅) then None else Some h)
  /\ en_name env = name.
Proof.
  cbv zeta. unfold envelope_metadata, make_envelope.
  by destruct (if span_valid c.2 then _ else _).
Qed.

(** What [EncodeWith] writes for metadata that has an identifier. *)
Lemma EncodeWith_run newid r c evt md w w1 payload :
  md_id md <> "" -> ev_name_panics evt = false -> marshal_event evt w = (Ret (payload, None), w1) ->
  EncodeWith newid r c evt md w =
  (Ret (marshal_envelope (make_envelope r c (ev_name evt) evt md
     (if IsZero (md_timestamp md) then w_now w1 else md_timestamp md) payload)), w1).
Proof.
  intros Hid Hpanic Hm. unfold EncodeWith. rewrite (proj2 (String.eqb_neq _ _)) by done.
  erewrite bind_run by reflexivity. erewrite bind_run by exact Hm. cbn.
  unfold Name. rewrite Hpanic. by destruct (IsZero (md_timestamp md)).
Qed.

(** [Decode] of an envelope at the latest version runs no upcaster. *)
Lemma Decode_latest r c data w env :
  unmarshal_envelope data = (env, None) -> en_name env <> "" -> 0 <= en_version env ->
  latest_of w (en_name env) = wire_version env ->
  Decode r c data w
  = build_event (decode_ctx r c env) (en_name env) (wire_version env) (en_payload env) w.
Proof.
  intros Hue Hname Hver Hl. assert (Hwf : well_formed env None = true).
  { unfold well_formed. simpl. destruct (String.eqb_spec (en_name env) ""); [done|]. simpl. lia. }
  pose proof (wire_version_pos _ _ Hwf) as Hpos.
  rewrite (Decode_accepted r c data w env None Hue Hwf), Hl.
  rewrite (proj2 (Z.eqb_neq _ 0)), Z.ltb_irrefl by lia.
  by erewrite bind_run by apply upcast_loop_done.
Qed.

(** What a registry that has [evt]'s name at [version] as its latest makes of a
    payload: its factory and encoding/json give [evt']. *)
Definition reads_as (name : string) (version : Z) (payload : string) (evt' : Event) w : Prop :=
  latest (maps_of w) !! name = Some version
  /\ exists f evt0 w1 w2, factories (maps_of w) !! (name, version) = Some (Some f)
    /\ call_factory f w = (Ret (Some evt0), w1)
    /\ unmarshal_event payload evt0 w1 = (Ret (evt', None), w2).

(** The metadata [got] in the context of a decoded event, for metadata [md] that was
    encoded at [ts]. *)
Definition carried r (name : string) (version ts : Z) (md : Metadata) (got : Metadata) : Prop :=
  md_id got = md_id md /\ md_correlation_id got = md_correlation_id md
  /\ md_causation_id got = md_causation_id md /\ md_name got = name
  /\ md_version got = version /\ md_timestamp got = ts
  /\ forall k, k ∉ Fields (jr_prop r) ->
       md_headers got ≫= (fun m : gmap string string => m !! k)
       = md_headers md ≫= (fun m : gmap string string => m !! k).

(** The version an event is encoded with, 0 read as 1. *)
Definition sent_version (evt : Event) : Z :=
  let v := default 1 (ev_version evt) in if v =? 0 then 1 else v.

(** The consumer's half of a round trip: its registry [r2] need not be the one the
    event was encoded with, nor its context. *)
Lemma Decode_encoded r r2 c c2 evt evt' md ts payload data w :
  ev_name evt <> "" -> 0 <= default 1 (ev_version evt) -> owns_fields (jr_prop r) ->
  unmarshal_envelope data = (make_envelope r c (ev_name evt) evt md ts payload, None) ->
  reads_as (ev_name evt) (sent_version evt) payload evt' w ->
  exists c' got w', Decode r2 c2 data w = (Ret (c', Some evt', None), w')
    /\ cx_metadata c'.1 = Some got /\ carried r (ev_name evt) (sent_version evt) ts md got.
Proof.
  intros Hname Hver Hown Hue [Hlast (f & evt0 & w1 & w2 & Hfac & Hcall & Hun)].
  destruct (make_envelope_fields r c (ev_name evt) evt md ts payload) as (Ev & Ep & Emd & En).
  set (env := make_envelope _ _ _ _ _ _ _) in *.
  assert (Hwv : wire_version env = sent_version evt) by (unfold wire_version; by rewrite Ev).
  rewrite <- Hwv in Hlast, Hfac |- *.
  rewrite (Decode_latest r2 c2 data w env Hue) by
    first [by rewrite En | by rewrite Ev | unfold latest_of; by rewrite En, Hlast].
  unfold build_event. erewrite bind_run by apply atomically_read.
  rewrite En, Hfac. cbn [from_option id]. erewrite bind_run by exact Hcall.
  rewrite Ep. erewrite bind_run by exact Hun.
  do 3 eexists. split; [done|]. split; [done|]. rewrite Emd. unfold carried. cbn.
  do 6 (split; [done|]). intros k Hk.
  pose proof (envelope_headers_lookup (jr_prop r) c.2 (md_headers md) k Hown Hk) as Hh.
  destruct (decide (_ = ∅)) as [He|]; [|done]. by rewrite He, lookup_empty in Hh.
Qed.

(** C36: an encoded event decodes back. When encoding/json reads back the envelope
    it wrote and the payload into the event the latest factory makes, decoding what
    [EncodeWith] wrote for an event at the latest version gives that event, and a
    context with the identifier, the lineage and the timestamp that were encoded
    (the time of the encoding when there was none), the version with 0 read as 1,
    and every user header the propagator does not own. *)
Theorem envelope_roundtrip (newid : M U string) r c c2 (evt evt' : Event) (md : Metadata)
    w w1 (payload data : string) :
  let ts := if IsZero (md_timestamp md) then w_now w1 else md_timestamp md in
  let env := make_envelope r c (ev_name evt) evt md ts payload in
  md_id md <> "" -> ev_name evt <> "" -> ev_name_panics evt = false ->
  0 <= default 1 (ev_version evt) ->
  marshal_event evt w = (Ret (payload, None), w1) ->
  marshal_envelope env = (data, None) -> unmarshal_envelope data = (env, None) ->
  owns_fields (jr_prop r) -> reads_as (ev_name evt) (sent_version evt) payload evt' w1 ->
  EncodeWith newid r c evt md w = (Ret (data, None), w1)
  /\ exists c' got w2, Decode r c2 data w1 = (Ret (c', Some evt', None), w2)
     /\ cx_metadata c'.1 = Some got /\ carried r (ev_name evt) (sent_version evt) ts md got.
Proof.
  cbv zeta. intros Hid Hname Hpanic Hver Hm Hme Hue Hown Hreads.
  rewrite (EncodeWith_run newid r c evt md w w1 payload Hid Hpanic Hm), Hme. split; [done|].
  by eapply Decode_encoded.
Qed.
End spec.

(** ** A concrete registry

    An order event at version 2 with an upcaster from version 1; the user state is
    the registry's maps. *)

Definition demo_envelope (version : Z) (payload : string) : Envelope :=
  mkEnvelope "order" version 7 "id-1" "id-0" "" (Some {["tenant" := "a"]}) "" "" payload.

#[export] Instance envelope_eq_dec : EqDecision Envelope.
Proof. solve_decision. Defined.

Definition demo_wire (U : Type) : Wire U (option (string * string)) := {|
  unmarshal_envelope d :=
    if String.eqb d "E1" then (demo_envelope 1 "p1", None)
    else if String.eqb d "E2" then (demo_envelope 2 "p2", None)
    else (mkEnvelope "" 0 zero_time "" "" "" None "" "" "", Some (Sentinel (External "json")));
  marshal_envelope env :=
    if decide (env = demo_envelope 2 "p2") then ("E2", None)
    else ("", Some (Sentinel (External "json")));
  marshal_event _ := mret ("p2", None);
  unmarshal_event p e := mret (mkEvent (ev_name e) false None (Some 2) None None None (Some p), None);
  span_valid t := negb (is_nil t);
  span_remote t := negb (is_nil t);
  span_ids t := default ("", "") t;
  TraceIDFromHex s := Some s;
  SpanIDFromHex s := Some s;
  with_remote_span _ t s := Some (t, s);
  call_upcast _ _ p := mret (String.append p "+", None);
  call_factory _ := mret (Some (plain_event "order"));
|}.
#[local] Instance demo_maps_wire : Wire RegistryMaps (option (string * string)) := demo_wire _.

Definition demo_propagator : Propagator (option (string * string)) :=
  mkPropagator ["traceparent"]
    (fun t h => match t with Some (tid, _) => <["traceparent" := tid]> h | None => h end)
    (fun t h => match h !! "traceparent" with Some tid => Some (tid, "") | None => t end).

Definition demo_maps : RegistryMaps :=
  register_maps "order" (Some 2%nat) 2
    (mkMaps ∅ {[("order", 1) := mkUpcaster "order" 1 2 0]} ∅).

Definition demo_registry : JsonRegistry RegistryMaps (option (string * string)) :=
  (NewRegistry demo_propagator []).1.

Definition order_world : World RegistryMaps := mkWorld 100 [] ∅ 0 ∅ ∅ demo_maps.

(** The payload of a decoded event, and the kind of a failure. *)
Definition decode_summary (data : string) : option string * string :=
  match (Decode demo_registry (background, None) data order_world).1 with
  | Ret (_, evt, err) => (evt ≫= ev_payload, match err with Some e => error_text e | None => "" end)
  | _ => (None, "")
  end.

Example demo_upcast : decode_summary "E1" = (Some "p1+", "").
Proof. vm_compute. reflexivity. Qed.
Example demo_no_upcast : decode_summary "E2" = (Some "p2", "").
Proof. vm_compute. reflexivity. Qed.
Example demo_malformed : decode_summary "junk" = (None, "event: decode: event: malformed envelope: json").
Proof. vm_compute. reflexivity. Qed.

Lemma demo_wire_returns : wire_returns (U := RegistryMaps) (T := option (string * string)).
Proof. split; [|split]; intros; intros w; by eexists. Qed.

Lemma demo_upcasters_keep :
  upcasters_keep_maps (U := RegistryMaps) (T := option (string * string)).
Proof. intros i c p w. reflexivity. Qed.

Lemma demo_owns : owns_fields demo_propagator.
Proof.
  intros [[tid sid]|] h k Hk; [|done]. apply lookup_insert_ne. intros <-. by apply Hk; left.
Qed.

Lemma Decode_contract_witness :
  exists c' evt err w',
    Decode demo_registry (background, None) "E1" order_world = (Ret (c', evt, err), w')
    /\ is_nil err = negb (is_nil evt).
Proof.
  destruct (Decode_contract demo_registry (background, None) "E1" order_world (demo_envelope 1 "p1")
    None demo_wire_returns eq_refl) as (c' & evt & err & w' & Hd & Hn & _).
  by exists c', evt, err, w'.
Defined.

Lemma Decode_runs_the_chain_witness :
  exists ups v', chain demo_maps "order" 2 1 ups v' /\ Z.of_nat (length ups) <= 1.
Proof.
  destruct (Decode_runs_the_chain demo_registry (background, None) "E1" order_world
    (demo_envelope 1 "p1") demo_upcasters_keep eq_refl ltac:(done) ltac:(done) ltac:(done))
    as (ups & v' & e & Hc & Hl & _).
  by exists ups, v'.
Defined.

Lemma envelope_roundtrip_witness :
  EncodeWith (mret "new") demo_registry (background, None)
    (mkEvent "order" false None (Some 2) None None None None)
    (mkMetadata "id-1" "id-0" "" "" 2 7 (Some {["tenant" := "a"]})) order_world
  = (Ret ("E2", None), order_world).
Proof.
  refine (proj1 (envelope_roundtrip (mret "new") demo_registry (background, None) (background, None)
    (mkEvent "order" false None (Some 2) None None None None)
    (mkEvent "order" false None (Some 2) None None None (Some "p2"))
    (mkMetadata "id-1" "id-0" "" "" 2 7 (Some {["tenant" := "a"]}))
    order_world order_world "p2" "E2"
    ltac:(done) ltac:(done) eq_refl ltac:(done) eq_refl eq_refl _ demo_owns
    (conj _ (ex_intro _ 2%nat (ex_intro _ (plain_event "order") (ex_intro _ order_world
      (ex_intro _ order_world (conj _ (conj eq_refl eq_refl)))))))));
    vm_compute; reflexivity.
Defined.
