(* ===== verification/EndToEnd.v ===== *)
(** * From an emit to a handler

    The JetStream bus over the JSON registry: how the registry is the [Registry] and
    the decoder of a bus, and what a handler is given of an event that another bus
    emitted. The values the tracing packages keep in a context, which a [Ctx] does
    not hold, are the parameter [tracing]. *)

From S2P Require Import Prelude GoErrors Types Failure Runtime Trace Observer Scope Dlq.
From S2P Require Import Fixtures Settle Invoke Lifecycle LifeOps Emit Nats Jetstream JetPublish JetPublishSpec.
From S2P Require Import JsonRegistry JsonRegistrySpec.
Local Open Scope string_scope.
Local Open Scope list_scope.
Local Open Scope Z_scope.

Section end_to_end.
Context {U T : Type} `{Env U} `{Broker U} `{NatsLib} `{Stream U} `{Random U}.
Context `{TraceSDK U} `{Hspans : !spans_keep (U := U) quiet} `{Lens Lifecycle U}.
Context `{Lens RegistryMaps U} `{Wire U T} (tracing : Ctx -> T).
Implicit Types (b : Bus U) (r : JsonRegistry U T) (c : Ctx) (w v : World U).

(** ** The registry of a bus *)

(** [Registry] as the registry of a bus: it implements [EnvelopeEncoder]. *)
Definition bus_registry (newid : M U string) r : Registry (U := U) :=
  mkRegistry (Some (fun c => EncodeWith newid r (c, tracing c)))
    (fun c => Encode newid r (c, tracing c)).

(** Its [Decode], where nil bytes are empty and the context is never nil. *)
Definition bus_decoder r : Decoder U := fun c data =>
  '(ct, evt, err) ← Decode r (c, tracing c) (default "" data);
  mret (Some ct.1, evt, err).

(** An encoder and identifier sources that publish nothing make a quiet registry. *)
Lemma bus_registry_quiet b newid r :
  jb_registry b = bus_registry newid r -> respects quiet newid ->
  (forall gen, jb_id_gen b = Some gen -> respects quiet gen) ->
  (forall gen, jr_idgen r = Some gen -> respects quiet gen) ->
  (forall e, respects quiet (marshal_event (U := U) (T := T) e)) ->
  emit_quiet b newid.
Proof using Type.
  intros Hb Hid Hgen Hjr Hm. split; [done|done|]. intros c evt md. rewrite Hb.
  unfold EncodeEvent. cbn [r_encode_with bus_registry]. unfold EncodeWith.
  apply respects_bind; [apply _| |intros md'].
  { apply respects_if; [|by apply respects_ret, _].
    apply keeps_ResolveOutbound; [apply _|done|exact Hjr]. }
  apply respects_bind; [apply _|apply Hm|intros [payload [e|]]]; [by apply respects_ret, _|].
  apply respects_bind; [apply _| |intros ts].
  { apply respects_if; [by intros w|by apply respects_ret, _]. }
  apply respects_bind; [apply _| |intros name; by apply respects_ret, _].
  unfold Name. apply respects_if; [by apply respects_panic, _|by apply respects_ret, _].
Qed.

(** ** The emitter's half *)

(** An encoding that succeeded, for metadata with an identifier. *)
Lemma encoding_inv newid r c evt md w w' data :
  md_id md <> "" ->
  EncodeEvent c (bus_registry newid r) evt md w = (Ret (data, None), w') ->
  exists payload ts w0 w1, marshal_event (T := T) evt w0 = (Ret (payload, None), w1)
    /\ (IsZero (md_timestamp md) = false -> ts = md_timestamp md)
    /\ marshal_envelope (U := U) (make_envelope r (c, tracing c) (ev_name evt) evt md ts payload)
       = (data, None).
Proof using Type.
  intros Hid Henc. unfold EncodeEvent in Henc. cbn [r_encode_with bus_registry] in Henc.
  unfold EncodeWith in Henc. rewrite (proj2 (String.eqb_neq _ _)) in Henc by done.
  apply bind_ret_inv in Henc as (md' & w1 & Hmd & Henc). apply mret_inv in Hmd as [-> ->].
  apply bind_ret_inv in Henc as ([payload e] & w2 & Hm & Henc).
  destruct e as [e|]; [by apply mret_inv in Henc as [? _]|].
  apply bind_ret_inv in Henc as (ts & w3 & Hts & Henc).
  apply bind_ret_inv in Henc as (name & w4 & Hn & Henc). apply mret_inv in Henc as [Henc _].
  assert (name = ev_name evt) as ->.
  { unfold Name in Hn. destruct (ev_name_panics evt); [done|]. by apply mret_inv in Hn as [-> _]. }
  exists payload, ts, w, w2. split; [exact Hm|]. split; [|done].
  intros Hz. rewrite Hz in Hts. by apply mret_inv in Hts as [-> _].
Qed.

(** ** The consumer's half *)

Lemma msgScope_run b c g w :
  exists c' w', msgScope b c (Some g) w = (Ret c', w') /\ w_user w' = w_user w.
Proof using Type. do 2 eexists. by split. Qed.

Lemma delivery_known b c p m mm w : jm_metadata m = inl mm ->
  exists d, delivery b c m p w = (Ret d, w) /\ d_subject d = jm_subject m /\ d_raw d = jm_data m.
Proof using Type. intros Hm. unfold delivery. rewrite Hm. eexists. by split. Qed.

(** A message whose bytes decode is handled as the event they decode to. *)
Lemma process_decoded b r g c h fn p m mm data (evt : Event) (P : Metadata -> Prop) v :
  jb_decode b = bus_decoder r -> jm_data m = Some data -> jm_metadata m = inl mm ->
  (forall ct v', w_user v' = w_user v ->
     exists ct' got v'', Decode r ct data v' = (Ret (ct', Some evt, None), v'')
       /\ cx_metadata ct'.1 = Some got /\ P got) ->
  exists hctx d msgCtx got v',
    process b g c h fn p m v = handle_event b g hctx h fn d msgCtx (Some evt) v'
    /\ d_raw d = Some data /\ cx_metadata msgCtx = Some got /\ P got.
Proof using Type.
  intros Hb Hd Hm Hdec. unfold process.
  destruct (msgScope_run b (HandlerContext (jb_life b) (jb_interrupt b) c false) g v)
    as (hctx & v1 & Hscope & Hu).
  erewrite bind_run by exact Hscope.
  destruct (delivery_known b hctx p m mm v1 Hm) as (d & Hdel & _ & Hraw).
  erewrite bind_run by exact Hdel. rewrite Hb, Hd.
  destruct (Hdec (hctx, tracing hctx) v1 Hu) as (ct' & got & v2 & Hrun & Hgot & HP).
  unfold bus_decoder at 1. cbn [default].
  exists hctx, d, ct'.1, got, v2. split; [|by rewrite Hraw].
  erewrite bind_run; [|erewrite bind_run by exact Hrun; reflexivity]. done.
Qed.

(** ** The property *)

(** C15: an emitted event arrives. Let a JetStream bus over the JSON registry emit an
    event and return nil. The last message the stream acknowledged carries the
    envelope of that event, under its identifier and with the causation and the
    headers of the emitter's context and options. Let another bus, at any later moment and in any process whose
    registry knows the event at that version, be delivered those bytes: if
    encoding/json reads back the envelope it wrote, the bus runs its invokers and the
    handler for the event the payload reads as, in a context with the identifier,
    the lineage, the name, the version and the timestamp of the emit, and every
    header the propagator does not own. *)
Theorem emitted_event_arrives b tp newid r c (evt : Event) (opts : list (EmitOption U)) w w' :
  let cfg := emit_cfg evt opts in
  let '(parent, hp) := MetadataFromContext c in
  calm_stream U -> policy_ok (jb_pub_retry b) -> emit_quiet b newid ->
  (forall w id w', newid w = (Ret id, w') -> id <> "") ->
  jb_registry b = bus_registry newid r -> owns_fields (jr_prop r) ->
  ev_name evt <> "" -> 0 <= default 1 (ev_version evt) ->
  Emit b tp newid c evt opts w = (Ret None, w') ->
  exists md data t payload sctx ts w0 w1,
    last (messages (w_log w')) = Some (t, outgoing (eo_subject cfg) (md_id md) data, None)
    /\ md_id md <> "" /\ md_causation_id md = md_id parent
    /\ md_headers md = resolveHeaders parent hp (bus_options (jb_id_gen b) (jb_inherit b) cfg)
    /\ marshal_event (T := T) evt w0 = (Ret (payload, None), w1)
    /\ (IsZero (md_timestamp md) = false -> ts = md_timestamp md)
    /\ let env := make_envelope r (sctx, tracing sctx) (ev_name evt) evt md ts payload in
       marshal_envelope env = (data, None)
       /\ (unmarshal_envelope data = (env, None) ->
           forall b2 r2 g c2 h fn p m mm evt' v,
             jb_decode b2 = bus_decoder r2 -> jm_data m = Some data -> jm_metadata m = inl mm ->
             (forall v', w_user v' = w_user v ->
                reads_as (T := T) (ev_name evt) (sent_version evt) payload evt' v') ->
             exists hctx d msgCtx got v',
               process b2 g c2 h fn p m v = handle_event b2 g hctx h fn d msgCtx (Some evt') v'
               /\ d_raw d = Some data /\ cx_metadata msgCtx = Some got
               /\ carried r (ev_name evt) (sent_version evt) ts md got).
Proof using Hspans.
  cbv zeta. destruct (MetadataFromContext c) as [parent hp] eqn:Hpar.
  intros Hs Hp Hq Hnew Hb Hown Hname Hver Hrun.
  apply (Emit_run b tp newid c evt opts w w' None Hs Hp Hq Hnew) in Hrun.
  destruct (Admit _ _).2 as [x|]; [by destruct Hrun|].
  destruct Hrun as (_ & sent & id & data & Hm & _ & Hsent & _ & Hlast & Hne & Hid).
  destruct (last sent) as [s|] eqn:Hs'.
  2: { apply last_None in Hs' as ->. by destruct (Hne eq_refl). }
  assert (Hsne : sent <> []) by by intros ->.
  destruct (Hid Hsne) as (Hid0 & _ & _ & sctx & md & w0 & w1 & w2 & w3 & Hres & -> & Henc).
  apply ResolveOutbound_run in Hres; [|done]. rewrite Hpar in Hres.
  destruct Hres as (_ & _ & _ & Hcau & Hcorr & Hn & Hh & _).
  rewrite Hb in Henc. apply encoding_inv in Henc as (payload & ts & w4 & w5 & Hmar & Hts & Hdata); [|done].
  exists md, data, s.1.1, payload, sctx, ts, w4, w5.
  split.
  { rewrite Hm, last_app, Hs'. rewrite Forall_forall in Hsent.
    rewrite <- (Hsent s) by by apply last_Some_elem_of.
    rewrite (Hlast s eq_refl). by destruct s as [[??]?]. }
  do 5 (split; [done|]). split; [done|].
  intros Hun b2 r2 g c2 h fn p m mm evt' v Hb2 Hjd Hjm Hreads.
  eapply process_decoded; [exact Hb2|exact Hjd|exact Hjm|].
  intros ct v' Hu. by eapply Decode_encoded; [..|apply Hreads].
Qed.
End end_to_end.

(** ** Two buses

    Both know order events at version 2, as the registry of JsonRegistrySpec.v does. *)

Definition arr_state : Type := Lifecycle * RegistryMaps.

#[local] Program Instance arr_life : Lens Lifecycle arr_state :=
  {| lget u := u.1; lput s u := (s, u.2) |}.
Solve All Obligations with by intros; try by destruct u.
#[local] Program Instance arr_maps : Lens RegistryMaps arr_state :=
  {| lget u := u.2; lput s u := (u.1, s) |}.
Solve All Obligations with by intros; try by destruct u.

#[local] Instance arr_env : Env arr_state := silent_env _.
#[local] Instance arr_broker : Broker arr_state := {| broker_act _ _ := mret None |}.
#[local] Instance arr_nats : NatsLib := demo_nats.
#[local] Instance arr_random : Random arr_state := {| random_below _ := mret 0 |}.
#[local] Instance arr_stream : Stream arr_state :=
  {| stream_publish _ _ := mret (Some (mkPubAck false), None) |}.
#[local] Instance arr_trace : TraceSDK arr_state := silent_trace _.
#[local] Instance arr_spans : spans_keep (U := arr_state) quiet := silent_spans_keep quiet.
#[local] Instance arr_wire : Wire arr_state (option (string * string)) := demo_wire _.

Definition arr_json : JsonRegistry arr_state (option (string * string)) :=
  (NewRegistry demo_propagator []).1.
Definition arr_tracing (c : Ctx) : option (string * string) := None.
Definition arr_newid : M arr_state string := mret "new".
Definition arr_bus : Bus arr_state :=
  mkBus (bus_registry arr_tracing arr_newid arr_json) (bus_decoder arr_tracing arr_json) None None []
    None (normalized (mkPublishRetryPolicy 0 0 0 0)) None true js_default_shutdown 0 0 0 None.
Definition arr_world : World arr_state := mkWorld 7 [] ∅ 0 ∅ ∅ (zero_lifecycle, demo_maps).
Definition arr_event : Event := mkEvent "order" false None (Some 2) None None None None.
Definition arr_opts : list (EmitOption arr_state) :=
  [WithSubject "orders"; WithID "id-1"; WithCorrelationID "id-0"; WithHeader "tenant" "a"].
Definition arr_message : JsMsg :=
  mkJsMsg "orders" (Some "E2") None (inl (mkMsgMetadata 1 "ORDERS" "billing" 1 7)).
Definition arr_handler (c : Ctx) (evt : option Event) : M arr_state goerr := mret None.

Lemma arr_calm : calm_stream arr_state.
Proof.
  split; try (by intros; intros w; eexists); try by intros; intros w.
  intros n Hn w r w' [= <- <-]. lia.
Qed.

Lemma arr_quiet : emit_quiet arr_bus arr_newid.
Proof.
  apply (bus_registry_quiet (T := option (string * string)) arr_tracing arr_bus arr_newid arr_json);
    by try (intros; intros w).
Qed.

Lemma arr_marshal env data :
  marshal_envelope (U := arr_state) env = (data, None) -> unmarshal_envelope (U := arr_state) data = (env, None).
Proof. cbn. case_decide as He; [|done]. intros [= <-]. by rewrite He. Qed.

Lemma emitted_event_arrives_witness :
  exists hctx d msgCtx got v',
    process arr_bus 0 background "billing" arr_handler (mkDeliveryPolicy 5 []) arr_message arr_world
    = handle_event arr_bus 0 hctx "billing" arr_handler d msgCtx
        (Some (mkEvent "order" false None (Some 2) None None None (Some "p2"))) v'
    /\ cx_metadata msgCtx = Some got /\ md_id got = "id-1".
Proof.
  set (w' := (Emit arr_bus None arr_newid background arr_event arr_opts arr_world).2).
  assert (Hrun : Emit arr_bus None arr_newid background arr_event arr_opts arr_world = (Ret None, w'))
    by (apply injective_projections; [vm_compute|]; reflexivity).
  destruct (emitted_event_arrives arr_tracing arr_bus None arr_newid arr_json background arr_event arr_opts
    arr_world w' arr_calm (normalized_ok (mkPublishRetryPolicy 0 0 0 0) eq_refl eq_refl) arr_quiet
    ltac:(intros w id v [= <- <-]; discriminate) eq_refl demo_owns ltac:(done) ltac:(done) Hrun)
    as (md & data & t & payload & sctx & ts & w0 & w1 & Hlast & _ & _ & _ & Hm & _ & Hdata & Harr).
  assert (Hw : last (messages (w_log w')) = Some (7, outgoing "orders" "id-1" "E2", None))
    by (vm_compute; reflexivity).
  rewrite Hw in Hlast. apply (f_equal (from_option (fun s => s.1.2) (outgoing "" "" ""))) in Hlast.
  cbn [from_option fst snd] in Hlast.
  assert (Hid : "id-1" = md_id md).
  { apply (f_equal (fun m => header_Get MsgIDHeader (nm_header m))) in Hlast. unfold outgoing in Hlast.
    cbn [nm_header] in Hlast. by rewrite !Get_Set, !decide_True in Hlast. }
  assert (Hd : "E2" = data) by (apply (f_equal (fun m => default "" (nm_data m))) in Hlast; exact Hlast).
  injection Hm as <- _. rewrite <- Hd in Harr, Hdata.
  destruct (Harr (arr_marshal _ _ Hdata) arr_bus arr_json 0%nat background "billing" arr_handler
    (mkDeliveryPolicy 5 []) arr_message _ (mkEvent "order" false None (Some 2) None None None (Some "p2"))
    arr_world eq_refl eq_refl eq_refl) as (hctx & d & msgCtx & got & v' & Hp & _ & Hgot & Hc & _).
  - intros v Hv. split; [by unfold maps_of; rewrite Hv|].
    exists 2%nat, (plain_event "order"), v, v. split; [by unfold maps_of; rewrite Hv|]. by split.
  - exists hctx, d, msgCtx, got, v'. split; [exact Hp|]. split; [exact Hgot|].
    by rewrite Hc.
Defined.
